(* ===== verification/_CoqProject ===== *)
-Q . S2P
Prelude.v
GoStrings.v
GoFlags.v
Env.v
Membership.v
Tables.v
Swim.v
Ring.v
FileSystem.v
BlockStore.v
Common.v
NodeLoop.v
HyDFS.v
Cluster.v
FileOps.v
Logging.v
RainStorm.v
Cli.v
Console.v
OutputFile.v
Leader.v
Operators.v
Runtime.v
Connections.v
StateLog.v
Worker.v
Pipeline.v
