(* ===== verification/Prelude.v ===== *)
(** * A verification of the distributed stream processor

    The program is a cluster of nodes.  Every node keeps a membership list by
    heartbeats over UDP, stores files in HyDFS, a replicated file system on a
    consistent-hash ring, and runs RainStorm, a stream processor: the leader
    splits a job into tasks, the workers start a process per task, and the
    processes pass tuples to each other over TCP, write the output to HyDFS and
    keep the identifiers of what they processed in a state log there.

    ** How it fits together

    The membership list ([pkg/membership]) tells who is alive.  The ring
    ([pkg/hashing]) is a function of that list and a file name and gives the
    replicas of a file.  [main.go] connects the two with the block store
    ([pkg/storage]) of each node: a [create] of a client travels down the chain
    of replicas, the acknowledgements come back, an [append] is sent to all of
    them, a [merge] collects their blocks and distributes the result, and a
    change of the membership starts a re-replication.  [pkg/rainstorm] uses the
    membership for its workers and reaches HyDFS through the ports of the nodes:
    the leader creates the output file of a job, the sources read the input
    file, the sinks append the output, and a restarted task reads its state log.

    ** The files

    Each file models the sources named here; its definitions keep the names of
    the functions and its records the fields of the structs.

    Shared parts.
    - [Prelude]: machine integers with their wrap-around, error results, loops
      that may stop or crash, lemmas on lists and maps, the automation.
    - [GoStrings], [GoFlags]: what the program uses of the packages strings,
      strconv, fmt, path/filepath and flag.
    - [Env]: the class [GoEnv] of the digests and the layout of time stamps.
    - [FileSystem]: the operations of package os, over disks whose writes and
      removals can fail.

    Membership.
    - [Membership]: pkg/membership/member.go, one definition per method.
    - [Tables]: its methods Table, WholeTable and String.
    - [Swim]: swim.go, gossip.go, flow.go and utils.go of the same package.
    - [NodeLoop]: in main.go the gossip loop, gracefulLeave, joinGroup, the
      commands join and leave, and the node at the start of the process; [Net]
      is a cluster of such nodes with the datagrams under way.

    HyDFS.
    - [Ring]: pkg/hashing/ring.go.
    - [BlockStore]: pkg/storage/blockstore.go and manager.go.
    - [Common]: pkg/common, the configuration and the node record.
    - [HyDFS]: in main.go handleNodeConnection, re-replication, and the commands
      create, get, append and merge.
    - [Cluster]: nodes of HyDFS with the messages under way between them.
    - [FileOps]: pkg/fileops, storage.go and coordinator.go, over a world of
      disks.
    - [Logging]: pkg/logging/logger.go and the answer to dgrep_query.
    - [Console]: in main.go handleClientConnection and the commands of the
      console.

    RainStorm.
    - [RainStorm]: types.go and the dispatch of server.go.
    - [Cli]: cmd/cli/main.go, the submission of a job.
    - [OutputFile]: createHyDFSFile of leader.go, with the client port it uses.
    - [Leader]: leader.go; [leader_step] runs its handlers and goroutines in any
      order.
    - [Operators]: the programs of ops/.
    - [Runtime]: api.go, the process of a task, function by function.
    - [Connections]: the goroutines of that process, which share its state;
      a run is any sequence of their steps.
    - [StateLog]: the state log from that process through the store and back;
      the class [LogStore] is what a task relies on, [block_log] its
      implementation by the block store.
    - [Worker]: worker.go.
    - [Pipeline]: a whole job, from the lines of its file to the lines of its
      output.

    ** What the theorems show

    Whole jobs.  [grep_count_exactly_once] runs a job of a grep and a count
    through the sources, the routing by key and the deduplication, with copies
    of tuples, interleaved connections and end-of-stream markers anywhere: a
    counting task writes the counts of what it processed before the first
    marker, which are the counts of the lines when everything came before it.
    Copies that are processed at the same time on two connections are excluded;
    [resend_processed_twice] shows what they do.
    [cli_roundtrip] is the way of a job from the command line to the leader;
    [output_file_created] the creation of its output file on all replicas.

    Storage.  [appends_implement_log] is the refinement of the abstract log by
    the block store, [replica_implements_log] that of the block files of fileops;
    [CreateFile_atomic] the behaviour under failing disks, the clean-up
    included; [merge_convergence] that replicas with the same appends agree
    after a merge.  On clusters, [chain_replicates] follows a creation to the end
    of the chain and its acknowledgements back to the coordinator,
    [merge_synchronizes] a merge of diverged replicas, of which
    [merge_conflict_loses] shows what it drops.  A creation by fileops reaches
    no other node, because main.go does not know its requests
    ([create_reaches_no_replica]); [create_reaches_replicas] is what it would do
    if the request were passed on.  [GetSuccessors_spec] and [minimal_movement] are the
    contract of the ring, [coordinator_matches_ring] the equivalence of the two
    searches the program has for it.

    Membership.  [cluster_well_typed] is the invariant of every reachable
    cluster of nodes, with the absence of crashes; [silent_member_dropped],
    [leave_removes_member] and [rejoin_replaces_incarnation] the life of a
    member; [swim_silent_member_fails] the bound on detection by pings, and when
    there is none;
    [Merge_revival] and [client_leave_no_return] where the code fails to keep
    its lists right; [table_rectangular] the display.

    Scheduling.  [HandleSubmitJob_schedules], [job_ports], [failure_restarts_task]
    and [checkAndScale_decides] are the decisions of the leader;
    [completion_counted_once], [job_ends_when_all_complete] and
    [reused_task_id_never_ends] hold in every interleaving of its handlers and
    goroutines, the second also when tasks of earlier jobs report.  [source_partition], [source_retries], [task_command_line] and
    [failed_process_counts_as_completed] are about the workers.

    Tasks.  [duplicates_have_no_effect], for every interleaving of the
    connections, [eof_broadcast_once], [partition_index], [state_log_recovers]
    and [logged_tuples_are_skipped] are about one process and its state log;
    [first_calls_lose_a_count] about the counter that is created without a lock.

    Tools.  [dgrep_collects] and [multiappend_commands] follow a command of the
    console to the nodes it reaches, and [cli_argument_taken_for_operator] shows
    how the command line is misread.

    ** How things are modelled

    Integers are [Z]; int and int64 computations that can overflow are wrapped by
    [wrap64], uint64 ones by [u64], and identifiers that travel as float64 in
    JSON are rounded by [float53].  Strings are sequences of bytes.  A handler
    takes the state and what it observes of the world, and returns the new
    state and what it sends.  A panic is [None].  The order of a range over a
    map is an argument wherever it can be seen, random numbers and the clock are
    arguments, and so are the answers of the network: which addresses accept a
    connection ([net]), a datagram ([udp]), and what the other side answers
    ([exchange], [connect], [ask]).  A method that holds its mutex throughout is
    one step.  Methods that release it in the middle are split there where they
    run concurrently: the connections of an operator process ([Connections]), the
    first calls of the counter ([call_step]), the completion and the failure of
    a task at the leader ([leader_step]).  [HandleSubmitJob], [addTaskToStage] and
    [removeTaskFromStage] are one step each, up to the waits of the last,
    although they take their locks more than once.

    Bounds.  Loops over data are structural recursions.  The loops that retry
    have the bound of the code: five probes of a join ([maxRetries]), ten
    attempts of a source ([max_attempts]), the attempts of [stop_and_wait].  The
    binary search of the ring halves an interval and has its length as fuel;
    [search_go_spec] shows that this is enough.  [run_cluster] counts messages:
    twice the number of replicas is enough for a chain and its
    acknowledgements, as [chain_replicates] proves, since nothing is under way
    afterwards.  The node port reads lines of less than 10 MiB
    ([max_node_line]); the theorems on clusters are about messages below that,
    and [oversized_create_lost] about the others.

    Assumptions.  The digests are parameters of which only the range is used.
    Strings survive their encoding in JSON, that is, they are valid UTF-8.  White
    space is the ASCII white space.  A metadata document that was written can be
    read back.  The rates of metrics are rationals.  The regular expression
    of the operator grep and the process grep are arguments.  [GetSuccessors] is
    called with a number of replicas that is not negative, as all callers do.
    An operator process is followed up to the closing of its output file; half a
    second before, which its goroutines have for the tuples they are working on,
    is taken to be enough.

    ** Not modelled

    Opening sockets, accepting connections, the signal handler and the
    goroutines that main starts; the encodings of messages (gob and JSON) and the
    parsing of configuration files, which belong to the libraries; log
    lines, the package internal/debuglog, the progress messages that the
    console prints while it creates, gets, appends or merges, and the texts
    of help; deadlines, beyond the fact that an answer may fail to come; two
    methods of one node that run at the same time, except where they are split as
    said above; what the Go runtime does about data races.  Scripts, tests, plots and data sets are no code of the program. *)

(** ** Prelude: shared notations, automation and generic lemmas *)

From stdpp Require Export base tactics list gmap strings sorting pretty fin_maps.
From Stdlib Require Export ZArith Lia.
From Stdlib Require Ascii.
Export Ascii.AsciiSyntax.
Abbreviation ascii := Ascii.ascii.
#[global] Delimit Scope char_scope with char.

Declare Scope go_scope.
Delimit Scope go_scope with go.
#[global] Open Scope Z_scope.
#[global] Open Scope go_scope.

(** ** Machine integers *)

Definition two63 : Z := 9223372036854775808.
Definition two64 : Z := 18446744073709551616.

(** [wrap64 z] is the value an [int64] (and Go's [int] on the 64-bit
    platforms the program runs on) holds after computing [z]. *)
Definition wrap64 (z : Z) : Z := (z + two63) mod two64 - two63.

(** [uint64] arithmetic is modulo [2^64]. *)
Definition u64 (z : Z) : Z := z mod two64.

Definition in_int64 (z : Z) : Prop := - two63 <= z < two63.
Definition in_uint64 (z : Z) : Prop := 0 <= z < two64.

(** [time.Time] is a number of nanoseconds; [Time.Sub] saturates to a
    [Duration], which is an [int64]. *)
Definition time_sub (t u : Z) : Z := Z.max (- two63) (Z.min (two63 - 1) (t - u)).

Definition Millisecond : Z := 1000000.
Definition Second : Z := 1000000000.

(** The zero [time.Time], 1 January of year 1, in nanoseconds of Unix time. *)
Definition zero_time : Z := -62135596800000000000.

(** ** Error results *)

Inductive result (A : Type) : Type :=
  | Ok (a : A)
  | Err (msg : string).
Arguments Ok {A} a.
Arguments Err {A} msg.

Notation "x <- c1 ;; c2" :=
  (match c1 with Ok x => c2 | Err e => Err e end)
  (at level 60, c1 at next level, right associativity) : go_scope.

Definition is_ok {A} (r : result A) : bool :=
  match r with Ok _ => true | Err _ => false end.

(** A loop that stops at the first error. *)
Fixpoint result_mapM {A B} (f : A → result B) (l : list A) : result (list B) :=
  match l with
  | [] => Ok []
  | a :: l' => b <- f a ;; bs <- result_mapM f l' ;; Ok (b :: bs)
  end.

Lemma result_mapM_Forall2 {A B} (f : A → result B) l bs :
  result_mapM f l = Ok bs ↔ Forall2 (λ a b, f a = Ok b) l bs.
Proof.
  revert bs; induction l as [|a l IH]; intros bs; simpl.
  - split; [intros [= <-]; constructor|by inversion 1].
  - split.
    + intros H. destruct (f a) eqn:Ea; [|done].
      destruct (result_mapM f l) eqn:El; [|done]. simplify_eq.
      constructor; [done|]. by apply IH.
    + inversion 1 as [|? b ? bs' Ha Hl]; subst. rewrite Ha.
      by rewrite (proj2 (IH bs') Hl).
Qed.

(** ** Automation *)

Create HintDb goarith.
Create HintDb golist.

(** Unfold the integer widths and call [lia]. *)
Ltac golia :=
  unfold time_sub, in_int64, in_uint64, wrap64, u64, two63, two64 in *; lia.

(** Case analysis on every [match] and [if] of the goal. *)
Ltac split_matches := repeat (case_match || case_decide); simplify_eq/=.

(** Split conjunctions and disjunctions of the context, then try [done]. *)
Ltac crush := naive_solver.

(** ** Lemmas on machine integers *)

Lemma wrap64_range z : in_int64 (wrap64 z).
Proof.
  unfold in_int64, wrap64, two63, two64.
  pose proof (Z.mod_pos_bound (z + 9223372036854775808) 18446744073709551616
    ltac:(lia)). lia.
Qed.

Lemma wrap64_id z : in_int64 z → wrap64 z = z.
Proof.
  unfold in_int64, wrap64, two63, two64. intros H.
  rewrite Z.mod_small by lia. lia.
Qed.

Lemma wrap64_add_l a b : wrap64 (wrap64 a + b) = wrap64 (a + b).
Proof.
  unfold wrap64. f_equal. replace ((a + two63) mod two64 - two63 + b + two63) with
    ((a + two63) mod two64 + b) by lia. rewrite Zplus_mod_idemp_l. f_equal. lia.
Qed.

Lemma wrap64_succ z : wrap64 (wrap64 z + 1) = wrap64 (z + 1).
Proof. apply wrap64_add_l. Qed.

Lemma u64_range z : in_uint64 (u64 z).
Proof. unfold in_uint64, u64, two64. apply Z.mod_pos_bound. lia. Qed.

Lemma u64_id z : in_uint64 z → u64 z = z.
Proof. unfold in_uint64, u64, two64. intros. by rewrite Z.mod_small by lia. Qed.

Lemma time_sub_pos t u d : 0 <= d < two63 - 1 → time_sub t u > d ↔ t - u > d.
Proof. golia. Qed.

#[export] Hint Resolve wrap64_range u64_range : goarith.
Create Rewrite HintDb gowidth.
#[export] Hint Rewrite wrap64_id u64_id using golia : gowidth.

(** ** Ranging over a Go map

    A [for k, v := range m] loop visits the bindings of [m] in an unspecified
    order.  Loops whose body touches only the entry of the key it visits are
    instances of [range_update]; [lookup_range_update] characterises their
    result key by key and so shows that the order is immaterial. *)

Section range_update.
Context `{Countable K} {V W : Type} (f : K → V → option W → option W).

Definition range_update (l : list (K * V)) (m : gmap K W) : gmap K W :=
  foldl (λ m '(k, v), partial_alter (f k v) k m) m l.

Lemma range_update_notin l m k : k ∉ l.*1 → range_update l m !! k = m !! k.
Proof.
  revert m; induction l as [|[k' v'] l IH]; intros m Hk; simpl in *; [done|].
  apply not_elem_of_cons in Hk as [Hne Hk].
  rewrite IH by done. by rewrite lookup_partial_alter_ne by done.
Qed.

Lemma range_update_in l m k v :
  NoDup l.*1 → (k, v) ∈ l → range_update l m !! k = f k v (m !! k).
Proof.
  revert m; induction l as [|[k' v'] l IH]; intros m Hnd Hin; simpl in *;
    [by apply elem_of_nil in Hin|].
  apply NoDup_cons in Hnd as [Hk' Hnd].
  apply elem_of_cons in Hin as [[= -> ->]|Hin].
  - rewrite range_update_notin by done. by rewrite lookup_partial_alter_eq.
  - rewrite IH by done. rewrite lookup_partial_alter_ne; [done|].
    intros ->. apply Hk'. apply list_elem_of_fmap. by exists (k, v).
Qed.

Lemma lookup_range_update (l : list (K * V)) (src : gmap K V) m k :
  l ≡ₚ map_to_list src →
  range_update l m !! k =
    match src !! k with Some v => f k v (m !! k) | None => m !! k end.
Proof.
  intros Hl.
  assert (NoDup l.*1) as Hnd by (rewrite Hl; apply NoDup_fst_map_to_list).
  destruct (src !! k) as [v|] eqn:Hk.
  - apply range_update_in; [done|]. rewrite Hl. by apply elem_of_map_to_list.
  - apply range_update_notin. rewrite Hl. intros [[k' v] [-> Hin]]%list_elem_of_fmap.
    apply elem_of_map_to_list in Hin. simpl in *. congruence.
Qed.
End range_update.

(** The loops that also compute a flag: [f k v o] is the new value of the entry
    [k] and whether the flag is raised. *)

Section range_flag.
Context `{Countable K} {V W : Type} (f : K → V → option W → option W * bool).

Definition range_flag (l : list (K * V)) (acc : gmap K W * bool) : gmap K W * bool :=
  foldl (λ '(m, c) '(k, v),
           (partial_alter (λ o, (f k v o).1) k m, c || (f k v (m !! k)).2)) acc l.

Lemma range_flag_fst l m c :
  (range_flag l (m, c)).1 = range_update (λ k v o, (f k v o).1) l m.
Proof.
  revert m c; induction l as [|[k v] l IH]; intros m c; simpl; [done|].
  apply IH.
Qed.

Lemma range_flag_snd l m c :
  NoDup l.*1 →
  (range_flag l (m, c)).2 = c || existsb (λ '(k, v), (f k v (m !! k)).2) l.
Proof.
  revert m c; induction l as [|[k v] l IH]; intros m c; simpl;
    [by rewrite orb_false_r|].
  intros [Hk Hnd]%NoDup_cons. rewrite IH by done. rewrite orb_assoc.
  f_equal. apply eq_true_iff_eq. rewrite !existsb_exists.
  setoid_rewrite <- list_elem_of_In.
  assert (∀ x, x ∈ l → x.1 ≠ k) as Hne.
  { intros x Hx Heq. apply Hk. rewrite <- Heq. by apply list_elem_of_fmap_2. }
  split; intros ([k' v'] & Hin & Hf); exists (k', v'); split; try done;
    specialize (Hne _ Hin); simpl in Hne; by rewrite lookup_partial_alter_ne in *.
Qed.

Lemma lookup_range_flag l (src : gmap K V) m c k :
  l ≡ₚ map_to_list src →
  (range_flag l (m, c)).1 !! k =
    match src !! k with Some v => (f k v (m !! k)).1 | None => m !! k end.
Proof. intros Hl. rewrite range_flag_fst. by rewrite (lookup_range_update _ _ src). Qed.

Lemma range_flag_true l (src : gmap K V) m :
  l ≡ₚ map_to_list src →
  (range_flag l (m, false)).2 = true ↔
    ∃ k v, src !! k = Some v ∧ (f k v (m !! k)).2 = true.
Proof.
  intros Hl. rewrite range_flag_snd by (rewrite Hl; apply NoDup_fst_map_to_list).
  simpl. rewrite existsb_exists. setoid_rewrite <- list_elem_of_In. split.
  - intros ([k v] & Hin & Hf). exists k, v. split; [|done].
    apply elem_of_map_to_list. by rewrite <- Hl.
  - intros (k & v & Hin & Hf). exists (k, v). split; [|done].
    rewrite Hl. by apply elem_of_map_to_list.
Qed.

(** The order in which the bindings are visited is immaterial. *)
Lemma range_flag_order l1 l2 (src : gmap K V) m :
  l1 ≡ₚ map_to_list src → l2 ≡ₚ map_to_list src →
  range_flag l1 (m, false) = range_flag l2 (m, false).
Proof.
  intros H1 H2. apply injective_projections.
  - apply map_eq. intros k. by rewrite !(lookup_range_flag _ src).
  - apply eq_true_iff_eq. by rewrite !(range_flag_true _ src).
Qed.
End range_flag.

(** ** Reachability *)

Section reachable.
Context {A : Type} (init : A → Prop) (step : A → A → Prop).

Inductive reachable : A → Prop :=
  | reachable_init a : init a → reachable a
  | reachable_step a b : reachable a → step a b → reachable b.

Lemma reachable_invariant (I : A → Prop) :
  (∀ a, init a → I a) → (∀ a b, I a → step a b → I b) →
  ∀ a, reachable a → I a.
Proof. intros Hi Hs a. induction 1; eauto. Qed.
End reachable.

(** ** Lists *)

Lemma NoDup_fmap_filter {A B} (f : A → B) (P : A → Prop) `{!∀ x, Decision (P x)} l :
  NoDup (f <$> l) → NoDup (f <$> filter P l).
Proof.
  induction l as [|a l IH]; simpl; [done|]. intros [Ha Hl]%NoDup_cons.
  rewrite filter_cons. case_decide; [|by apply IH].
  rewrite fmap_cons. apply NoDup_cons. split; [|by apply IH].
  intros (x & Hx & Hin)%list_elem_of_fmap. apply Ha.
  apply list_elem_of_fmap. exists x. split; [done|].
  by apply list_elem_of_filter in Hin as [_ ?].
Qed.

Lemma filter_none {A} (P : A → Prop) `{!∀ x, Decision (P x)} l :
  Forall (λ x, ¬ P x) l → filter P l = [].
Proof. induction 1; [done|]. by rewrite filter_cons_False. Qed.

Lemma filter_all {A} (P : A → Prop) `{!∀ x, Decision (P x)} l :
  Forall P l → filter P l = l.
Proof. induction 1 as [|x l Hx Hl IH]; [done|]. rewrite filter_cons_True by done. by rewrite IH. Qed.

Lemma NoDup_fmap_inj_in {A B} (f : A → B) l a b :
  NoDup (f <$> l) → a ∈ l → b ∈ l → f a = f b → a = b.
Proof.
  induction l as [|c l IH]; simpl; [by intros _ ?%elem_of_nil|].
  intros [Hc Hl]%NoDup_cons Ha Hb Hf.
  assert (∀ x, x ∈ l → f x ≠ f c) as Hne.
  { intros x Hx Heq. apply Hc. rewrite <- Heq. by apply list_elem_of_fmap_2. }
  apply elem_of_cons in Ha as [->|Ha]; apply elem_of_cons in Hb as [->|Hb]; try done.
  - by destruct (Hne b).
  - by destruct (Hne a).
  - by apply IH.
Qed.

Lemma NoDup_concat_fmap {A B} (f : A → list B) l :
  NoDup l → (∀ a, a ∈ l → NoDup (f a)) →
  (∀ a1 a2 b, a1 ∈ l → a2 ∈ l → b ∈ f a1 → b ∈ f a2 → a1 = a2) →
  NoDup (concat (f <$> l)).
Proof.
  induction l as [|a l IH]; intros Hl Hf Hd; simpl; [constructor|].
  apply NoDup_cons in Hl as [Ha Hl]. apply NoDup_app. split; [apply Hf; by left|]. split.
  - intros b Hb Hin. rewrite list_elem_of_In, in_concat in Hin.
    destruct Hin as (lb & Hlb & Hb'). rewrite <- list_elem_of_In in Hlb. rewrite <- list_elem_of_In in Hb'.
    apply list_elem_of_fmap in Hlb as (a' & -> & Ha').
    apply Ha. rewrite (Hd a a' b); [done|by left|by right|done|done].
  - apply IH; [done| |].
    + intros a' Ha'. apply Hf. by right.
    + intros a1 a2 b H1 H2. apply Hd; by right.
Qed.

Lemma fmap_concat {A B} (f : A → B) (ls : list (list A)) :
  f <$> concat ls = concat ((λ l : list A, f <$> l) <$> ls).
Proof. induction ls as [|l ls IH]; simpl; [done|]. by rewrite fmap_app, IH. Qed.

Lemma omap_concat {A B} (f : A → option B) (ls : list (list A)) :
  omap f (concat ls) = concat ((λ l : list A, omap f l) <$> ls).
Proof. induction ls as [|l ls IH]; simpl; [done|]. by rewrite omap_app, IH. Qed.

Lemma elem_of_concat_fmap {A B} (f : A → list B) l b :
  b ∈ concat (f <$> l) ↔ ∃ a, a ∈ l ∧ b ∈ f a.
Proof.
  rewrite list_elem_of_In, in_concat. split.
  - intros (lb & Hlb & Hb). rewrite <- list_elem_of_In in Hlb. rewrite <- list_elem_of_In in Hb.
    apply list_elem_of_fmap in Hlb as (a & -> & Ha). by exists a.
  - intros (a & Ha & Hb). exists (f a). rewrite <- !list_elem_of_In. split; [|done].
    by apply list_elem_of_fmap_2.
Qed.

(** The classes of a function into [0, n) make up the list. *)
Lemma concat_classes {A} (f : A → Z) n (l : list A) :
  NoDup l → (∀ x, x ∈ l → 0 <= f x < n) →
  concat ((λ i, filter (λ x, f x = i) l) <$> seqZ 0 n) ≡ₚ l.
Proof.
  intros Hl Hf. apply NoDup_Permutation; [|done|].
  - apply NoDup_concat_fmap; [apply NoDup_seqZ|intros; by apply NoDup_filter|].
    intros i1 i2 x _ _ [H1 _]%list_elem_of_filter [H2 _]%list_elem_of_filter. congruence.
  - intros x. rewrite elem_of_concat_fmap. split.
    + by intros (i & _ & [_ Hx]%list_elem_of_filter).
    + intros Hx. exists (f x). rewrite elem_of_seqZ, list_elem_of_filter.
      specialize (Hf x Hx). repeat split; [lia..|done].
Qed.

Lemma omap_fmap_sublist {A B C} (g : A → option B) (k : B → C) (h : A → C) l :
  (∀ a b, g a = Some b → k b = h a) → k <$> omap g l `sublist_of` h <$> l.
Proof.
  intros Hg. induction l as [|a l IH]; [done|]. rewrite fmap_cons. simpl.
  destruct (g a) as [b|] eqn:E; [|by constructor].
  rewrite fmap_cons, (Hg a b E). by constructor.
Qed.

Lemma foldl_snoc {A B} (f : A → B → A) (a : A) l b :
  foldl f a (l ++ [b]) = f (foldl f a l) b.
Proof. by rewrite foldl_app. Qed.

(** [l[i], l[j] = l[j], l[i]]. *)
Definition swap {A} (i j : nat) (l : list A) : list A :=
  match l !! i, l !! j with
  | Some a, Some b => <[i:=b]> (<[j:=a]> l)
  | _, _ => l
  end.

Lemma insert_cons_Permutation {A} (l : list A) j a b :
  l !! j = Some b → b :: <[j:=a]> l ≡ₚ a :: l.
Proof.
  revert j; induction l as [|x l IH]; intros [|j] Hj; simplify_eq/=.
  - apply Permutation_swap.
  - rewrite (Permutation_swap x b), IH by done. apply Permutation_swap.
Qed.

Lemma swap_Permutation {A} (i j : nat) (l : list A) : swap i j l ≡ₚ l.
Proof.
  unfold swap. destruct (l !! i) as [a|] eqn:Hi; [|done].
  destruct (l !! j) as [b|] eqn:Hj; [|done].
  revert i j Hi Hj; induction l as [|x l IH]; intros [|i] [|j] Hi Hj; simplify_eq/=.
  - done.
  - by apply insert_cons_Permutation.
  - by apply insert_cons_Permutation.
  - constructor. by apply IH.
Qed.

Lemma length_swap {A} (i j : nat) (l : list A) : length (swap i j l) = length l.
Proof. by rewrite swap_Permutation. Qed.

Lemma lookup_swap {A} (i j k : nat) (l : list A) a b :
  i ≠ j → l !! i = Some a → l !! j = Some b →
  swap i j l !! k = if decide (k = i) then Some b else if decide (k = j) then Some a else l !! k.
Proof.
  intros Hij Hi Hj. unfold swap. rewrite Hi, Hj.
  apply lookup_lt_Some in Hi. apply lookup_lt_Some in Hj.
  destruct (decide (k = i)) as [->|].
  - rewrite list_lookup_insert_eq; [done|]. by rewrite length_insert.
  - rewrite list_lookup_insert_ne by done.
    destruct (decide (k = j)) as [->|]; [by rewrite list_lookup_insert_eq|].
    by rewrite list_lookup_insert_ne.
Qed.

(** The invariant rule of [for k := s; k < s+n; k++]. *)
Lemma foldl_seq_invariant {A} (P : nat → A → Prop) (f : A → nat → A) s n a :
  P s a → (∀ k a, (s ≤ k < s + n)%nat → P k a → P (S k) (f a k)) →
  P (s + n)%nat (foldl f a (seq s n)).
Proof.
  revert s a; induction n as [|n IH]; intros s a H0 Hs; simpl.
  - by rewrite Nat.add_0_r.
  - rewrite <- Nat.add_succ_comm. apply IH; [apply Hs; [lia|done]|].
    intros k a' Hk. apply Hs. lia.
Qed.

(** ** Exchange sort

    [for i { for j := i+1.. { if after l[i] l[j] { swap } } }]. *)

Section exchange_sort.
Context {A : Type} (after : A → A → bool).

Definition exchange (i : nat) (l : list A) (j : nat) : list A :=
  match l !! i, l !! j with
  | Some a, Some b => if after a b then swap i j l else l
  | _, _ => l
  end.

Definition exchange_inner (l : list A) (i : nat) : list A :=
  foldl (exchange i) l (seq (i + 1) (length l - (i + 1))).

Definition exchange_sort (l : list A) : list A :=
  foldl exchange_inner l (seq 0 (length l)).

Context (after_total : ∀ a b, after a b = true → after b a = false).
Context (after_trans : ∀ a b c, after a b = false → after b c = false → after a c = false).

(** The first [i] elements are in place. *)
Definition placed (i : nat) (l : list A) : Prop :=
  ∀ m n a b, (m < i)%nat → (m < n)%nat → l !! m = Some a → l !! n = Some b → after a b = false.

(** [l[i]] comes before all elements from [i+1] to [k-1]. *)
Definition least (i k : nat) (l : list A) : Prop :=
  ∀ n a b, (i < n < k)%nat → l !! i = Some a → l !! n = Some b → after a b = false.

Lemma exchange_Permutation i l j : exchange i l j ≡ₚ l.
Proof. unfold exchange. repeat case_match; try done. apply swap_Permutation. Qed.

Lemma exchange_placed i l j : (i < j)%nat → placed i l → placed i (exchange i l j).
Proof.
  intros Hij Hp. unfold exchange.
  destruct (l !! i) as [x|] eqn:Hi; [|done]. destruct (l !! j) as [y|] eqn:Hj; [|done].
  destruct (after x y); [|done]. intros m n a b Hm Hn.
  rewrite !(lookup_swap i j _ l x y) by (done || lia).
  repeat case_decide; intros; simplify_eq; try lia; (eapply Hp; [exact Hm| |eassumption..]); lia.
Qed.

Lemma exchange_least i l j : (i < j)%nat → least i j l → least i (S j) (exchange i l j).
Proof.
  intros Hij Hl. unfold exchange.
  destruct (l !! i) as [x|] eqn:Hi; [|intros n a b; congruence].
  destruct (l !! j) as [y|] eqn:Hj; [destruct (after x y) eqn:Hxy|]; intros n a b Hn.
  - rewrite !(lookup_swap i j _ l x y) by (done || lia).
    rewrite decide_True by done. rewrite decide_False by lia.
    intros [= <-]. case_decide; intros; simplify_eq; [by apply after_total|].
    apply (after_trans _ x); [by apply after_total|]. eapply (Hl n); [lia|done..].
  - rewrite Hi. intros [= <-] Hb. destruct (decide (n = j)) as [->|]; [congruence|].
    eapply (Hl n); [lia|done..].
  - rewrite Hi. intros [= <-] Hb. destruct (decide (n = j)) as [->|]; [congruence|].
    eapply (Hl n); [lia|done..].
Qed.

Lemma exchange_inner_spec i l :
  (i < length l)%nat → placed i l →
  exchange_inner l i ≡ₚ l ∧ placed (S i) (exchange_inner l i).
Proof.
  intros Hi Hp. unfold exchange_inner.
  pose proof (foldl_seq_invariant
    (λ k l', l' ≡ₚ l ∧ placed i l' ∧ least i k l') (exchange i) (i + 1) (length l - (i + 1)) l) as H.
  destruct H as (HP & Hp' & Hl').
  - repeat split; [done|done|]. intros n a b Hn. lia.
  - intros k l' Hk (HP & Hp' & Hl'). repeat split.
    + by rewrite exchange_Permutation.
    + apply exchange_placed; [lia|done].
    + apply exchange_least; [lia|done].
  - split; [done|]. intros m n a b Hm Hn Ha Hb.
    destruct (decide (m = i)) as [->|]; [|apply (Hp' m n); [lia|done..]].
    apply (Hl' n); [|done..]. apply lookup_lt_Some in Hb.
    rewrite (Permutation_length HP) in Hb. lia.
Qed.

Lemma exchange_sort_spec l :
  exchange_sort l ≡ₚ l ∧ placed (length l) (exchange_sort l).
Proof.
  unfold exchange_sort.
  pose proof (foldl_seq_invariant (λ k l', l' ≡ₚ l ∧ placed k l') exchange_inner 0 (length l) l) as H.
  simpl in H. apply H.
  - split; [done|]. intros m n a b Hm. lia.
  - intros k l' Hk [HP Hp]. destruct (exchange_inner_spec k l') as [HP' Hp']; [|done|].
    + rewrite (Permutation_length HP). lia.
    + split; [by rewrite HP'|done].
Qed.

(** Lists without two distinct elements of equal rank have one sorted form. *)
Lemma placed_unique l1 l2 :
  l1 ≡ₚ l2 → placed (length l1) l1 → placed (length l2) l2 →
  (∀ a b, a ∈ l1 → b ∈ l1 → after a b = false → after b a = false → a = b) →
  l1 = l2.
Proof.
  assert (∀ a l, placed (length (a :: l)) (a :: l) →
            (∀ b, b ∈ l → after a b = false) ∧ placed (length l) l) as Hcons.
  { intros a l Hp. split.
    - intros b [n Hn]%list_elem_of_lookup. apply (Hp 0%nat (S n)); simpl; [lia|lia|done|done].
    - intros m n x y Hm Hn. apply (Hp (S m) (S n)); simpl; lia. }
  revert l2; induction l1 as [|a l1 IH]; intros l2 HP H1 H2 Hu.
  - symmetry in HP. apply Permutation_nil_r in HP. done.
  - destruct l2 as [|b l2]; [by apply Permutation_nil_r in HP|].
    apply Hcons in H1 as [Ha H1]. apply Hcons in H2 as [Hb H2].
    assert (a = b) as <-.
    { assert (b ∈ a :: l1) as Hin1 by (rewrite HP; by left).
      assert (a ∈ b :: l2) as Hin2 by (rewrite <- HP; by left).
      apply elem_of_cons in Hin1 as [->|Hin1]; [done|].
      apply elem_of_cons in Hin2 as [->|Hin2]; [done|].
      apply Hu; [by left|by right|by apply Ha|by apply Hb]. }
    f_equal. apply IH; [by eapply Permutation_cons_inv|done|done|].
    intros x y Hx Hy. apply Hu; by right.
Qed.
End exchange_sort.
