(* ===== verification/GoStrings.v ===== *)
(** * GoStrings: the parts of Go's [strings], [strconv], [fmt], [unicode/utf8]
    and [path/filepath] packages the program uses.

    A Go string is a sequence of bytes, here a [string] (a list of 8-bit
    [ascii]).  White space is the ASCII white space: [strings.TrimSpace] and
    [strings.Fields] also treat a few non-ASCII runes as space, which the
    program never relies on. *)

From S2P Require Import Prelude.

#[global] Arguments String.append : simpl nomatch.

Definition NL : ascii := Ascii.ascii_of_nat 10.
Definition nl : string := String NL EmptyString.

(** ** Characters *)

Definition is_space (c : ascii) : bool :=
  let n := Ascii.nat_of_ascii c in
  (n =? 32)%nat || ((9 <=? n)%nat && (n <=? 13)%nat).

Definition is_digit (c : ascii) : bool :=
  let n := Ascii.nat_of_ascii c in (48 <=? n)%nat && (n <=? 57)%nat.

Definition digit_val (c : ascii) : Z := Z.of_nat (Ascii.nat_of_ascii c) - 48.

Fixpoint string_forallb (p : ascii → bool) (s : string) : bool :=
  match s with
  | EmptyString => true
  | String c s' => p c && string_forallb p s'
  end.

Definition not_char (c : ascii) (d : ascii) : bool := bool_decide (d ≠ c).

(** [strings.Contains(s, string(c))] for a one-byte needle. *)
Definition contains_char (c : ascii) (s : string) : bool :=
  negb (string_forallb (not_char c) s).

(** ** Splitting and joining *)

(** [strings.Split(s, sep)] for a one-byte separator. *)
Fixpoint split_on (sep : ascii) (s : string) : list string :=
  match s with
  | EmptyString => [""]
  | String c s' =>
      if decide (c = sep) then "" :: split_on sep s'
      else match split_on sep s' with
           | [] => [String c EmptyString]
           | w :: ws => String c w :: ws
           end
  end.

(** [strings.Join(l, sep)]. *)
Fixpoint join (sep : string) (l : list string) : string :=
  match l with
  | [] => ""
  | [w] => w
  | w :: ws => w +:+ sep +:+ join sep ws
  end.

Fixpoint trim_left (s : string) : string :=
  match s with
  | EmptyString => EmptyString
  | String c s' => if is_space c then trim_left s' else s
  end.

Fixpoint trim_right (s : string) : string :=
  match s with
  | EmptyString => EmptyString
  | String c s' =>
      match trim_right s' with
      | EmptyString => if is_space c then EmptyString else String c EmptyString
      | r => String c r
      end
  end.

(** [strings.TrimSpace]. *)
Definition trim_space (s : string) : string := trim_right (trim_left s).

(** [strings.Fields]: the maximal runs of bytes that are not white space. *)
Fixpoint fields (s : string) : list string :=
  match s with
  | EmptyString => []
  | String c s' =>
      if is_space c then fields s'
      else match s' with
           | EmptyString => [String c EmptyString]
           | String d _ =>
               if is_space d then String c EmptyString :: fields s'
               else match fields s' with
                    | w :: ws => String c w :: ws
                    | [] => [String c EmptyString]
                    end
           end
  end.

(** [strings.ToLower] on ASCII. *)
Definition lower (c : ascii) : ascii :=
  let n := Ascii.nat_of_ascii c in
  if (65 <=? n)%nat && (n <=? 90)%nat then Ascii.ascii_of_nat (n + 32) else c.
Fixpoint to_lower (s : string) : string :=
  match s with EmptyString => EmptyString | String c s' => String (lower c) (to_lower s') end.

Definition has_prefix (p s : string) : bool := String.prefix p s.

Fixpoint drop_string (n : nat) (s : string) : string :=
  match n, s with
  | O, _ => s
  | S n', String _ s' => drop_string n' s'
  | S _, EmptyString => EmptyString
  end.

Fixpoint take_string (n : nat) (s : string) : string :=
  match n, s with
  | O, _ => EmptyString
  | S n', String c s' => String c (take_string n' s')
  | S _, EmptyString => EmptyString
  end.

Definition has_suffix (suf s : string) : bool :=
  bool_decide (drop_string (String.length s - String.length suf) s = suf).

(** [strings.TrimSuffix]. *)
Definition trim_suffix (s suf : string) : string :=
  if has_suffix suf s then take_string (String.length s - String.length suf) s else s.

(** [strings.Repeat]. *)
Fixpoint repeat_string (s : string) (n : nat) : string :=
  match n with O => "" | S n' => s +:+ repeat_string s n' end.

(** ** File paths *)

(** [filepath.Ext]: the suffix beginning at the final dot of the final path
    element. *)
Fixpoint path_ext (s : string) : string :=
  match s with
  | EmptyString => ""
  | String c s' =>
      let r := path_ext s' in
      if decide (r ≠ "") then r
      else if decide (c = "."%char) then
             if contains_char "/"%char s' then "" else s
           else ""
  end.

(** [filepath.Clean] on the components of a path that is relative to the
    working directory: empty and ["."] components vanish and [".."] removes
    the component before it when there is one. *)
Definition clean_step (acc : list string) (c : string) : list string :=
  if decide (c = "" ∨ c = ".") then acc
  else if decide (c = "..") then
         match acc with
         | [] => [".."]
         | d :: acc' => if decide (d = "..") then ".." :: acc else acc'
         end
       else c :: acc.

Definition clean_components (l : list string) : list string :=
  reverse (foldl clean_step [] l).

(** [filepath.Join(base, name)] for a relative [base], as cleaned components. *)
Definition path_join (base : list string) (name : string) : list string :=
  clean_components (base ++ split_on "/"%char name).

(** ** Numbers *)

(** [%d]. *)
Definition itoa (z : Z) : string := pretty z.

(** [%0<w>d] for a non-negative number. *)
Definition pad_zero (w : nat) (z : Z) : string :=
  let s := itoa z in repeat_string "0" (w - String.length s) +:+ s.

Fixpoint digits_acc (acc : Z) (s : string) : Z * string :=
  match s with
  | EmptyString => (acc, EmptyString)
  | String c s' => if is_digit c then digits_acc (acc * 10 + digit_val c) s' else (acc, s)
  end.

(** A non-empty run of digits, and what follows it. *)
Definition scan_digits (s : string) : option (Z * string) :=
  match s with
  | String c _ => if is_digit c then Some (digits_acc 0 s) else None
  | EmptyString => None
  end.

Definition scan_signed (s : string) : option (Z * string) :=
  match s with
  | String c s' =>
      if decide (c = "-"%char) then
        match scan_digits s' with Some (n, r) => Some (- n, r) | None => None end
      else if decide (c = "+"%char) then scan_digits s'
      else scan_digits s
  | EmptyString => None
  end.

(** [strconv.Atoi]: the whole string is an optional sign and digits, and the
    value fits an [int]. *)
Definition atoi (s : string) : option Z :=
  match scan_signed s with
  | Some (n, EmptyString) => if decide (- two63 <= n < two63) then Some n else None
  | _ => None
  end.

(** [strconv.ParseUint(s, 10, 64)]. *)
Definition parse_uint (s : string) : option Z :=
  match scan_digits s with
  | Some (n, EmptyString) => if decide (n < two64) then Some n else None
  | _ => None
  end.

(** Blanks are skipped; a newline is an error. *)
Fixpoint skip_blanks (s : string) : option string :=
  match s with
  | String c s' =>
      if decide (c = NL) then None else if is_space c then skip_blanks s' else Some s
  | EmptyString => Some EmptyString
  end.

(** [fmt.Sscanf(s, "%d", &x)] with [x] holding [dflt] before the call: leading
    blanks are skipped, [x] is left alone when no number can be scanned. *)
Definition sscanf_d (s : string) (dflt : Z) : Z :=
  match skip_blanks s ≫= scan_signed with
  | Some (n, _) => if decide (- two63 <= n < two63) then n else dflt
  | None => dflt
  end.

(** ** Ranging over the runes of a string *)

Definition byte_list (s : string) : list Z :=
  (λ c, Z.of_nat (Ascii.nat_of_ascii c)) <$> String.list_ascii_of_string s.

Definition RuneError : Z := 65533.

Definition cont (b : Z) : bool := (128 <=? b) && (b <=? 191).

(** Bounds of the second byte and length of the encoding a first byte starts. *)
Definition utf8_first (b : Z) : option (nat * Z * Z) :=
  if (194 <=? b) && (b <=? 223) then Some (2%nat, 128, 191)
  else if b =? 224 then Some (3%nat, 160, 191)
  else if (225 <=? b) && (b <=? 236) then Some (3%nat, 128, 191)
  else if b =? 237 then Some (3%nat, 128, 159)
  else if (238 <=? b) && (b <=? 239) then Some (3%nat, 128, 191)
  else if b =? 240 then Some (4%nat, 144, 191)
  else if (241 <=? b) && (b <=? 243) then Some (4%nat, 128, 191)
  else if b =? 244 then Some (4%nat, 128, 143)
  else None.

(** [for _, c := range s]: the runes of [s]; a byte that starts no valid
    encoding yields [RuneError] and the loop advances by one byte. *)
Fixpoint decode_runes (l : list Z) : list Z :=
  match l with
  | [] => []
  | b0 :: t0 =>
      if b0 <? 128 then b0 :: decode_runes t0
      else
        match utf8_first b0 with
        | None => RuneError :: decode_runes t0
        | Some (n, lo, hi) =>
            match t0 with
            | b1 :: t1 =>
                if (lo <=? b1) && (b1 <=? hi) then
                  match n with
                  | 2%nat => (Z.land b0 31 * 64 + Z.land b1 63) :: decode_runes t1
                  | _ =>
                      match t1 with
                      | b2 :: t2 =>
                          if cont b2 then
                            match n with
                            | 3%nat =>
                                (Z.land b0 15 * 4096 + Z.land b1 63 * 64 + Z.land b2 63)
                                  :: decode_runes t2
                            | _ =>
                                match t2 with
                                | b3 :: t3 =>
                                    if cont b3 then
                                      (Z.land b0 7 * 262144 + Z.land b1 63 * 4096
                                         + Z.land b2 63 * 64 + Z.land b3 63)
                                        :: decode_runes t3
                                    else RuneError :: decode_runes t0
                                | [] => RuneError :: decode_runes t0
                                end
                            end
                          else RuneError :: decode_runes t0
                      | [] => RuneError :: decode_runes t0
                      end
                  end
                else RuneError :: decode_runes t0
            | [] => RuneError :: decode_runes t0
            end
        end
  end.

Definition runes (s : string) : list Z := decode_runes (byte_list s).

(** [%-<w>s]: the width counts runes. *)
Definition pad_right (w : nat) (s : string) : string :=
  s +:+ repeat_string " " (w - length (runes s)).

(** [sort.Strings] orders by bytes. *)
Definition str_le (s t : string) : Prop := String.ltb t s = false.
#[export] Instance str_le_dec s t : Decision (str_le s t) := decide (_ = _).

(** ** Lemmas: strings and characters *)

Lemma app_empty_r s : s +:+ "" = s.
Proof. induction s as [|c s IH]; simpl; [done|]. by rewrite IH. Qed.

Lemma app_assoc_str s t u : (s +:+ t) +:+ u = s +:+ (t +:+ u).
Proof. induction s as [|c s IH]; simpl; [done|]. by rewrite IH. Qed.

Lemma string_forallb_app p s t :
  string_forallb p (s +:+ t) = string_forallb p s && string_forallb p t.
Proof. induction s as [|c s IH]; simpl; [done|]. by rewrite IH, andb_assoc. Qed.

Lemma string_forallb_impl (p q : ascii → bool) s :
  (∀ c, p c = true → q c = true) → string_forallb p s = true →
  string_forallb q s = true.
Proof.
  intros Hpq. induction s as [|c s IH]; simpl; [done|].
  rewrite !andb_true_iff. intros [? ?]; auto.
Qed.

Lemma app_length_str s t : String.length (s +:+ t) = (String.length s + String.length t)%nat.
Proof. induction s as [|c s IH]; simpl; [done|]. by rewrite IH. Qed.

Lemma app_inj_length s1 s2 t1 t2 :
  String.length s1 = String.length s2 → s1 +:+ t1 = s2 +:+ t2 → s1 = s2 ∧ t1 = t2.
Proof.
  revert s2; induction s1 as [|c s1 IH]; intros [|c2 s2] Hl; simpl in *; try done.
  intros [= -> Heq]. destruct (IH s2) as [-> ->]; [lia|done|done].
Qed.

Lemma app_inj_r s1 s2 t : s1 +:+ t = s2 +:+ t → s1 = s2.
Proof.
  intros H. apply (app_inj_length s1 s2 t t); [|done].
  apply (f_equal String.length) in H. rewrite !app_length_str in H. lia.
Qed.

(** ** Lemmas: split and join *)

Lemma split_on_ne sep s : split_on sep s ≠ [].
Proof. destruct s; simpl; repeat case_match; done. Qed.

Lemma join_cons sep w l : l ≠ [] → join sep (w :: l) = w +:+ sep +:+ join sep l.
Proof. by destruct l. Qed.

(** Joining what [split_on] returns rebuilds the string. *)
Lemma join_split sep s : join (String sep "") (split_on sep s) = s.
Proof.
  induction s as [|c s IH]; simpl; [done|].
  pose proof (split_on_ne sep s) as Hne.
  case_decide as Hc; [subst|].
  - rewrite join_cons by done. simpl. by rewrite IH.
  - destruct (split_on sep s) as [|w ws] eqn:E; [done|].
    rewrite <-IH. by destruct ws.
Qed.

Lemma split_on_no_sep sep s :
  string_forallb (not_char sep) s = true → split_on sep s = [s].
Proof.
  induction s as [|c s IH]; simpl; [done|]. unfold not_char at 1.
  rewrite andb_true_iff, bool_decide_eq_true. intros [Hc Hs].
  rewrite decide_False by done. by rewrite IH.
Qed.

Lemma split_on_app sep s t :
  string_forallb (not_char sep) s = true →
  split_on sep (s +:+ String sep t) = s :: split_on sep t.
Proof.
  induction s as [|c s IH]; simpl.
  - intros _. by rewrite decide_True.
  - unfold not_char at 1. rewrite andb_true_iff, bool_decide_eq_true. intros [Hc Hs].
    rewrite decide_False by done. by rewrite IH.
Qed.

(** Splitting what [join] built gives the pieces back when none of them
    contains the separator. *)
Lemma split_join sep l :
  l ≠ [] → Forall (λ w, string_forallb (not_char sep) w = true) l →
  split_on sep (join (String sep "") l) = l.
Proof.
  induction l as [|w l IH]; [done|]. intros _ [Hw Hl]%Forall_cons.
  destruct l as [|w' l]; simpl; [by apply split_on_no_sep|].
  rewrite split_on_app by done. f_equal. by apply IH.
Qed.

(** ** Lemmas: trimming *)

Definition no_space (s : string) : bool := string_forallb (λ c, negb (is_space c)) s.

Lemma trim_right_no_space s : no_space s = true → trim_right s = s.
Proof.
  unfold no_space.
  induction s as [|c s IH]; simpl; [done|]. rewrite andb_true_iff, negb_true_iff.
  intros [Hc Hs]. rewrite IH by done. destruct s; [by rewrite Hc|done].
Qed.

Lemma trim_space_no_space s : no_space s = true → trim_space s = s.
Proof.
  unfold trim_space. intros H. replace (trim_left s) with s.
  - by apply trim_right_no_space.
  - unfold no_space in H. destruct s as [|c s]; simpl in *; [done|].
    apply andb_true_iff in H as [H _]. apply negb_true_iff in H. by rewrite H.
Qed.

(** ** Lemmas: decimal formatting *)

Lemma fields_grow c d s :
  is_space c = false → is_space d = false →
  fields (String c (String d s)) =
    match fields (String d s) with w :: ws => String c w :: ws | [] => [String c EmptyString] end.
Proof.
  intros Hc Hd. change (fields (String c (String d s))) with
    (if is_space c then fields (String d s) else
     if is_space d then String c EmptyString :: fields (String d s) else
     match fields (String d s) with w :: ws => String c w :: ws | [] => [String c EmptyString] end).
  by rewrite Hc, Hd.
Qed.

Lemma no_space_cons c w : no_space (String c w) = true ↔ is_space c = false ∧ no_space w = true.
Proof. unfold no_space. simpl. by rewrite andb_true_iff, negb_true_iff. Qed.

Lemma fields_word w s :
  no_space w = true → w ≠ "" → fields (w +:+ String " " s) = w :: fields s.
Proof.
  induction w as [|c w IH]; [done|]. intros [Hc Hw]%no_space_cons _. destruct w as [|d w].
  - simpl. by rewrite Hc.
  - pose proof Hw as [Hd _]%no_space_cons. change (String c (String d w) +:+ String " " s) with
      (String c (String d (w +:+ String " " s))). rewrite fields_grow by done.
    change (String d (w +:+ String " " s)) with (String d w +:+ String " " s). by rewrite IH.
Qed.

Lemma fields_last w : no_space w = true → w ≠ "" → fields w = [w].
Proof.
  induction w as [|c w IH]; [done|]. intros [Hc Hw]%no_space_cons _. destruct w as [|d w].
  - simpl. by rewrite Hc.
  - pose proof Hw as [Hd _]%no_space_cons. rewrite fields_grow by done. by rewrite IH.
Qed.

(** Words joined by blanks are read back as they are. *)
Lemma fields_join l :
  Forall (λ w, no_space w = true ∧ w ≠ "") l → fields (join " " l) = l.
Proof.
  induction l as [|w l IH]; [done|]. intros [[Hw Hne] Hl]%Forall_cons. destruct l as [|w' l].
  - simpl. by apply fields_last.
  - rewrite join_cons by done. change (" " +:+ join " " (w' :: l)) with (String " " (join " " (w' :: l))).
    by rewrite fields_word, IH.
Qed.

Lemma pretty_N_char_digit x : is_digit (pretty_N_char x) = true.
Proof. unfold pretty_N_char. by repeat case_match. Qed.

Lemma pretty_N_go_forallb p x s :
  (∀ y, p (pretty_N_char y) = true) → string_forallb p s = true →
  string_forallb p (pretty_N_go x s) = true.
Proof.
  intros Hp. revert s. induction (N.lt_wf_0 x) as [x _ IH]; intros s Hs.
  destruct (decide (x = 0%N)) as [->|Hx]; [done|].
  rewrite pretty_N_go_step by lia. apply IH; [by apply N.div_lt; lia|].
  simpl. by rewrite Hp, Hs.
Qed.

Lemma pretty_N_digits (x : N) : string_forallb is_digit (pretty x) = true.
Proof.
  unfold pretty, pretty_N. case_decide; [done|].
  apply pretty_N_go_forallb; [apply pretty_N_char_digit|done].
Qed.

Lemma itoa_nonneg_digits z : 0 <= z → string_forallb is_digit (itoa z) = true.
Proof.
  intros Hz. destruct z; [done| |lia]. apply (pretty_N_digits (Npos _)).
Qed.

Definition itoa_char (c : ascii) : bool := is_digit c || bool_decide (c = "-"%char).

Lemma itoa_chars z : string_forallb itoa_char (itoa z) = true.
Proof.
  assert (∀ s, string_forallb is_digit s = true → string_forallb itoa_char s = true).
  { intros s. apply string_forallb_impl. unfold itoa_char. intros c ->. done. }
  destruct z as [|p|p]; [done| |]; simpl.
  - apply H, (pretty_N_digits (Npos p)).
  - apply H, (pretty_N_digits (Npos p)).
Qed.

Lemma itoa_not_char c z : itoa_char c = false → string_forallb (not_char c) (itoa z) = true.
Proof.
  intros Hc. eapply string_forallb_impl; [|apply itoa_chars].
  intros d Hd. unfold not_char. apply bool_decide_eq_true. congruence.
Qed.

Lemma itoa_inj z1 z2 : itoa z1 = itoa z2 → z1 = z2.
Proof. apply pretty_Z_inj. Qed.

(** A positive number has no leading zero. *)
Lemma pretty_N_go_head x s :
  (0 < x)%N → ∃ c r, pretty_N_go x s = String c r ∧ c ≠ "0"%char.
Proof.
  revert s. induction (N.lt_wf_0 x) as [x _ IH]; intros s Hx.
  rewrite pretty_N_go_step by done.
  destruct (decide (x < 10)%N) as [Hlt|Hge].
  - rewrite N.div_small, pretty_N_go_0 by done. eexists _, _. split; [done|].
    rewrite N.mod_small by done.
    intros Heq. apply (pretty_N_char_inj x 0) in Heq; lia.
  - apply IH; [by apply N.div_lt; lia|]. apply N.div_str_pos. lia.
Qed.

Lemma itoa_head z : 0 < z → ∃ c r, itoa z = String c r ∧ c ≠ "0"%char.
Proof. intros Hz. destruct z as [|p|p]; try lia. apply (pretty_N_go_head (Npos p) ""). lia. Qed.

(** What [%d] prints is read back. *)
Lemma digit_val_char x : (x < 10)%N → digit_val (pretty_N_char x) = Z.of_N x.
Proof.
  intros Hx.
  assert (x = 0 ∨ x = 1 ∨ x = 2 ∨ x = 3 ∨ x = 4 ∨ x = 5 ∨ x = 6 ∨ x = 7 ∨ x = 8 ∨ x = 9)%N as H by lia.
  by repeat destruct H as [->|H]; [..|subst].
Qed.

Lemma digits_acc_go x s : digits_acc 0 (pretty_N_go x s) = digits_acc (Z.of_N x) s.
Proof.
  revert s. induction (N.lt_wf_0 x) as [x _ IH]; intros s.
  destruct (decide (x = 0%N)) as [->|Hx]; [done|].
  rewrite pretty_N_go_step by lia. rewrite IH by (apply N.div_lt; lia).
  cbn [digits_acc]. rewrite pretty_N_char_digit, digit_val_char by (apply N.mod_lt; lia).
  f_equal. rewrite N2Z.inj_div, N2Z.inj_mod. pose proof (Z_div_mod_eq_full (Z.of_N x) 10). simpl. lia.
Qed.

Lemma scan_digits_pretty (x : N) : scan_digits (pretty x) = Some (Z.of_N x, "").
Proof.
  destruct (decide (x = 0%N)) as [->|Hx]; [done|].
  assert (pretty x = pretty_N_go x "") as E.
  { unfold pretty, pretty_N. by rewrite decide_False. }
  destruct (pretty_N_go_head x "" ltac:(lia)) as (c & r & Hc & _).
  pose proof (pretty_N_digits x) as Hd. rewrite E in *. rewrite Hc in *. simpl in Hd.
  apply andb_true_iff in Hd as [Hd _]. unfold scan_digits. rewrite Hd, <- Hc.
  by rewrite digits_acc_go.
Qed.

Lemma atoi_itoa z : in_int64 z → atoi (itoa z) = Some z.
Proof.
  intros Hz. unfold atoi. assert (scan_signed (itoa z) = Some (z, "")) as ->.
  { destruct z as [|p|p].
    - done.
    - change (itoa (Zpos p)) with (pretty (Npos p)).
      pose proof (scan_digits_pretty (Npos p)) as H. unfold scan_signed.
      destruct (pretty (Npos p)) as [|c s] eqn:E; [done|].
      pose proof (pretty_N_digits (Npos p)) as Hd. rewrite E in Hd. simpl in Hd.
      apply andb_true_iff in Hd as [Hd _].
      rewrite !decide_False by (intros ->; discriminate Hd). exact H.
    - change (itoa (Zneg p)) with (String "-" (pretty (Npos p))). unfold scan_signed.
      rewrite decide_True by done. by rewrite scan_digits_pretty. }
  by rewrite decide_True.
Qed.

Lemma sscanf_itoa z dflt : in_int64 z → sscanf_d (itoa z) dflt = z.
Proof.
  intros Hz. pose proof (atoi_itoa z Hz) as Ha. unfold sscanf_d.
  assert (skip_blanks (itoa z) = Some (itoa z)) as ->.
  { pose proof (itoa_chars z) as Hc. destruct (itoa z) as [|c s]; [done|]. simpl in Hc |- *.
    apply andb_true_iff in Hc as [Hc _]. unfold itoa_char in Hc.
    rewrite decide_False by (intros ->; discriminate).
    assert (is_space c = false) as ->; [|done].
    destruct c as [[] [] [] [] [] [] [] []]; try done; discriminate. }
  simpl. unfold atoi in Ha. destruct (scan_signed (itoa z)) as [[n [|]]|]; try done.
  case_decide; congruence.
Qed.

Lemma repeat_zero_head n s1 s2 :
  (∃ c r, s1 = String c r ∧ c ≠ "0"%char) → (∃ c r, s2 = String c r ∧ c ≠ "0"%char) →
  ∀ m, repeat_string "0" n +:+ s1 = repeat_string "0" m +:+ s2 → s1 = s2.
Proof.
  intros (c1 & r1 & -> & H1) (c2 & r2 & -> & H2).
  induction n as [|n IH]; intros [|m] Heq; simpl in *; simplify_eq; eauto.
Qed.

(** Zero padding is injective on positive numbers. *)
Lemma pad_zero_inj w z1 z2 : 0 < z1 → 0 < z2 → pad_zero w z1 = pad_zero w z2 → z1 = z2.
Proof.
  unfold pad_zero. intros H1 H2 Heq. apply itoa_inj.
  eapply repeat_zero_head; [by apply itoa_head..|done].
Qed.

(** ** Lemmas: the order of strings *)

Lemma ascii_compare_N a b :
  Ascii.compare a b = N.compare (Ascii.N_of_ascii a) (Ascii.N_of_ascii b).
Proof. done. Qed.

Lemma ascii_N_inj a b : Ascii.N_of_ascii a = Ascii.N_of_ascii b → a = b.
Proof. intros H. rewrite <- (Ascii.ascii_N_embedding a), <- (Ascii.ascii_N_embedding b). by rewrite H. Qed.

Lemma ltb_cons a s b t :
  String.ltb (String a s) (String b t) =
    (Ascii.N_of_ascii a <? Ascii.N_of_ascii b)%N
    || (bool_decide (a = b) && String.ltb s t).
Proof.
  unfold String.ltb. simpl. rewrite ascii_compare_N.
  destruct (N.compare_spec (Ascii.N_of_ascii a) (Ascii.N_of_ascii b)) as [H|H|H].
  - apply ascii_N_inj in H as ->. rewrite N.ltb_irrefl.
    by rewrite bool_decide_eq_true_2 by done.
  - by rewrite (proj2 (N.ltb_lt _ _) H).
  - rewrite (proj2 (N.ltb_ge _ _)) by lia. rewrite bool_decide_eq_false_2; [done|].
    intros ->. lia.
Qed.

Lemma ltb_trans s t u :
  String.ltb s t = true → String.ltb t u = true → String.ltb s u = true.
Proof.
  revert t u; induction s as [|a s IH]; intros [|b t] [|c u]; try done.
  rewrite !ltb_cons, !orb_true_iff, !andb_true_iff, !N.ltb_lt, !bool_decide_eq_true.
  intros [H1|[-> H1]] [H2|[-> H2]]; [left; lia|left; lia|left; lia|right; eauto].
Qed.

Lemma ltb_irrefl s : String.ltb s s = false.
Proof.
  induction s as [|a s IH]; [done|]. rewrite ltb_cons, N.ltb_irrefl, IH. by rewrite andb_false_r.
Qed.

Lemma ltb_trichotomy s t : String.ltb s t = true ∨ s = t ∨ String.ltb t s = true.
Proof.
  unfold String.ltb. rewrite (String.compare_antisym t s).
  destruct (String.compare s t) eqn:E; simpl; [|by left|by right; right].
  right; left. by apply String.compare_eq_iff.
Qed.

(** ** Lemmas: file names *)

Lemma drop_string_app s t : drop_string (String.length s) (s +:+ t) = t.
Proof. induction s; simpl; [by destruct t|done]. Qed.

Lemma take_string_app s t : take_string (String.length s) (s +:+ t) = s.
Proof. induction s as [|c s IH]; simpl; [by destruct t|by rewrite IH]. Qed.

Lemma take_drop_string n s : take_string n s +:+ drop_string n s = s.
Proof.
  revert s. induction n as [|n IH]; intros [|c s]; try done.
  change (String c (take_string n s +:+ drop_string n s) = String c s). by rewrite IH.
Qed.

Lemma has_suffix_app s t : has_suffix t (s +:+ t) = true.
Proof.
  unfold has_suffix. rewrite app_length_str, Nat.add_sub, drop_string_app. by apply bool_decide_eq_true_2.
Qed.

Lemma has_suffix_inv t s : has_suffix t s = true → ∃ s', s = s' +:+ t.
Proof.
  unfold has_suffix. intros Hs%bool_decide_eq_true.
  exists (take_string (String.length s - String.length t) s). rewrite <- Hs at 2. symmetry. apply take_drop_string.
Qed.

Lemma trim_suffix_app s t : trim_suffix (s +:+ t) t = s.
Proof.
  unfold trim_suffix, has_suffix. rewrite app_length_str, Nat.add_sub.
  rewrite drop_string_app, bool_decide_eq_true_2 by done. apply take_string_app.
Qed.

(** A plain extension: no dot and no slash. *)
Definition plain_char (c : ascii) : bool := not_char "."%char c && not_char "/"%char c.

Lemma path_ext_plain s : string_forallb plain_char s = true → path_ext s = "".
Proof.
  induction s as [|c s IH]; [done|]. cbn [string_forallb].
  rewrite andb_true_iff. intros [Hc Hs]. cbn [path_ext]. rewrite IH by done.
  rewrite decide_False by (intros H; by apply H). rewrite decide_False; [done|].
  intros ->. done.
Qed.

Lemma path_ext_app s ext :
  string_forallb plain_char ext = true → path_ext (s +:+ "." +:+ ext) = "." +:+ ext.
Proof.
  intros Hext. induction s as [|c s IH]; cbn [String.append path_ext].
  - rewrite path_ext_plain by done. cbn zeta.
    rewrite decide_False by (intros H; by apply H). rewrite decide_True by done.
    unfold contains_char. rewrite (string_forallb_impl plain_char); [done| |done].
    intros c. unfold plain_char. rewrite andb_true_iff. by intros [].
  - cbn [String.append] in IH. rewrite IH. by rewrite decide_True by done.
Qed.
