(* ===== verification/GoFlags.v ===== *)
(** * GoFlags: the command line of an operator process

    Go's [flag] package as [StartOperation] uses it: [parse_flags] is
    [flag.Parse] for flags that take a value, [None] an exit of the process.
    The syntax of integers, [strconv.ParseInt(s, 0, 64)], is the parameter
    [parse_int]. *)

From S2P Require Import Prelude GoStrings.

Inductive FlagKind := FString | FInt.

Definition dash : ascii := "-"%char.
Definition equals : ascii := "="%char.

(** A name and, after the first equality sign, a value. *)
Fixpoint cut_value (s : string) : string * option string :=
  match s with
  | EmptyString => (EmptyString, None)
  | String c rest =>
      if decide (c = equals) then (EmptyString, Some rest)
      else let '(name, v) := cut_value rest in (String c name, v)
  end.

Inductive Arg := ArgStop | ArgEnd | ArgBad | ArgFlag (name : string) (value : option string).

(** What follows the leading dashes. *)
Definition classify_name (s : string) : Arg :=
  match s with
  | EmptyString => ArgBad
  | String c _ =>
      if decide (c = dash ∨ c = equals) then ArgBad
      else let '(name, v) := cut_value s in ArgFlag name v
  end.

Definition classify (s : string) : Arg :=
  match s with
  | String c1 (String c2 rest) =>
      if decide (c1 = dash) then
        if decide (c2 = dash) then
          match rest with EmptyString => ArgEnd | _ => classify_name rest end
        else classify_name (String c2 rest)
      else ArgStop
  | _ => ArgStop
  end.

Section flags.
Context (parse_int : string → option Z) (formal : gmap string FlagKind).

Definition set_flag (name value : string) (m : gmap string string) : option (gmap string string) :=
  match formal !! name with
  | None => None
  | Some FString => Some (<[name := value]> m)
  | Some FInt => match parse_int value with Some _ => Some (<[name := value]> m) | None => None end
  end.

(** The values that were set and the positional arguments. *)
Fixpoint parse_flags (args : list string) (m : gmap string string) :
    option (gmap string string * list string) :=
  match args with
  | [] => Some (m, [])
  | a :: rest =>
      match classify a with
      | ArgStop => Some (m, args)
      | ArgEnd => Some (m, rest)
      | ArgBad => None
      | ArgFlag name (Some v) =>
          match set_flag name v m with Some m' => parse_flags rest m' | None => None end
      | ArgFlag name None =>
          match rest with
          | [] => None
          | v :: rest' =>
              match set_flag name v m with Some m' => parse_flags rest' m' | None => None end
          end
      end
  end.

Definition flag_string (m : gmap string string) (name : string) : string := default "" (m !! name).
Definition flag_int (m : gmap string string) (name : string) : Z :=
  default 0 (m !! name ≫= parse_int).
End flags.

(** ** Lemmas *)

(** [--name=value]. *)
Definition flag_arg (name value : string) : string := "--" +:+ name +:+ "=" +:+ value.

Definition flag_name (name : string) : bool :=
  match name with
  | EmptyString => false
  | String c _ => not_char dash c && string_forallb (not_char equals) name
  end.

Lemma cut_value_app name v :
  string_forallb (not_char equals) name = true →
  cut_value (name +:+ "=" +:+ v) = (name, Some v).
Proof.
  induction name as [|c name IH]; simpl; [done|].
  unfold not_char at 1. rewrite andb_true_iff, bool_decide_eq_true. intros [Hc Hn].
  rewrite decide_False by done. change (String "=" v) with ("=" +:+ v). by rewrite IH.
Qed.

Lemma classify_flag_arg name v :
  flag_name name = true → classify (flag_arg name v) = ArgFlag name (Some v).
Proof.
  destruct name as [|c name]; [done|]. unfold flag_name. rewrite andb_true_iff. intros [Hc Hn].
  unfold flag_arg. change ("--" +:+ String c name +:+ "=" +:+ v)
    with (String "-" (String "-" (String c (name +:+ "=" +:+ v)))).
  unfold classify, classify_name. rewrite !decide_True by done.
  unfold not_char in Hc. rewrite bool_decide_eq_true in Hc.
  rewrite decide_False.
  - change (String c (name +:+ "=" +:+ v)) with (String c name +:+ "=" +:+ v).
    by rewrite cut_value_app.
  - intros [->| ->]; [done|]. simpl in Hn. discriminate Hn.
Qed.

Lemma parse_flag_arg parse_int formal name v rest m m' :
  flag_name name = true → set_flag parse_int formal name v m = Some m' →
  parse_flags parse_int formal (flag_arg name v :: rest) m = parse_flags parse_int formal rest m'.
Proof. intros Hn Hs. cbn [parse_flags]. rewrite classify_flag_arg by done. by rewrite Hs. Qed.

(** A positional argument ends the flags. *)
Definition positional (args : list string) : Prop :=
  match args with [] => True | a :: _ => classify a = ArgStop end.

Lemma parse_positional parse_int formal args m :
  positional args → parse_flags parse_int formal args m = Some (m, args).
Proof. destruct args as [|a rest]; [done|]. simpl. by intros ->. Qed.
