(* ===== verification/Env.v ===== *)
(** * Env: what the program takes from outside its sources

    The digests of [crypto/sha256] and [crypto/sha1] and the layout of a time
    stamp are not written in the repository: they are the operations of the
    class [GoEnv], over which the components are parametrised.  Its laws are
    the only facts the development uses of them: a digest prefix read as a
    big-endian [uint64] is a [uint64].  [poly_env] is a concrete instance, used
    to run the model. *)

From S2P Require Import Prelude GoStrings.

Class GoEnv := {
  (** [binary.BigEndian.Uint64(sha256.Sum256(s)[:8])] *)
  sha256_u64 : string → Z;
  (** [binary.BigEndian.Uint64(sha1.Sum(s)[:8])] *)
  sha1_u64 : string → Z;
  (** [fmt.Sprintf("%x", sha1.Sum(s))] *)
  sha1_hex : string → string;
  (** [t.Format(time.RFC3339Nano)] *)
  format_rfc3339 : Z → string;
  (** [uint64(f)] for a [float64] of 2^64, which does not fit: the language
      leaves the value to the implementation *)
  u64_overflow : Z;
  u64_overflow_range : in_uint64 u64_overflow;
  sha256_u64_range s : in_uint64 (sha256_u64 s);
  sha1_u64_range s : in_uint64 (sha1_u64 s);
}.

#[export] Hint Resolve sha256_u64_range sha1_u64_range : goarith.

(** A polynomial hash, good enough to run examples. *)
Definition poly_hash (s : string) : Z :=
  u64 (foldl (λ acc b, (acc * 2654435761 + b + 1) mod two64) 5381 (byte_list s)).

#[global] Program Definition poly_env : GoEnv := {|
  sha256_u64 := poly_hash;
  sha1_u64 := λ s, poly_hash (String "x" s);
  sha1_hex := λ s, itoa (poly_hash s);
  format_rfc3339 := itoa;
  u64_overflow := two63;
|}.
Next Obligation. done. Qed.
Next Obligation. intros s. apply u64_range. Qed.
Next Obligation. intros s. apply u64_range. Qed.
