(* ===== verification/Membership.v ===== *)
(** * Membership: the membership list of [pkg/membership/member.go]

    [Membership] is the structure of the same name: the map [InfoMap] from ring
    identifiers to what is known of a member, the list [Members] that gossip
    and pings walk through, and the round-robin index into that list.  The
    mutex is not modelled: every method holds it from its first to its last
    statement, so a method is one atomic step.  Log lines are not modelled.

    A [range] over a map that rebuilds [Members] is followed by a random
    permutation, so its order is not visible; the other loops are shown to be
    independent of the order ([Merge_order], [lookup_gossip_loop]). *)

From S2P Require Import Prelude GoStrings Env.

(** ** Data *)

Inductive MemberState := Alive | Failed | Suspected.

#[export] Instance MemberState_eq_dec : EqDecision MemberState.
Proof. solve_decision. Defined.

Definition stateName (s : MemberState) : string :=
  match s with Alive => "Alive" | Failed => "Failed" | Suspected => "Suspected" end.

Record Info := mkInfo {
  Hostname : string;
  Port : Z;
  Version : Z;
  Timestamp : Z;
  Counter : Z;
  State : MemberState;
}.

#[export] Instance Info_eq_dec : EqDecision Info.
Proof. solve_decision. Defined.

(** The zero value of [Info], what reading an absent key of the map yields. *)
Definition zero_info : Info := mkInfo "" 0 zero_time zero_time 0 Alive.

Definition set_timestamp (t : Z) (i : Info) : Info :=
  mkInfo (Hostname i) (Port i) (Version i) t (Counter i) (State i).
Definition set_state (s : MemberState) (i : Info) : Info :=
  mkInfo (Hostname i) (Port i) (Version i) (Timestamp i) (Counter i) s.

Record Membership := mkMembership {
  Members : list Z;
  InfoMap : gmap Z Info;
  roundRobinIndex : Z;
}.

(** [m.InfoMap[id]]: the zero value when [id] is absent. *)
Definition info_of (m : gmap Z Info) (id : Z) : Info := default zero_info (m !! id).

(** ** RandomPermutation *)

(** [rng i] is the [i]-th value of [rng.Int63()], which is not negative. *)
Fixpoint permute_from (rng : nat → N) (arr : list Z) (i : nat) (todo : nat) : list Z :=
  match todo with
  | O => arr
  | S todo' =>
      let j := N.to_nat (rng i mod N.of_nat (S i)) in
      let arr' := if decide (i = j) then arr else swap i j arr in
      permute_from rng arr' (S i) todo'
  end.

Definition RandomPermutation (rng : nat → N) (arr : list Z) : list Z :=
  permute_from rng arr 0 (length arr).

(** ** Rebuilding the member list *)

Definition live (p : Z * Info) : Prop := State p.2 ≠ Failed.
#[export] Instance live_dec p : Decision (live p) := _.

Definition live_ids (m : gmap Z Info) : list Z := (filter live (map_to_list m)).*1.

Definition rebuild (rng : nat → N) (m : gmap Z Info) : Membership :=
  mkMembership (RandomPermutation rng (live_ids m)) m 0.

(** ** Merge *)

Definition merge_entry (now : Z) (acc : gmap Z Info * bool) (e : Z * Info) :
    gmap Z Info * bool :=
  let '(m, changed) := acc in
  let '(id, info) := e in
  if bool_decide (Port info = 0) || bool_decide (Hostname info = "") then acc
  else
    match m !! id with
    | Some member =>
        if decide (State info = Failed) then
          if decide (State member ≠ Failed) then
            (<[id := set_timestamp now info]> m, true)
          else acc
        else if Counter member <? Counter info then
               (<[id := set_timestamp now info]> m, changed)
             else acc
    | None =>
        if decide (State info ≠ Failed) then
          (<[id := set_timestamp now info]> m, true)
        else acc
    end.

(** [Merge] visiting the incoming bindings in the order [l]. *)
Definition merge_over (rng : nat → N) (l : list (Z * Info)) (now : Z)
    (m : Membership) : Membership * bool :=
  let '(im, changed) := foldl (merge_entry now) (InfoMap m, false) l in
  if changed then (rebuild rng im, true)
  else (mkMembership (Members m) im (roundRobinIndex m), false).

Definition Merge (rng : nat → N) (memberInfo : gmap Z Info) (now : Z)
    (m : Membership) : Membership * bool :=
  merge_over rng (map_to_list memberInfo) now m.

(** ** UpdateStateGossip *)

Definition gossip_entry (now Tfail Tsuspect : Z) (suspicionEnabled : bool)
    (acc : gmap Z Info * bool) (e : Z * Info) : gmap Z Info * bool :=
  let '(m, anyFailed) := acc in
  let '(id, info) := e in
  let elapsed := time_sub now (Timestamp info) in
  let oldState := State info in
  if suspicionEnabled then
    if bool_decide (oldState = Alive) && (Tsuspect <? elapsed) then
      (<[id := set_timestamp now (set_state Suspected info)]> m, anyFailed)
    else if bool_decide (oldState = Suspected) && (Tfail <? elapsed) then
      (<[id := set_timestamp now (set_state Failed info)]> m, true)
    else acc
  else
    if bool_decide (oldState = Alive) && (Tfail <? elapsed) then
      (<[id := set_timestamp now (set_state Failed info)]> m, true)
    else acc.

Definition UpdateStateGossip (rng : nat → N) (now Tfail Tsuspect : Z)
    (suspicionEnabled : bool) (m : Membership) : Membership * bool :=
  let '(im, anyFailed) :=
    foldl (gossip_entry now Tfail Tsuspect suspicionEnabled) (InfoMap m, false)
      (map_to_list (InfoMap m)) in
  if anyFailed then (rebuild rng im, true)
  else (mkMembership (Members m) im (roundRobinIndex m), false).

(** ** UpdateStateSwim *)

Definition UpdateStateSwim (rng : nat → N) (now id : Z) (state : MemberState)
    (suspicionEnabled : bool) (m : Membership) : Membership * bool :=
  match InfoMap m !! id with
  | Some info =>
      if decide (State info ≠ Failed) then
        let newState :=
          if bool_decide (state = Suspected) && negb suspicionEnabled then Failed
          else state in
        let im := <[id := set_state newState (set_timestamp now info)]> (InfoMap m) in
        if decide (newState = Failed) then (rebuild rng im, true)
        else (mkMembership (Members m) im (roundRobinIndex m), false)
      else (m, false)
  | None => (m, false)
  end.

(** ** Cleanup, Reset, RemoveMember *)

Definition stale (now Tcleanup : Z) (p : Z * Info) : Prop :=
  State p.2 = Failed ∧ Tcleanup < time_sub now (Timestamp p.2).
#[export] Instance stale_dec now T p : Decision (stale now T p) := _.

Definition Cleanup (now Tcleanup : Z) (m : Membership) : Membership :=
  mkMembership (Members m)
    (foldl (λ im '(id, info), if decide (stale now Tcleanup (id, info)) then delete id im else im)
       (InfoMap m) (map_to_list (InfoMap m)))
    (roundRobinIndex m).

Section hashed.
Context `{!GoEnv}.

Definition HashInfo (info : Info) : Z :=
  sha256_u64 (Hostname info +:+ ":" +:+ itoa (Port info) +:+ ":"
              +:+ format_rfc3339 (Version info)).

Definition Reset (now : Z) (hostname : string) (port : Z) : Membership :=
  let newInfo := mkInfo hostname port now now 0 Alive in
  let newId := HashInfo newInfo in
  mkMembership [newId] {[ newId := newInfo ]} 0.
End hashed.

(** [append(m.Members[:i], m.Members[i+1:]...)] at the first occurrence. *)
Fixpoint remove_first (id : Z) (l : list Z) : list Z :=
  match l with
  | [] => []
  | x :: l' => if decide (x = id) then l' else x :: remove_first id l'
  end.

Definition RemoveMember (rng : nat → N) (id : Z) (m : Membership) : Membership :=
  let members := remove_first id (Members m) in
  let im := delete id (InfoMap m) in
  if Z.of_nat (length members) <=? roundRobinIndex m then
    mkMembership (RandomPermutation rng members) im 0
  else mkMembership members im (roundRobinIndex m).

(** ** GetTarget, Exists, GetInfoMap, Heartbeat *)

Inductive TargetError := NoMember | Inconsistent | IndexPanic.

(** The index is checked because Go panics on an index out of range. *)
Definition GetTarget (rng : nat → N) (m : Membership) :
    (TargetError + Info) * Membership :=
  match Members m with
  | [] => (inl NoMember, m)
  | _ =>
      if roundRobinIndex m <? 0 then (inl IndexPanic, m) else
      match Members m !! Z.to_nat (roundRobinIndex m) with
      | None => (inl IndexPanic, m)
      | Some id =>
          match InfoMap m !! id with
          | None => (inl Inconsistent, m)
          | Some targetInfo =>
              let idx := roundRobinIndex m + 1 in
              if decide (idx = Z.of_nat (length (Members m))) then
                (inr targetInfo,
                 mkMembership (RandomPermutation rng (Members m)) (InfoMap m) 0)
              else (inr targetInfo, mkMembership (Members m) (InfoMap m) idx)
          end
      end
  end.

Definition Exists_ (hostname : string) (port : Z) (m : Membership) : bool :=
  existsb (λ '(_, info), bool_decide (Hostname info = hostname)
                         && bool_decide (Port info = port))
    (map_to_list (InfoMap m)).

Definition GetInfoMap (m : Membership) : gmap Z Info :=
  foldl (λ copy '(id, info), <[id := info]> copy) ∅ (map_to_list (InfoMap m)).

Definition Heartbeat (id now : Z) (m : Membership) : result Membership :=
  match InfoMap m !! id with
  | Some info =>
      if decide (State info = Failed) then Err "you failed"
      else
        Ok (mkMembership (Members m)
              (<[id := mkInfo (Hostname info) (Port info) (Version info) now
                         (u64 (Counter info + 1)) (State info)]> (InfoMap m))
              (roundRobinIndex m))
  | None => Err ("no such ID: " +:+ itoa id +:+ ", the node might fail")
  end.

(** ** RandomPermutation permutes *)

Lemma permute_from_Permutation rng arr i todo : permute_from rng arr i todo ≡ₚ arr.
Proof.
  revert arr i; induction todo as [|todo IH]; intros arr i; simpl; [done|].
  rewrite IH. case_decide; [done|]. apply swap_Permutation.
Qed.

Lemma RandomPermutation_Permutation rng arr : RandomPermutation rng arr ≡ₚ arr.
Proof. apply permute_from_Permutation. Qed.

Lemma elem_of_live_ids m id :
  id ∈ live_ids m ↔ ∃ info, m !! id = Some info ∧ State info ≠ Failed.
Proof.
  unfold live_ids. rewrite list_elem_of_fmap. split.
  - intros ([i info] & -> & [Hl Hin]%list_elem_of_filter). exists info.
    split; [by apply elem_of_map_to_list|done].
  - intros (info & Hid & Hl). exists (id, info). split; [done|].
    apply list_elem_of_filter. split; [done|]. by apply elem_of_map_to_list.
Qed.

Lemma NoDup_live_ids m : NoDup (live_ids m).
Proof. apply NoDup_fmap_filter, NoDup_fst_map_to_list. Qed.

(** ** The loops, entry by entry *)

Definition valid_info (info : Info) : bool :=
  negb (bool_decide (Port info = 0) || bool_decide (Hostname info = "")).

(** What [Merge] makes of one entry: [o] is the entry the node holds, [info]
    the incoming one; the flag says that the membership changed. *)
Definition merge_cell (now : Z) (info : Info) (o : option Info) : option Info * bool :=
  if valid_info info then
    match o with
    | Some member =>
        if decide (State info = Failed) then
          if decide (State member ≠ Failed) then (Some (set_timestamp now info), true)
          else (o, false)
        else if Counter member <? Counter info then (Some (set_timestamp now info), false)
             else (o, false)
    | None =>
        if decide (State info ≠ Failed) then (Some (set_timestamp now info), true)
        else (o, false)
    end
  else (o, false).

(** What a failure-detection round makes of one entry. *)
Definition gossip_cell (now Tfail Tsuspect : Z) (suspicionEnabled : bool)
    (info : Info) : Info * bool :=
  let elapsed := time_sub now (Timestamp info) in
  match State info, suspicionEnabled with
  | Alive, true =>
      if Tsuspect <? elapsed then (set_timestamp now (set_state Suspected info), false)
      else (info, false)
  | Suspected, true =>
      if Tfail <? elapsed then (set_timestamp now (set_state Failed info), true)
      else (info, false)
  | Alive, false =>
      if Tfail <? elapsed then (set_timestamp now (set_state Failed info), true)
      else (info, false)
  | _, _ => (info, false)
  end.

Lemma merge_entry_cell now m c id info :
  merge_entry now (m, c) (id, info) =
    (partial_alter (λ o, (merge_cell now info o).1) id m,
     c || (merge_cell now info (m !! id)).2).
Proof.
  unfold merge_entry, merge_cell, valid_info.
  apply injective_projections; simpl.
  - apply map_eq; intros k. rewrite lookup_partial_alter.
    destruct (decide (id = k)) as [->|Hne];
      repeat case_match; simplify_eq/=; by simplify_map_eq.
  - repeat case_match; simplify_eq/=; by rewrite ?orb_true_r, ?orb_false_r.
Qed.

Lemma merge_loop_flag now l m :
  foldl (merge_entry now) (m, false) l = range_flag (λ _, merge_cell now) l (m, false).
Proof.
  unfold range_flag. generalize false as c. revert m.
  induction l as [|[id info] l IH]; intros m c; [done|].
  cbn [foldl]. rewrite merge_entry_cell. apply IH.
Qed.

Definition gossip_flag (now Tfail Tsuspect : Z) (se : bool) (_ : Z) (info : Info)
    (o : option Info) : option Info * bool :=
  let r := gossip_cell now Tfail Tsuspect se info in
  (if decide (r.1 = info) then o else Some r.1, r.2).

Lemma set_state_ne s info : s ≠ State info → set_timestamp (Timestamp info) (set_state s info) ≠ info.
Proof. intros Hs Heq. apply Hs. by rewrite <- Heq. Qed.

Lemma gossip_entry_cell now Tf Ts se m c id info :
  gossip_entry now Tf Ts se (m, c) (id, info) =
    (partial_alter (λ o, (gossip_flag now Tf Ts se id info o).1) id m,
     c || (gossip_flag now Tf Ts se id info (m !! id)).2).
Proof.
  destruct info as [h p v t n s]. unfold gossip_flag, gossip_cell, gossip_entry; simpl.
  apply injective_projections; simpl.
  - apply map_eq; intros k. rewrite lookup_partial_alter.
    destruct (decide (id = k)) as [->|Hne]; destruct se, s;
      repeat (case_match || case_decide); simplify_eq/=; by simplify_map_eq.
  - destruct se, s; repeat (case_match || case_decide); simplify_eq/=;
      by rewrite ?orb_true_r, ?orb_false_r.
Qed.

Lemma gossip_loop_flag now Tf Ts se l m :
  foldl (gossip_entry now Tf Ts se) (m, false) l
  = range_flag (gossip_flag now Tf Ts se) l (m, false).
Proof.
  unfold range_flag. generalize false as c. revert m.
  induction l as [|[id info] l IH]; intros m c; [done|].
  cbn [foldl]. rewrite gossip_entry_cell. apply IH.
Qed.

Lemma lookup_gossip_loop now Tf Ts se m id :
  (foldl (gossip_entry now Tf Ts se) (m, false) (map_to_list m)).1 !! id
  = (λ info, (gossip_cell now Tf Ts se info).1) <$> m !! id.
Proof.
  rewrite gossip_loop_flag, (lookup_range_flag _ _ m) by done.
  destruct (m !! id) as [info|]; simpl; [|done]. case_decide; congruence.
Qed.

Lemma gossip_loop_changed now Tf Ts se m :
  (foldl (gossip_entry now Tf Ts se) (m, false) (map_to_list m)).2 = true ↔
  ∃ id info, m !! id = Some info ∧ (gossip_cell now Tf Ts se info).2 = true.
Proof. rewrite gossip_loop_flag. by rewrite (range_flag_true _ _ m). Qed.

Lemma lookup_cleanup now T m id :
  InfoMap (Cleanup now T m) !! id =
    match InfoMap m !! id with
    | Some info => if decide (stale now T (id, info)) then None else Some info
    | None => None
    end.
Proof.
  unfold Cleanup; simpl.
  transitivity (range_update (λ k v o, if decide (stale now T (k, v)) then None else o)
    (map_to_list (InfoMap m)) (InfoMap m) !! id).
  - f_equal. unfold range_update. generalize (InfoMap m) at 1 3 as im.
    induction (map_to_list (InfoMap m)) as [|[k v] l IH]; intros im; simpl; [done|].
    rewrite IH. f_equal. case_decide; [done|]. symmetry. by apply partial_alter_id.
  - rewrite (lookup_range_update _ _ (InfoMap m)) by done.
    destruct (InfoMap m !! id); [by case_decide|done].
Qed.

Lemma GetInfoMap_copy m : GetInfoMap m = InfoMap m.
Proof.
  apply map_eq. intros k. unfold GetInfoMap.
  transitivity (range_update (λ k v _, Some v) (map_to_list (InfoMap m)) (∅ : gmap Z Info) !! k);
    [done|].
  rewrite (lookup_range_update _ _ (InfoMap m)) by done.
  rewrite lookup_empty. by destruct (InfoMap m !! k).
Qed.

(** ** The invariant *)

(** The list gossip walks through has no duplicates, holds only members known
    and not [Failed], and the round-robin index points into it. *)
Record wf (m : Membership) : Prop := {
  wf_nodup : NoDup (Members m);
  wf_live id : id ∈ Members m → ∃ info, InfoMap m !! id = Some info ∧ State info ≠ Failed;
  wf_index : 0 <= roundRobinIndex m ∧
             (roundRobinIndex m = 0 ∨ roundRobinIndex m < Z.of_nat (length (Members m)));
}.

Lemma wf_rebuild rng im : wf (rebuild rng im).
Proof.
  split; simpl.
  - rewrite RandomPermutation_Permutation. apply NoDup_live_ids.
  - intros id. rewrite RandomPermutation_Permutation. apply elem_of_live_ids.
  - lia.
Qed.

(** Replacing the map keeps the invariant when no member of the list fails. *)
Lemma wf_same_list m im :
  wf m →
  (∀ id info, id ∈ Members m → InfoMap m !! id = Some info → State info ≠ Failed →
     ∃ info', im !! id = Some info' ∧ State info' ≠ Failed) →
  wf (mkMembership (Members m) im (roundRobinIndex m)).
Proof.
  intros [Hnd Hl Hi] Him. split; simpl; [done| |done].
  intros id Hid. destruct (Hl id Hid) as (info & Hinfo & Hs). eauto.
Qed.

Lemma lookup_Merge rng mi now m id :
  InfoMap (Merge rng mi now m).1 !! id =
    match mi !! id with
    | Some info => (merge_cell now info (InfoMap m !! id)).1
    | None => InfoMap m !! id
    end.
Proof.
  unfold Merge, merge_over. rewrite merge_loop_flag.
  rewrite <- (lookup_range_flag (λ _, merge_cell now) (map_to_list mi) mi (InfoMap m) false id) by done.
  by destruct (range_flag _ _ _) as [im []].
Qed.

Lemma wf_Merge rng mi now m : wf m → wf (Merge rng mi now m).1.
Proof.
  intros Hwf. unfold Merge, merge_over. rewrite merge_loop_flag.
  destruct (range_flag _ _ _) as [im c] eqn:E. destruct c; simpl; [apply wf_rebuild|].
  apply wf_same_list; [done|]. intros id info Hid Hinfo Hs.
  assert (im = (range_flag (λ _, merge_cell now) (map_to_list mi) (InfoMap m, false)).1)
    as -> by by rewrite E.
  rewrite (lookup_range_flag _ _ mi), Hinfo by done.
  destruct (mi !! id) as [i|] eqn:Hi; [|eauto].
  destruct (merge_cell now i (Some info)) as [o b] eqn:Hc.
  assert (b = false) as ->.
  { destruct b; [|done].
    assert ((range_flag (λ _, merge_cell now) (map_to_list mi) (InfoMap m, false)).2 = true)
      as Ht; [|by rewrite E in Ht].
    apply (range_flag_true _ _ mi); [done|]. exists id, i. by rewrite Hinfo, Hc. }
  simpl. revert Hc. unfold merge_cell.
  repeat case_match; intros; simplify_eq/=; eauto.
Qed.

Lemma gossip_cell_live now Tf Ts se info :
  State info ≠ Failed → (gossip_cell now Tf Ts se info).2 = false →
  State (gossip_cell now Tf Ts se info).1 ≠ Failed.
Proof. unfold gossip_cell. destruct info as [????? []], se; simpl; by repeat case_match. Qed.

Lemma wf_UpdateStateGossip rng now Tf Ts se m :
  wf m → wf (UpdateStateGossip rng now Tf Ts se m).1.
Proof.
  intros Hwf. unfold UpdateStateGossip.
  pose proof (gossip_loop_changed now Tf Ts se (InfoMap m)) as Hch.
  pose proof (lookup_gossip_loop now Tf Ts se (InfoMap m)) as Hlk.
  destruct (foldl _ _ _) as [im c]. destruct c; simpl; [apply wf_rebuild|].
  apply wf_same_list; [done|]. intros id info Hid Hinfo Hs.
  simpl in Hlk. rewrite Hlk, Hinfo. simpl. eexists. split; [done|].
  apply gossip_cell_live; [done|]. apply not_true_iff_false. intros Ht.
  assert (false = true); [|done]. apply Hch. eauto.
Qed.

Lemma wf_UpdateStateSwim rng now id st se m :
  wf m → wf (UpdateStateSwim rng now id st se m).1.
Proof.
  intros Hwf. unfold UpdateStateSwim. destruct (InfoMap m !! id) as [info|] eqn:Hid; [|done].
  case_decide; [|done].
  set (ns := if bool_decide (st = Suspected) && negb se then Failed else st).
  simpl. case_decide; simpl; [apply wf_rebuild|].
  apply wf_same_list; [done|]. intros id' info' _ Hid' Hs.
  destruct (decide (id = id')) as [->|]; simplify_map_eq; eauto.
Qed.

Lemma wf_Cleanup now T m : wf m → wf (Cleanup now T m).
Proof.
  intros Hwf. apply (wf_same_list m (InfoMap (Cleanup now T m))); [done|].
  intros id info _ Hid Hs. rewrite lookup_cleanup, Hid. unfold stale; simpl.
  rewrite decide_False by (intros [? _]; done). eauto.
Qed.

Lemma remove_first_sublist id l : remove_first id l `sublist_of` l.
Proof.
  induction l as [|x l IH]; simpl; [done|].
  case_decide; [by apply sublist_cons|by apply sublist_skip].
Qed.

Lemma remove_first_notin id l : NoDup l → id ∉ remove_first id l.
Proof.
  induction l as [|x l IH]; simpl; [intros _; apply not_elem_of_nil|].
  intros [Hx Hl]%NoDup_cons. case_decide as Hd; [by subst|].
  apply not_elem_of_cons. auto.
Qed.

Lemma wf_RemoveMember rng id m : wf m → wf (RemoveMember rng id m).
Proof.
  intros [Hnd Hl Hi].
  assert (∀ x, x ∈ remove_first id (Members m) →
    ∃ info, delete id (InfoMap m) !! x = Some info ∧ State info ≠ Failed) as Hlive.
  { intros x Hx. destruct (Hl x) as (info & Hinfo & Hs).
    - by eapply elem_of_sublist; [|apply remove_first_sublist].
    - exists info. split; [|done]. rewrite lookup_delete_ne; [done|].
      intros ->. by eapply remove_first_notin. }
  assert (NoDup (remove_first id (Members m))) as Hnd'
    by (eapply sublist_NoDup; [done|apply remove_first_sublist]).
  unfold RemoveMember. destruct (Z.leb_spec (Z.of_nat (length (remove_first id (Members m))))
    (roundRobinIndex m)); split; simpl; try done; try lia.
  - by rewrite RandomPermutation_Permutation.
  - intros x. rewrite RandomPermutation_Permutation. apply Hlive.
Qed.

Lemma wf_GetTarget rng m : wf m → wf (GetTarget rng m).2.
Proof.
  intros Hwf. unfold GetTarget. destruct (Members m) as [|x l] eqn:El; [done|].
  rewrite <- El. destruct (Z.ltb_spec (roundRobinIndex m) 0); [done|].
  destruct (Members m !! _) as [id|] eqn:Hid; [|done].
  destruct (InfoMap m !! id) as [info|] eqn:Hinfo; [|done].
  destruct Hwf as [Hnd Hl Hi]. apply lookup_lt_Some in Hid.
  case_decide; split; simpl; try done; try lia.
  - by rewrite RandomPermutation_Permutation.
  - intros y. rewrite RandomPermutation_Permutation. apply Hl.
Qed.

Lemma wf_Heartbeat id now m m' : wf m → Heartbeat id now m = Ok m' → wf m'.
Proof.
  intros Hwf. unfold Heartbeat. destruct (InfoMap m !! id) as [info|] eqn:Hid; [|done].
  case_decide; [done|]. intros [= <-]. apply wf_same_list; [done|].
  intros id' info' _ Hid' Hs. destruct (decide (id = id')) as [->|]; simplify_map_eq; eauto.
Qed.

Lemma wf_Reset `{!GoEnv} now h p : wf (Reset now h p).
Proof.
  split; simpl.
  - apply NoDup_singleton.
  - intros id ->%list_elem_of_singleton. rewrite lookup_singleton_eq. eauto.
  - lia.
Qed.

#[export] Hint Resolve wf_Merge wf_UpdateStateGossip wf_UpdateStateSwim wf_Cleanup
  wf_RemoveMember wf_GetTarget wf_Reset wf_rebuild : golist.

(** ** Every history of a node's membership *)

Section history.
Context `{!GoEnv}.

(** One method call, with whatever arguments and random numbers. *)
Inductive mstep : Membership → Membership → Prop :=
  | step_merge rng mi now m : mstep m (Merge rng mi now m).1
  | step_gossip rng now Tf Ts se m : mstep m (UpdateStateGossip rng now Tf Ts se m).1
  | step_swim rng now id st se m : mstep m (UpdateStateSwim rng now id st se m).1
  | step_cleanup now T m : mstep m (Cleanup now T m)
  | step_remove rng id m : mstep m (RemoveMember rng id m)
  | step_target rng m : mstep m (GetTarget rng m).2
  | step_heartbeat id now m m' : Heartbeat id now m = Ok m' → mstep m m'
  | step_reset now h p m : mstep m (Reset now h p).

Definition minit (m : Membership) : Prop := ∃ now h p, m = Reset now h p.

Lemma reachable_wf m : reachable minit mstep m → wf m.
Proof.
  revert m. apply reachable_invariant.
  - intros m (now & h & p & ->). apply wf_Reset.
  - intros a b Hwf Hst. destruct Hst; eauto with golist. by eapply wf_Heartbeat.
Qed.
End history.

(** * Properties *)

(** [n] calls of [GetTarget], each with its own random numbers. *)
Fixpoint targets (rngs : nat → nat → N) (n : nat) (m : Membership) :
    list (TargetError + Info) * Membership :=
  match n with
  | O => ([], m)
  | S n' =>
      let '(r, m1) := GetTarget (rngs n) m in
      let '(rs, m2) := targets rngs n' m1 in (r :: rs, m2)
  end.

Lemma GetTarget_at rng m i id :
  wf m → roundRobinIndex m = Z.of_nat i → Members m !! i = Some id →
  GetTarget rng m =
    (inr (info_of (InfoMap m) id),
     if decide (S i = length (Members m))
     then mkMembership (RandomPermutation rng (Members m)) (InfoMap m) 0
     else mkMembership (Members m) (InfoMap m) (Z.of_nat (S i))).
Proof.
  intros Hwf Hi Hid. unfold GetTarget.
  destruct (Members m) as [|x l] eqn:El; [done|]. rewrite <- El in *.
  destruct (Z.ltb_spec (roundRobinIndex m) 0); [lia|].
  rewrite Hi, Nat2Z.id, Hid.
  destruct (wf_live _ Hwf id) as (info & Hinfo & _).
  { apply list_elem_of_lookup. eauto. }
  unfold info_of. rewrite Hinfo. simpl.
  replace (Z.of_nat i + 1) with (Z.of_nat (S i)) by lia.
  destruct (decide (S i = length (Members m))).
  - by rewrite decide_True by lia.
  - by rewrite decide_False by lia.
Qed.

Lemma targets_from rngs m k i :
  wf m → roundRobinIndex m = Z.of_nat i → (i + k = length (Members m))%nat → (0 < k)%nat →
  (targets rngs k m).1 = (λ id, inr (info_of (InfoMap m) id)) <$> drop i (Members m).
Proof.
  revert m i; induction k as [|k IH]; intros m i Hwf Hi Hlen Hk; [lia|].
  destruct (lookup_lt_is_Some_2 (Members m) i) as [id Hid]; [lia|].
  rewrite (drop_S (Members m) id i Hid). cbn [targets].
  pose proof (wf_GetTarget (rngs (S k)) m Hwf) as Hwf'. revert Hwf'.
  rewrite (GetTarget_at _ m i id) by done. cbn [snd]. intros Hwf'.
  destruct k as [|k].
  - simpl. rewrite drop_ge by lia. done.
  - rewrite decide_False in * by lia.
    specialize (IH _ (S i) Hwf' eq_refl). cbn [Members InfoMap] in IH.
    rewrite fmap_cons, <- IH by lia. by destruct (targets _ _ _).
Qed.

(** In every reachable membership state the list gossip walks through has
    no duplicates, lists only known members that are not [Failed], and the
    round-robin index points into it. *)
Theorem membership_invariant `{!GoEnv} (m : Membership) :
  reachable minit mstep m →
  NoDup (Members m) ∧
  (∀ id, id ∈ Members m → ∃ info, InfoMap m !! id = Some info ∧ State info ≠ Failed) ∧
  0 <= roundRobinIndex m ∧
  (roundRobinIndex m = 0 ∨ roundRobinIndex m < Z.of_nat (length (Members m))).
Proof. intros Hm%reachable_wf. destruct Hm; auto. Qed.

(** In a reachable state [GetTarget] never finds an inconsistent
    membership and never panics: it fails only on an empty list, and otherwise
    returns what is known of a live member of the list. *)
Theorem GetTarget_succeeds `{!GoEnv} (m : Membership) (rng : nat → N) :
  reachable minit mstep m →
  ((GetTarget rng m).1 = inl NoMember ∧ Members m = []) ∨
  (∃ id info, id ∈ Members m ∧ InfoMap m !! id = Some info ∧ State info ≠ Failed ∧
     (GetTarget rng m).1 = inr info).
Proof.
  intros Hwf%reachable_wf. destruct (Members m) as [|x l] eqn:El.
  { left. unfold GetTarget. by rewrite El. }
  right. pose proof (wf_index _ Hwf) as Hidx. rewrite El in Hidx. simpl in Hidx.
  destruct (lookup_lt_is_Some_2 (Members m) (Z.to_nat (roundRobinIndex m))) as [id Hid].
  { rewrite El. simpl. lia. }
  destruct (wf_live _ Hwf id) as (info & Hinfo & Hs).
  { apply list_elem_of_lookup. eauto. }
  exists id, info. split_and!; [|done|done|].
  { rewrite <- El. apply list_elem_of_lookup. eauto. }
  rewrite (GetTarget_at rng m (Z.to_nat (roundRobinIndex m)) id) by (auto; lia).
  simpl. unfold info_of. by rewrite Hinfo.
Qed.

(** From the start of a round, as many calls of [GetTarget] as there are
    members reach every member exactly once, in the order of the list: a
    member is probed within two rounds, the bound SWIM's completeness rests on. *)
Theorem round_robin_covers (rngs : nat → nat → N) (m : Membership) :
  wf m → roundRobinIndex m = 0 →
  (targets rngs (length (Members m)) m).1
  = (λ id, inr (info_of (InfoMap m) id)) <$> Members m.
Proof.
  intros Hwf Hi. destruct (Members m) as [|x l] eqn:El; [done|].
  rewrite <- El. rewrite (targets_from _ _ _ 0) by (rewrite ?El; simpl; auto with lia).
  done.
Qed.

(** C34: [Merge] treats every entry on its own, whatever the order in which the
    incoming map is visited: the entry becomes what [merge_cell] says, and the
    call reports a change exactly when some entry is new or newly failed. *)
Theorem Merge_order (rng : nat → N) (mi : gmap Z Info) (now : Z) (m : Membership)
    (l : list (Z * Info)) :
  l ≡ₚ map_to_list mi →
  merge_over rng l now m = Merge rng mi now m ∧
  (∀ id, InfoMap (merge_over rng l now m).1 !! id =
     match mi !! id with
     | Some info => (merge_cell now info (InfoMap m !! id)).1
     | None => InfoMap m !! id
     end) ∧
  ((merge_over rng l now m).2 = true ↔
     ∃ id info, mi !! id = Some info ∧ (merge_cell now info (InfoMap m !! id)).2 = true).
Proof.
  intros Hl. split_and!.
  - unfold Merge, merge_over. rewrite !merge_loop_flag.
    by rewrite (range_flag_order _ l (map_to_list mi) mi).
  - intros id. rewrite <- (lookup_range_flag (λ _, merge_cell now) l mi _ false) by done.
    unfold merge_over. rewrite merge_loop_flag.
    by destruct (range_flag _ _ _) as [im []].
  - rewrite <- (range_flag_true (λ _, merge_cell now) l mi) by done.
    unfold merge_over. rewrite merge_loop_flag.
    by destruct (range_flag _ _ _) as [im []].
Qed.

Lemma merge_cell_idem now now' info o :
  merge_cell now' info (merge_cell now info o).1 = ((merge_cell now info o).1, false).
Proof.
  unfold merge_cell. destruct (valid_info info); [|done].
  destruct o as [mem|]; repeat (case_decide || case_match || simpl in *);
    simplify_eq/=; try done; lia.
Qed.

(** Receiving the same membership map a second time changes nothing and
    reports no change, so duplicated gossip messages are harmless. *)
Lemma Merge_idempotent (rng rng' : nat → N) (mi : gmap Z Info) (now now' : Z)
    (m : Membership) :
  Merge rng' mi now' (Merge rng mi now m).1 = ((Merge rng mi now m).1, false).
Proof.
  set (m1 := (Merge rng mi now m).1).
  assert (∀ id, InfoMap m1 !! id =
    match mi !! id with
    | Some info => (merge_cell now info (InfoMap m !! id)).1 | None => InfoMap m !! id end)
    as Hlk.
  { intros id. rewrite <- (lookup_range_flag (λ _, merge_cell now) (map_to_list mi) mi _ false)
      by done.
    subst m1. unfold Merge, merge_over. rewrite merge_loop_flag.
    by destruct (range_flag _ _ _) as [im []]. }
  unfold Merge, merge_over. rewrite merge_loop_flag.
  destruct (range_flag _ _ _) as [im2 c2] eqn:E2.
  assert (im2 = InfoMap m1) as ->.
  { apply map_eq. intros id.
    replace im2 with (range_flag (λ _, merge_cell now') (map_to_list mi) (InfoMap m1, false)).1
      by by rewrite E2.
    rewrite (lookup_range_flag _ _ mi) by done. rewrite Hlk.
    destruct (mi !! id); [by rewrite merge_cell_idem|done]. }
  assert (c2 = false) as ->.
  { apply not_true_iff_false. intros ->.
    assert ((range_flag (λ _, merge_cell now') (map_to_list mi) (InfoMap m1, false)).2 = true)
      as Ht by by rewrite E2.
    apply (range_flag_true _ _ mi) in Ht as (id & info & Hin & Hc); [|done].
    by rewrite Hlk, Hin, merge_cell_idem in Hc. }
  by destruct m1.
Qed.

Lemma lookup_UpdateStateGossip rng now Tf Ts se m id :
  InfoMap (UpdateStateGossip rng now Tf Ts se m).1 !! id
  = (λ info, (gossip_cell now Tf Ts se info).1) <$> InfoMap m !! id.
Proof.
  rewrite <- lookup_gossip_loop. unfold UpdateStateGossip.
  by destruct (foldl _ _ _) as [im []].
Qed.

(** Without suspicion a failure-detection round fails exactly the [Alive]
    entries that were not refreshed for more than [Tfail]: they become [Failed]
    at the time of the round and leave the member list; every other entry is
    left as it is. *)
Theorem gossip_detection (rng : nat → N) (now Tfail Tsuspect id : Z) (m : Membership)
    (info : Info) :
  wf m → 0 <= Tfail < two63 - 1 → InfoMap m !! id = Some info →
  let m' := (UpdateStateGossip rng now Tfail Tsuspect false m).1 in
  (State info = Alive → now - Timestamp info > Tfail →
     InfoMap m' !! id = Some (set_timestamp now (set_state Failed info)) ∧
     id ∉ Members m') ∧
  (State info ≠ Alive ∨ now - Timestamp info <= Tfail → InfoMap m' !! id = Some info).
Proof.
  intros Hwf HT Hid m'.
  assert (InfoMap m' !! id = Some (gossip_cell now Tfail Tsuspect false info).1) as Hlk
    by (subst m'; by rewrite lookup_UpdateStateGossip, Hid).
  pose proof (time_sub_pos now (Timestamp info) Tfail HT) as Hsub.
  split.
  - intros Hs Hel. assert (InfoMap m' !! id = Some (set_timestamp now (set_state Failed info)))
      as Hf.
    { rewrite Hlk. unfold gossip_cell. rewrite Hs. destruct (Z.ltb_spec Tfail
        (time_sub now (Timestamp info))); [done|]. lia. }
    split; [done|]. intros Hin.
    destruct (wf_live m' (wf_UpdateStateGossip rng now Tfail Tsuspect false m Hwf) id Hin)
      as (i & Hi & Hsi). rewrite Hf in Hi. by simplify_eq.
  - intros H. rewrite Hlk. unfold gossip_cell.
    destruct (State info) eqn:Hs; [|done|done].
    destruct (Z.ltb_spec Tfail (time_sub now (Timestamp info))); [|done].
    destruct H; [done|]. lia.
Qed.

(** With suspicion a silent member passes through [Suspected]: a round more
    than [Tsuspect] after its last refresh suspects it and keeps it in the
    list, a round more than [Tfail] after that fails it and drops it. *)
Theorem suspicion_detection (rng rng' : nat → N) (t1 t2 Tfail Tsuspect id : Z)
    (m : Membership) (info : Info) :
  wf m → 0 <= Tfail < two63 - 1 → 0 <= Tsuspect < two63 - 1 →
  InfoMap m !! id = Some info → State info = Alive →
  t1 - Timestamp info > Tsuspect → t2 - t1 > Tfail →
  let m1 := (UpdateStateGossip rng t1 Tfail Tsuspect true m).1 in
  let m2 := (UpdateStateGossip rng' t2 Tfail Tsuspect true m1).1 in
  InfoMap m1 !! id = Some (set_timestamp t1 (set_state Suspected info)) ∧
  InfoMap m2 !! id = Some (set_timestamp t2 (set_state Failed info)) ∧
  id ∉ Members m2.
Proof.
  intros Hwf HTf HTs Hid Hs H1 H2 m1 m2.
  assert (InfoMap m1 !! id = Some (set_timestamp t1 (set_state Suspected info))) as Hm1.
  { subst m1. rewrite lookup_UpdateStateGossip, Hid. simpl. unfold gossip_cell. rewrite Hs.
    pose proof (time_sub_pos t1 (Timestamp info) Tsuspect HTs).
    destruct (Z.ltb_spec Tsuspect (time_sub t1 (Timestamp info))); [done|lia]. }
  assert (InfoMap m2 !! id = Some (set_timestamp t2 (set_state Failed info))) as Hm2.
  { subst m2. rewrite lookup_UpdateStateGossip, Hm1. simpl. unfold gossip_cell. simpl.
    pose proof (time_sub_pos t2 t1 Tfail HTf).
    destruct (Z.ltb_spec Tfail (time_sub t2 t1)); [done|lia]. }
  split_and!; [done..|]. intros Hin.
  assert (wf m2) as Hwf2 by (subst m1 m2; by apply wf_UpdateStateGossip, wf_UpdateStateGossip).
  destruct (wf_live _ Hwf2 id Hin) as (i & Hi & Hsi). rewrite Hm2 in Hi. by simplify_eq.
Qed.

(** When a merge rebuilds the list. *)
Definition changes (m mi : gmap Z Info) : Prop :=
  ∃ id info, mi !! id = Some info ∧ valid_info info = true ∧
    ((m !! id = None ∧ State info ≠ Failed) ∨
     ∃ member, m !! id = Some member ∧ State info = Failed ∧ State member ≠ Failed).

Lemma merge_cell_flag now info o :
  (merge_cell now info o).2 = true ↔
    valid_info info = true ∧
    ((o = None ∧ State info ≠ Failed) ∨
     ∃ member, o = Some member ∧ State info = Failed ∧ State member ≠ Failed).
Proof.
  unfold merge_cell. destruct (valid_info info); [|naive_solver].
  destruct o as [member|]; repeat case_decide; try case_match; naive_solver.
Qed.

Lemma Merge_changes rng mi now m :
  ((Merge rng mi now m).2 = true ↔ changes (InfoMap m) mi) ∧
  if (Merge rng mi now m).2 then ∀ id, id ∈ Members (Merge rng mi now m).1 ↔ ∃ info,
       InfoMap (Merge rng mi now m).1 !! id = Some info ∧ State info ≠ Failed
  else Members (Merge rng mi now m).1 = Members m.
Proof.
  unfold Merge, merge_over. rewrite merge_loop_flag. split.
  - transitivity ((range_flag (λ _, merge_cell now) (map_to_list mi) (InfoMap m, false)).2 = true).
    { by destruct (range_flag _ _ _) as [im []]. }
    rewrite (range_flag_true _ _ mi) by done. unfold changes.
    split; intros (id & info & Hin & Hc); exists id, info; (split; [done|]); by apply merge_cell_flag in Hc || apply merge_cell_flag.
  - destruct (range_flag _ _ _) as [im []]; simpl; [|done].
    intros id. rewrite RandomPermutation_Permutation. apply elem_of_live_ids.
Qed.

(** C40: News of a failed member with a higher counter revives its entry but
    does not by itself bring the member back to the list: whatever else the
    message holds, the entry is no longer [Failed], and the member is in
    [Members] again exactly if the same message makes some other member join or
    fail, which is when the list is rebuilt. *)
Theorem Merge_revival (rng : nat → N) (now id : Z) (m : Membership) (mi : gmap Z Info) (member info : Info) :
  wf m → InfoMap m !! id = Some member → State member = Failed →
  mi !! id = Some info → valid_info info = true → State info ≠ Failed → Counter member < Counter info →
  let r := Merge rng mi now m in
  InfoMap r.1 !! id = Some (set_timestamp now info) ∧
  (id ∈ Members r.1 ↔ changes (InfoMap m) (delete id mi)) ∧
  (¬ changes (InfoMap m) (delete id mi) → r.2 = false ∧ Members r.1 = Members m).
Proof.
  intros Hwf Hid Hf Hmi Hv Hs Hc r.
  assert (InfoMap r.1 !! id = Some (set_timestamp now info)) as Hr.
  { unfold r. rewrite lookup_Merge, Hmi, Hid. unfold merge_cell. rewrite Hv, decide_False by done.
    by destruct (Z.ltb_spec (Counter member) (Counter info)); [|lia]. }
  assert (changes (InfoMap m) mi ↔ changes (InfoMap m) (delete id mi)) as Hch.
  { split; intros (id' & i & Hi & Hvi & Hor).
    - exists id', i. split; [|done]. rewrite lookup_delete_ne; [done|]. intros <-. naive_solver.
    - apply lookup_delete_Some in Hi as [_ Hi]. by exists id', i. }
  assert (id ∉ Members m) as Hout.
  { intros Hin. destruct (wf_live _ Hwf id Hin) as (i & Hi & Hsi). congruence. }
  destruct (Merge_changes rng mi now m) as [Hfl Hmem]. fold r in Hfl, Hmem. rewrite Hch in Hfl.
  split; [done|]. destruct r.2.
  - assert (changes (InfoMap m) (delete id mi)) as Hyes by by apply Hfl.
    split; [|done]. split; [done|]. intros _. apply Hmem. by exists (set_timestamp now info).
  - assert (¬ changes (InfoMap m) (delete id mi)) as Hno by (intros H; by apply Hfl in H).
    rewrite Hmem. by split.
Qed.

(** ** The properties at concrete inputs *)

Definition demo_rng : nat → N := λ i, N.of_nat (7 * i + 3).

Definition demo_incoming : gmap Z Info :=
  {[ 11 := mkInfo "node2" 8081 1 1 4 Alive; 12 := mkInfo "node3" 8081 1 1 9 Alive ]}.

Definition demo_start : Membership := Reset (H := poly_env) 0 "node1" 8081.

Definition demo_members : Membership := (Merge demo_rng demo_incoming 10 demo_start).1.

Lemma demo_reachable : reachable (minit (H := poly_env)) (mstep (H := poly_env)) demo_members.
Proof.
  apply (reachable_step _ _ demo_start).
  - apply reachable_init. by exists 0, "node1", 8081.
  - apply step_merge.
Defined.

Lemma demo_wf : wf demo_members.
Proof. apply (reachable_wf (H := poly_env)), demo_reachable. Qed.

Lemma membership_invariant_witness :
  length (Members demo_members) = 3%nat ∧ NoDup (Members demo_members).
Proof.
  split; [vm_compute; reflexivity|].
  exact (proj1 (membership_invariant (H := poly_env) demo_members demo_reachable)).
Defined.

Lemma GetTarget_succeeds_witness :
  ∃ id info, InfoMap demo_members !! id = Some info ∧
    (GetTarget demo_rng demo_members).1 = inr info.
Proof.
  destruct (GetTarget_succeeds (H := poly_env) demo_members demo_rng demo_reachable)
    as [[_ Hnil]|(id & info & _ & Hi & _ & Ht)].
  - exfalso. vm_compute in Hnil. discriminate Hnil.
  - exists id, info. split; assumption.
Defined.

Lemma round_robin_covers_witness :
  (targets (λ _, demo_rng) 3 demo_members).1
  = (λ id, inr (info_of (InfoMap demo_members) id)) <$> Members demo_members.
Proof.
  exact (round_robin_covers (λ _, demo_rng) demo_members demo_wf ltac:(vm_compute; reflexivity)).
Defined.

Lemma Merge_order_witness :
  merge_over demo_rng (reverse (map_to_list demo_incoming)) 10 demo_start
  = Merge demo_rng demo_incoming 10 demo_start.
Proof.
  exact (proj1 (Merge_order demo_rng demo_incoming 10 demo_start _
    (reverse_Permutation (map_to_list demo_incoming)))).
Defined.

Lemma gossip_detection_witness :
  11 ∉ Members (UpdateStateGossip demo_rng 60 40 40 false demo_members).1.
Proof.
  refine (proj2 (proj1 (gossip_detection demo_rng 60 40 40 11 demo_members
    (mkInfo "node2" 8081 1 10 4 Alive) demo_wf _ _) _ _)).
  - unfold two63. lia.
  - vm_compute; reflexivity.
  - reflexivity.
  - simpl. lia.
Defined.

Lemma suspicion_detection_witness :
  11 ∉ Members (UpdateStateGossip demo_rng 110 40 40 true
                  (UpdateStateGossip demo_rng 60 40 40 true demo_members).1).1.
Proof.
  refine (proj2 (proj2 (suspicion_detection demo_rng demo_rng 60 110 40 40 11 demo_members
    (mkInfo "node2" 8081 1 10 4 Alive) demo_wf _ _ _ _ _ _))); unfold two63;
    try (vm_compute; reflexivity); simpl; lia.
Defined.

Definition demo_failed : Membership :=
  (UpdateStateGossip demo_rng 60 40 40 false demo_members).1.

(** The whole list is gossiped: the member comes back with a newcomer in the
    same message and stays out without. *)
Lemma Merge_revival_witness :
  let revived := mkInfo "node2" 8081 1 1 5 Alive in
  let newcomer := mkInfo "node4" 8081 1 1 1 Alive in
  11 ∉ Members (Merge demo_rng {[ 11 := revived; 12 := mkInfo "node3" 8081 1 1 10 Alive ]} 61 demo_failed).1 ∧
  11 ∈ Members (Merge demo_rng {[ 11 := revived; 13 := newcomer ]} 61 demo_failed).1.
Proof.
  intros revived newcomer.
  assert (wf demo_failed) as Hwf by apply wf_UpdateStateGossip, demo_wf.
  split.
  - intros Hin.
    destruct (Merge_revival demo_rng 61 11 demo_failed {[ 11 := revived; 12 := mkInfo "node3" 8081 1 1 10 Alive ]}
      (mkInfo "node2" 8081 1 60 4 Failed) revived Hwf) as (_ & H & _); try (vm_compute; reflexivity); [done|].
    apply H in Hin as (id & i & Hi & _ & Hor). apply lookup_delete_Some in Hi as [Hne Hi].
    rewrite lookup_insert_ne in Hi by done. apply lookup_singleton_Some in Hi as [<- <-].
    destruct Hor as [[Hor _]|(x & _ & Hor & _)]; [vm_compute in Hor; discriminate Hor|done].
  - destruct (Merge_revival demo_rng 61 11 demo_failed {[ 11 := revived; 13 := newcomer ]}
      (mkInfo "node2" 8081 1 60 4 Failed) revived Hwf) as (_ & H & _); try (vm_compute; reflexivity); [done|].
    apply H. exists 13, newcomer. split; [vm_compute; reflexivity|]. split; [vm_compute; reflexivity|].
    left. split; [vm_compute; reflexivity|done].
Defined.
