(* ===== verification/Tables.v ===== *)
(** * Tables: how a membership is printed, [pkg/membership/member.go]

    [Table] shows the members of the list, [WholeTable] every entry of the map,
    [String] one line per member.  A row is the list of its seven cells.  The
    order of a range over the map is an argument; [sort.Slice] is [merge_sort],
    which differs from it only in rows of the same host and port. *)

From S2P Require Import Prelude GoStrings Env Membership.

Section tables.
Context `{!GoEnv}.

Definition cells (id : Z) (info : Info) : list string :=
  [itoa id; Hostname info; itoa (Port info); format_rfc3339 (Version info);
   format_rfc3339 (Timestamp info); itoa (Counter info); stateName (State info)].

Definition headers : list string := ["ID"; "Hostname"; "Port"; "Version"; "Timestamp"; "Counter"; "State"].

(** [maxLengths] before the loop, and after it. *)
Definition initial_widths : list nat := [2; 8; 4; 7; 9; 7; 5]%nat.

Definition widen (widths : list nat) (row : list string) : list nat :=
  zip_with (λ w c, Nat.max w (String.length c)) widths row.

Definition widths (rows : list (list string)) : list nat := foldl widen initial_widths rows.

(** A cell filled up with blanks; [len] counts bytes. *)
Definition fill (w : nat) (s : string) : string := s +:+ repeat_string " " (w - String.length s).

Definition line (ws : list nat) (row : list string) : string :=
  "| " +:+ join " | " (zip_with fill ws row) +:+ " |".

Definition totalLength (ws : list nat) : nat := 22 + foldr Nat.add 0%nat ws.

Definition table_lines (rows : list (list string)) : list string :=
  let ws := widths rows in
  let rule := repeat_string "-" (totalLength ws) in
  [rule; line ws headers; rule] ++ (line ws <$> rows) ++ [rule].

Definition table_text (rows : list (list string)) : string :=
  join "" ((λ l, l +:+ nl) <$> table_lines rows).

(** The rows by host, then port. *)
Definition row_le (p q : Z * Info) : Prop :=
  String.ltb (Hostname p.2) (Hostname q.2) = true ∨
  (Hostname p.2 = Hostname q.2 ∧ Port p.2 <= Port q.2).
#[export] Instance row_le_dec p q : Decision (row_le p q).
Proof. unfold row_le. apply _. Defined.

Definition rows_of (entries : list (Z * Info)) : list (list string) :=
  (λ e, cells e.1 e.2) <$> merge_sort row_le entries.

Definition Table (m : Membership) : string :=
  table_text (rows_of ((λ id, (id, info_of (InfoMap m) id)) <$> Members m)).

(** [order] visits the map. *)
Definition WholeTable (order : list (Z * Info)) : string := table_text (rows_of order).

(** [String] *)
Definition member_string (id : Z) (info : Info) : string :=
  "ID: " +:+ itoa id +:+ ", Hostname: " +:+ Hostname info +:+ ", Port: " +:+ itoa (Port info) +:+
  ", Version: " +:+ format_rfc3339 (Version info) +:+ ", Timestamp: " +:+ format_rfc3339 (Timestamp info) +:+
  ", Counter: " +:+ itoa (Counter info) +:+ ", State: " +:+ stateName (State info) +:+ nl.

Definition Membership_String (m : Membership) : string :=
  "Membership:" +:+ nl +:+ join "" ((λ id, member_string id (info_of (InfoMap m) id)) <$> Members m).

(** ** Every line is as long as the table is wide *)

Lemma repeat_length s n : String.length (repeat_string s n) = (n * String.length s)%nat.
Proof. induction n as [|n IH]; simpl; [done|]. by rewrite app_length_str, IH. Qed.

Lemma fill_length w s : (String.length s ≤ w)%nat → String.length (fill w s) = w.
Proof. intros Hs. unfold fill. rewrite app_length_str, repeat_length. simpl. lia. Qed.

(** The cells of a row fit their columns. *)
Definition fits (ws : list nat) (row : list string) : Prop := Forall2 (λ w c, (String.length c ≤ w)%nat) ws row.

Lemma widen_grows ws row :
  length ws = length row → Forall2 le ws (widen ws row) ∧ fits (widen ws row) row.
Proof.
  unfold fits, widen. revert row. induction ws as [|w ws IH]; intros [|c row] Hl; try done; simpl.
  destruct (IH row ltac:(simpl in Hl; lia)). split; (constructor; [lia|done]).
Qed.

Lemma fits_trans ws ws' row : Forall2 le ws ws' → fits ws row → fits ws' row.
Proof.
  intros Hw. revert row. induction Hw as [|w w' ws ws' Hle Hw IH]; intros row Hf; inversion Hf; subst;
    constructor; [lia|]. by apply IH.
Qed.

Lemma widths_fit rows ws :
  Forall (λ r, length r = length ws) rows →
  Forall2 le ws (foldl widen ws rows) ∧ Forall (fits (foldl widen ws rows)) rows.
Proof.
  revert ws. induction rows as [|r rows IH]; intros ws Hr; simpl.
  - split; [|constructor]. induction ws; constructor; auto.
  - apply Forall_cons in Hr as [Hr Hrows]. destruct (widen_grows ws r ltac:(lia)) as [Hle Hfit].
    destruct (IH (widen ws r)) as [Hle' Hall].
    { eapply Forall_impl; [exact Hrows|]. simpl. intros x Hx. unfold widen. rewrite length_zip_with. lia. }
    split; [by transitivity (widen ws r)|]. constructor; [by eapply fits_trans|done].
Qed.

Lemma line_length a b c d e f g row :
  fits [a; b; c; d; e; f; g] row → String.length (line [a; b; c; d; e; f; g] row) = totalLength [a; b; c; d; e; f; g].
Proof.
  intros Hf. unfold fits in Hf.
  repeat (let H1 := fresh in let H2 := fresh in
          inversion Hf as [|? ? ? ? H1 H2]; subst; clear Hf; rename H2 into Hf). inversion Hf; subst.
  unfold line, totalLength. simpl. repeat (rewrite app_length_str; simpl). rewrite !fill_length by done. lia.
Qed.

Lemma cells_length id info : length (cells id info) = length initial_widths.
Proof. done. Qed.

(** C36: a printed table is rectangular: every line, the header and the rules
    included, is as long as the columns that fit all cells add up to; there is
    one row per member of the list, ordered by host and port. *)
Theorem table_rectangular (m : Membership) :
  let entries := merge_sort row_le ((λ id, (id, info_of (InfoMap m) id)) <$> Members m) in
  let rows := (λ e, cells e.1 e.2) <$> entries in
  Table m = join "" ((λ l, l +:+ nl) <$> table_lines rows) ∧
  Forall (λ l, String.length l = totalLength (widths rows)) (table_lines rows) ∧
  length (table_lines rows) = (length (Members m) + 4)%nat ∧
  Forall (fits (widths rows)) rows ∧
  entries.*1 ≡ₚ Members m ∧ Sorted row_le entries.
Proof.
  intros entries rows. split; [done|].
  assert (Forall (λ r, length r = length initial_widths) rows) as Hlen.
  { apply Forall_fmap, Forall_forall. intros e _. apply cells_length. }
  destruct (widths_fit rows initial_widths Hlen) as [Hle Hfit]. fold (widths rows) in Hle, Hfit.
  assert (fits initial_widths headers) as Hh by (repeat constructor).
  assert (entries.*1 ≡ₚ Members m) as Hperm.
  { subst entries. rewrite merge_sort_Permutation, <- list_fmap_compose.
    by rewrite (list_fmap_ext _ id) by done; rewrite list_fmap_id. }
  split_and!; [|..|done|].
  - destruct (widths rows) as [|a [|b [|c [|d [|e [|f [|g [|]]]]]]]] eqn:Hw;
      pose proof (Forall2_length _ _ _ Hle) as Hl; try discriminate Hl.
    unfold table_lines. rewrite Hw. repeat constructor.
    + by rewrite repeat_length, Nat.mul_1_r.
    + apply line_length. by eapply fits_trans.
    + by rewrite repeat_length, Nat.mul_1_r.
    + apply Forall_app. split; [|repeat constructor; by rewrite repeat_length, Nat.mul_1_r].
      apply Forall_fmap. eapply Forall_impl; [exact Hfit|]. intros r. apply line_length.
  - unfold table_lines. simpl. rewrite length_app, length_fmap. simpl. unfold rows. rewrite length_fmap.
    rewrite <- Hperm, length_fmap. lia.
  - done.
  - subst entries. apply Sorted_merge_sort. intros p q. unfold row_le.
    destruct (ltb_trichotomy (Hostname p.2) (Hostname q.2)) as [?|[?|?]]; [by left; left| |by right; left].
    destruct (Z.le_gt_cases (Port p.2) (Port q.2)); [left; by right|right; right; split; [done|lia]].
Qed.
End tables.
