(* ===== verification/Swim.v ===== *)
(** * Swim: the detection protocols of [pkg/membership]

    [utils.go] gives the messages, [swim.go] the ping protocol with indirect
    pings, [gossip.go] the heartbeat protocol, [flow.go] the counter of the
    bytes sent.  A datagram is sent or refused by [udp], which gives the
    number of bytes; random numbers are arguments.  [None] is the exit of the
    process. *)

From S2P Require Import Prelude GoStrings Env Membership.

(** ** utils.go *)

Inductive MessageType :=
  | Ping | Pong | PingReq | GossipMsg | Probe | ProbeAckGossip | ProbeAckSwim
  | UseSwimSus | UseSwimNoSus | UseGossipSus | UseGossipNoSus | Leave.

#[export] Instance MessageType_eq_dec : EqDecision MessageType.
Proof. solve_decision. Defined.

Record Message := mkMessage {
  Type_ : MessageType;
  SenderInfo : Info;
  TargetInfo : Info;
  RequesterInfo : Info;
  msg_InfoMap : gmap Z Info;
}.

Definition udp_address (hostname : string) (port : Z) : string := hostname +:+ ":" +:+ itoa port.

(** What was sent, and the number of bytes. *)
Definition Sent : Type := list (string * Message).

Section protocols.
Context `{!GoEnv} (udp : string → Message → result Z).

Definition SendMessage (message : Message) (hostname : string) (port : Z) : result Z :=
  udp (udp_address hostname port) message.

(** A message to a member; an error is logged. *)
Definition send (message : Message) (to : Info) : Sent * Z :=
  match SendMessage message (Hostname to) (Port to) with
  | Ok n => ([(udp_address (Hostname to) (Port to), message)], n)
  | Err _ => ([], 0)
  end.

(** ** swim.go *)

Record Swim := mkSwim {
  sw_Membership : Membership;
  waitAcksDirect : gmap Z Info;
  waitAcksIndirect : gmap Z Info;
}.

Definition NewSwim (m : Membership) : Swim := mkSwim m ∅ ∅.

Definition HandleIncomingMessage (rng : nat → N) (now : Z) (message : Message) (myInfo : Info)
    (s : Swim) : Swim * (Sent * Z) :=
  let m := (Merge rng (msg_InfoMap message) now (sw_Membership s)).1 in
  let s1 := mkSwim m (waitAcksDirect s) (waitAcksIndirect s) in
  match Type_ message with
  | Ping =>
      (s1, send (mkMessage Pong myInfo (SenderInfo message) (RequesterInfo message) (GetInfoMap m))
             (SenderInfo message))
  | Pong =>
      if decide (HashInfo (RequesterInfo message) = HashInfo (TargetInfo message)) then
        let senderId := HashInfo (SenderInfo message) in
        (mkSwim m (delete senderId (waitAcksDirect s)) (delete senderId (waitAcksIndirect s)), ([], 0))
      else
        (s1, send (mkMessage Pong (SenderInfo message) (RequesterInfo message) (RequesterInfo message)
                     (GetInfoMap m)) (RequesterInfo message))
  | PingReq =>
      (s1, send (mkMessage Ping myInfo (TargetInfo message) (RequesterInfo message) (GetInfoMap m))
             (TargetInfo message))
  | _ => (s1, ([], 0))
  end.

(** The [k] forwarders of a ping request. *)
Fixpoint SendPingReq (rng : nat → nat → N) (k : nat) (infoMap : gmap Z Info) (myInfo targetInfo : Info)
    (m : Membership) : option (Membership * (Sent * Z)) :=
  match k with
  | O => Some (m, ([], 0))
  | S k' =>
      match GetTarget (rng k') m with
      | (inl _, _) => None
      | (inr forwarderInfo, m1) =>
          let '(out, size) := send (mkMessage PingReq myInfo targetInfo myInfo infoMap) forwarderInfo in
          '(m2, (out', size')) ← SendPingReq rng k' infoMap myInfo targetInfo m1;
          Some (m2, (out ++ out', size + size'))
      end
  end.

(** The entries of [waitAcksIndirect], in the order in which the map is visited. *)
Definition indirect_entry (rng : Z → nat → N) (now TpingReqFail : Z) (suspicionEnabled : bool)
    (acc : Membership * gmap Z Info) (e : Z * Info) : Membership * gmap Z Info :=
  let '(m, waiting) := acc in
  let '(id, info) := e in
  if TpingReqFail <? time_sub now (Timestamp info) then
    match State info with
    | Alive => ((UpdateStateSwim (rng id) now id Suspected suspicionEnabled m).1,
                <[id := set_state Suspected (set_timestamp now info)]> waiting)
    | Suspected => ((UpdateStateSwim (rng id) now id Failed suspicionEnabled m).1, delete id waiting)
    | Failed => acc
    end
  else acc.

(** The entries of [waitAcksDirect]: both maps and the members to ask others to
    ping. *)
Definition direct_entry (now TpingFail : Z) (acc : gmap Z Info * gmap Z Info * list Info) (e : Z * Info) :
    gmap Z Info * gmap Z Info * list Info :=
  let '(direct, indirect, ask) := acc in
  let '(id, info) := e in
  if TpingFail <? time_sub now (Timestamp info) then
    (delete id direct, <[id := set_timestamp now info]> indirect, ask ++ [set_timestamp now info])
  else acc.

Fixpoint send_requests (rng : Z → nat → nat → N) (k : nat) (myInfo : Info) (ask : list Info)
    (m : Membership) : option (Membership * (Sent * Z)) :=
  match ask with
  | [] => Some (m, ([], 0))
  | info :: rest =>
      '(m1, (out, size)) ← SendPingReq (rng (HashInfo info)) k (GetInfoMap m) myInfo info m;
      '(m2, (out', size')) ← send_requests rng k myInfo rest m1;
      Some (m2, (out ++ out', size + size'))
  end.

(** The random numbers of a step. *)
Record StepRandom := mkStepRandom {
  r_update : Z → nat → N;
  r_request : Z → nat → nat → N;
  r_target : nat → N;
}.

Definition SwimStep (r : StepRandom) (now myId : Z) (myInfo : Info) (k : nat)
    (TpingFail TpingReqFail Tcleanup : Z) (suspicionEnabled : bool)
    (order1 order2 : list (Z * Info)) (s : Swim) : option (Swim * (Sent * Z)) :=
  match Heartbeat myId now (sw_Membership s) with
  | Err _ => None
  | Ok m0 =>
      let '(m1, indirect1) := foldl (indirect_entry (r_update r) now TpingReqFail suspicionEnabled)
                                (m0, waitAcksIndirect s) order1 in
      let '(direct2, indirect2, ask) := foldl (direct_entry now TpingFail)
                                          (waitAcksDirect s, indirect1, []) order2 in
      '(m2, (out, size)) ← send_requests (r_request r) k myInfo ask m1;
      let m3 := Cleanup now Tcleanup m2 in
      match GetTarget (r_target r) m3 with
      | (inl _, _) => None
      | (inr targetInfo, m4) =>
          let message := mkMessage Ping myInfo targetInfo myInfo (GetInfoMap m4) in
          match SendMessage message (Hostname targetInfo) (Port targetInfo) with
          | Err _ => Some (mkSwim m4 direct2 indirect2, (out, size))
          | Ok n =>
              Some (mkSwim m4 (<[HashInfo targetInfo := set_timestamp now targetInfo]> direct2) indirect2,
                    (out ++ [(udp_address (Hostname targetInfo) (Port targetInfo), message)], size + n))
          end
      end
  end.

(** ** gossip.go *)

Definition Gossip_HandleIncomingMessage (rng : nat → N) (now : Z) (message : Message) (m : Membership) :
    Membership := (Merge rng (msg_InfoMap message) now m).1.

Definition GossipStep (rng rng' : nat → N) (now myId Tfail Tsuspect Tcleanup : Z)
    (suspicionEnabled : bool) (m : Membership) : option (Membership * (Sent * Z)) :=
  match Heartbeat myId now m with
  | Err _ => None
  | Ok m0 =>
      let m1 := (UpdateStateGossip rng now Tfail Tsuspect suspicionEnabled m0).1 in
      let m2 := Cleanup now Tcleanup m1 in
      match GetTarget rng' m2 with
      | (inl _, _) => None
      | (inr targetInfo, m3) =>
          Some (m3, send (mkMessage GossipMsg zero_info zero_info zero_info (GetInfoMap m3)) targetInfo)
      end
  end.
End protocols.

(** ** flow.go *)

Definition COUNTER_DURATION : Z := Second.

Record Msg := mkMsg {
  msg_Size : Z;
  msg_Timestamp : Z;
}.

Record FlowCounter := mkFlowCounter {
  currentCounter : Z;
  que : list Msg;
}.

(** The zero value. *)
Definition NewFlowCounter : FlowCounter := mkFlowCounter 0 [].

Fixpoint maintain_loop (now counter : Z) (q : list Msg) : FlowCounter :=
  match q with
  | front :: rest =>
      if COUNTER_DURATION <? time_sub now (msg_Timestamp front)
      then maintain_loop now (wrap64 (counter - msg_Size front)) rest
      else mkFlowCounter counter q
  | [] => mkFlowCounter counter []
  end.

Definition maintain (now : Z) (f : FlowCounter) : FlowCounter :=
  maintain_loop now (currentCounter f) (que f).

(** The clock is read twice, for the entry and by [maintain]. *)
Definition Add (size now now' : Z) (f : FlowCounter) : FlowCounter :=
  maintain now' (mkFlowCounter (wrap64 (currentCounter f + size)) (que f ++ [mkMsg size now])).

(** The counter is divided by a second: bytes per second. *)
Definition Get (now : Z) (f : FlowCounter) : Z * FlowCounter :=
  let f' := maintain now f in (currentCounter f', f').

(** ** What a step does to one member *)

(** The entry after an update of its state. *)
Definition swim_cell (now : Z) (st : MemberState) (se : bool) (info : Info) : Info :=
  if decide (State info = Failed) then info
  else set_state (if bool_decide (st = Suspected) && negb se then Failed else st) (set_timestamp now info).

Lemma lookup_UpdateStateSwim rng now id st se m j :
  InfoMap (UpdateStateSwim rng now id st se m).1 !! j =
    if decide (j = id) then swim_cell now st se <$> InfoMap m !! id else InfoMap m !! j.
Proof.
  unfold UpdateStateSwim, swim_cell. destruct (InfoMap m !! id) as [info|] eqn:Hid; simpl.
  2:{ case_decide; by subst. }
  destruct (decide (State info = Failed)) as [Hf|Hf].
  { rewrite decide_False by tauto. simpl. case_decide; by subst. }
  rewrite decide_True by done. cbv zeta.
  destruct (decide (_ = Failed)); simpl; (destruct (decide (j = id)) as [->|];
    [by rewrite lookup_insert_eq|by rewrite lookup_insert_ne]).
Qed.

Lemma InfoMap_GetTarget rng m : InfoMap (GetTarget rng m).2 = InfoMap m.
Proof. unfold GetTarget. by repeat case_match. Qed.

(** What becomes of an entry of [waitAcksIndirect], and the state its member is
    given. *)
Definition indirect_cell (now T : Z) (info : Info) : option (option Info * MemberState) :=
  if T <? time_sub now (Timestamp info) then
    match State info with
    | Alive => Some (Some (set_state Suspected (set_timestamp now info)), Suspected)
    | Suspected => Some (None, Failed)
    | Failed => None
    end
  else None.

Lemma indirect_loop rng now T se l m w :
  NoDup l.*1 →
  let '(m', w') := foldl (indirect_entry rng now T se) (m, w) l in
  (∀ j, j ∉ l.*1 → w' !! j = w !! j ∧ InfoMap m' !! j = InfoMap m !! j) ∧
  (∀ j info, (j, info) ∈ l → match indirect_cell now T info with
     | Some (o, st) => w' !! j = o ∧ InfoMap m' !! j = swim_cell now st se <$> InfoMap m !! j
     | None => w' !! j = w !! j ∧ InfoMap m' !! j = InfoMap m !! j end).
Proof.
  revert m w. induction l as [|[id info] l IH]; intros m w Hnd; [split; [done|set_solver]|].
  apply NoDup_cons in Hnd as [Hid Hnd]. cbn [foldl].
  assert (∃ m1 w1, indirect_entry rng now T se (m, w) (id, info) = (m1, w1) ∧
    (∀ j, j ≠ id → w1 !! j = w !! j ∧ InfoMap m1 !! j = InfoMap m !! j) ∧
    match indirect_cell now T info with
    | Some (o, st) => w1 !! id = o ∧ InfoMap m1 !! id = swim_cell now st se <$> InfoMap m !! id
    | None => w1 !! id = w !! id ∧ InfoMap m1 !! id = InfoMap m !! id end)
    as (m1 & w1 & He & Hother & Hcell).
  { unfold indirect_entry, indirect_cell. destruct (T <? _); [|by exists m, w].
    destruct (State info); [|by exists m, w|]; (eexists _, _; split; [reflexivity|]; split;
      [intros j Hj|]; rewrite lookup_UpdateStateSwim).
    - rewrite lookup_insert_ne, decide_False by done. done.
    - rewrite lookup_insert_eq, decide_True by done. done.
    - rewrite lookup_delete_ne, decide_False by done. done.
    - rewrite lookup_delete_eq, decide_True by done. done. }
  rewrite He. specialize (IH m1 w1 Hnd). destruct (foldl _ _ l) as [m' w']. destruct IH as [IH1 IH2].
  split.
  - intros j [Hj1 Hj2]%not_elem_of_cons. destruct (IH1 j Hj2) as [-> ->]. by apply Hother.
  - intros j i [Heq|Hin]%elem_of_cons.
    + injection Heq as -> ->. destruct (IH1 id Hid) as [-> ->]. exact Hcell.
    + assert (j ≠ id) as Hne by (intros ->; apply Hid; by apply (list_elem_of_fmap_2 fst _ (id, i))).
      destruct (Hother j Hne) as [Hw Hm]. specialize (IH2 j i Hin).
      destruct (indirect_cell now T i) as [[o st]|]; [by rewrite <- Hm|by rewrite <- Hw, <- Hm].
Qed.

Lemma indirect_loop_wf rng now T se l m w :
  wf m → wf (foldl (indirect_entry rng now T se) (m, w) l).1.
Proof.
  revert m w. induction l as [|[id info] l IH]; intros m w Hm; [done|]. cbn [foldl].
  unfold indirect_entry at 2. repeat case_match; simplify_eq; apply IH; auto with golist.
Qed.

Lemma direct_loop now T l d w ask :
  NoDup l.*1 →
  let '(d', w', ask') := foldl (direct_entry now T) (d, w, ask) l in
  (∀ j, j ∉ l.*1 → d' !! j = d !! j ∧ w' !! j = w !! j) ∧
  (∀ j info, (j, info) ∈ l →
     if T <? time_sub now (Timestamp info)
     then d' !! j = None ∧ w' !! j = Some (set_timestamp now info)
     else d' !! j = d !! j ∧ w' !! j = w !! j) ∧
  ask' = ask ++ ((λ e, set_timestamp now e.2) <$> filter (λ e, T < time_sub now (Timestamp e.2)) l).
Proof.
  revert d w ask. induction l as [|[id info] l IH]; intros d w ask Hnd.
  { split; [done|]. split; [set_solver|]. by rewrite app_nil_r. }
  apply NoDup_cons in Hnd as [Hid Hnd]. simpl. rewrite filter_cons. simpl.
  destruct (Z.ltb_spec T (time_sub now (Timestamp info))) as [Ht|Ht].
  - specialize (IH (delete id d) (<[id := set_timestamp now info]> w) (ask ++ [set_timestamp now info]) Hnd).
    destruct (foldl _ _ l) as [[d' w'] ask']. destruct IH as (IH1 & IH2 & ->).
    rewrite decide_True by done. split; [|split].
    + intros j [Hj1 Hj2]%not_elem_of_cons. destruct (IH1 j Hj2) as [-> ->].
      by rewrite lookup_delete_ne, lookup_insert_ne.
    + intros j i [Heq|Hin]%elem_of_cons.
      * injection Heq as -> ->. rewrite (proj2 (Z.ltb_lt _ _) Ht). destruct (IH1 id Hid) as [-> ->].
        by rewrite lookup_delete_eq, lookup_insert_eq.
      * assert (j ≠ id) as Hne by (intros ->; apply Hid; by apply (list_elem_of_fmap_2 fst _ (id, i))).
        specialize (IH2 j i Hin). by rewrite lookup_delete_ne, lookup_insert_ne in IH2.
    + by rewrite <- app_assoc.
  - specialize (IH d w ask Hnd). destruct (foldl _ _ l) as [[d' w'] ask']. destruct IH as (IH1 & IH2 & ->).
    rewrite decide_False by lia. split; [|split; [|done]].
    + intros j [Hj1 Hj2]%not_elem_of_cons. by apply IH1.
    + intros j i [Heq|Hin]%elem_of_cons; [|by apply IH2].
      injection Heq as -> ->. rewrite (proj2 (Z.ltb_ge _ _) Ht). by apply IH1.
Qed.

(** ** A step, member by member *)

Section step.
Context `{!GoEnv} (udp : string → Message → result Z).
Context (k : nat) (myId : Z) (myInfo : Info) (TpingFail TpingReqFail Tcleanup : Z) (se : bool).

Lemma SendPingReq_keeps rng k' im info m m' out :
  SendPingReq udp rng k' im myInfo info m = Some (m', out) →
  InfoMap m' = InfoMap m ∧ (wf m → wf m') ∧ Forall (λ p, Type_ p.2 = PingReq) out.1.
Proof.
  revert m out. induction k' as [|k' IH]; intros m out; simpl; [by intros [= <- <-]|].
  pose proof (InfoMap_GetTarget (rng k') m) as Hi. pose proof (wf_GetTarget (rng k') m) as Hw.
  destruct (GetTarget (rng k') m) as [[e|fw] m1]; [done|]. simpl in *.
  destruct (send udp _ fw) as [o size] eqn:Hs.
  intros ([m2 [o' size']] & Hr & [= <- <-])%bind_Some.
  destruct (IH _ _ Hr) as (Hi2 & Hw2 & Ho). split; [congruence|]. split; [auto|]. simpl.
  apply Forall_app. split; [|done]. unfold send in Hs.
  destruct (SendMessage _ _ _ _); injection Hs as <- <-; by repeat constructor.
Qed.

Lemma send_requests_keeps rng ask m m' out :
  send_requests udp rng k myInfo ask m = Some (m', out) →
  InfoMap m' = InfoMap m ∧ (wf m → wf m') ∧ Forall (λ p, Type_ p.2 = PingReq) out.1.
Proof.
  revert m out. induction ask as [|info ask IH]; intros m out; simpl; [by intros [= <- <-]|].
  intros ([m1 [o size]] & H1 & ([m2 [o' size']] & H2 & [= <- <-])%bind_Some)%bind_Some.
  destruct (SendPingReq_keeps _ _ _ _ _ _ _ H1) as (Hi1 & Hw1 & Ho1), (IH _ _ H2) as (Hi2 & Hw2 & Ho2).
  split; [congruence|]. split; [auto|]. by apply Forall_app.
Qed.

(** The member [id] is pinged by the messages [out]. *)
Definition pings (out : Sent) (id : Z) : Prop :=
  Exists (λ p, Type_ p.2 = Ping ∧ HashInfo (TargetInfo p.2) = id) out.

(** The two maps and the membership after a step, for a member other than the
    node itself. *)
Definition next_indirect (now : Z) (s : Swim) (id : Z) : option Info * option MemberState :=
  match waitAcksIndirect s !! id ≫= indirect_cell now TpingReqFail with
  | Some (o, st) => (o, Some st)
  | None => (waitAcksIndirect s !! id, None)
  end.

Definition times_out (now : Z) (s : Swim) (id : Z) : bool :=
  match waitAcksDirect s !! id with
  | Some info => TpingFail <? time_sub now (Timestamp info)
  | None => false
  end.

Definition next_info (now : Z) (s : Swim) (id : Z) : option Info :=
  let i := InfoMap (sw_Membership s) !! id in
  match (next_indirect now s id).2 with Some st => swim_cell now st se <$> i | None => i end.

Lemma SwimStep_cell r now order1 order2 s s' out size id :
  order1 ≡ₚ map_to_list (waitAcksIndirect s) → order2 ≡ₚ map_to_list (waitAcksDirect s) → id ≠ myId →
  SwimStep udp r now myId myInfo k TpingFail TpingReqFail Tcleanup se order1 order2 s = Some (s', (out, size)) →
  (wf (sw_Membership s) → wf (sw_Membership s')) ∧
  InfoMap (sw_Membership s') !! id =
    (i ← next_info now s id; if decide (stale now Tcleanup (id, i)) then None else Some i) ∧
  waitAcksIndirect s' !! id =
    (if times_out now s id then set_timestamp now <$> waitAcksDirect s !! id else (next_indirect now s id).1) ∧
  (¬ pings out id → waitAcksDirect s' !! id = if times_out now s id then None else waitAcksDirect s !! id) ∧
  (pings out id → ∃ i, HashInfo i = id ∧ waitAcksDirect s' !! id = Some (set_timestamp now i)).
Proof.
  intros Ho1 Ho2 Hid. unfold SwimStep.
  destruct (Heartbeat myId now (sw_Membership s)) as [m0|e] eqn:Hhb; [|done].
  assert (InfoMap m0 !! id = InfoMap (sw_Membership s) !! id) as Hm0.
  { unfold Heartbeat in Hhb. destruct (InfoMap (sw_Membership s) !! myId); [|done].
    case_decide; [done|]. injection Hhb as <-. simpl. by rewrite lookup_insert_ne. }
  assert (∀ w : gmap Z Info, NoDup (map_to_list w).*1) as Hnd by (intros; apply NoDup_fst_map_to_list).
  pose proof (indirect_loop (r_update r) now TpingReqFail se order1 m0 (waitAcksIndirect s)
    ltac:(by rewrite Ho1)) as H1.
  pose proof (indirect_loop_wf (r_update r) now TpingReqFail se order1 m0 (waitAcksIndirect s)) as Hwf1.
  destruct (foldl (indirect_entry _ _ _ _) _ _) as [m1 ind1]. destruct H1 as [H1n H1y].
  pose proof (direct_loop now TpingFail order2 (waitAcksDirect s) ind1 [] ltac:(by rewrite Ho2)) as H2.
  destruct (foldl (direct_entry _ _) _ _) as [[dir2 ind2] ask]. destruct H2 as (H2n & H2y & _).
  intros ([m2 [o2 n2]] & Hreq & Hrest)%bind_Some.
  apply send_requests_keeps in Hreq as (Him2 & Hwf2 & Hout). simpl in Hout.
  pose proof (InfoMap_GetTarget (r_target r) (Cleanup now Tcleanup m2)) as Him4.
  pose proof (wf_GetTarget (r_target r) (Cleanup now Tcleanup m2)) as Hwf4.
  destruct (GetTarget _ _) as [[e|ti] m4]; [done|]. cbn [snd] in Him4, Hwf4.
  assert (wf (sw_Membership s) → wf m4) as Hwf.
  { intros Hs. apply Hwf4, wf_Cleanup, Hwf2, Hwf1. by eapply wf_Heartbeat. }
  assert (∀ d, waitAcksDirect s !! id = d → ind2 !! id =
      (if times_out now s id then set_timestamp now <$> d else ind1 !! id) ∧
    dir2 !! id = if times_out now s id then None else d) as Hdir.
  { intros d Hd. unfold times_out. rewrite Hd. destruct d as [i|].
    - assert ((id, i) ∈ order2) as Hin by (rewrite Ho2; by apply elem_of_map_to_list).
      specialize (H2y id i Hin). destruct (TpingFail <? _); destruct H2y as [-> ->]; by split.
    - destruct (H2n id) as [-> ->]; [|by split]. rewrite Ho2. intros ([x i] & Hx & Hi)%list_elem_of_fmap.
      simpl in Hx. subst x. apply elem_of_map_to_list in Hi. congruence. }
  destruct (Hdir _ eq_refl) as [Hind2 Hdir2]. clear Hdir.
  assert (ind1 !! id = (next_indirect now s id).1 ∧ InfoMap m1 !! id = next_info now s id) as [Hind1 Him1].
  { unfold next_info, next_indirect. destruct (waitAcksIndirect s !! id) as [i|] eqn:Hi; simpl.
    - assert ((id, i) ∈ order1) as Hin by (rewrite Ho1; by apply elem_of_map_to_list).
      specialize (H1y id i Hin). destruct (indirect_cell _ _ i) as [[o st]|]; simpl;
        destruct H1y as [-> ->]; by rewrite ?Hm0, ?Hi.
    - destruct (H1n id) as [-> ->]; [|by rewrite Hm0, Hi]. rewrite Ho1.
      intros ([x i] & Hx & Hin)%list_elem_of_fmap. simpl in Hx. subst x.
      apply elem_of_map_to_list in Hin. congruence. }
  assert (InfoMap m4 !! id = (i ← next_info now s id; if decide (stale now Tcleanup (id, i)) then None else Some i))
    as Hm4.
  { rewrite Him4, lookup_cleanup, Him2, Him1. by destruct (next_info now s id). }
  rewrite Hind1 in Hind2.
  assert (∀ p, p ∈ o2 → Type_ p.2 ≠ Ping) as Hnp.
  { intros p Hp. rewrite Forall_forall in Hout. by rewrite (Hout _ Hp). }
  destruct (SendMessage udp _ _ _) as [n|e]; injection Hrest as <- <- <-; simpl.
  - split; [done|]. split; [done|]. split; [done|]. split; intros Hp.
    + rewrite lookup_insert_ne; [done|]. intros Heq. apply Hp. apply Exists_app. right.
      by apply Exists_cons_hd.
    + apply Exists_app in Hp as [(p & Hp & Ht & _)%Exists_exists|[[_ Hh]|Hp%Exists_nil]%Exists_cons];
        [by apply Hnp in Hp| |done].
      simpl in Hh. exists ti. split; [done|]. rewrite Hh. apply lookup_insert_eq.
  - split; [done|]. split; [done|]. split; [done|]. split; [done|].
    intros (p & Hp & Ht & _)%Exists_exists. by apply Hnp in Hp.
Qed.

(** ** Runs in which nothing is heard about a member *)

(** A message that is not the pong of [id] and brings nothing newer about it than
    what the node holds. *)
Definition silent (id : Z) (s : Swim) (message : Message) : Prop :=
  (Type_ message = Pong → HashInfo (SenderInfo message) ≠ id) ∧
  ∀ info, msg_InfoMap message !! id = Some info →
    State info = Failed ∨
    ∃ member, InfoMap (sw_Membership s) !! id = Some member ∧ Counter info <= Counter member.

(** No message says that [id] failed, either. *)
Definition unsuspecting (id : Z) (s : Swim) (message : Message) : Prop :=
  silent id s message ∧ ∀ info, msg_InfoMap message !! id = Some info → State info ≠ Failed.

(** [run last now s]: [s] is a state of the node at time [now] and the member
    was last pinged at time [last].  [ok last now now' pinged] constrains the
    time [now'] of the next step and whether it pings the member, [hear] the
    messages that arrive. *)
Inductive run (id : Z) (ok : Z → Z → Z → bool → Prop) (hear : Swim → Message → Prop)
    (t0 : Z) (s0 : Swim) : Z → Z → Swim → Prop :=
  | run_start : run id ok hear t0 s0 t0 t0 s0
  | run_tick last now s r now' order1 order2 s' out size (pinged : bool) :
      run id ok hear t0 s0 last now s →
      ok last now now' pinged →
      order1 ≡ₚ map_to_list (waitAcksIndirect s) → order2 ≡ₚ map_to_list (waitAcksDirect s) →
      SwimStep udp r now' myId myInfo k TpingFail TpingReqFail Tcleanup se order1 order2 s
        = Some (s', (out, size)) →
      (if pinged then pings out id else ¬ pings out id) →
      run id ok hear t0 s0 (if pinged then now' else last) now' s'
  | run_receive last now s rng at_ message :
      run id ok hear t0 s0 last now s →
      hear s message →
      run id ok hear t0 s0 last now (HandleIncomingMessage udp rng at_ message myInfo s).1.

Lemma HandleIncomingMessage_merges rng at_ message s :
  sw_Membership (HandleIncomingMessage udp rng at_ message myInfo s).1
  = (Merge rng (msg_InfoMap message) at_ (sw_Membership s)).1.
Proof. unfold HandleIncomingMessage. by repeat case_match. Qed.

Lemma receive_silent rng at_ message s id :
  silent id s message →
  let s' := (HandleIncomingMessage udp rng at_ message myInfo s).1 in
  waitAcksDirect s' !! id = waitAcksDirect s !! id ∧
  waitAcksIndirect s' !! id = waitAcksIndirect s !! id ∧
  (wf (sw_Membership s) → wf (sw_Membership s')) ∧
  (InfoMap (sw_Membership s') !! id = InfoMap (sw_Membership s) !! id ∨
   ∃ i, InfoMap (sw_Membership s') !! id = Some i ∧ State i = Failed).
Proof.
  intros [Hpong Hinfo] s'.
  pose proof (HandleIncomingMessage_merges rng at_ message s) as Hm. fold s' in Hm.
  assert (waitAcksDirect s' !! id = waitAcksDirect s !! id ∧
          waitAcksIndirect s' !! id = waitAcksIndirect s !! id) as [Hd Hi].
  { subst s'. unfold HandleIncomingMessage. repeat case_match; simpl; try done.
    by rewrite !lookup_delete_ne by auto. }
  split; [done|]. split; [done|]. rewrite Hm. split; [auto with golist|].
  rewrite lookup_Merge. destruct (msg_InfoMap message !! id) as [info|] eqn:Hmsg; [|by left].
  specialize (Hinfo info eq_refl). unfold merge_cell. destruct (valid_info info); [|by left].
  destruct Hinfo as [Hf|(member & -> & Hc)].
  - rewrite Hf. destruct (InfoMap (sw_Membership s) !! id) as [member|]; simpl; [|by left].
    case_decide; [right; eexists; by split|by left].
  - destruct (decide (State info = Failed)) as [Hf|Hf].
    + case_decide; [right; eexists; by split|by left].
    + rewrite (proj2 (Z.ltb_ge _ _) Hc). by left.
Qed.

(** The member is [Failed] or gone. *)
Definition out_of_group (id : Z) (s : Swim) : Prop :=
  ∀ i, InfoMap (sw_Membership s) !! id = Some i → State i = Failed.

(** The entries of an unanswered ping sent at [t0] move through the two maps in
    bounded time; steps are at most [gap] apart. *)
Definition waiting (id t0 gap now : Z) (s : Swim) : Prop :=
  (∃ d, waitAcksDirect s !! id = Some d ∧ waitAcksIndirect s !! id = None ∧
     Timestamp d = t0 ∧ State d ≠ Failed ∧ now <= t0 + TpingFail) ∨
  (∃ d, waitAcksDirect s !! id = None ∧ waitAcksIndirect s !! id = Some d ∧ State d ≠ Failed ∧
     now <= Timestamp d + TpingReqFail ∧
     Timestamp d <= t0 + TpingFail + gap + (if decide (State d = Alive) then 0 else TpingReqFail + gap)).

Definition not_pinged_again (gap last now now' : Z) (pinged : bool) : Prop :=
  pinged = false ∧ now <= now' <= now + gap.

Context (HTf : 0 <= TpingFail < two63 - 1) (HTr : 0 <= TpingReqFail < two63 - 1).

Lemma late t u d : 0 <= d < two63 - 1 → (d <? time_sub t u) = true ↔ d < t - u.
Proof. intros. rewrite Z.ltb_lt. pose proof (time_sub_pos t u d). lia. Qed.

Lemma waiting_tick r id t0 gap now now' order1 order2 s s' out size :
  order1 ≡ₚ map_to_list (waitAcksIndirect s) → order2 ≡ₚ map_to_list (waitAcksDirect s) → id ≠ myId →
  SwimStep udp r now' myId myInfo k TpingFail TpingReqFail Tcleanup se order1 order2 s = Some (s', (out, size)) →
  ¬ pings out id → now <= now' <= now + gap → wf (sw_Membership s) →
  out_of_group id s ∨ waiting id t0 gap now s →
  wf (sw_Membership s') ∧ (out_of_group id s' ∨ waiting id t0 gap now' s').
Proof.
  intros Ho1 Ho2 Hid Hstep Hnp Hnow Hwf Hs.
  destruct (SwimStep_cell _ _ _ _ _ _ _ _ _ Ho1 Ho2 Hid Hstep) as (Hwf' & Him & Hind & Hdir & _).
  split; [auto|]. specialize (Hdir Hnp).
  assert (∀ i', InfoMap (sw_Membership s') !! id = Some i' → next_info now' s id = Some i') as Him'.
  { intros i' Hi'. rewrite Him in Hi'. destruct (next_info now' s id) as [i|]; [|done]. simpl in Hi'.
    by case_decide; simplify_eq. }
  clear Him. destruct Hs as [Hout|Hw].
  { left. intros i' Hi'%Him'. unfold next_info in Hi'. destruct (next_indirect now' s id).2; [|by apply Hout].
    destruct (InfoMap (sw_Membership s) !! id) as [i|] eqn:Hi; [|done]. specialize (Hout i Hi).
    simpl in Hi'. unfold swim_cell in Hi'. rewrite decide_True in Hi' by done. by simplify_eq. }
  unfold next_info, next_indirect, times_out in *.
  destruct Hw as [(d & Hd & Hi & Ht & Hst & Hn)|(d & Hd & Hi & Hst & Hn & Ht)];
    rewrite Hd, Hi in *; simpl in *.
  - right. destruct (TpingFail <? _) eqn:Hl.
    + right. exists (set_timestamp now' d). simpl. split_and!; [done|done|done|lia|].
      case_decide; lia.
    + left. exists d. split_and!; try done. pose proof (late now' (Timestamp d) TpingFail).
      destruct (decide (TpingFail < now' - Timestamp d)); [|lia]. rewrite (proj2 (H0 HTf)) in Hl; done.
  - unfold indirect_cell in *. destruct (TpingReqFail <? _) eqn:Hl.
    + destruct (State d) eqn:HSt; [|done|];
        [rewrite decide_True in Ht by done|rewrite decide_False in Ht by done]; simpl in *.
      * right. right. eexists. split_and!; [done|done|done|simpl; lia|]. simpl. lia.
      * left. intros i' Hi'%Him'. destruct (InfoMap (sw_Membership s) !! id) as [i|]; [|done]. simpl in Hi'.
        unfold swim_cell in Hi'. by case_decide; simplify_eq.
    + right. right. exists d. split_and!; try done. pose proof (late now' (Timestamp d) TpingReqFail).
      destruct (decide (TpingReqFail < now' - Timestamp d)); [|lia]. rewrite (proj2 (H0 HTr)) in Hl; done.
Qed.

Lemma run_not_pinged id t0 gap s0 last now s :
  id ≠ myId → 0 <= gap → wf (sw_Membership s0) →
  out_of_group id s0 ∨ waiting id t0 gap t0 s0 →
  run id (not_pinged_again gap) (silent id) t0 s0 last now s →
  wf (sw_Membership s) ∧ (out_of_group id s ∨ waiting id t0 gap now s).
Proof.
  intros Hid Hgap Hwf0 H0 Hrun.
  induction Hrun as [|last now s r now' o1 o2 s' out size pinged Hrun IH [-> Hnow] Ho1 Ho2 Hstep Hp|
    last now s rng at_ message Hrun IH Hsil]; [done| |].
  - destruct IH as [Hwf IH]. by eapply (waiting_tick r id t0 gap now now' o1 o2 s s').
  - destruct IH as [Hwf IH]. destruct (receive_silent rng at_ message s id Hsil) as (Hd & Hi & Hw & Him).
    split; [auto|]. unfold out_of_group, waiting. rewrite Hd, Hi.
    destruct Him as [->|(i & -> & Hf)]; [done|]. left. by intros ? [= <-].
Qed.

Lemma silent_member_fails (id t0 gap : Z) (d : Info) (s0 : Swim) (last now : Z) (s : Swim) :
  id ≠ myId → 0 <= gap → wf (sw_Membership s0) →
  waitAcksDirect s0 !! id = Some d → Timestamp d = t0 → State d ≠ Failed →
  waitAcksIndirect s0 !! id = None →
  run id (not_pinged_again gap) (silent id) t0 s0 last now s →
  t0 + TpingFail + 2 * TpingReqFail + 2 * gap < now →
  (∀ i, InfoMap (sw_Membership s) !! id = Some i → State i = Failed) ∧ id ∉ Members (sw_Membership s).
Proof.
  intros Hid Hgap Hwf0 Hd Ht Hst Hi Hrun Hnow.
  destruct (run_not_pinged id t0 gap s0 last now s) as [Hwf Hs]; [done..| |done|].
  { right. left. exists d. split_and!; [done..|lia]. }
  assert (out_of_group id s) as Hout.
  { destruct Hs as [?|[(?&_&_&_&_&?)|(?&_&_&_&?&?)]]; [done|lia|]. case_decide; lia. }
  split; [done|]. intros Hin. destruct (wf_live _ Hwf id Hin) as (i & Hl & Hs'). by specialize (Hout i Hl).
Qed.

(** The member is pinged again before its timeout. *)
Definition busy (last now now' : Z) (pinged : bool) : Prop := last <= now' <= last + TpingFail.

Lemma reping_hides (id t0 : Z) (i d : Info) (s0 : Swim) (last now : Z) (s : Swim) :
  id ≠ myId → InfoMap (sw_Membership s0) !! id = Some i → State i = Alive →
  waitAcksDirect s0 !! id = Some d → Timestamp d = t0 → waitAcksIndirect s0 !! id = None →
  run id busy (unsuspecting id) t0 s0 last now s →
  InfoMap (sw_Membership s) !! id = Some i ∧ waitAcksIndirect s !! id = None ∧
  ∃ d', waitAcksDirect s !! id = Some d' ∧ Timestamp d' = last.
Proof.
  intros Hid Hi0 Hst Hd Ht Hind Hrun.
  induction Hrun as [|last now s r now' o1 o2 s' out size pinged Hrun IH Hnow Ho1 Ho2 Hstep Hp|
    last now s rng at_ message Hrun IH [Hsil Hnf]]; [eauto| |]; destruct IH as (Hi & Hw & d' & Hd' & Ht').
  - destruct (SwimStep_cell _ _ _ _ _ _ _ _ _ Ho1 Ho2 Hid Hstep) as (_ & Him & Hindir & Hnp & Hping).
    assert (times_out now' s id = false) as Hto.
    { unfold times_out. rewrite Hd'. apply not_true_iff_false. rewrite late by done.
      unfold busy in Hnow. lia. }
    rewrite Hto in *. unfold next_info, next_indirect in *. rewrite Hw in *. simpl in *.
    split; [|split; [done|]].
    + rewrite Him, Hi. simpl. rewrite decide_False; [done|]. intros [Hf _]. simpl in Hf. congruence.
    + destruct pinged; [|rewrite Hnp by done; eauto]. destruct (Hping Hp) as (j & _ & ->). eauto.
  - destruct (receive_silent rng at_ message s id Hsil) as (Hrd & Hri & _ & _).
    rewrite Hrd, Hri. split; [|eauto].
    rewrite HandleIncomingMessage_merges, lookup_Merge, Hi. destruct (msg_InfoMap message !! id) as [info|] eqn:Hm; [|done].
    destruct Hsil as [_ Hsil]. specialize (Hnf info eq_refl). unfold merge_cell.
    destruct (valid_info info); [|done]. rewrite decide_False by done.
    destruct (Hsil info Hm) as [?|(mem & Hmem & Hc)]; [done|]. simplify_eq.
    by rewrite (proj2 (Z.ltb_ge _ _) Hc).
Qed.

(** C18: A member that was pinged at time [t0] and is silent from then on is
    declared [Failed] and is out of the list of members in bounded time,
    provided it is not pinged again meanwhile: after the direct timeout, twice
    the indirect one and twice the distance of two steps.  It holds with and
    without suspicion, whoever the forwarders are, whatever the order of the
    maps and whatever else the node hears.  The proviso is needed: a new ping
    replaces the time of the unanswered one, so a silent member for which each
    step falls within the direct timeout of its last ping is never asked for
    indirectly, and its entry never changes. *)
Theorem swim_silent_member_fails (id t0 gap : Z) (d : Info) (s0 : Swim) (last now : Z) (s : Swim) :
  id ≠ myId → 0 <= gap → wf (sw_Membership s0) →
  waitAcksDirect s0 !! id = Some d → Timestamp d = t0 → State d ≠ Failed →
  waitAcksIndirect s0 !! id = None →
  (run id (not_pinged_again gap) (silent id) t0 s0 last now s →
   t0 + TpingFail + 2 * TpingReqFail + 2 * gap < now →
   (∀ i, InfoMap (sw_Membership s) !! id = Some i → State i = Failed) ∧ id ∉ Members (sw_Membership s)) ∧
  (∀ i, InfoMap (sw_Membership s0) !! id = Some i → State i = Alive →
   run id busy (unsuspecting id) t0 s0 last now s →
   InfoMap (sw_Membership s) !! id = Some i ∧ waitAcksIndirect s !! id = None ∧
   ∃ d', waitAcksDirect s !! id = Some d' ∧ Timestamp d' = last).
Proof.
  intros Hid Hgap Hwf0 Hd Ht Hst Hi. split.
  - by apply (silent_member_fails id t0 gap d s0).
  - intros i Hi0 Hal. by apply (reping_hides id t0 i d s0).
Qed.
End step.

(** ** A counter of the last second *)

Definition total (q : list Msg) : Z := foldr (λ m acc, msg_Size m + acc) 0 q.

Definition recent (now : Z) (m : Msg) : Prop := time_sub now (msg_Timestamp m) <= COUNTER_DURATION.
#[export] Instance recent_dec now m : Decision (recent now m).
Proof. unfold recent. apply _. Defined.

(** The uses of a counter: an amount and the two readings of the clock. *)
Fixpoint adds (l : list (Z * Z * Z)) (f : FlowCounter) : FlowCounter :=
  match l with
  | [] => f
  | (size, now, now') :: rest => adds rest (Add size now now' f)
  end.

Definition entry (a : Z * Z * Z) : Msg := mkMsg a.1.1 a.1.2.

(** The clock does not go back from [t]; the last reading is [t']. *)
Fixpoint clocked (t : Z) (l : list (Z * Z * Z)) (t' : Z) : Prop :=
  match l with
  | [] => t <= t'
  | (_, now, now') :: rest => t <= now ∧ now <= now' ∧ clocked now' rest t'
  end.

Definition by_time (q : list Msg) : Prop := StronglySorted (λ a b, msg_Timestamp a <= msg_Timestamp b) q.

Lemma recent_mono t now m : t <= now → recent now m → recent t m.
Proof. unfold recent, time_sub, COUNTER_DURATION. lia. Qed.

Lemma recent_later now m m' : msg_Timestamp m <= msg_Timestamp m' → recent now m → recent now m'.
Proof. unfold recent, time_sub. lia. Qed.

Lemma by_time_filter now q : by_time q → by_time (filter (recent now) q).
Proof.
  unfold by_time. induction 1 as [|m q Hs IH Hf]; [constructor|]. rewrite filter_cons. case_decide; [|done].
  constructor; [done|]. apply Forall_forall. intros x [_ Hx]%list_elem_of_filter.
  by apply (proj1 (Forall_forall _ _) Hf).
Qed.

Lemma maintain_filter now q :
  by_time q →
  maintain now (mkFlowCounter (wrap64 (total q)) q) =
    mkFlowCounter (wrap64 (total (filter (recent now) q))) (filter (recent now) q).
Proof.
  unfold maintain. simpl. induction 1 as [|m q Hs IH Hf]; simpl; [done|].
  destruct (Z.ltb_spec COUNTER_DURATION (time_sub now (msg_Timestamp m))) as [Hl|Hl].
  - rewrite filter_cons_False by (unfold recent; lia). rewrite <- IH. f_equal.
    rewrite Z.add_comm, <- Z.add_opp_r, wrap64_add_l. f_equal. simpl. lia.
  - assert (recent now m) as Hm by (unfold recent; lia). rewrite filter_cons_True by done.
    assert (filter (recent now) q = q) as ->; [|done].
    apply filter_all. eapply Forall_impl; [exact Hf|]. simpl. intros m' Hm'. by eapply recent_later.
Qed.

(** The counter after the entries [q], last maintained at [t]. *)
Definition counts (t : Z) (q : list Msg) : FlowCounter :=
  mkFlowCounter (wrap64 (total (filter (recent t) q))) (filter (recent t) q).

Lemma maintain_counts t now q m :
  t <= now → by_time (q ++ m) →
  maintain now (mkFlowCounter (wrap64 (total (filter (recent t) q ++ m))) (filter (recent t) q ++ m))
  = counts now (q ++ m).
Proof.
  intros Ht Hq. unfold counts. apply StronglySorted_app in Hq as (Hx & Hq & Hm).
  rewrite maintain_filter.
  - rewrite !filter_app, list_filter_filter_l; [done|]. intros x. by apply recent_mono.
  - apply StronglySorted_app. split_and!; [|by apply by_time_filter|done].
    intros x y [_ Hxq]%list_elem_of_filter Hy. by apply Hx.
Qed.

Lemma total_app q q' : total (q ++ q') = total q + total q'.
Proof. induction q as [|m q IH]; simpl; [done|]. rewrite IH. lia. Qed.

Lemma adds_counts l t t' q :
  clocked t l t' → by_time q → Forall (λ m, msg_Timestamp m <= t) q →
  ∃ t1, t1 <= t' ∧ adds l (counts t q) = counts t1 (q ++ (entry <$> l)) ∧ by_time (q ++ (entry <$> l)).
Proof.
  revert t q. induction l as [|[[size now] now'] l IH]; intros t q Hc Hq Hle; simpl in *.
  { exists t. by rewrite app_nil_r. }
  destruct Hc as (H1 & H2 & Hc).
  assert (by_time (q ++ [mkMsg size now])) as Hq'.
  { apply StronglySorted_app. split_and!; [|done|by repeat constructor].
    intros x y Hx ->%list_elem_of_singleton. simpl. pose proof (proj1 (Forall_forall _ _) Hle x Hx). simpl in *. lia. }
  destruct (IH now' (q ++ [mkMsg size now]) Hc Hq') as (t1 & Ht1 & Hadds & Hs).
  { apply Forall_app. split; [|by repeat constructor]. eapply Forall_impl; [exact Hle|]. simpl. lia. }
  exists t1. rewrite <- app_assoc in Hadds, Hs. split; [done|]. split; [|done].
  change (entry (size, now, now')) with (mkMsg size now). transitivity (adds l (counts now' (q ++ [mkMsg size now]))); [f_equal|exact Hadds].
  rewrite <- (maintain_counts t now' q [mkMsg size now]) by (lia || done). unfold Add. simpl.
  rewrite total_app. simpl. by rewrite Z.add_0_r, wrap64_add_l.
Qed.

(** The counter gives the bytes of the last second: after any uses by a
    clock that does not go back, reading it yields the sum, in 64 bits, of the
    amounts added at most a second before, and nothing older is kept. *)
Theorem flow_counts_last_second (l : list (Z * Z * Z)) (t t' now : Z) :
  clocked t l t' → t' <= now →
  let kept := filter (recent now) (entry <$> l) in
  Get now (adds l NewFlowCounter) = (wrap64 (total kept), mkFlowCounter (wrap64 (total kept)) kept).
Proof.
  intros Hc Hnow kept. destruct (adds_counts l t t' [] Hc) as (t1 & Ht1 & Hadds & Hs);
    [constructor|constructor|].
  unfold Get. change (counts t []) with NewFlowCounter in Hadds. rewrite Hadds. simpl.
  pose proof (maintain_counts t1 now (entry <$> l) []) as Hm. rewrite !app_nil_r in Hm. fold (counts t1 (entry <$> l)) in Hm.
  rewrite Hm by (lia || done). done.
Qed.

(** ** The properties at concrete inputs *)

Definition demo_self : Info := mkInfo "node1" 8000 0 0 0 Alive.
Definition demo_dead : Info := mkInfo "node2" 8000 0 0 0 Alive.
Definition demo_dead_id : Z := HashInfo (H := poly_env) demo_dead.
Definition demo_id : Z := HashInfo (H := poly_env) demo_self.

(** The dead member was pinged at time 0; the next targets are the node itself. *)
Definition demo_swim : Swim :=
  let others := [mkInfo "node3" 8000 0 0 0 Alive; mkInfo "node4" 8000 0 0 0 Alive] in
  mkSwim (mkMembership (demo_dead_id :: (HashInfo (H := poly_env) <$> others) ++ [demo_id])
            (list_to_map ((λ i, (HashInfo (H := poly_env) i, i)) <$> demo_self :: demo_dead :: others)) 1)
    {[ demo_dead_id := demo_dead ]} ∅.

Definition demo_random : StepRandom := mkStepRandom (λ _ _, 0%N) (λ _ _ _, 0%N) (λ _, 0%N).
Definition demo_udp : string → Message → result Z := λ _ _, Ok 100.

(** A step every two seconds, the timeouts are one second, the maps are visited
    in the order of [map_to_list]. *)
Definition demo_tick (myId TpingFail now : Z) (s : Swim) : option (Swim * (Sent * Z)) :=
  SwimStep (H := poly_env) demo_udp demo_random now myId demo_self 0 TpingFail Second (100 * Second) true
    (map_to_list (waitAcksIndirect s)) (map_to_list (waitAcksDirect s)) s.

Definition demo_next (T now : Z) (s : Swim) : Swim * (Sent * Z) :=
  default (s, ([], 0)) (demo_tick demo_id T now s).

Definition demo_after (n : nat) (T : Z) : Swim :=
  foldl (λ s i, (demo_next T (2 * Z.of_nat i * Second) s).1) demo_swim (seq 1 n).

(** The steps go through and none pings the dead member. *)
Definition demo_unpinged (T : Z) (i : nat) : bool :=
  let now := 2 * Z.of_nat (S i) * Second in
  bool_decide (is_Some (demo_tick demo_id T now (demo_after i T))) &&
  bool_decide (¬ pings (H := poly_env) (demo_next T now (demo_after i T)).2.1 demo_dead_id).

Lemma demo_swim_run T ok hear n :
  (∀ i, (i < n)%nat → ok 0 (2 * Z.of_nat i * Second) (2 * Z.of_nat (S i) * Second) false) →
  Forall (λ i, demo_unpinged T i = true) (seq 0 n) →
  run (H := poly_env) demo_udp 0 demo_id demo_self T Second (100 * Second) true demo_dead_id ok hear 0 demo_swim
    0 (2 * Z.of_nat n * Second) (demo_after n T).
Proof.
  induction n as [|n IH]; intros Hok Hall; [apply run_start|].
  rewrite seq_S in Hall. apply Forall_app in Hall as [Hall [Hn _]%Forall_cons].
  assert (demo_after (S n) T = (demo_next T (2 * Z.of_nat (S n) * Second) (demo_after n T)).1) as ->.
  { unfold demo_after at 1. rewrite seq_S, foldl_app. reflexivity. }
  unfold demo_unpinged in Hn.
  apply andb_true_iff in Hn as [[r Hr]%bool_decide_eq_true Hp%bool_decide_eq_true].
  simpl plus in *. set (now' := 2 * Z.of_nat (S n) * Second) in *. set (s := demo_after n T) in *.
  assert (demo_tick demo_id T now' s = Some ((demo_next T now' s).1,
    ((demo_next T now' s).2.1, (demo_next T now' s).2.2))) as Htick.
  { unfold demo_next. rewrite Hr. by destruct r as [? [??]]. }
  exact (run_tick (H := poly_env) demo_udp 0 demo_id demo_self T Second (100 * Second) true demo_dead_id ok hear 0 demo_swim 0
    (2 * Z.of_nat n * Second) s demo_random now' _ _ _ _ _ false (IH (λ i Hi, Hok i ltac:(lia)) Hall) (Hok n ltac:(lia))
    (reflexivity _) (reflexivity _) Htick Hp).
Qed.

Lemma demo_swim_wf : wf (sw_Membership demo_swim).
Proof.
  assert (Forall (λ id, live (id, default (set_state Failed zero_info) (InfoMap (sw_Membership demo_swim) !! id)))
    (Members (sw_Membership demo_swim))) as Hl by (apply (bool_decide_unpack _); vm_compute; exact I).
  split; [apply (bool_decide_unpack _); vm_compute; exact I| |simpl; lia].
  intros id Hid. apply (proj1 (Forall_forall _ _) Hl) in Hid. unfold live in Hid. simpl in Hid.
  destruct (_ !! id) as [i|]; [by exists i|by destruct Hid].
Qed.

(** Pinged once the member fails; pinged again every two seconds, with a direct
    timeout of ten, it stays. *)
Lemma swim_silent_member_fails_witness :
  demo_dead_id ∈ Members (sw_Membership demo_swim) ∧
  demo_dead_id ∉ Members (sw_Membership (demo_after 4 Second)) ∧
  InfoMap (sw_Membership (demo_after 4 (10 * Second))) !! demo_dead_id = Some demo_dead.
Proof.
  split; [apply (bool_decide_unpack _); vm_compute; exact I|]. split.
  - assert (run (H := poly_env) demo_udp 0 demo_id demo_self Second Second (100 * Second) true demo_dead_id
      (not_pinged_again (2 * Second)) (silent (H := poly_env) demo_dead_id) 0 demo_swim 0 (8 * Second) (demo_after 4 Second)) as Hrun.
    { apply (demo_swim_run Second _ _ 4); [intros i Hi; unfold not_pinged_again, Second; split; [reflexivity|lia]|].
      repeat constructor. }
    refine (proj2 (proj1 (swim_silent_member_fails (H := poly_env) demo_udp 0 demo_id demo_self Second Second
      (100 * Second) true _ _ demo_dead_id 0 (2 * Second) demo_dead demo_swim 0 (8 * Second) _ _ _ demo_swim_wf
      _ _ _ _) Hrun _)); unfold Second, two63; try (vm_compute; congruence); try reflexivity; try lia.
  - assert (run (H := poly_env) demo_udp 0 demo_id demo_self (10 * Second) Second (100 * Second) true demo_dead_id
      (busy (10 * Second)) (unsuspecting (H := poly_env) demo_dead_id) 0 demo_swim 0 (8 * Second) (demo_after 4 (10 * Second))) as Hrun.
    { apply (demo_swim_run (10 * Second) _ _ 4); [intros i Hi; unfold busy, Second; lia|]. repeat constructor. }
    refine (proj1 (proj2 (swim_silent_member_fails (H := poly_env) demo_udp 0 demo_id demo_self (10 * Second) Second
      (100 * Second) true _ _ demo_dead_id 0 (2 * Second) demo_dead demo_swim 0 (8 * Second) _ _ _ demo_swim_wf
      _ _ _ _) demo_dead _ _ Hrun)); unfold Second, two63; try (vm_compute; congruence); try reflexivity; try lia.
Defined.

Lemma flow_counts_last_second_witness :
  (Get (1500 * Millisecond) (adds [(10, 0, 0); (20, Second, Second); (5, Second, Second)] NewFlowCounter)).1 = 25.
Proof.
  rewrite (flow_counts_last_second [(10, 0, 0); (20, Second, Second); (5, Second, Second)] 0 Second
    (1500 * Millisecond)); [reflexivity| |]; unfold Second, Millisecond; simpl; lia.
Defined.
