(* ===== verification/Ring.v ===== *)
(** * Ring: the consistent-hash ring of [pkg/hashing/ring.go]

    [GetSuccessors] places a file on the nodes that follow its hash on the
    ring.  The map of members is ranged over in an unspecified order, which
    is the argument [l] of [GetSuccessors_over]; [GetSuccessors_spec] shows
    that the result does not depend on it.  [sort.Slice] is [merge_sort] and
    [sort.Search] its binary search, written out.  A negative number of
    replicas, for which Go panics, is not modelled: the callers pass
    [NumReplicas]. *)

From S2P Require Import Prelude GoStrings Env Membership.

Definition NumReplicas : Z := 3.

Definition HashString `{!GoEnv} (s : string) : Z := sha256_u64 s.

(** [sort.Search]: binary search in [i, j). *)
Fixpoint search_go (fuel : nat) (f : nat → bool) (i j : nat) : nat :=
  match fuel with
  | O => i
  | S fuel' =>
      if (i <? j)%nat then
        let h := Nat.div2 (i + j) in
        if negb (f h) then search_go fuel' f (S h) j else search_go fuel' f i h
      else i
  end.

Definition sort_Search (n : nat) (f : nat → bool) : nat := search_go n f 0 n.

(** [id >= hash] for the identifier at index [i]. *)
Definition at_least (ids : list Z) (hash : Z) (i : nat) : bool :=
  match ids !! i with Some id => hash <=? id | None => false end.

Definition alive (p : Z * Info) : Prop := State p.2 = Alive.
#[export] Instance alive_dec p : Decision (alive p) := _.

Definition GetSuccessors_over (fileHash : Z) (l : list (Z * Info)) (n : Z) : list Z :=
  if decide (l = []) then []
  else
    let nodeIDs := (filter alive l).*1 in
    if decide (nodeIDs = []) then []
    else
      let sorted := merge_sort (≤) nodeIDs in
      let len := length sorted in
      let idx0 := sort_Search len (at_least sorted fileHash) in
      let idx := if (idx0 =? len)%nat then O else idx0 in
      omap (λ i : nat, sorted !! ((idx + i) mod len)%nat)
        (seq 0 (Nat.min (Z.to_nat n) len)).

Definition GetSuccessors (fileHash : Z) (infoMap : gmap Z Info) (n : Z) : list Z :=
  GetSuccessors_over fileHash (map_to_list infoMap) n.

(** ** The abstract ring *)

(** The alive nodes in the order in which the ring meets them from [hash] on:
    those at or after the hash, then those before it. *)
Definition alive_sorted (infoMap : gmap Z Info) : list Z :=
  merge_sort (≤) (filter alive (map_to_list infoMap)).*1.

Definition ring_from (hash : Z) (ids : list Z) : list Z :=
  filter (λ id, hash ≤ id) ids ++ filter (λ id, id < hash) ids.

(** ** Lemmas on searching *)

Lemma search_go_spec f fuel i j :
  (j - i <= fuel)%nat → (i <= j)%nat →
  (∀ a b, (a <= b)%nat → (b < j)%nat → f a = true → f b = true) →
  let p := search_go fuel f i j in
  (i <= p <= j)%nat ∧ (∀ a, (i <= a < p)%nat → f a = false) ∧
  (∀ a, (p <= a < j)%nat → f a = true).
Proof.
  revert i j; induction fuel as [|fuel IH]; intros i j Hf Hij Hm; simpl.
  { split_and!; intros; lia. }
  destruct (Nat.ltb_spec i j) as [Hlt|Hge]; [|split_and!; intros; lia].
  change (match (i + j)%nat with | S (S n') => S (Nat.div2 n') | _ => 0%nat end)
    with (Nat.div2 (i + j)).
  set (h := Nat.div2 (i + j)).
  assert (i <= h < j)%nat as Hh.
  { subst h. rewrite Nat.div2_div. split.
    - apply Nat.div_le_lower_bound; lia.
    - apply Nat.Div0.div_lt_upper_bound; lia. }
  destruct (f h) eqn:Efh; simpl.
  - destruct (IH i h) as (Hp & Hlo & Hhi); [lia..| |].
    { intros a b ? ?. apply Hm; lia. }
    split_and!; [lia..|done|]. intros a Ha. destruct (decide (a < h)%nat).
    + apply Hhi. lia.
    + apply (Hm h); [lia..|done].
  - destruct (IH (S h) j) as (Hp & Hlo & Hhi); [lia..|done|].
    split_and!; [lia..| |done]. intros a Ha. destruct (decide (S h <= a)%nat).
    + apply Hlo. lia.
    + destruct (f a) eqn:Efa; [|done].
      rewrite (Hm a h) in Efh by (done || lia). done.
Qed.

(** The split of a sorted list that the binary search finds. *)
Lemma search_splits ids hash :
  StronglySorted (≤) ids →
  let p := sort_Search (length ids) (at_least ids hash) in
  (p <= length ids)%nat ∧
  drop p ids = filter (λ id, hash ≤ id) ids ∧ take p ids = filter (λ id, id < hash) ids.
Proof.
  intros Hs p. unfold sort_Search in p.
  destruct (search_go_spec (at_least ids hash) (length ids) 0 (length ids))
    as (Hp & Hlo & Hhi); [lia..| |].
  { intros a b Hab Hb. unfold at_least.
    destruct (lookup_lt_is_Some_2 ids b Hb) as [y Hy].
    destruct (lookup_lt_is_Some_2 ids a ltac:(lia)) as [x Hx]. rewrite Hx, Hy.
    rewrite !Z.leb_le. intros. destruct (decide (a = b)) as [->|]; [congruence|].
    assert (x ≤ y); [|lia].
    rewrite <- (take_drop b ids) in Hs. apply StronglySorted_app in Hs as (Hs & _ & _).
    apply (Hs x y); apply list_elem_of_lookup.
    - exists a. by rewrite lookup_take_lt by lia.
    - exists 0%nat. rewrite lookup_drop. by rewrite Nat.add_0_r. }
  fold p in Hp, Hlo, Hhi.
  assert (Forall (λ id, id < hash) (take p ids)) as Ht.
  { apply Forall_lookup. intros i x Hx. apply lookup_take_Some in Hx as [Hx Hi].
    specialize (Hlo i ltac:(lia)). unfold at_least in Hlo. rewrite Hx in Hlo.
    apply Z.leb_gt in Hlo. lia. }
  assert (Forall (λ id, hash ≤ id) (drop p ids)) as Hd.
  { apply Forall_lookup. intros i x Hx. rewrite lookup_drop in Hx.
    apply lookup_lt_Some in Hx as Hi'.
    specialize (Hhi (p + i)%nat ltac:(lia)). unfold at_least in Hhi. rewrite Hx in Hhi.
    apply Z.leb_le in Hhi. lia. }
  split; [lia|]. rewrite <- (take_drop p ids) at 2 4. rewrite !filter_app. split.
  - rewrite (filter_none _ (take p ids)) by (eapply Forall_impl; [done|]; simpl; lia).
    by rewrite filter_all.
  - rewrite (filter_none _ (drop p ids)) by (eapply Forall_impl; [done|]; simpl; lia).
    by rewrite filter_all, app_nil_r.
Qed.

(** ** Lemmas on rotating *)

Lemma omap_lookup_seq {A} (l : list A) j k :
  omap (λ i, l !! i) (seq j k) = take k (drop j l).
Proof.
  revert j; induction k as [|k IH]; intros j; [done|]. simpl. rewrite IH.
  destruct (l !! j) as [x|] eqn:Hj.
  - by rewrite (drop_S l x j Hj).
  - apply lookup_ge_None in Hj. rewrite !drop_ge by lia. by rewrite take_nil.
Qed.

Lemma lookup_rotation {A} (l : list A) idx i :
  (idx < length l)%nat → (i < length l)%nat →
  (drop idx l ++ take idx l) !! i = l !! ((idx + i) mod length l)%nat.
Proof.
  intros Hidx Hi. destruct (decide (idx + i < length l)%nat) as [Hlt|Hge].
  - rewrite Nat.mod_small by done. rewrite lookup_app_l by (rewrite length_drop; lia).
    by rewrite lookup_drop.
  - rewrite lookup_app_r by (rewrite length_drop; lia). rewrite length_drop.
    rewrite lookup_take_lt by lia. f_equal.
    replace (idx + i)%nat with (idx + i - length l + 1 * length l)%nat by lia.
    rewrite Nat.Div0.mod_add, Nat.mod_small by lia. lia.
Qed.

Lemma omap_rotation {A} (l : list A) idx k :
  (idx < length l)%nat → (k <= length l)%nat →
  omap (λ i : nat, l !! ((idx + i) mod length l)%nat) (seq 0 k)
  = take k (drop idx l ++ take idx l).
Proof.
  intros Hidx Hk. transitivity (omap (λ i, (drop idx l ++ take idx l) !! i) (seq 0 k)).
  - apply list_omap_ext. apply Forall2_same_length_lookup. split; [done|].
    intros i x y Hx Hy. simplify_eq. apply lookup_seq in Hx as [-> Hx]. simpl.
    by rewrite lookup_rotation by lia.
  - by rewrite omap_lookup_seq, drop_0.
Qed.

(** ** The ring of alive nodes *)

Lemma merge_sort_Perm (l1 l2 : list Z) : l1 ≡ₚ l2 → merge_sort (≤) l1 = merge_sort (≤) l2.
Proof.
  intros Hp. apply (StronglySorted_unique (≤)).
  - apply (StronglySorted_merge_sort _).
  - apply (StronglySorted_merge_sort _).
  - by rewrite !merge_sort_Permutation.
Qed.

Lemma elem_of_alive_sorted m id :
  id ∈ alive_sorted m ↔ ∃ info, m !! id = Some info ∧ State info = Alive.
Proof.
  unfold alive_sorted. rewrite merge_sort_Permutation, list_elem_of_fmap. split.
  - intros ([i info] & -> & [Ha Hin]%list_elem_of_filter). exists info.
    split; [by apply elem_of_map_to_list|done].
  - intros (info & Hid & Ha). exists (id, info). split; [done|].
    apply list_elem_of_filter. split; [done|]. by apply elem_of_map_to_list.
Qed.

Lemma NoDup_alive_sorted m : NoDup (alive_sorted m).
Proof.
  unfold alive_sorted. rewrite merge_sort_Permutation.
  apply NoDup_fmap_filter, NoDup_fst_map_to_list.
Qed.

Lemma sorted_alive_sorted m : StronglySorted (≤) (alive_sorted m).
Proof. apply (StronglySorted_merge_sort _). Qed.

Lemma ring_from_Permutation h ids : ring_from h ids ≡ₚ ids.
Proof.
  unfold ring_from. induction ids as [|x ids IH]; [done|].
  rewrite !filter_cons. destruct (decide (h ≤ x)).
  - rewrite decide_False by lia. simpl. by rewrite IH.
  - rewrite decide_True by lia. rewrite <- Permutation_middle. by rewrite IH.
Qed.

Lemma GetSuccessors_over_ring h m n l :
  l ≡ₚ map_to_list m →
  GetSuccessors_over h l n = take (Z.to_nat n) (ring_from h (alive_sorted m)).
Proof.
  intros Hl. unfold GetSuccessors_over.
  assert (merge_sort (≤) (filter alive l).*1 = alive_sorted m) as Hs
    by (apply merge_sort_Perm; by rewrite Hl).
  assert ((filter alive l).*1 = [] → alive_sorted m = []) as Hnil.
  { rewrite <- Hs. by intros ->. }
  case_decide as H1; [subst; rewrite Hnil by done; by destruct (Z.to_nat n)|].
  case_decide as H2; [rewrite Hnil by done; by destruct (Z.to_nat n)|].
  rewrite Hs. set (s := alive_sorted m) in *.
  assert (s ≠ []) as Hne.
  { rewrite <- Hs. intros Heq. apply H2. apply Permutation_nil_r.
    rewrite <- Heq. symmetry. apply merge_sort_Permutation. }
  assert (0 < length s)%nat as Hlen by (destruct s; [done|simpl; lia]).
  destruct (search_splits s h (sorted_alive_sorted m)) as (Hp & Hd & Ht).
  set (p := sort_Search (length s) (at_least s h)) in *.
  assert (∀ r : list Z, length r = length s →
    take (Nat.min (Z.to_nat n) (length s)) r = take (Z.to_nat n) r) as Hmin.
  { intros r <-. rewrite <- take_take, (take_ge r (length r)) by lia. done. }
  unfold ring_from. rewrite <- Hd, <- Ht.
  destruct (Nat.eqb_spec p (length s)) as [Heq|Hneq].
  - rewrite omap_rotation by lia. rewrite Heq, (drop_ge s (length s)), (take_ge s (length s)) by lia.
    rewrite drop_0, take_0, app_nil_r. by apply Hmin.
  - rewrite omap_rotation by lia. apply Hmin.
    rewrite length_app, length_drop, length_take. lia.
Qed.

Lemma GetSuccessors_ring h m n :
  GetSuccessors h m n = take (Z.to_nat n) (ring_from h (alive_sorted m)).
Proof. by apply GetSuccessors_over_ring. Qed.

Lemma GetSuccessors_NoDup h m n : NoDup (GetSuccessors h m n).
Proof.
  rewrite GetSuccessors_ring. eapply sublist_NoDup; [|apply sublist_take].
  rewrite ring_from_Permutation. apply NoDup_alive_sorted.
Qed.

Lemma GetSuccessors_alive h m n id :
  id ∈ GetSuccessors h m n → ∃ info, m !! id = Some info ∧ State info = Alive.
Proof.
  rewrite GetSuccessors_ring. intros Hid. apply elem_of_alive_sorted.
  rewrite <- (ring_from_Permutation h). eapply elem_of_sublist; [done|apply sublist_take].
Qed.

Lemma take_filter_prefix {A} (P : A → Prop) `{!∀ x, Decision (P x)} k l :
  Forall P (take k l) → take k (filter P l) = take k l.
Proof.
  revert k; induction l as [|x l IH]; intros [|k] Hk; simpl; [done..|].
  apply Forall_cons in Hk as [Hx Hk]. rewrite filter_cons_True by done.
  simpl. by rewrite IH.
Qed.

Lemma alive_sorted_delete m x : alive_sorted (delete x m) = filter (λ id, id ≠ x) (alive_sorted m).
Proof.
  apply (StronglySorted_unique (≤)).
  - apply sorted_alive_sorted.
  - pose proof (sorted_alive_sorted m) as Hs. revert Hs.
    induction 1 as [|y l Hl IH Hy]; [constructor|]. rewrite filter_cons.
    case_decide; [|done]. constructor; [done|].
    apply Forall_forall. intros z [_ Hz]%list_elem_of_filter.
    rewrite Forall_forall in Hy. by apply Hy.
  - apply NoDup_Permutation; [apply NoDup_alive_sorted| |].
    + apply NoDup_filter, NoDup_alive_sorted.
    + intros id. rewrite list_elem_of_filter, !elem_of_alive_sorted. split.
      * intros (info & [Hne Hid]%lookup_delete_Some & Ha). split; [congruence|eauto].
      * intros (Hne & info & Hid & Ha). exists info. split; [|done].
        by rewrite lookup_delete_ne.
Qed.

Lemma ring_from_filter h x ids :
  ring_from h (filter (λ id, id ≠ x) ids) = filter (λ id, id ≠ x) (ring_from h ids).
Proof.
  unfold ring_from. rewrite filter_app, !list_filter_filter.
  f_equal; apply list_filter_iff; intros; tauto.
Qed.

(** * Properties *)

(** C21: a file is placed on the first [n] alive nodes met on the ring from its
    hash on, whatever the order in which the membership map is visited; they
    are distinct and alive, and there are [n] of them unless fewer are alive. *)
Theorem GetSuccessors_spec (h n : Z) (m : gmap Z Info) (l : list (Z * Info)) :
  l ≡ₚ map_to_list m →
  let r := GetSuccessors_over h l n in
  r = take (Z.to_nat n) (ring_from h (alive_sorted m)) ∧
  r = GetSuccessors h m n ∧
  NoDup r ∧
  (∀ id, id ∈ r → ∃ info, m !! id = Some info ∧ State info = Alive) ∧
  length r = Nat.min (Z.to_nat n) (size (filter alive m)).
Proof.
  intros Hl r. assert (r = take (Z.to_nat n) (ring_from h (alive_sorted m))) as Hr
    by (by apply GetSuccessors_over_ring).
  assert (r = GetSuccessors h m n) as Hg by (by rewrite Hr, GetSuccessors_ring).
  split_and!; [done|done|rewrite Hg; apply GetSuccessors_NoDup
    |intros id; rewrite Hg; apply GetSuccessors_alive|].
  rewrite Hr, length_take. f_equal. rewrite ring_from_Permutation.
  unfold alive_sorted. rewrite merge_sort_Permutation, length_fmap.
  rewrite map_filter_alt. rewrite <- (length_map_to_list (list_to_map _)).
  rewrite map_to_list_to_map; [done|]. apply NoDup_fmap_filter, NoDup_fst_map_to_list.
Qed.

Lemma ring_head h ids id r :
  StronglySorted (≤) ids → ring_from h ids = id :: r →
  (h ≤ id ∧ ∀ x, x ∈ ids → h ≤ x → id ≤ x) ∨
  (Forall (λ x, x < h) ids ∧ ∀ x, x ∈ ids → id ≤ x).
Proof.
  unfold ring_from. intros Hs Heq.
  destruct (filter (λ x, h ≤ x) ids) as [|y l] eqn:E.
  - right. assert (Forall (λ x, x < h) ids) as Hall.
    { apply Forall_forall. intros x Hx. destruct (decide (h ≤ x)); [|lia].
      assert (x ∈ filter (λ x, h ≤ x) ids) as Hin by (by apply list_elem_of_filter).
      rewrite E in Hin. by apply elem_of_nil in Hin. }
    split; [done|]. simpl in Heq. rewrite filter_all in Heq by done. subst ids.
    intros x [->|Hx]%elem_of_cons; [lia|].
    apply StronglySorted_inv in Hs as [_ Hs]. rewrite Forall_forall in Hs. by apply Hs.
  - left. simplify_eq/=. assert (id ∈ filter (λ x, h ≤ x) ids) as Hin by (rewrite E; by left).
    apply list_elem_of_filter in Hin as [Hh Hin]. split; [done|].
    assert (StronglySorted (≤) (filter (λ x, h ≤ x) ids)) as Hsf.
    { clear -Hs. induction Hs as [|z l0 Hl IH Hz]; [constructor|]. rewrite filter_cons.
      case_decide; [|done]. constructor; [done|]. apply Forall_forall.
      intros w [_ Hw]%list_elem_of_filter. rewrite Forall_forall in Hz. by apply Hz. }
    rewrite E in Hsf. apply StronglySorted_inv in Hsf as [_ Hsf].
    intros x Hx Hhx. assert (x ∈ id :: l) as Hxl by (rewrite <- E; by apply list_elem_of_filter).
    apply elem_of_cons in Hxl as [->|Hxl]; [lia|]. rewrite Forall_forall in Hsf. by apply Hsf.
Qed.

(** The primary replica, the first successor, is the alive node with the
    least identifier at or after the hash; when every alive node comes before
    the hash the ring wraps around to the least identifier. *)
Theorem primary_is_successor (h n : Z) (m : gmap Z Info) (id : Z) (rest : list Z) :
  GetSuccessors h m n = id :: rest →
  let is_alive x := ∃ info, m !! x = Some info ∧ State info = Alive in
  is_alive id ∧
  ((h ≤ id ∧ ∀ x, is_alive x → h ≤ x → id ≤ x) ∨
   ((∀ x, is_alive x → x < h) ∧ ∀ x, is_alive x → id ≤ x)).
Proof.
  rewrite GetSuccessors_ring. intros Heq is_alive.
  destruct (Z.to_nat n) as [|k]; [done|].
  destruct (ring_from h (alive_sorted m)) as [|y l] eqn:E; [done|].
  simpl in Heq. injection Heq as -> _.
  assert (∀ x, x ∈ alive_sorted m ↔ is_alive x) as Hal by (intros; apply elem_of_alive_sorted).
  split.
  - apply Hal. rewrite <- (ring_from_Permutation h), E. by left.
  - destruct (ring_head _ _ _ _ (sorted_alive_sorted m) E) as [[Hh Hmin]|[Hall Hmin]].
    + left. split; [done|]. intros x Hx. apply Hmin. by apply Hal.
    + right. rewrite Forall_forall in Hall. split; intros x Hx%Hal; auto.
Qed.

(** The first [k] elements without one of them: the next one moves up. *)
Lemma take_filter_next (k : nat) (x : Z) (l : list Z) :
  NoDup l → x ∈ take k l →
  take k (filter (λ y, y ≠ x) l) = filter (λ y, y ≠ x) (take k l) ++ drop k (take (S k) l).
Proof.
  revert k. induction l as [|y l IH]; intros [|k] Hnd Hx; try by apply elem_of_nil in Hx.
  apply NoDup_cons in Hnd as [Hy Hnd]. cbn [take drop] in *. apply elem_of_cons in Hx as [->|Hx].
  - rewrite !filter_cons_False by tauto.
    assert (∀ l', l' ⊆ l → filter (λ z, z ≠ y) l' = l') as Hf.
    { intros l' Hl. apply filter_all. apply Forall_forall. intros z Hz ->. by apply Hy, Hl. }
    rewrite !Hf by (done || apply subseteq_take).
    clear. revert k. induction l as [|z l IH]; intros [|k]; [done..|]. cbn [take drop app]. f_equal. apply IH.
  - assert (y ≠ x) as Hne.
    { intros ->. apply Hy. by eapply elem_of_sublist; [exact Hx|apply sublist_take]. }
    rewrite !filter_cons_True by done. cbn [take app]. f_equal. by apply IH.
Qed.

(** C28: Minimal movement.  When a node leaves (or, read from right to left,
    joins), the files that it does not hold stay where they are; a file that it
    holds keeps its other replicas, in the same order, and gains the next node
    of the ring behind them, if there is one: [next] is what a placement on one
    node more would have added. *)
Theorem minimal_movement (h n x : Z) (m : gmap Z Info) :
  0 <= n →
  (x ∉ GetSuccessors h m n → GetSuccessors h (delete x m) n = GetSuccessors h m n) ∧
  (x ∈ GetSuccessors h m n → ∃ next, (length next <= 1)%nat ∧
     GetSuccessors h m (n + 1) = GetSuccessors h m n ++ next ∧
     GetSuccessors h (delete x m) n = filter (λ y, y ≠ x) (GetSuccessors h m n) ++ next).
Proof.
  intros Hn. rewrite !GetSuccessors_ring, alive_sorted_delete, ring_from_filter.
  assert (NoDup (ring_from h (alive_sorted m))) as Hnd
    by (rewrite ring_from_Permutation; apply NoDup_alive_sorted).
  set (R := ring_from h (alive_sorted m)) in *. set (k := Z.to_nat n). split; intros Hx.
  - apply take_filter_prefix. apply Forall_forall. intros y Hy ->. done.
  - exists (drop k (take (S k) R)). split; [rewrite length_drop, length_take; lia|].
    split; [|by apply take_filter_next].
    replace (Z.to_nat (n + 1)) with (S k) by lia.
    rewrite <- (take_drop k (take (S k) R)) at 1. f_equal. rewrite take_take. f_equal. lia.
Qed.

(** ** The properties at concrete inputs *)

Definition demo_ring : gmap Z Info :=
  {[ 10 := mkInfo "a" 1 0 0 0 Alive; 40 := mkInfo "b" 1 0 0 0 Alive;
     25 := mkInfo "c" 1 0 0 0 Failed; 30 := mkInfo "d" 1 0 0 0 Alive;
     70 := mkInfo "e" 1 0 0 0 Alive ]}.

Example demo_successors : GetSuccessors 35 demo_ring 3 = [40; 70; 10].
Proof. vm_compute. reflexivity. Qed.

Lemma GetSuccessors_spec_witness :
  NoDup (GetSuccessors_over 35 (reverse (map_to_list demo_ring)) 3) ∧
  length (GetSuccessors_over 35 (reverse (map_to_list demo_ring)) 3) = 3%nat.
Proof.
  destruct (GetSuccessors_spec 35 3 demo_ring (reverse (map_to_list demo_ring)))
    as (_ & _ & H1 & _ & H2).
  - apply reverse_Permutation.
  - split; [exact H1|]. rewrite H2. vm_compute. reflexivity.
Defined.

Lemma primary_is_successor_witness :
  (35 ≤ 40 ∧ ∀ x, (∃ info, demo_ring !! x = Some info ∧ State info = Alive) → 35 ≤ x → 40 ≤ x).
Proof.
  destruct (primary_is_successor 35 3 demo_ring 40 [70; 10]) as (_ & [H|[H _]]).
  - vm_compute. reflexivity.
  - exact H.
  - exfalso. assert (70 < 35); [|lia]. apply H. eexists. split; vm_compute; reflexivity.
Defined.

(** A node that holds no replica leaves, then one that holds one. *)
Lemma minimal_movement_witness :
  GetSuccessors 35 (delete 30 demo_ring) 3 = [40; 70; 10] ∧
  ∃ next, GetSuccessors 35 demo_ring 4 = [40; 70; 10] ++ next ∧
    GetSuccessors 35 (delete 70 demo_ring) 3 = [40; 10] ++ next.
Proof.
  split.
  - rewrite (proj1 (minimal_movement 35 3 30 demo_ring ltac:(lia))).
    + vm_compute. reflexivity.
    + apply (bool_decide_unpack _). vm_compute. exact I.
  - destruct (proj2 (minimal_movement 35 3 70 demo_ring ltac:(lia))) as (next & _ & H1 & H2).
    + apply (bool_decide_unpack _). vm_compute. exact I.
    + exists next. split; [exact H1|exact H2].
Defined.
