(* ===== verification/FileSystem.v ===== *)
(** * FileSystem: the operations of package [os] the storage layers call

    A path is the list of its cleaned components, relative to the working
    directory; the empty path is the working directory.  A file holds either
    raw bytes or the JSON document of a metadata value: [json.MarshalIndent]
    followed by [os.WriteFile] writes [Json j], and [os.ReadFile] followed by
    [json.Unmarshal] gives [j] back or fails on anything else.

    Disks fail: [faults] lists the outcomes of the coming calls that create,
    write or remove something.  A broken write may leave part of a file behind,
    a removal that gets stuck may leave some of what it was to remove.  A disk
    with no faults listed works. *)

From S2P Require Import Prelude GoStrings.

Create HintDb goio.

Abbreviation path := (list string).

Inductive content (J : Type) :=
  | Bytes (s : string)
  | Json (j : J).
Arguments Bytes {J} s.
Arguments Json {J} j.

Inductive node (J : Type) :=
  | NDir
  | NFile (c : content J).
Arguments NDir {J}.
Arguments NFile {J} c.

Inductive fault (J : Type) :=
  | Healthy
  | Broken (left_behind : option (content J))
  | Stuck (kept : list path).
Arguments Healthy {J}.
Arguments Broken {J} left_behind.
Arguments Stuck {J} kept.

Record disk (J : Type) := mkDisk {
  nodes : gmap path (node J);
  faults : list (fault J);
}.
Arguments mkDisk {J} nodes faults.
Arguments nodes {J} d.
Arguments faults {J} d.

Section os.
Context {J : Type}.
Implicit Types (d : disk J) (p : path).

Definition next_fault d : fault J :=
  match faults d with [] => Healthy | f :: _ => f end.

Definition pop_fault d : disk J := mkDisk (nodes d) (tail (faults d)).

Definition is_file (n : option (node J)) : bool :=
  match n with Some (NFile _) => true | _ => false end.

Definition is_dir d p : bool :=
  bool_decide (p = []) || match nodes d !! p with Some NDir => true | _ => false end.

(** [os.Stat] succeeds. *)
Definition Stat d p : bool :=
  bool_decide (p = []) || bool_decide (is_Some (nodes d !! p)).

(** The non-empty prefixes of a path. *)
Definition prefixes p : list path := (λ n, take (S n) p) <$> seq 0 (length p).

Definition mkdirs (l : list path) (m : gmap path (node J)) : gmap path (node J) :=
  foldr (λ q m, match m !! q with None => <[q := NDir]> m | Some _ => m end) m l.

(** [os.MkdirAll]. *)
Definition MkdirAll p d : result unit * disk J :=
  let d1 := pop_fault d in
  match next_fault d with
  | Broken _ | Stuck _ => (Err "mkdir failed", d1)
  | Healthy =>
      if existsb (λ q, is_file (nodes d !! q)) (prefixes p)
      then (Err "not a directory", d1)
      else (Ok tt, mkDisk (mkdirs (prefixes p) (nodes d)) (faults d1))
  end.

(** [os.WriteFile]. *)
Definition WriteFile p (c : content J) d : result unit * disk J :=
  let d1 := pop_fault d in
  if negb (is_dir d (removelast p)) || is_dir d p then (Err "no such directory", d1)
  else
    match next_fault d with
    | Broken None | Stuck _ => (Err "write failed", d1)
    | Broken (Some c') => (Err "write failed", mkDisk (<[p := NFile c']> (nodes d)) (faults d1))
    | Healthy => (Ok tt, mkDisk (<[p := NFile c]> (nodes d)) (faults d1))
    end.

Definition ReadFileRaw d p : result (content J) :=
  match nodes d !! p with
  | Some (NFile c) => Ok c
  | Some NDir => Err "is a directory"
  | None => Err "no such file or directory"
  end.

(** [os.ReadFile] of a block. *)
Definition ReadBytes d p : result string :=
  c <- ReadFileRaw d p ;;
  match c with Bytes s => Ok s | Json _ => Err "not a block" end.

(** [os.ReadFile] and [json.Unmarshal] of a metadata document. *)
Definition ReadJson d p : result J :=
  c <- ReadFileRaw d p ;;
  match c with Json j => Ok j | Bytes _ => Err "invalid character" end.

(** A strict prefix. *)
Definition is_below p (q : path) : bool := bool_decide (p `prefix_of` q ∧ p ≠ q).

(** [os.Remove]: a directory which is not empty stays. *)
Definition Remove p d : result unit * disk J :=
  let d1 := pop_fault d in
  match next_fault d with
  | Broken _ | Stuck _ => (Err "remove failed", d1)
  | Healthy =>
      if bool_decide (nodes d !! p = None) then (Err "no such file or directory", d1)
      else if existsb (λ kv, is_below p kv.1) (map_to_list (nodes d)) then (Err "directory not empty", d1)
      else (Ok tt, mkDisk (delete p (nodes d)) (faults d1))
  end.

(** [os.RemoveAll]: when it fails, the entries [kept] and what lies above them
    are still there. *)
Definition RemoveAll p d : result unit * disk J :=
  let d1 := pop_fault d in
  match next_fault d with
  | Broken _ => (Err "remove failed", d1)
  | Stuck kept =>
      (Err "remove failed",
       mkDisk (filter (λ kv, ¬ p `prefix_of` kv.1 ∨ Exists (λ r, kv.1 `prefix_of` r) kept) (nodes d)) (faults d1))
  | Healthy => (Ok tt, mkDisk (filter (λ kv, ¬ p `prefix_of` kv.1) (nodes d)) (faults d1))
  end.

(** The name of the entry [k] of the directory [p]. *)
Definition child_name p (k : path) : option string :=
  match decide (p `prefix_of` k) with
  | left _ => match drop (length p) k with [n] => Some n | _ => None end
  | right _ => None
  end.

(** [os.ReadDir]: the entries of a directory. *)
Definition ReadDir p d : list (string * node J) :=
  omap (λ kv, match child_name p kv.1 with Some n => Some (n, kv.2) | None => None end)
    (map_to_list (nodes d)).

(** ** Calls in sequence

    A function that works on the disk returns a result and the new disk. *)

Definition io (A : Type) : Type := disk J → result A * disk J.

Definition io_ret {A} (a : A) : io A := λ d, (Ok a, d).
Definition io_fail {A} (e : string) : io A := λ d, (Err e, d).

Definition io_bind {A B} (c : io A) (k : A → io B) : io B := λ d,
  match c d with
  | (Ok a, d') => k a d'
  | (Err e, d') => (Err e, d')
  end.

(** A call that reads the disk. *)
Definition io_read {A} (c : disk J → result A) : io A := λ d, (c d, d).

(** [if err := c; err != nil { return fmt.Errorf(e, err) }]. *)
Definition or_fail {A} (c : io A) (e : string) : io A := λ d,
  match c d with
  | (Ok a, d') => (Ok a, d')
  | (Err _, d') => (Err e, d')
  end.

(** The same, with a cleaning up before the return, whose error is dropped. *)
Definition or_clean {A} (c : io A) (clean : io unit) : io A := λ d,
  match c d with
  | (Ok a, d') => (Ok a, d')
  | (Err e, d') => (Err e, (clean d').2)
  end.

Fixpoint io_iter {A} (f : A → io unit) (l : list A) : io unit :=
  match l with
  | [] => io_ret tt
  | a :: l' => io_bind (f a) (λ _, io_iter f l')
  end.
End os.

Notation "x <-- c1 ;; c2" := (io_bind c1 (λ x, c2))
  (at level 60, c1 at next level, right associativity) : go_scope.

(** ** Lemmas *)

Section os_lemmas.
Context {J : Type}.
Implicit Types (d : disk J) (p q : path).

Lemma lookup_mkdirs (l : list path) (m : gmap path (node J)) (q : path) :
  mkdirs l m !! q = match m !! q with Some n => Some n | None =>
    if decide (q ∈ l) then Some NDir else None end.
Proof.
  revert q; induction l as [|r l IH]; intros q; cbn [mkdirs foldr]; [|fold (mkdirs l m)].
  - destruct (m !! q); [done|]. case_decide as H; [by apply not_elem_of_nil in H|done].
  - destruct (mkdirs l m !! r) eqn:Er.
    + rewrite IH. destruct (m !! q) eqn:Eq; [done|].
      destruct (decide (q = r)) as [->|Hne].
      * rewrite IH, Eq in Er. destruct (decide (r ∈ l)); [|done].
        destruct (decide (r ∈ r :: l)); set_solver.
      * destruct (decide (q ∈ l)), (decide (q ∈ r :: l)); set_solver.
    + destruct (decide (r = q)) as [->|Hne].
      * rewrite lookup_insert_eq. rewrite IH in Er. destruct (m !! q); [done|].
        destruct (decide (q ∈ q :: l)); set_solver.
      * rewrite lookup_insert_ne by done. rewrite IH. destruct (m !! q); [done|].
        destruct (decide (q ∈ l)), (decide (q ∈ r :: l)); set_solver.
Qed.

Lemma elem_of_prefixes p q : q ∈ prefixes p ↔ q ≠ [] ∧ q `prefix_of` p.
Proof.
  unfold prefixes. rewrite list_elem_of_fmap. split.
  - intros (n & -> & Hn%elem_of_seq). split.
    + destruct p; simpl in *; [lia|done].
    + apply prefix_take.
  - intros (Hne & k & ->). exists (length q - 1)%nat. split.
    + replace (S (length q - 1)) with (length q) by (destruct q; simpl; [done|lia]).
      by rewrite take_app_length.
    + apply elem_of_seq. rewrite length_app. destruct q; simpl; [done|lia].
Qed.

(** A removal that works. *)
Lemma lookup_RemoveAll p d q :
  next_fault d = Healthy →
  (RemoveAll p d).1 = Ok tt ∧
  nodes (RemoveAll p d).2 !! q = if decide (p `prefix_of` q) then None else nodes d !! q.
Proof.
  intros Hh. unfold RemoveAll. rewrite Hh. split; [done|]. simpl. case_decide as Hp.
  - apply map_lookup_filter_None. right. intros x _ Hn. by apply Hn.
  - destruct (nodes d !! q) eqn:E.
    + apply map_lookup_filter_Some. done.
    + apply map_lookup_filter_None. by left.
Qed.

(** Any removal: what lies elsewhere stays, and with an entry the directories
    above it. *)
Lemma RemoveAll_cases p d :
  faults (RemoveAll p d).2 = tail (faults d) ∧
  (∀ q, ¬ p `prefix_of` q → nodes (RemoveAll p d).2 !! q = nodes d !! q) ∧
  (∀ q, nodes (RemoveAll p d).2 !! q = nodes d !! q ∨ nodes (RemoveAll p d).2 !! q = None) ∧
  ∀ q r, q `prefix_of` r → is_Some (nodes (RemoveAll p d).2 !! r) →
    nodes (RemoveAll p d).2 !! q = nodes d !! q.
Proof.
  assert (∀ (P : path * node J → Prop) `{!∀ kv, Decision (P kv)} q,
    (filter P (nodes d) !! q = nodes d !! q ∧ ∀ x, nodes d !! q = Some x → P (q, x)) ∨
    filter P (nodes d) !! q = None ∧ ∃ x, nodes d !! q = Some x ∧ ¬ P (q, x)) as Hf.
  { intros P ? q. destruct (nodes d !! q) as [x|] eqn:E.
    - destruct (decide (P (q, x))) as [HP|HP].
      + left. split; [by apply map_lookup_filter_Some|]. by intros y [= <-].
      + right. split; [|by eauto]. apply map_lookup_filter_None. right. intros y Hy. by simplify_eq.
    - left. split; [|done]. apply map_lookup_filter_None. by left. }
  unfold RemoveAll. destruct (next_fault d) as [|lb|kept]; simpl; (split; [done|]).
  - split; [|split].
    + intros q Hq. destruct (Hf (λ kv, ¬ p `prefix_of` kv.1) _ q) as [[? _]|[_ (x & _ & Hn)]]; [done|by destruct Hn].
    + intros q. destruct (Hf (λ kv, ¬ p `prefix_of` kv.1) _ q) as [[? _]|[? _]]; auto.
    + intros q r Hqr [x Hx]. apply map_lookup_filter_Some in Hx as [_ Hr].
      destruct (Hf (λ kv, ¬ p `prefix_of` kv.1) _ q) as [[? _]|[_ (y & _ & Hn)]]; [done|].
      destruct Hn. simpl in *. intros Hp. apply Hr. by etrans.
  - auto.
  - set (P := λ kv : path * node J, ¬ p `prefix_of` kv.1 ∨ Exists (λ r, kv.1 `prefix_of` r) kept).
    split; [|split].
    + intros q Hq. destruct (Hf P _ q) as [[? _]|[_ (x & _ & Hn)]]; [done|]. destruct Hn. by left.
    + intros q. destruct (Hf P _ q) as [[? _]|[? _]]; auto.
    + intros q r Hqr [x Hx]. apply map_lookup_filter_Some in Hx as [_ Hr].
      destruct (Hf P _ q) as [[? _]|[_ (y & _ & Hn)]]; [done|]. destruct Hn. unfold P in *. simpl in *.
      destruct Hr as [Hr|Hr]; [left; intros Hp; apply Hr; by etrans|right].
      eapply Exists_impl; [exact Hr|]. intros z Hz. by etrans.
Qed.

Lemma removelast_snoc {A} (l : list A) x : removelast (l ++ [x]) = l.
Proof. apply removelast_last. Qed.

Lemma snoc_ne_self {A} (l : list A) x : l ++ [x] ≠ l.
Proof. intros H%(f_equal length). rewrite length_app in H. simpl in H. lia. Qed.

Lemma is_dir_true d p : is_dir d p = true ↔ p = [] ∨ nodes d !! p = Some NDir.
Proof.
  unfold is_dir. rewrite orb_true_iff, bool_decide_eq_true. f_equiv.
  split; [|by intros ->]. by destruct (nodes d !! p) as [[]|].
Qed.

Lemma Stat_false d p : Stat d p = false ↔ p ≠ [] ∧ nodes d !! p = None.
Proof.
  unfold Stat. rewrite orb_false_iff, !bool_decide_eq_false. by rewrite eq_None_not_Some.
Qed.

(** Writing a file of an existing directory works unless the disk fails. *)
Lemma WriteFile_works dir n (c : content J) d :
  next_fault d = Healthy → is_dir d dir = true → nodes d !! (dir ++ [n]) ≠ Some NDir →
  WriteFile (dir ++ [n]) c d =
    (Ok tt, mkDisk (<[dir ++ [n] := NFile c]> (nodes d)) (tail (faults d))).
Proof.
  intros Hf Hd Hn. unfold WriteFile, pop_fault. rewrite removelast_snoc, Hd, Hf.
  destruct (is_dir d (dir ++ [n])) eqn:E; [|done].
  apply is_dir_true in E as [E|E]; [by destruct dir|done].
Qed.

Lemma WriteFile_ok dir n (c : content J) d :
  faults d = [] → is_dir d dir = true → nodes d !! (dir ++ [n]) ≠ Some NDir →
  WriteFile (dir ++ [n]) c d =
    (Ok tt, mkDisk (<[dir ++ [n] := NFile c]> (nodes d)) []).
Proof. intros Hf Hd Hn. rewrite WriteFile_works by (done || by (unfold next_fault; rewrite Hf)). by rewrite Hf. Qed.

(** A failed write of a file of an existing directory is the disk's failure. *)
Lemma WriteFile_fails dir n (c : content J) e d d' :
  is_dir d dir = true → nodes d !! (dir ++ [n]) ≠ Some NDir →
  WriteFile (dir ++ [n]) c d = (Err e, d') → next_fault d ≠ Healthy ∧ faults d' = tail (faults d).
Proof.
  intros Hd Hn Hw. split.
  - intros Hf. by rewrite WriteFile_works in Hw.
  - revert Hw. unfold WriteFile. destruct (_ || _); [by intros [= _ <-]|].
    by destruct (next_fault d) as [|[?|]|]; intros [= _ <-].
Qed.

Lemma WriteFile_healthy dir n (c : content J) d d' :
  WriteFile (dir ++ [n]) c d = (Ok tt, d') → next_fault d = Healthy ∧ faults d' = tail (faults d).
Proof.
  unfold WriteFile. destruct (_ || _); [done|].
  by destruct (next_fault d) as [|[?|]|]; intros [= <-].
Qed.

(** Files and directories lie in directories. *)
Definition wf d : Prop :=
  ∀ p n, is_Some (nodes d !! (p ++ [n])) → is_dir d p = true.

Lemma wf_mono d d' p n c :
  wf d → nodes d' = <[p ++ [n] := NFile c]> (nodes d) →
  is_dir d p = true → nodes d !! (p ++ [n]) ≠ Some NDir → wf d'.
Proof.
  intros Hwf Hd' Hp Hn q m. rewrite !is_dir_true, Hd'. intros Hs.
  assert (is_dir d q = true) as Hq.
  { destruct (decide (p ++ [n] = q ++ [m])) as [[-> ->]%app_inj_tail|Hne]; [done|].
    rewrite lookup_insert_ne in Hs by done. by apply (Hwf q m). }
  apply is_dir_true in Hq as [->|Hq]; [by left|right].
  rewrite lookup_insert_ne; [done|]. intros <-. done.
Qed.

Lemma wf_below d p q : wf d → p ≠ [] → nodes d !! p = None → p `prefix_of` q → nodes d !! q = None.
Proof.
  intros Hwf Hp Hn [k ->]. induction k as [|x k IH] using rev_ind; [by rewrite app_nil_r|].
  destruct (nodes d !! (p ++ k ++ [x])) eqn:E; [|done].
  rewrite app_assoc in E.
  assert (is_dir d (p ++ k) = true) as Hd by (apply (Hwf _ x); by rewrite E).
  apply is_dir_true in Hd as [Hd|Hd]; [by destruct p|congruence].
Qed.

Lemma wf_above d p q : wf d → is_dir d p = true → q `prefix_of` p → is_dir d q = true.
Proof.
  intros Hwf Hp [k ->]. revert Hp. induction k as [|x k IH] using rev_ind; [by rewrite app_nil_r|].
  rewrite app_assoc. intros [Hd|Hd]%is_dir_true; [by destruct (app_eq_nil _ _ Hd)|].
  apply IH, (Hwf _ x). by rewrite Hd.
Qed.

Lemma MkdirAll_cases p d :
  (∃ e, MkdirAll p d = (Err e, pop_fault d)) ∨
  MkdirAll p d = (Ok tt, mkDisk (mkdirs (prefixes p) (nodes d)) (tail (faults d))) ∧
  (∀ q, q ∈ prefixes p → is_file (nodes d !! q) = false).
Proof.
  unfold MkdirAll. destruct (next_fault d); [|by left; eauto..].
  destruct (existsb _ _) eqn:E; [by left; eauto|right].
  split; [done|]. intros q Hq. destruct (is_file _) eqn:F; [|done].
  assert (existsb (λ q, is_file (nodes d !! q)) (prefixes p) = true) as Ht; [|congruence].
  apply existsb_exists. exists q. by rewrite <- list_elem_of_In.
Qed.

Lemma lookup_MkdirAll p d q :
  mkdirs (prefixes p) (nodes d) !! q =
    match nodes d !! q with Some n => Some n | None =>
      if decide (q ≠ [] ∧ q `prefix_of` p) then Some NDir else None end.
Proof.
  rewrite lookup_mkdirs. destruct (nodes d !! q); [done|].
  apply decide_ext. apply elem_of_prefixes.
Qed.

(** The possible outcomes of a write. *)
Lemma WriteFile_cases dir n (c : content J) d :
  let '(r, d') := WriteFile (dir ++ [n]) c d in
  faults d' = tail (faults d) ∧
  match r with
  | Ok _ => nodes d' = <[dir ++ [n] := NFile c]> (nodes d) ∧ is_dir d dir = true ∧
            nodes d !! (dir ++ [n]) ≠ Some NDir
  | Err _ => nodes d' = nodes d ∨
      ∃ c', nodes d' = <[dir ++ [n] := NFile c']> (nodes d) ∧ is_dir d dir = true ∧
            nodes d !! (dir ++ [n]) ≠ Some NDir ∧ next_fault d = Broken (Some c')
  end.
Proof.
  unfold WriteFile. rewrite removelast_snoc.
  destruct (negb (is_dir d dir) || is_dir d (dir ++ [n])) eqn:E; simpl; [by auto|].
  apply orb_false_iff in E as [E1%negb_false_iff E2].
  assert (nodes d !! (dir ++ [n]) ≠ Some NDir) as Hn.
  { intros H. rewrite (proj2 (is_dir_true d _)) in E2; [done|by right]. }
  destruct (next_fault d) as [|[c'|]|kept] eqn:F; simpl; eauto 10.
Qed.

(** ** Invariants of calls *)

Definition preserves {A} (I : disk J → Prop) (c : io A) : Prop := ∀ d, I d → I (c d).2.

Lemma preserves_bind {A B} I (c : io A) (k : A → io B) :
  preserves I c → (∀ a, preserves I (k a)) → preserves I (io_bind c k).
Proof.
  intros Hc Hk d Hd. unfold io_bind. specialize (Hc d Hd).
  destruct (c d) as [[a|e] d']; [by apply Hk|done].
Qed.

Lemma preserves_or_fail {A} I (c : io A) e : preserves I c → preserves I (or_fail c e).
Proof.
  intros Hc d Hd. unfold or_fail. specialize (Hc d Hd). by destruct (c d) as [[a|?] d'].
Qed.

Lemma preserves_or_clean {A} I (c : io A) (f : io unit) :
  preserves I c → preserves I f → preserves I (or_clean c f).
Proof.
  intros Hc Hf d Hd. unfold or_clean. specialize (Hc d Hd).
  destruct (c d) as [[a|?] d']; [done|by apply Hf].
Qed.

Lemma preserves_iter {A} I (f : A → io unit) l :
  (∀ a, preserves I (f a)) → preserves I (io_iter f l).
Proof.
  intros Hf. induction l as [|a l IH]; [by intros d|]. by apply preserves_bind.
Qed.

Lemma preserves_read {A} I (c : disk J → result A) : preserves I (io_read c).
Proof. by intros d. Qed.

Lemma WriteFile_wf dir n (c : content J) : preserves wf (WriteFile (dir ++ [n]) c).
Proof.
  intros d Hd. pose proof (WriteFile_cases dir n c d) as H.
  destruct (WriteFile _ _ _) as [[[]|e] d']; destruct H as [_ H]; simpl.
  - destruct H as (Hn & H1 & H2). by eapply wf_mono.
  - destruct H as [H|(c' & Hn & H1 & H2 & _)]; [|by eapply wf_mono].
    intros p m. rewrite is_dir_true, H, <- is_dir_true. apply Hd.
Qed.

Lemma MkdirAll_wf p : preserves wf (MkdirAll (J := J) p).
Proof.
  intros d Hd. destruct (MkdirAll_cases p d) as [[e ->]|[-> Hf]]; simpl; [apply Hd|].
  intros q n Hs. apply is_dir_true. simpl in *. rewrite lookup_MkdirAll in *.
  destruct (decide (q = [])) as [->|Hq]; [by left|right].
  destruct (nodes d !! (q ++ [n])) eqn:E.
  - assert (is_dir d q = true) as Hdq by (apply (Hd q n); by rewrite E).
    apply is_dir_true in Hdq as [?|Hdq]; [done|]. by rewrite Hdq.
  - destruct (decide (q ++ [n] ≠ [] ∧ q ++ [n] `prefix_of` p)) as [[_ Hp]|]; [|by destruct Hs].
    assert (q `prefix_of` p) as Hqp by (etrans; [by apply prefix_app_r|exact Hp]).
    specialize (Hf q ltac:(by apply elem_of_prefixes)).
    destruct (nodes d !! q) as [[]|]; [done|done|]. by rewrite decide_True.
Qed.

Lemma RemoveAll_wf p : preserves wf (RemoveAll (J := J) p).
Proof.
  intros d Hd q n Hs. destruct (RemoveAll_cases p d) as (_ & _ & Hc & Ha).
  apply is_dir_true. rewrite (Ha q (q ++ [n])); [|by apply prefix_app_r|done].
  apply is_dir_true, (Hd q n). destruct (Hc (q ++ [n])) as [H|H]; rewrite H in Hs; [done|by destruct Hs].
Qed.

Lemma Remove_wf p d : wf d → wf (Remove p d).2.
Proof.
  intros Hd. unfold Remove. destruct (next_fault d); [|done..].
  case_bool_decide; [done|]. destruct (existsb _ _) eqn:E; [done|].
  intros q n [x Hs]. simpl in *. apply lookup_delete_Some in Hs as [Hne Hs].
  assert (is_dir d q = true) as Hq by (apply (Hd q n); by rewrite Hs).
  apply is_dir_true in Hq as [->|Hq]; apply is_dir_true; [by left|right]. simpl.
  rewrite lookup_delete_ne; [done|]. intros ->.
  assert (existsb (λ kv, is_below q kv.1) (map_to_list (nodes d)) = true) as Ht; [|congruence].
  apply existsb_exists. exists (q ++ [n], x). rewrite <- list_elem_of_In, elem_of_map_to_list.
  split; [done|]. apply bool_decide_eq_true. split; [by apply prefix_app_r|].
  intros Hs'. symmetry in Hs'. by apply snoc_ne_self in Hs'.
Qed.

Lemma lookup_Remove p d q :
  nodes (Remove p d).2 !! q = nodes d !! q ∨ q = p ∧ nodes (Remove p d).2 !! q = None.
Proof.
  unfold Remove. destruct (next_fault d); [|by left..].
  case_bool_decide; [by left|]. destruct (existsb _ _); [by left|]. simpl.
  destruct (decide (p = q)) as [->|]; [right; by rewrite lookup_delete_eq|left].
  by rewrite lookup_delete_ne.
Qed.
End os_lemmas.

#[export] Hint Resolve preserves_bind preserves_or_fail preserves_or_clean preserves_iter
  preserves_read WriteFile_wf MkdirAll_wf RemoveAll_wf Remove_wf : goio.
