(* ===== verification/BlockStore.v ===== *)
(** * BlockStore: pkg/storage, the block store of a node

    A file of HyDFS lives in a directory of its own: its blocks
    [block_01.txt], [block_02.txt], ... and the metadata document
    [_metadata.json], which records for every block the client that appended it
    and the client's sequence number.  The [Manager_...] operations are the
    flat store of pkg/storage/manager.go. *)

From S2P Require Import Prelude GoStrings FileSystem.

(** ** Data *)

Record BlockMeta := mkBlockMeta {
  BlockNumber : Z;
  ClientID : string;
  ClientSequence : Z;
}.

Record FileMetadata := mkFileMetadata {
  FileID : Z;
  HyDFSFilename : string;
  PrimaryReplicaNodeID : Z;
  TotalBlocks : Z;
  ClientSequenceMap : gmap string Z;
  BlockMetadata : list BlockMeta;
}.

Record BlockInfo := mkBlockInfo {
  bi_Content : string;
  bi_ClientID : string;
  bi_ClientSequence : Z;
  bi_BlockNumber : Z;
}.

#[global] Instance BlockInfo_eq_dec : EqDecision BlockInfo.
Proof. solve_decision. Defined.
#[global] Instance BlockMeta_eq_dec : EqDecision BlockMeta.
Proof. solve_decision. Defined.

Abbreviation bdisk := (disk FileMetadata).

(** [m[k]] on a Go map of integers: zero when the key is absent. *)
Definition get0 (m : gmap string Z) (k : string) : Z := default 0 (m !! k).

Definition block_name (i : Z) : string := "block_" +:+ pad_zero 2 i +:+ ".txt".

Definition metadata_name : string := "_metadata.json".

(** ** The sort of [MergeFile] *)

Definition block_after (a b : BlockInfo) : bool :=
  String.ltb (bi_ClientID b) (bi_ClientID a) ||
  (bool_decide (bi_ClientID a = bi_ClientID b)
     && (bi_ClientSequence b <? bi_ClientSequence a)).

Definition sort_blocks : list BlockInfo → list BlockInfo := exchange_sort block_after.

(** The metadata of the blocks a merge writes. *)
Definition merged_meta (blocks : list BlockInfo) : list BlockMeta :=
  imap (λ i b, mkBlockMeta (Z.of_nat i + 1) (bi_ClientID b) (bi_ClientSequence b)) blocks.

Definition sequence_step (m : gmap string Z) (b : BlockInfo) : gmap string Z :=
  if bi_ClientSequence b >? get0 m (bi_ClientID b)
  then <[bi_ClientID b := bi_ClientSequence b]> m else m.

Definition rebuild_sequence (blocks : list BlockInfo) : gmap string Z :=
  foldl sequence_step ∅ blocks.

(** ** The store *)

Section store.
Context (baseDir : path).

Definition getFileDir (hydfsFilename : string) : path :=
  path_join baseDir (trim_suffix hydfsFilename (path_ext hydfsFilename)).

Definition readMetadata (fileDir : path) (d : bdisk) : result FileMetadata :=
  ReadJson d (fileDir ++ [metadata_name]).

Definition writeMetadata (fileDir : path) (md : FileMetadata) : io unit :=
  WriteFile (fileDir ++ [metadata_name]) (Json md).

Definition writeBlock (fileDir : path) (i : Z) (content : string) : io (J := FileMetadata) unit :=
  WriteFile (fileDir ++ [block_name i]) (Bytes content).

Definition readBlock (fileDir : path) (d : bdisk) (i : Z) : result string :=
  ReadBytes d (fileDir ++ [block_name i]).

Definition CreateFile (hydfsFilename content : string) (fileID primaryNodeID : Z)
    (clientID : string) : io unit := λ d,
  let fileDir := getFileDir hydfsFilename in
  if Stat d fileDir then (Err ("file already exists: " +:+ hydfsFilename), d)
  else
    (_ <-- or_fail (MkdirAll fileDir) "failed to create file directory" ;;
     _ <-- or_clean (or_fail (writeBlock fileDir 1 content) "failed to write block")
             (RemoveAll fileDir) ;;
     let metadata := mkFileMetadata fileID hydfsFilename primaryNodeID 1
       {[clientID := 1]} [mkBlockMeta 1 clientID 1] in
     or_clean (or_fail (writeMetadata fileDir metadata) "failed to write metadata")
       (RemoveAll fileDir)) d.

Definition ReadFile (hydfsFilename : string) (d : bdisk) : result string :=
  let fileDir := getFileDir hydfsFilename in
  match readMetadata fileDir d with
  | Err _ => Err "failed to read metadata"
  | Ok metadata =>
      blocks <- result_mapM (readBlock fileDir d) (seqZ 1 (TotalBlocks metadata)) ;;
      Ok (foldl String.append "" blocks)
  end.

(** [os.Remove] of the entries named [block_...]; its errors are dropped. *)
Definition removeBlocks (fileDir : path) (d : bdisk) : bdisk :=
  foldl (λ d' e, if has_prefix "block_" e.1 then (Remove (fileDir ++ [e.1]) d').2 else d')
    d (ReadDir fileDir d).

Definition MergeFile (hydfsFilename : string) (allBlocksData : list BlockInfo) : io unit := λ d,
  let fileDir := getFileDir hydfsFilename in
  match readMetadata fileDir d with
  | Err _ => (Err "failed to read metadata", d)
  | Ok metadata =>
      let sortedBlocks := sort_blocks allBlocksData in
      (_ <-- io_iter (λ b, or_fail (writeBlock fileDir b.1 b.2) "failed to write merged block")
               (imap (λ i b, (Z.of_nat i + 1, bi_Content b)) sortedBlocks) ;;
       or_fail
         (writeMetadata fileDir
            (mkFileMetadata (FileID metadata) (HyDFSFilename metadata)
               (PrimaryReplicaNodeID metadata) (Z.of_nat (length sortedBlocks))
               (rebuild_sequence sortedBlocks) (merged_meta sortedBlocks)))
         "failed to update metadata") (removeBlocks fileDir d)
  end.

(** The metadata [GetAllBlocks] gives the block [i]. *)
Definition block_info (metadata : FileMetadata) (i : Z) (content : string) : BlockInfo :=
  match BlockMetadata metadata !! Z.to_nat (i - 1) with
  | Some m => mkBlockInfo content (ClientID m) (ClientSequence m) i
  | None => mkBlockInfo content ("unknown_block_" +:+ itoa i) i i
  end.

Definition GetAllBlocks (hydfsFilename : string) (d : bdisk) : result (list BlockInfo) :=
  let fileDir := getFileDir hydfsFilename in
  match readMetadata fileDir d with
  | Err _ => Err "failed to read metadata"
  | Ok metadata =>
      result_mapM
        (λ i, content <- readBlock fileDir d i ;; Ok (block_info metadata i content))
        (seqZ 1 (TotalBlocks metadata))
  end.

Definition FileExists (hydfsFilename : string) (d : bdisk) : bool :=
  Stat d (getFileDir hydfsFilename).

Definition DeleteFile (hydfsFilename : string) : io (J := FileMetadata) unit :=
  RemoveAll (getFileDir hydfsFilename).

Definition ListFiles (d : bdisk) : result (list string) :=
  if is_dir d baseDir then
    Ok (omap (λ e,
          match e.2 with
          | NDir =>
              if has_prefix "." e.1 then None
              else match readMetadata (baseDir ++ [e.1]) d with
                   | Ok metadata => Some (HyDFSFilename metadata)
                   | Err _ => None
                   end
          | NFile _ => None
          end) (ReadDir baseDir d))
  else Err "no such file or directory".

Definition GetMetadata (hydfsFilename : string) (d : bdisk) : result FileMetadata :=
  readMetadata (getFileDir hydfsFilename) d.

Definition empty_metadata (hydfsFilename : string) : FileMetadata :=
  mkFileMetadata 0 hydfsFilename 0 0 ∅ [].

(** What [AppendFile] makes of the metadata. *)
Definition append_metadata (metadata : FileMetadata) (clientID : string) : FileMetadata :=
  let total := wrap64 (TotalBlocks metadata + 1) in
  let csn := wrap64 (get0 (ClientSequenceMap metadata) clientID + 1) in
  mkFileMetadata (FileID metadata) (HyDFSFilename metadata) (PrimaryReplicaNodeID metadata)
    total (<[clientID := csn]> (ClientSequenceMap metadata))
    (BlockMetadata metadata ++ [mkBlockMeta total clientID csn]).

(** The creation of a file that does not exist. *)
Definition append_init (hydfsFilename : string) : io unit := λ d,
  let fileDir := getFileDir hydfsFilename in
  if Stat d fileDir then (Ok tt, d)
  else
    (_ <-- or_fail (MkdirAll fileDir) "failed to create file directory" ;;
     or_fail (writeMetadata fileDir (empty_metadata hydfsFilename))
       "failed to write initial metadata") d.

Definition append_block (hydfsFilename content clientID : string) : io unit :=
  let fileDir := getFileDir hydfsFilename in
  metadata <-- or_fail (io_read (readMetadata fileDir)) "failed to read metadata" ;;
  let metadata' := append_metadata metadata clientID in
  _ <-- or_fail (writeBlock fileDir (TotalBlocks metadata') content)
          "failed to write append block" ;;
  or_fail (writeMetadata fileDir metadata') "failed to update metadata".

Definition AppendFile (hydfsFilename content clientID : string) : io unit :=
  _ <-- append_init hydfsFilename ;;
  append_block hydfsFilename content clientID.
End store.

(** [NewBlockStore]: the error of [os.MkdirAll] is dropped. *)
Definition NewBlockStore (baseDir : path) (d : bdisk) : bdisk := (MkdirAll baseDir d).2.

(** ** pkg/storage/manager.go *)

Definition StorageDir : path := ["hydfs_storage"].

Definition Manager_path (filename : string) : path := path_join StorageDir filename.

Definition NewManager (d : bdisk) : bdisk := (MkdirAll StorageDir d).2.

Definition Manager_WriteFile (filename data : string) : io (J := FileMetadata) unit :=
  WriteFile (Manager_path filename) (Bytes data).

Definition Manager_ReadFile (filename : string) (d : bdisk) : result string :=
  ReadBytes d (Manager_path filename).

Definition Manager_FileExists (filename : string) (d : bdisk) : bool := Stat d (Manager_path filename).

Definition Manager_DeleteFile (filename : string) : io (J := FileMetadata) unit :=
  Remove (Manager_path filename).

Definition Manager_ListFiles (d : bdisk) : result (list string) :=
  if is_dir d StorageDir then
    Ok (omap (λ e, match e.2 with NFile _ => Some e.1 | NDir => None end)
          (ReadDir StorageDir d))
  else Err "no such file or directory".

(** ** Lemmas: names and order *)

Lemma block_name_inj i j : 0 < i → 0 < j → block_name i = block_name j → i = j.
Proof.
  unfold block_name. intros Hi Hj H%(f_equal (drop_string 6)). simpl in H.
  apply app_inj_r in H. by eapply pad_zero_inj.
Qed.

Lemma block_name_metadata i : block_name i ≠ metadata_name.
Proof. done. Qed.

Lemma block_after_spec a b :
  block_after a b = false ↔
    String.ltb (bi_ClientID a) (bi_ClientID b) = true ∨
    bi_ClientID a = bi_ClientID b ∧ bi_ClientSequence a <= bi_ClientSequence b.
Proof.
  unfold block_after.
  destruct (ltb_trichotomy (bi_ClientID a) (bi_ClientID b)) as [H|[H|H]].
  - destruct (String.ltb (bi_ClientID b) (bi_ClientID a)) eqn:E.
    + pose proof (ltb_trans _ _ _ H E) as Hc. by rewrite ltb_irrefl in Hc.
    + rewrite bool_decide_eq_false_2; [naive_solver|]. intros Heq. rewrite Heq, ltb_irrefl in H. done.
  - rewrite H, ltb_irrefl. rewrite bool_decide_eq_true_2 by done. simpl.
    rewrite Z.ltb_ge. naive_solver.
  - rewrite H. simpl. split; [done|]. intros [H'|[H' _]].
    + pose proof (ltb_trans _ _ _ H H') as Hc. by rewrite ltb_irrefl in Hc.
    + rewrite H', ltb_irrefl in H. done.
Qed.

Lemma block_after_total a b : block_after a b = true → block_after b a = false.
Proof.
  intros H. apply block_after_spec.
  destruct (ltb_trichotomy (bi_ClientID b) (bi_ClientID a)) as [|[Heq|H']]; [by left| |].
  - right. split; [done|]. unfold block_after in H. rewrite Heq, ltb_irrefl in H.
    rewrite bool_decide_eq_true_2 in H by done. simpl in H. lia.
  - assert (block_after a b = false) by (apply block_after_spec; by left). congruence.
Qed.

Lemma block_after_trans a b c :
  block_after a b = false → block_after b c = false → block_after a c = false.
Proof.
  rewrite !block_after_spec. intros [H1|[H1 H1']] [H2|[H2 H2']].
  - left. by eapply ltb_trans.
  - left. by rewrite <- H2.
  - left. by rewrite H1.
  - right. split; [congruence|lia].
Qed.

(** The place of a block: all a merge looks at. *)
Definition block_key (b : BlockInfo) : string * Z := (bi_ClientID b, bi_ClientSequence b).

Lemma block_after_antisym a b :
  block_after a b = false → block_after b a = false → block_key a = block_key b.
Proof.
  rewrite !block_after_spec. unfold block_key. intros [H1|[H1 H1']] [H2|[H2 H2']].
  - pose proof (ltb_trans _ _ _ H1 H2) as Hc. by rewrite ltb_irrefl in Hc.
  - rewrite H2, ltb_irrefl in H1. done.
  - rewrite H1, ltb_irrefl in H2. done.
  - f_equal; [done|lia].
Qed.

Lemma sort_blocks_Permutation l : sort_blocks l ≡ₚ l.
Proof. apply exchange_sort_spec; [apply block_after_total|apply block_after_trans]. Qed.

Lemma sort_blocks_placed l : placed block_after (length l) (sort_blocks l).
Proof. apply exchange_sort_spec; [apply block_after_total|apply block_after_trans]. Qed.

#[export] Hint Resolve sort_blocks_Permutation : golist.

(** Lists of blocks with distinct places have one sorted form. *)
Lemma sort_blocks_unique l1 l2 :
  l1 ≡ₚ l2 → NoDup (block_key <$> l1) → sort_blocks l1 = sort_blocks l2.
Proof.
  intros HP Hnd. pose proof (sort_blocks_Permutation l1) as P1.
  pose proof (sort_blocks_Permutation l2) as P2.
  apply (placed_unique block_after).
  - by rewrite P1, P2.
  - rewrite (Permutation_length P1). apply sort_blocks_placed.
  - rewrite (Permutation_length P2). apply sort_blocks_placed.
  - intros a b Ha Hb H1 H2. pose proof (block_after_antisym _ _ H1 H2) as Hk.
    rewrite P1 in Ha, Hb. by apply (NoDup_fmap_inj_in block_key l1).
Qed.

(** ** The representation of a file

    [represents base d name bl]: on the disk [d] of a store at [base] the file
    [name] consists of the blocks [bl]. *)

Definition metadata_ok (md : FileMetadata) (bl : list BlockInfo) : Prop :=
  TotalBlocks md = Z.of_nat (length bl) ∧ BlockMetadata md = merged_meta bl ∧
  ClientSequenceMap md = rebuild_sequence bl.

Record stored (dir : path) (d : bdisk) (md : FileMetadata) (bl : list BlockInfo) : Prop := {
  st_dir : is_dir d dir = true;
  st_meta : nodes d !! (dir ++ [metadata_name]) = Some (NFile (Json md));
  st_ok : metadata_ok md bl;
  st_blocks i b : bl !! i = Some b → bi_BlockNumber b = Z.of_nat i + 1 ∧
    nodes d !! (dir ++ [block_name (Z.of_nat i + 1)]) = Some (NFile (Bytes (bi_Content b)));
  st_free i : 0 < i → nodes d !! (dir ++ [block_name i]) ≠ Some NDir;
}.

Definition represents (base : path) (d : bdisk) (name : string) (bl : list BlockInfo) : Prop :=
  ∃ md, stored (getFileDir base name) d md bl.

(** The blocks of a file, numbered in order. *)
Definition renumber (bl : list BlockInfo) : list BlockInfo :=
  imap (λ i b, mkBlockInfo (bi_Content b) (bi_ClientID b) (bi_ClientSequence b)
                 (Z.of_nat i + 1)) bl.

(** The block an append by [client] adds to [bl]. *)
Definition next_block (bl : list BlockInfo) (client content : string) : BlockInfo :=
  mkBlockInfo content client (get0 (rebuild_sequence bl) client + 1)
    (Z.of_nat (length bl) + 1).

Definition contents (bl : list BlockInfo) : string := foldl String.append "" (bi_Content <$> bl).

Lemma foldl_append_acc s l : foldl String.append s l = s +:+ foldl String.append "" l.
Proof.
  revert s; induction l as [|t l IH]; intros s; simpl; [by rewrite app_empty_r|].
  rewrite IH, (IH t), app_assoc_str. done.
Qed.

Lemma contents_snoc bl b : contents (bl ++ [b]) = contents bl +:+ bi_Content b.
Proof. unfold contents. by rewrite fmap_app, foldl_app. Qed.

Lemma contents_cons b bl : contents (b :: bl) = bi_Content b +:+ contents bl.
Proof. unfold contents. simpl. by rewrite foldl_append_acc. Qed.

Lemma contents_renumber bl : contents (renumber bl) = contents bl.
Proof.
  unfold contents, renumber. f_equal. apply list_eq. intros i.
  rewrite !list_lookup_fmap, list_lookup_imap. by destruct (bl !! i).
Qed.

Section read.
Context (base : path) (dir : path) (d : bdisk) (md : FileMetadata) (bl : list BlockInfo).
Context (Hst : stored dir d md bl).

Lemma stored_readMetadata : readMetadata dir d = Ok md.
Proof. unfold readMetadata, ReadJson, ReadFileRaw. by rewrite (st_meta _ _ _ _ Hst). Qed.

Lemma stored_readBlock i b : bl !! i = Some b → readBlock dir d (Z.of_nat i + 1) = Ok (bi_Content b).
Proof.
  intros Hb. unfold readBlock, ReadBytes, ReadFileRaw.
  by rewrite (proj2 (st_blocks _ _ _ _ Hst _ _ Hb)).
Qed.

(** The loops over the blocks: [f i] reads the block [i]. *)
Lemma stored_mapM {A} (f : Z → result A) (g : BlockInfo → A) :
  (∀ i b, bl !! i = Some b → f (Z.of_nat i + 1) = Ok (g b)) →
  result_mapM f (seqZ 1 (TotalBlocks md)) = Ok (g <$> bl).
Proof.
  intros Hf. apply result_mapM_Forall2. rewrite (proj1 (st_ok _ _ _ _ Hst)).
  apply Forall2_same_length_lookup_2.
  - by rewrite length_fmap, length_seqZ, Nat2Z.id.
  - intros i x y [-> Hx]%lookup_seqZ Hy.
    rewrite list_lookup_fmap in Hy. destruct (bl !! i) as [b|] eqn:Hb; simplify_eq/=.
    rewrite Z.add_comm. by apply Hf.
Qed.

Lemma stored_block_info i b :
  bl !! i = Some b → block_info md (Z.of_nat i + 1) (bi_Content b) = b.
Proof.
  intros Hb. unfold block_info. destruct (st_ok _ _ _ _ Hst) as (_ & -> & _).
  unfold merged_meta. replace (Z.to_nat (Z.of_nat i + 1 - 1)) with i by lia.
  rewrite list_lookup_imap, Hb. simpl.
  destruct (st_blocks _ _ _ _ Hst _ _ Hb) as [Hn _]. destruct b; simpl in *. by subst.
Qed.
End read.

Lemma ReadFile_represents base d name bl :
  represents base d name bl → ReadFile base name d = Ok (contents bl).
Proof.
  intros [md Hst]. unfold ReadFile. rewrite (stored_readMetadata _ _ _ _ Hst).
  rewrite (stored_mapM _ _ _ _ Hst _ bi_Content); [done|].
  intros i b Hb. by apply (stored_readBlock _ _ _ _ Hst).
Qed.

Lemma GetAllBlocks_represents base d name bl :
  represents base d name bl → GetAllBlocks base name d = Ok bl.
Proof.
  intros [md Hst]. unfold GetAllBlocks. rewrite (stored_readMetadata _ _ _ _ Hst).
  rewrite (stored_mapM _ _ _ _ Hst _ id); [by rewrite list_fmap_id|].
  intros i b Hb. rewrite (stored_readBlock _ _ _ _ Hst _ _ Hb).
  by rewrite (stored_block_info _ _ _ _ Hst _ _ Hb).
Qed.

Lemma represents_FileExists base d name bl :
  represents base d name bl → FileExists base name d = true.
Proof.
  intros [md [H%is_dir_true _ _ _ _]]. unfold FileExists, Stat.
  destruct H as [H|H]; rewrite H; [done|]. by rewrite orb_true_r.
Qed.

(** ** Frame: only the directory of a file matters *)

Lemma stored_frame dir d d' md bl :
  (∀ q, dir `prefix_of` q → nodes d' !! q = nodes d !! q) →
  stored dir d md bl → stored dir d' md bl.
Proof.
  intros Hf [H1 H2 H3 H4 H5]. split.
  - apply is_dir_true. apply is_dir_true in H1 as [->|H1]; [by left|right]. by rewrite Hf.
  - rewrite Hf; [done|]. by apply prefix_app_r.
  - done.
  - intros i b Hb. rewrite Hf by (by apply prefix_app_r). by apply H4.
  - intros i Hi. rewrite Hf by (by apply prefix_app_r). by apply H5.
Qed.

(** Writing the block after the last one leaves the file as it is. *)
Lemma stored_write_beyond dir d md bl i c :
  Z.of_nat (length bl) < i → stored dir d md bl →
  stored dir (mkDisk (<[dir ++ [block_name i] := NFile c]> (nodes d)) (faults d)) md bl.
Proof.
  intros Hi [H1 H2 H3 H4 H5]. split; simpl.
  - apply is_dir_true. apply is_dir_true in H1 as [->|H1]; [by left|right]. simpl.
    rewrite lookup_insert_ne; [done|]. apply snoc_ne_self.
  - rewrite lookup_insert_ne; [done|]. by intros [_ H]%app_inj_tail.
  - done.
  - intros j b Hb. rewrite lookup_insert_ne; [by apply H4|].
    intros [_ H]%app_inj_tail. apply block_name_inj in H; [|lia|lia].
    apply lookup_lt_Some in Hb. lia.
  - intros j Hj. destruct (decide (i = j)) as [->|]; [by rewrite lookup_insert_eq|].
    rewrite lookup_insert_ne; [by apply H5|].
    intros [_ H]%app_inj_tail. apply block_name_inj in H; lia.
Qed.

(** Writing the metadata makes the written blocks the file. *)
Lemma stored_write_metadata dir d md bl :
  is_dir d dir = true → (∀ i, 0 < i → nodes d !! (dir ++ [block_name i]) ≠ Some NDir) →
  (∀ i b, bl !! i = Some b → bi_BlockNumber b = Z.of_nat i + 1 ∧
    nodes d !! (dir ++ [block_name (Z.of_nat i + 1)]) = Some (NFile (Bytes (bi_Content b)))) →
  metadata_ok md bl →
  ∀ l, stored dir (mkDisk (<[dir ++ [metadata_name] := NFile (Json md)]> (nodes d)) l) md bl.
Proof.
  intros H1 H5 H4 Hok l. split; simpl.
  - apply is_dir_true. apply is_dir_true in H1 as [->|H1]; [by left|right]. simpl.
    rewrite lookup_insert_ne; [done|]. apply snoc_ne_self.
  - by rewrite lookup_insert_eq.
  - done.
  - intros j b Hb. rewrite lookup_insert_ne; [by apply H4|]. by intros [_ H]%app_inj_tail.
  - intros j Hj. rewrite lookup_insert_ne; [by apply H5|]. by intros [_ H]%app_inj_tail.
Qed.

(** ** Appending *)

(** The counters of the file can still be incremented. *)
Definition room (bl : list BlockInfo) (client : string) : Prop :=
  Z.of_nat (length bl) + 1 < two63 ∧ get0 (rebuild_sequence bl) client + 1 < two63.

Lemma rebuild_snoc bl b : rebuild_sequence (bl ++ [b]) = sequence_step (rebuild_sequence bl) b.
Proof. unfold rebuild_sequence. by rewrite foldl_snoc. Qed.

Lemma rebuild_nonneg bl c : 0 <= get0 (rebuild_sequence bl) c.
Proof.
  induction bl as [|b bl IH] using rev_ind; [done|].
  rewrite rebuild_snoc. unfold sequence_step. case_match eqn:Hb; [|done].
  unfold get0 in *. destruct (decide (bi_ClientID b = c)) as [<-|].
  - rewrite lookup_insert_eq. simpl. lia.
  - by rewrite lookup_insert_ne.
Qed.

Lemma rebuild_next_block bl c s :
  rebuild_sequence (bl ++ [next_block bl c s]) =
    <[c := get0 (rebuild_sequence bl) c + 1]> (rebuild_sequence bl).
Proof. rewrite rebuild_snoc. unfold sequence_step, next_block; simpl. case_match; [done|lia]. Qed.

Lemma append_metadata_ok md bl c s :
  metadata_ok md bl → room bl c → metadata_ok (append_metadata md c) (bl ++ [next_block bl c s]).
Proof.
  intros (H1 & H2 & H3) [Hr1 Hr2]. pose proof (rebuild_nonneg bl c).
  unfold metadata_ok, append_metadata; simpl. rewrite H1, H2, H3, rebuild_next_block.
  rewrite !wrap64_id by golia. repeat split.
  - rewrite length_app. simpl. lia.
  - unfold merged_meta. rewrite imap_app. simpl. by rewrite Nat.add_0_r.
Qed.

Lemma is_dir_insert dir (d : bdisk) n c l :
  is_dir d dir = true →
  is_dir (mkDisk (<[dir ++ [n] := NFile c]> (nodes d)) l) dir = true.
Proof.
  rewrite !is_dir_true. intros [->|H]; [by left|right]; simpl.
  rewrite lookup_insert_ne; [done|]. apply snoc_ne_self.
Qed.

(** The two writes of an append that nothing disturbs. *)
Lemma append_block_represents base name content client d bl :
  represents base d name bl → faults d = [] → room bl client →
  let '(r, d') := append_block base name content client d in
  r = Ok tt ∧ faults d' = [] ∧ represents base d' name (bl ++ [next_block bl client content]) ∧
  ∀ q, ¬ getFileDir base name `prefix_of` q → nodes d' !! q = nodes d !! q.
Proof.
  intros [md Hst] Hf Hroom. set (dir := getFileDir base name) in *.
  unfold append_block, io_bind, or_fail, io_read, writeBlock, writeMetadata. fold dir.
  rewrite (stored_readMetadata _ _ _ _ Hst). cbv beta iota zeta.
  set (md' := append_metadata md client).
  pose proof (append_metadata_ok _ _ client content (st_ok _ _ _ _ Hst) Hroom) as Hok.
  fold md' in Hok.
  assert (TotalBlocks md' = Z.of_nat (length bl) + 1) as Ht.
  { rewrite (proj1 Hok), length_app. simpl. lia. }
  rewrite Ht. rewrite WriteFile_ok; [|done|apply Hst|apply Hst; lia].
  rewrite WriteFile_ok; [|done|apply is_dir_insert, Hst|]; simpl.
  2:{ rewrite lookup_insert_ne by (by intros [_ H]%app_inj_tail).
      by rewrite (st_meta _ _ _ _ Hst). }
  repeat split.
  - exists md'. fold dir.
    assert (Z.of_nat (length bl) < Z.of_nat (length bl) + 1) as Hlt by lia.
    pose proof (stored_write_beyond dir d md bl _ (Bytes content) Hlt Hst) as Hst'.
    rewrite Hf in Hst'. apply (stored_write_metadata dir _ _ _ (st_dir _ _ _ _ Hst') (st_free _ _ _ _ Hst')); [|done].
    intros i b. rewrite lookup_app. destruct (bl !! i) as [b'|] eqn:Hi.
    + intros [= <-]. apply Hst'. done.
    + intros Hb. apply lookup_ge_None in Hi.
      apply list_lookup_singleton_Some in Hb as [Hlen <-].
      assert (i = length bl) as -> by lia. split; [done|]. apply lookup_insert_eq.
  - intros q Hq. rewrite !lookup_insert_ne; [done|intros <-; apply Hq; by apply prefix_app_r..].
Qed.

Lemma append_init_exists base name d : FileExists base name d = true → append_init base name d = (Ok tt, d).
Proof. unfold FileExists, append_init. by intros ->. Qed.

Lemma AppendFile_represents base name content client d bl :
  represents base d name bl → faults d = [] → room bl client →
  let '(r, d') := AppendFile base name content client d in
  r = Ok tt ∧ faults d' = [] ∧ represents base d' name (bl ++ [next_block bl client content]) ∧
  ∀ q, ¬ getFileDir base name `prefix_of` q → nodes d' !! q = nodes d !! q.
Proof.
  intros Hr Hf Hroom. unfold AppendFile, io_bind at 1.
  rewrite append_init_exists by (by eapply represents_FileExists).
  by apply append_block_represents.
Qed.

(** ** Creating *)

(** No regular file stands where the directory of the file must go. *)
Definition creatable (base : path) (name : string) (d : bdisk) : Prop :=
  ∀ q, q ≠ [] → q `prefix_of` getFileDir base name → is_file (nodes d !! q) = false.

Lemma MkdirAll_creates (dir : path) (d : bdisk) :
  wf d → faults d = [] → Stat d dir = false →
  (∀ q, q ≠ [] → q `prefix_of` dir → is_file (nodes d !! q) = false) →
  let '(r, d') := MkdirAll dir d in
  r = Ok tt ∧ faults d' = [] ∧ is_dir d' dir = true ∧
  (∀ q, dir `prefix_of` q → q ≠ dir → nodes d' !! q = None) ∧
  (∀ q, ¬ q `prefix_of` dir → nodes d' !! q = nodes d !! q).
Proof.
  intros Hwf Hf [Hne Hn]%Stat_false Hq.
  destruct (MkdirAll_cases dir d) as [[e He]|[-> _]].
  { exfalso. unfold MkdirAll, next_fault in He. rewrite Hf in He.
    destruct (existsb _ _) eqn:E; [|done]. apply existsb_exists in E as (q & Hin & Hfile).
    rewrite <- list_elem_of_In in Hin. apply elem_of_prefixes in Hin as [Hne' Hp].
    by rewrite Hq in Hfile. }
  rewrite Hf. repeat split.
  - apply is_dir_true. right. simpl. rewrite lookup_MkdirAll, Hn.
    by rewrite decide_True by done.
  - intros q Hp Hqd. simpl. rewrite lookup_MkdirAll.
    rewrite (wf_below _ _ _ Hwf Hne Hn Hp). rewrite decide_False; [done|].
    intros [_ Hp']. by apply Hqd, (anti_symm prefix).
  - intros q Hp. simpl. rewrite lookup_MkdirAll. destruct (nodes d !! q); [done|].
    rewrite decide_False; [done|]. naive_solver.
Qed.

Lemma CreateFile_represents base name content fid pid client d :
  wf d → faults d = [] → FileExists base name d = false → creatable base name d →
  let '(r, d') := CreateFile base name content fid pid client d in
  r = Ok tt ∧ faults d' = [] ∧ represents base d' name [mkBlockInfo content client 1 1] ∧
  ∀ q, ¬ getFileDir base name `prefix_of` q → ¬ q `prefix_of` getFileDir base name →
    nodes d' !! q = nodes d !! q.
Proof.
  intros Hwf Hf Hs Hc. unfold FileExists in Hs. unfold CreateFile. rewrite Hs.
  set (dir := getFileDir base name) in *.
  pose proof (MkdirAll_creates dir d Hwf Hf Hs Hc) as H.
  unfold io_bind, or_fail, or_clean. destruct (MkdirAll dir d) as [r d1].
  destruct H as (-> & Hf1 & Hd1 & Hb1 & Hq1). unfold writeBlock, writeMetadata.
  assert (∀ n, nodes d1 !! (dir ++ [n]) = None) as Hn.
  { intros n. apply Hb1; [by apply prefix_app_r|apply snoc_ne_self]. }
  rewrite WriteFile_ok by (done || by rewrite Hn).
  rewrite WriteFile_ok; [|done|by apply is_dir_insert|]; simpl.
  2:{ rewrite lookup_insert_ne by (by intros [_ ?]%app_inj_tail). by rewrite Hn. }
  repeat split.
  - eexists. eapply (stored_write_metadata dir _ _ _ (is_dir_insert dir d1 _ _ [] Hd1)).
    + intros i Hi. simpl. rewrite lookup_insert_Some. rewrite Hn. naive_solver.
    + intros [|i] b; simpl; [|done]. intros [= <-]. split; [done|]. apply lookup_insert_eq.
    + done.
  - intros q Hq Hq'. rewrite !lookup_insert_ne; [by apply Hq1|intros <-; apply Hq; by apply prefix_app_r..].
Qed.

(** The first append to a file that does not exist creates it. *)
Lemma append_init_represents base name d :
  wf d → faults d = [] → FileExists base name d = false → creatable base name d →
  let '(r, d') := append_init base name d in
  r = Ok tt ∧ faults d' = [] ∧ represents base d' name [].
Proof.
  intros Hwf Hf Hs Hc. unfold FileExists in Hs. unfold append_init. rewrite Hs.
  set (dir := getFileDir base name) in *.
  pose proof (MkdirAll_creates dir d Hwf Hf Hs Hc) as H.
  unfold io_bind, or_fail. destruct (MkdirAll dir d) as [r d1].
  destruct H as (-> & Hf1 & Hd1 & Hb1 & _). unfold writeMetadata.
  assert (∀ n, nodes d1 !! (dir ++ [n]) = None) as Hn.
  { intros n. apply Hb1; [by apply prefix_app_r|apply snoc_ne_self]. }
  rewrite WriteFile_ok by (done || by rewrite Hn).
  repeat split. eexists. eapply stored_write_metadata; fold dir; [done| |done|done].
  intros i Hi. by rewrite Hn.
Qed.

(** ** Merging *)

Lemma lookup_removeBlocks dir d q :
  nodes (removeBlocks dir d) !! q = nodes d !! q ∨
  nodes (removeBlocks dir d) !! q = None ∧ ∃ n, q = dir ++ [n] ∧ has_prefix "block_" n = true.
Proof.
  unfold removeBlocks. generalize (ReadDir dir d). intros l.
  induction l as [|e l IH] using rev_ind; [by left|]. rewrite foldl_app. simpl.
  destruct (has_prefix "block_" e.1) eqn:He; [|done].
  destruct (lookup_Remove (dir ++ [e.1])
    (foldl (λ d' e, if has_prefix "block_" e.1 then (Remove (dir ++ [e.1]) d').2 else d') d l) q)
    as [->|[-> ->]]; [done|]. right. eauto.
Qed.

Lemma removeBlocks_faults dir d : faults d = [] → faults (removeBlocks dir d) = [].
Proof.
  unfold removeBlocks. generalize (ReadDir dir d). intros l. revert d.
  induction l as [|e l IH]; intros d Hf; simpl; [done|]. apply IH.
  destruct (has_prefix _ _); [|done]. unfold Remove, next_fault, pop_fault. rewrite Hf.
  case_bool_decide; [done|]. by destruct (existsb _ _).
Qed.

(** The loop that writes the blocks [k+1], [k+2], ... *)
Lemma write_blocks dir (d : bdisk) (f : Z * string → string) k cs :
  is_dir d dir = true → faults d = [] →
  (∀ i, 0 < i → nodes d !! (dir ++ [block_name i]) ≠ Some NDir) →
  let '(r, d') := io_iter (λ b, or_fail (writeBlock dir b.1 b.2) (f b))
    (imap (λ i c, (Z.of_nat (k + i) + 1, c)) cs) d in
  r = Ok tt ∧ faults d' = [] ∧ is_dir d' dir = true ∧
  (∀ i c, cs !! i = Some c →
    nodes d' !! (dir ++ [block_name (Z.of_nat (k + i) + 1)]) = Some (NFile (Bytes c))) ∧
  (∀ q, nodes d' !! q = nodes d !! q ∨
    ∃ i c, Z.of_nat k < i ∧ q = dir ++ [block_name i] ∧ nodes d' !! q = Some (NFile c)).
Proof.
  revert k d; induction cs as [|c cs IH]; intros k d Hd Hf Hfree.
  { repeat split; try done. by left. }
  cbn [imap io_iter]. unfold io_bind at 1, or_fail at 1, writeBlock. cbn [fst snd].
  rewrite Nat.add_0_r. rewrite WriteFile_ok by (done || apply Hfree; lia).
  set (d1 := mkDisk _ []).
  rewrite (imap_ext _ (λ i c, (Z.of_nat (S k + i) + 1, c))) by (intros; simpl; do 2 f_equal; lia).
  assert (is_dir d1 dir = true) as Hd1 by by apply is_dir_insert.
  assert (∀ i, 0 < i → nodes d1 !! (dir ++ [block_name i]) ≠ Some NDir) as Hfree1.
  { intros i Hi. unfold d1; simpl. rewrite lookup_insert_Some. specialize (Hfree i Hi). naive_solver. }
  pose proof (IH (S k) d1 Hd1 eq_refl Hfree1) as H.
  destruct (io_iter _ _ d1) as [r d2]. destruct H as (-> & Hf2 & Hd2 & Hcs & Hq).
  repeat split; try done.
  - intros [|i] c'; simpl; [intros [= <-]|].
    + rewrite Nat.add_0_r.
      destruct (Hq (dir ++ [block_name (Z.of_nat k + 1)])) as [->|(i & c' & Hi & Heq & _)].
      * apply lookup_insert_eq.
      * apply app_inj_tail in Heq as [_ Heq]. apply block_name_inj in Heq; lia.
    + rewrite <- Nat.add_succ_comm. apply Hcs.
  - intros q. destruct (Hq q) as [->|(i & c' & Hi & -> & ->)].
    + destruct (decide (q = dir ++ [block_name (Z.of_nat k + 1)])) as [->|Hne].
      * right. eexists _, _. split; [|split; [done|apply lookup_insert_eq]]. lia.
      * left. unfold d1; simpl. by rewrite lookup_insert_ne.
    + right. exists i, c'. split; [lia|done].
Qed.

Lemma renumber_snoc l b :
  renumber (l ++ [b]) = renumber l ++
    [mkBlockInfo (bi_Content b) (bi_ClientID b) (bi_ClientSequence b) (Z.of_nat (length l) + 1)].
Proof. unfold renumber. rewrite imap_app. simpl. by rewrite Nat.add_0_r. Qed.

Lemma rebuild_renumber l : rebuild_sequence (renumber l) = rebuild_sequence l.
Proof.
  induction l as [|b l IH] using rev_ind; [done|].
  by rewrite renumber_snoc, !rebuild_snoc, IH.
Qed.

Lemma lookup_renumber l i :
  renumber l !! i = (λ b, mkBlockInfo (bi_Content b) (bi_ClientID b) (bi_ClientSequence b)
    (Z.of_nat i + 1)) <$> l !! i.
Proof. unfold renumber. by rewrite list_lookup_imap. Qed.

Lemma renumber_metadata_ok md l :
  metadata_ok (mkFileMetadata (FileID md) (HyDFSFilename md) (PrimaryReplicaNodeID md)
    (Z.of_nat (length l)) (rebuild_sequence l) (merged_meta l)) (renumber l).
Proof.
  unfold metadata_ok; simpl. split; [|split].
  - unfold renumber. by rewrite length_imap.
  - unfold merged_meta. apply list_eq. intros i.
    rewrite !list_lookup_imap, lookup_renumber. by destruct (l !! i).
  - by rewrite rebuild_renumber.
Qed.

Lemma MergeFile_represents base name bl l d :
  represents base d name bl → faults d = [] →
  let '(r, d') := MergeFile base name l d in
  r = Ok tt ∧ faults d' = [] ∧ represents base d' name (renumber (sort_blocks l)).
Proof.
  intros [md Hst] Hf. unfold MergeFile. rewrite (stored_readMetadata _ _ _ _ Hst).
  set (dir := getFileDir base name) in *. set (sl := sort_blocks l). set (d0 := removeBlocks dir d).
  pose proof (lookup_removeBlocks dir d) as Hrm. fold d0 in Hrm.
  assert (∀ q, (∀ n, q = dir ++ [n] → has_prefix "block_" n = false) →
    nodes d0 !! q = nodes d !! q) as Hkeep.
  { intros q Hq. destruct (Hrm q) as [?|[_ (n & -> & Hn)]]; [done|].
    by rewrite Hq in Hn. }
  assert (is_dir d0 dir = true) as Hd0.
  { pose proof (st_dir _ _ _ _ Hst) as H. rewrite is_dir_true in *.
    destruct H as [H|H]; [by left|right]. rewrite Hkeep; [done|].
    intros n Hn. symmetry in Hn. by apply snoc_ne_self in Hn. }
  assert (∀ i, 0 < i → nodes d0 !! (dir ++ [block_name i]) ≠ Some NDir) as Hfree.
  { intros i Hi. destruct (Hrm (dir ++ [block_name i])) as [->|[-> _]];
      [by apply Hst|done]. }
  assert (faults d0 = []) as Hf0 by (unfold d0; by rewrite removeBlocks_faults).
  pose proof (write_blocks dir d0 (λ _, "failed to write merged block") 0 (bi_Content <$> sl)
    Hd0 Hf0 Hfree) as H.
  rewrite imap_fmap in H. unfold io_bind. destruct (io_iter _ _ d0) as [r d1].
  destruct H as (-> & Hf1 & Hd1 & Hcs & Hq).
  unfold or_fail, writeMetadata. rewrite WriteFile_ok; [|done|done|].
  2:{ destruct (Hq (dir ++ [metadata_name])) as [->|(i & c & _ & Heq & ->)]; [|done].
      rewrite Hkeep by (by intros n [_ <-]%app_inj_tail). by rewrite (st_meta _ _ _ _ Hst). }
  repeat split. eexists. eapply stored_write_metadata; fold dir; [done| | |].
  - intros i Hi. destruct (Hq (dir ++ [block_name i])) as [->|(j & c & _ & _ & ->)]; [|done].
    by apply Hfree.
  - intros i b. rewrite lookup_renumber. intros (b' & Hb & ->)%fmap_Some. simpl.
    split; [done|]. apply Hcs. by rewrite list_lookup_fmap, Hb.
  - apply renumber_metadata_ok.
Qed.

(** ** The log of a file

    The appends [l], a list of clients and contents, make the blocks
    [log_blocks l]: the [k]-th append of a client gets the sequence number
    [k]. *)

Definition log_step (bl : list BlockInfo) (e : string * string) : list BlockInfo :=
  bl ++ [next_block bl e.1 e.2].

Definition log_blocks (l : list (string * string)) : list BlockInfo := foldl log_step [] l.

Definition run_appends (base : path) (name : string) (l : list (string * string)) : io unit :=
  io_iter (λ e, AppendFile base name e.2 e.1) l.

(** The appends of one client. *)
Definition of_client (c : string) (l : list (string * string)) : list (string * string) :=
  filter (λ e, e.1 = c) l.

(** What a merge sees of a block. *)
Definition block_entry (b : BlockInfo) : string * Z * string :=
  (bi_ClientID b, bi_ClientSequence b, bi_Content b).

Lemma log_blocks_snoc l e : log_blocks (l ++ [e]) = log_step (log_blocks l) e.
Proof. unfold log_blocks. by rewrite foldl_snoc. Qed.

Lemma length_log_blocks l : length (log_blocks l) = length l.
Proof.
  induction l as [|e l IH] using rev_ind; [done|].
  rewrite log_blocks_snoc. unfold log_step. rewrite !length_app, IH. done.
Qed.

Lemma log_sequence l c :
  get0 (rebuild_sequence (log_blocks l)) c = Z.of_nat (length (of_client c l)).
Proof.
  induction l as [|[c' s] l IH] using rev_ind; [done|].
  rewrite log_blocks_snoc. unfold log_step. rewrite rebuild_next_block. unfold of_client in *.
  rewrite filter_app, length_app. unfold get0 at 1. rewrite filter_cons, filter_nil. simpl.
  destruct (decide (c' = c)) as [->|Hne].
  - rewrite lookup_insert_eq. simpl. rewrite IH. lia.
  - rewrite lookup_insert_ne by done. fold (get0 (rebuild_sequence (log_blocks l)) c).
    rewrite IH. simpl. lia.
Qed.

Lemma room_log l c : Z.of_nat (length l) < two63 - 1 → room (log_blocks l) c.
Proof.
  intros Hl. unfold room. rewrite length_log_blocks, log_sequence.
  pose proof (length_filter (λ e : string * string, e.1 = c) l). unfold of_client. lia.
Qed.

(** Blocks and appends correspond. *)
Lemma elem_of_log l c q s :
  (c, q, s) ∈ block_entry <$> log_blocks l ↔
    ∃ k, q = Z.of_nat k + 1 ∧ of_client c l !! k = Some (c, s).
Proof.
  induction l as [|[c' s'] l IH] using rev_ind.
  { simpl. split; [by intros ?%elem_of_nil|naive_solver]. }
  rewrite log_blocks_snoc. unfold log_step. rewrite fmap_app, elem_of_app, IH.
  simpl. rewrite list_elem_of_singleton. unfold block_entry, next_block; simpl.
  rewrite log_sequence. unfold of_client. rewrite filter_app, filter_cons, filter_nil. simpl.
  destruct (decide (c' = c)) as [->|Hne].
  - split.
    + intros [(k & -> & Hk)|[= -> <-]].
      * exists k. split; [done|]. by apply lookup_app_l_Some.
      * eexists. split; [done|]. by rewrite lookup_app_r, Nat.sub_diag by lia.
    + intros (k & -> & [Hk|[Hk [Hk' [= <-]]%list_lookup_singleton_Some]]%lookup_app_Some).
      * left. by exists k.
      * right. do 2 f_equal. lia.
  - rewrite app_nil_r. split; [|by left]. intros [?|[= ? _ _]]; [done|congruence].
Qed.

Lemma log_entries_NoDup l : NoDup (block_key <$> log_blocks l).
Proof.
  induction l as [|[c s] l IH] using rev_ind; [constructor|].
  rewrite log_blocks_snoc. unfold log_step. rewrite fmap_app. apply NoDup_app.
  split; [done|]. split; [|apply NoDup_singleton].
  intros k Hk%list_elem_of_fmap Hin. simpl in Hin. apply list_elem_of_singleton in Hin as ->.
  destruct Hk as (b & Hb & Hin).
  assert (block_entry b ∈ block_entry <$> log_blocks l) as Hb' by by apply list_elem_of_fmap_2.
  unfold block_entry in Hb' at 1. unfold block_key, next_block in Hb; simpl in Hb.
  injection Hb as Hc Hq. rewrite <- Hc, <- Hq in Hb'.
  apply elem_of_log in Hb' as (k & Hk & Hl). rewrite log_sequence in Hk.
  apply lookup_lt_Some in Hl. lia.
Qed.

Lemma NoDup_block_entry l : NoDup (block_key <$> l) → NoDup (block_entry <$> l).
Proof.
  intros H. apply (NoDup_fmap_1 fst). rewrite <- list_fmap_compose. exact H.
Qed.

(** Two interleavings of the same appends of every client have the same
    blocks, up to their numbers. *)
Lemma log_interleaving l1 l2 :
  (∀ c, of_client c l1 = of_client c l2) →
  block_entry <$> log_blocks l1 ≡ₚ block_entry <$> log_blocks l2.
Proof.
  intros Hc. apply NoDup_Permutation; [apply NoDup_block_entry, log_entries_NoDup..|].
  intros [[c q] s]. rewrite !elem_of_log. by rewrite Hc.
Qed.

(** ** The sorted form *)

Lemma placed_Sorted l :
  placed block_after (length l) l → StronglySorted (λ a b, block_after a b = false) l.
Proof.
  induction l as [|a l IH]; intros Hp; [constructor|].
  constructor.
  - apply IH. intros m n x y Hm Hn. apply (Hp (S m) (S n)); simpl; lia.
  - apply Forall_forall. intros b [n Hn]%list_elem_of_lookup.
    apply (Hp 0%nat (S n)); simpl; [lia|lia|done|done].
Qed.

Lemma sort_blocks_Sorted l : StronglySorted (λ a b, block_after a b = false) (sort_blocks l).
Proof.
  apply placed_Sorted. rewrite (Permutation_length (sort_blocks_Permutation l)).
  apply sort_blocks_placed.
Qed.

Lemma block_entry_renumber l : block_entry <$> renumber l = block_entry <$> l.
Proof.
  apply list_eq. intros i. rewrite !list_lookup_fmap, lookup_renumber. by destruct (l !! i).
Qed.

(** The order of [block_after] on entries. *)
Definition entry_after (a b : string * Z * string) : bool :=
  block_after (mkBlockInfo a.2 a.1.1 a.1.2 0) (mkBlockInfo b.2 b.1.1 b.1.2 0).

Lemma placed_entries l :
  placed block_after (length l) l →
  placed entry_after (length (block_entry <$> l)) (block_entry <$> l).
Proof.
  intros Hp m n x y. rewrite length_fmap, !list_lookup_fmap. intros Hm Hn.
  destruct (l !! m) as [a|] eqn:Ha; [|done]. destruct (l !! n) as [b|] eqn:Hb; [|done].
  intros [= <-] [= <-]. by apply (Hp m n a b).
Qed.

(** What a merge writes depends on the entries of its blocks only, in any order. *)
Lemma sort_blocks_entries l1 l2 :
  block_entry <$> l1 ≡ₚ block_entry <$> l2 → NoDup (block_key <$> l1) →
  block_entry <$> sort_blocks l1 = block_entry <$> sort_blocks l2.
Proof.
  intros HP Hnd. pose proof (sort_blocks_Permutation l1) as P1.
  pose proof (sort_blocks_Permutation l2) as P2.
  apply (placed_unique entry_after).
  - by rewrite P1, P2.
  - apply placed_entries. rewrite (Permutation_length P1). apply sort_blocks_placed.
  - apply placed_entries. rewrite (Permutation_length P2). apply sort_blocks_placed.
  - intros a b Ha Hb H1 H2. rewrite P1 in Ha, Hb.
    apply list_elem_of_fmap in Ha as (x & -> & Hx). apply list_elem_of_fmap in Hb as (y & -> & Hy).
    f_equal. apply (NoDup_fmap_inj_in block_key l1); [done..|].
    by apply block_after_antisym.
Qed.

Lemma contents_entries l1 l2 :
  block_entry <$> l1 = block_entry <$> l2 → contents l1 = contents l2.
Proof.
  intros H%(f_equal (fmap snd)). rewrite <- !list_fmap_compose in H.
  unfold contents. by f_equal.
Qed.

(** ** Calls and the rest of the disk *)

(** [q] neither lies below [dir] nor above it. *)
Definition apart (dir q : path) : Prop := ¬ dir `prefix_of` q ∧ ¬ q `prefix_of` dir.

Definition same_outside (dir : path) (n : gmap path (node FileMetadata)) (d : bdisk) : Prop :=
  ∀ q, apart dir q → nodes d !! q = n !! q.

Lemma WriteFile_outside (dir : path) (n : string) (c : content FileMetadata) (m : gmap path (node FileMetadata)) :
  preserves (same_outside dir m) (WriteFile (dir ++ [n]) c).
Proof.
  intros d Hd q Hq. pose proof (WriteFile_cases dir n c d) as H.
  assert (dir ++ [n] ≠ q) as Hne.
  { intros <-. destruct Hq as [Hq _]. apply Hq. by apply prefix_app_r. }
  destruct (WriteFile _ _ _) as [[[]|e] d']; destruct H as [_ H]; simpl.
  - destruct H as (-> & _). rewrite lookup_insert_ne by done. by apply Hd.
  - destruct H as [->|(c' & -> & _)]; [by apply Hd|].
    rewrite lookup_insert_ne by done. by apply Hd.
Qed.

Lemma MkdirAll_outside (dir : path) (m : gmap path (node FileMetadata)) : preserves (same_outside dir m) (MkdirAll dir).
Proof.
  intros d Hd q Hq. rewrite <- Hd by done.
  destruct (MkdirAll_cases dir d) as [[e ->]|[-> _]]; simpl; [done|].
  rewrite lookup_MkdirAll. destruct (nodes d !! q); [done|].
  rewrite decide_False; [done|]. destruct Hq. naive_solver.
Qed.

Lemma RemoveAll_outside (dir : path) (m : gmap path (node FileMetadata)) :
  preserves (same_outside dir m) (RemoveAll dir).
Proof.
  intros d Hd q Hq. destruct (RemoveAll_cases dir d) as (_ & Hr & _). rewrite Hr by apply Hq. by apply Hd.
Qed.

Lemma removeBlocks_outside dir m d : same_outside dir m d → same_outside dir m (removeBlocks dir d).
Proof.
  intros Hd q Hq. destruct (lookup_removeBlocks dir d q) as [->|[_ (n & -> & _)]]; [by apply Hd|].
  destruct Hq as [Hq _]. exfalso. apply Hq. by apply prefix_app_r.
Qed.

#[export] Hint Resolve WriteFile_outside MkdirAll_outside RemoveAll_outside
  removeBlocks_outside : goio.

(** The outcome of the clean-up of a creation: the call after the write that
    failed. *)
Definition fault_at (k : nat) (d : bdisk) : fault FileMetadata := nth k (faults d) Healthy.

Definition cleanup_fault (d : bdisk) : fault FileMetadata :=
  match fault_at 1 d with Healthy => fault_at 3 d | _ => fault_at 2 d end.

Lemma next_fault_nth (d : bdisk) : next_fault d = fault_at 0 d.
Proof. unfold next_fault, fault_at. by destruct (faults d). Qed.

Lemma fault_at_tail k (d d' : bdisk) : faults d' = tail (faults d) → fault_at k d' = fault_at (S k) d.
Proof. unfold fault_at. intros ->. destruct (faults d); [by destruct k|done]. Qed.

Lemma RemoveAll_left (dir : path) (d : bdisk) q :
  fault_at 0 d = Healthy → dir `prefix_of` q → nodes (RemoveAll dir d).2 !! q = None.
Proof.
  rewrite <- next_fault_nth. intros Hf Hq. destruct (lookup_RemoveAll dir d q Hf) as [_ ->]. by rewrite decide_True.
Qed.

(** The calls that change a file. *)
Inductive store_call :=
  | CallCreate (content : string) (fileID primary : Z) (client : string)
  | CallAppend (content client : string)
  | CallMerge (blocks : list BlockInfo)
  | CallDelete.

Definition run_call (base : path) (name : string) (c : store_call) (d : bdisk) : bdisk :=
  match c with
  | CallCreate content fid pid client => (CreateFile base name content fid pid client d).2
  | CallAppend content client => (AppendFile base name content client d).2
  | CallMerge blocks => (MergeFile base name blocks d).2
  | CallDelete => (DeleteFile base name d).2
  end.

Lemma removeBlocks_wf dir d : wf d → wf (removeBlocks dir d).
Proof.
  unfold removeBlocks. generalize (ReadDir dir d). intros l. revert d.
  induction l as [|e l IH]; intros d Hd; simpl; [done|]. apply IH.
  case_match; [by apply Remove_wf|done].
Qed.

(** An invariant of the file system calls below a directory is one of the
    store's calls on the file. *)
Lemma run_call_preserves (I : bdisk → Prop) (base : path) (name : string)
    (c : store_call) (d : bdisk) :
  (∀ (n : string) (c : content FileMetadata), preserves I (WriteFile (getFileDir base name ++ [n]) c)) →
  preserves I (MkdirAll (getFileDir base name)) →
  preserves I (RemoveAll (getFileDir base name)) →
  (∀ d, I d → I (removeBlocks (getFileDir base name) d)) →
  I d → I (run_call base name c d).
Proof.
  intros HW HM HR HB Hd. destruct c; simpl.
  - unfold CreateFile, writeBlock, writeMetadata. case_match; [done|].
    apply (preserves_bind I); [eauto with goio|intros _|done]. eauto 10 with goio.
  - unfold AppendFile. apply (preserves_bind I); [|intros _|done].
    + clear d Hd. intros d Hd. unfold append_init, writeMetadata. case_match; [done|].
      apply (preserves_bind I); [eauto with goio|intros _; eauto with goio|done].
    + unfold append_block, writeMetadata, writeBlock. eauto 15 with goio.
  - unfold MergeFile, writeMetadata, writeBlock. case_match; [|done].
    apply (preserves_bind I); [|eauto with goio|by apply HB].
    apply preserves_iter. intros b. eauto with goio.
  - by apply HR.
Qed.

(** ** Lemmas: runs of appends *)

Lemma run_appends_represents base name l1 l2 d :
  represents base d name (log_blocks l1) → faults d = [] →
  Z.of_nat (length (l1 ++ l2)) < two63 →
  let '(r, d') := run_appends base name l2 d in
  r = Ok tt ∧ faults d' = [] ∧ represents base d' name (log_blocks (l1 ++ l2)).
Proof.
  revert l1 d; induction l2 as [|[c s] l2 IH]; intros l1 d Hr Hf Hl.
  { by rewrite app_nil_r. }
  assert (room (log_blocks l1) c) as Hroom.
  { apply room_log. rewrite length_app in Hl. simpl in Hl. lia. }
  pose proof (AppendFile_represents base name s c d _ Hr Hf Hroom) as H.
  unfold run_appends. cbn [io_iter fst snd]. unfold io_bind.
  destruct (AppendFile base name s c d) as [r d1]. destruct H as (-> & Hf1 & Hr1 & _).
  pose proof (IH (l1 ++ [(c, s)]) d1) as H. rewrite log_blocks_snoc, <- app_assoc in H.
  by apply H.
Qed.

Lemma append_init_only_init base name content client d :
  AppendFile base name content client d =
    match append_init base name d with
    | (Ok _, d') => append_block base name content client d'
    | (Err e, d') => (Err e, d')
    end.
Proof. done. Qed.

Lemma run_appends_init base name l d d1 :
  l ≠ [] → append_init base name d = (Ok tt, d1) → FileExists base name d1 = true →
  run_appends base name l d = run_appends base name l d1.
Proof.
  intros Hl H0 H1. destruct l as [|e l]; [done|]. unfold run_appends. cbn [io_iter].
  unfold io_bind. rewrite !append_init_only_init, H0. by rewrite (append_init_exists _ _ _ H1).
Qed.

Lemma contents_log l : contents (log_blocks l) = foldl String.append "" (snd <$> l).
Proof.
  induction l as [|[c s] l IH] using rev_ind; [done|].
  rewrite log_blocks_snoc. unfold log_step. by rewrite contents_snoc, IH, fmap_app, foldl_app.
Qed.

(** The disk of the examples: a store without files. *)
Definition empty_store : bdisk := NewBlockStore ["hydfs"] (mkDisk ∅ []).

Lemma empty_store_wf : wf empty_store.
Proof. apply MkdirAll_wf. intros p n [x Hx]. simpl in Hx. by rewrite lookup_empty in Hx. Qed.

(** The disk after [l] appends to the file [name]. *)
Definition store_with (name : string) (l : list (string * string)) : bdisk :=
  (run_appends ["hydfs"] name l empty_store).2.

Lemma empty_store_creatable name : creatable ["hydfs"] name empty_store.
Proof.
  intros q _ _. unfold empty_store, NewBlockStore.
  destruct (MkdirAll_cases ["hydfs"] (mkDisk (J := FileMetadata) ∅ [])) as [[e ->]|[-> _]].
  - simpl. by rewrite lookup_empty.
  - cbn [snd nodes]. rewrite lookup_mkdirs, lookup_empty. by case_decide.
Qed.

Lemma store_with_represents name l :
  l ≠ [] → FileExists ["hydfs"] name empty_store = false → Z.of_nat (length l) < two63 →
  represents ["hydfs"] (store_with name l) name (log_blocks l) ∧ faults (store_with name l) = [].
Proof.
  intros Hne Hex Hl.
  pose proof (append_init_represents ["hydfs"] name empty_store empty_store_wf eq_refl Hex
    (empty_store_creatable name)) as H.
  destruct (append_init ["hydfs"] name empty_store) as [r d1] eqn:E. destruct H as (-> & Hf & Hr).
  unfold store_with. rewrite (run_appends_init _ _ _ _ _ Hne E) by (by eapply represents_FileExists).
  pose proof (run_appends_represents ["hydfs"] name [] l d1 Hr Hf Hl) as H.
  destruct (run_appends _ _ l d1) as [r d2]. by destruct H as (_ & ? & ?).
Qed.

Lemma store_with_wf name l : wf (store_with name l).
Proof.
  unfold store_with, run_appends.
  apply (preserves_iter wf (λ e : string * string, AppendFile ["hydfs"] name e.2 e.1)); [|apply empty_store_wf].
  intros e d Hd. pose proof (run_call_preserves wf ["hydfs"] name (CallAppend e.2 e.1) d) as Hw.
  apply Hw; auto using WriteFile_wf, MkdirAll_wf, RemoveAll_wf, removeBlocks_wf.
Qed.

(** ** The theorems *)

(** C2: A file that did not exist, after any interleaving of appends by any clients
    (the first append creates it), reads as the concatenation of the
    contents in the order of the appends, and its blocks are the log: block
    [i] carries the client of the [i]-th append and numbers that client's
    appends from one. *)
Theorem appends_implement_log (base : path) (name : string) (l : list (string * string)) (d : bdisk) :
  wf d → faults d = [] → FileExists base name d = false → creatable base name d →
  l ≠ [] → Z.of_nat (length l) < two63 →
  let '(r, d') := run_appends base name l d in
  r = Ok tt ∧
  ReadFile base name d' = Ok (foldl String.append "" (snd <$> l)) ∧
  GetAllBlocks base name d' = Ok (log_blocks l) ∧
  (∀ i b, log_blocks l !! i = Some b →
    bi_BlockNumber b = Z.of_nat i + 1 ∧
    ∃ c s, l !! i = Some (c, s) ∧ bi_ClientID b = c ∧ bi_Content b = s ∧
      bi_ClientSequence b = Z.of_nat (length (of_client c (take i l))) + 1).
Proof.
  intros Hwf Hf Hex Hc Hne Hl.
  pose proof (append_init_represents base name d Hwf Hf Hex Hc) as H.
  destruct (append_init base name d) as [r0 d1] eqn:E. destruct H as (-> & Hf1 & Hr1).
  rewrite (run_appends_init _ _ _ _ _ Hne E) by (by eapply represents_FileExists).
  pose proof (run_appends_represents base name [] l d1 Hr1 Hf1 Hl) as H.
  destruct (run_appends base name l d1) as [r d']. destruct H as (-> & _ & Hr).
  split; [done|]. split; [|split; [by apply GetAllBlocks_represents|]].
  { rewrite (ReadFile_represents _ _ _ _ Hr). by rewrite contents_log. }
  clear. induction l as [|[c s] l IH] using rev_ind; intros i b; [by rewrite lookup_nil|].
  rewrite log_blocks_snoc. unfold log_step. intros [Hb|[Hi Hb]]%lookup_app_Some.
  - destruct (IH _ _ Hb) as (Hn & c' & s' & Hl & Hrest). split; [done|].
    exists c', s'. rewrite take_app_le by (apply lookup_lt_Some in Hl; lia).
    split; [by apply lookup_app_l_Some|done].
  - apply list_lookup_singleton_Some in Hb as [Hi' <-]. rewrite length_log_blocks in *.
    assert (i = length l) as -> by lia. simpl. rewrite length_log_blocks. split; [done|].
    exists c, s. rewrite lookup_app_r, Nat.sub_diag by done.
    rewrite take_app_length. by rewrite log_sequence.
Qed.

Lemma appends_implement_log_witness :
  let '(r, d') :=
    run_appends ["hydfs"] "f.txt" [("a", "x1"); ("b", "y1"); ("a", "x2")] empty_store in
  r = Ok tt ∧ ReadFile ["hydfs"] "f.txt" d' = Ok "x1y1x2".
Proof.
  pose proof (appends_implement_log ["hydfs"] "f.txt" [("a", "x1"); ("b", "y1"); ("a", "x2")]
    empty_store empty_store_wf eq_refl ltac:(by vm_compute) (empty_store_creatable _)
    ltac:(done) ltac:(done)) as H.
  destruct (run_appends _ _ _ _) as [r d']. destruct H as (H1 & H2 & _).
  split; [exact H1|exact H2].
Defined.

(** A merge writes the blocks it is given, all of them and nothing else,
    sorted by client and, within a client, by sequence number, and the file
    then reads as their concatenation. *)
Theorem MergeFile_sorts (base : path) (name : string) (bl blocks : list BlockInfo) (d : bdisk) :
  represents base d name bl → faults d = [] →
  ∃ d' bl', MergeFile base name blocks d = (Ok tt, d') ∧
    GetAllBlocks base name d' = Ok bl' ∧
    block_entry <$> bl' ≡ₚ block_entry <$> blocks ∧
    StronglySorted (λ a b, block_after a b = false) bl' ∧
    ReadFile base name d' = Ok (contents bl').
Proof.
  intros Hr Hf. pose proof (MergeFile_represents _ _ _ blocks _ Hr Hf) as H.
  destruct (MergeFile _ _ _ _) as [r d']. destruct H as (-> & _ & Hr').
  exists d', (renumber (sort_blocks blocks)). split; [done|].
  split; [by apply GetAllBlocks_represents|]. split; [|split].
  - rewrite block_entry_renumber. by rewrite sort_blocks_Permutation.
  - apply placed_Sorted. intros m n a b Hm Hn. rewrite !lookup_renumber.
    intros (a' & Ha & ->)%fmap_Some (b' & Hb & ->)%fmap_Some.
    apply (sort_blocks_placed blocks m n a' b'); [|done..].
    apply lookup_lt_Some in Ha. by rewrite (Permutation_length (sort_blocks_Permutation blocks)) in Ha.
  - by apply ReadFile_represents.
Qed.

(** A store whose file has the blocks of two clients. *)
Definition two_clients : list (string * string) := [("b", "y1"); ("a", "x1"); ("b", "y2")].

Lemma MergeFile_sorts_witness :
  ∃ d' bl', MergeFile ["hydfs"] "f.txt" (log_blocks two_clients) (store_with "f.txt" two_clients)
      = (Ok tt, d') ∧
    GetAllBlocks ["hydfs"] "f.txt" d' = Ok bl' ∧
    block_entry <$> bl' ≡ₚ block_entry <$> log_blocks two_clients ∧
    StronglySorted (λ a b, block_after a b = false) bl' ∧
    ReadFile ["hydfs"] "f.txt" d' = Ok (contents bl').
Proof.
  destruct (store_with_represents "f.txt" two_clients) as [Hr Hf];
    [done|by vm_compute|done|].
  exact (MergeFile_sorts _ _ _ (log_blocks two_clients) _ Hr Hf).
Defined.

(** C9: Two replicas that received the appends of every client in the same
    order, interleaved differently, read the same after each merges the
    collected blocks, whatever order these were collected in. *)
Theorem merge_convergence (base : path) (name : string) (l1 l2 : list (string * string))
    (bl1 bl2 blocks1 blocks2 : list BlockInfo) (d1 d2 : bdisk) :
  represents base d1 name bl1 → faults d1 = [] →
  represents base d2 name bl2 → faults d2 = [] →
  (∀ c, of_client c l1 = of_client c l2) →
  blocks1 ≡ₚ log_blocks l1 → blocks2 ≡ₚ log_blocks l2 →
  let d1' := (MergeFile base name blocks1 d1).2 in
  let d2' := (MergeFile base name blocks2 d2).2 in
  is_ok (ReadFile base name d1') = true ∧
  ReadFile base name d1' = ReadFile base name d2'.
Proof.
  intros Hr1 Hf1 Hr2 Hf2 Hc HP1 HP2.
  pose proof (MergeFile_represents _ _ _ blocks1 _ Hr1 Hf1) as H1.
  pose proof (MergeFile_represents _ _ _ blocks2 _ Hr2 Hf2) as H2.
  destruct (MergeFile _ _ blocks1 d1) as [r1 d1']. destruct (MergeFile _ _ blocks2 d2) as [r2 d2'].
  destruct H1 as (_ & _ & H1). destruct H2 as (_ & _ & H2). simpl.
  rewrite (ReadFile_represents _ _ _ _ H1), (ReadFile_represents _ _ _ _ H2).
  split; [done|]. f_equal. rewrite !contents_renumber. apply contents_entries.
  apply sort_blocks_entries.
  - rewrite HP1, HP2. by apply log_interleaving.
  - rewrite HP1. apply log_entries_NoDup.
Qed.

(** The same appends, interleaved in another order. *)
Definition two_clients' : list (string * string) := [("a", "x1"); ("b", "y1"); ("b", "y2")].

Lemma two_clients_interleaved c : of_client c two_clients = of_client c two_clients'.
Proof.
  unfold of_client, two_clients, two_clients'.
  rewrite !filter_cons. simpl.
  destruct (decide ("b" = c)) as [<-|]; [done|]. by destruct (decide ("a" = c)).
Qed.

Lemma merge_convergence_witness :
  let d1' := (MergeFile ["hydfs"] "f.txt" (log_blocks two_clients)
                (store_with "f.txt" two_clients)).2 in
  let d2' := (MergeFile ["hydfs"] "f.txt" (reverse (log_blocks two_clients'))
                (store_with "f.txt" two_clients')).2 in
  is_ok (ReadFile ["hydfs"] "f.txt" d1') = true ∧
  ReadFile ["hydfs"] "f.txt" d1' = ReadFile ["hydfs"] "f.txt" d2'.
Proof.
  destruct (store_with_represents "f.txt" two_clients) as [Hr1 Hf1];
    [done|by vm_compute|done|].
  destruct (store_with_represents "f.txt" two_clients') as [Hr2 Hf2];
    [done|by vm_compute|done|].
  exact (merge_convergence _ _ two_clients two_clients' _ _ (log_blocks two_clients)
    (reverse (log_blocks two_clients')) _ _ Hr1 Hf1 Hr2 Hf2 two_clients_interleaved
    (reflexivity _) (reverse_Permutation _)).
Defined.

(** A creation that fails half way: what the clean-up leaves is what is left. *)
Lemma CreateFile_cleaned base name content fid pid client e (d d' : bdisk) :
  wf d → Stat d (getFileDir base name) = false →
  CreateFile base name content fid pid client d = (Err e, d') → cleanup_fault d = Healthy →
  ∀ q, getFileDir base name `prefix_of` q → nodes d' !! q = None.
Proof.
  intros Hwf Hs Hc Hf q Hq. unfold CreateFile in Hc. set (dir := getFileDir base name) in *.
  rewrite Hs in Hc. apply Stat_false in Hs as [Hne Hn]. revert Hc. unfold io_bind, or_fail, or_clean.
  destruct (MkdirAll_cases dir d) as [[e0 ->]|[-> _]].
  { intros [= _ <-]. exact (wf_below _ _ _ Hwf Hne Hn Hq). }
  set (d1 := mkDisk _ _). assert (faults d1 = tail (faults d)) as Hf1 by done.
  assert (is_dir d1 dir = true) as Hd1.
  { apply is_dir_true. right. simpl. rewrite lookup_MkdirAll, Hn. by rewrite decide_True. }
  assert (∀ n, nodes d1 !! (dir ++ [n]) = None) as Hb.
  { intros n. simpl. rewrite lookup_MkdirAll, (wf_below _ _ _ Hwf Hne Hn) by (by apply prefix_app_r).
    rewrite decide_False; [done|]. intros [_ H%prefix_length]. rewrite length_app in H. simpl in H. lia. }
  unfold writeBlock, writeMetadata. unfold cleanup_fault in Hf.
  destruct (WriteFile (dir ++ [block_name 1]) _ d1) as [[[]|e1] d2] eqn:W1.
  - pose proof (WriteFile_cases dir (block_name 1) (Bytes content) d1) as Hw. rewrite W1 in Hw.
    destruct Hw as [_ (Hn2 & _ & _)]. apply WriteFile_healthy in W1 as [W1 F2].
    rewrite next_fault_nth, (fault_at_tail 0 d d1 Hf1) in W1. rewrite W1 in Hf.
    destruct (WriteFile (dir ++ [metadata_name]) _ d2) as [[[]|e2] d3] eqn:W2; [done|]. intros [= _ <-].
    apply WriteFile_fails in W2 as [_ F3].
    + apply RemoveAll_left; [|done].
      by rewrite (fault_at_tail 0 d2 d3 F3), (fault_at_tail 1 d1 d2 F2), (fault_at_tail 2 d d1 Hf1).
    + apply is_dir_true. right. rewrite Hn2, lookup_insert_ne by apply snoc_ne_self.
      by apply is_dir_true in Hd1 as [?|?].
    + rewrite Hn2, lookup_insert_ne by (by intros [= H]%app_inv_head). by rewrite Hb.
  - intros [= _ <-]. apply WriteFile_fails in W1 as [W1 F2]; [|done|by rewrite Hb].
    rewrite next_fault_nth, (fault_at_tail 0 d d1 Hf1) in W1.
    apply RemoveAll_left; [|done]. rewrite (fault_at_tail 0 d1 d2 F2), (fault_at_tail 1 d d1 Hf1).
    by destruct (fault_at 1 d).
Qed.

(** C27: A creation is all or nothing as far as its clean-up works: when it
    fails, nothing apart from its directory and those above it has changed, and
    unless the removal of the directory fails as well, whose error the code
    drops, the file exists afterwards exactly if it did before and nothing has
    changed below the directory.  If that removal fails, the name can be taken
    by a file that was never created: every later creation of it is refused. *)
Theorem CreateFile_atomic (base : path) (name content : string) (fid pid : Z) (client e : string)
    (d d' : bdisk) :
  wf d → CreateFile base name content fid pid client d = (Err e, d') →
  (∀ q, apart (getFileDir base name) q → nodes d' !! q = nodes d !! q) ∧
  (cleanup_fault d = Healthy →
     FileExists base name d' = FileExists base name d ∧
     ∀ q, getFileDir base name `prefix_of` q → nodes d' !! q = nodes d !! q) ∧
  (FileExists base name d = false → FileExists base name d' = true →
     cleanup_fault d ≠ Healthy ∧
     ∀ content' fid' pid' client', CreateFile base name content' fid' pid' client' d' =
       (Err ("file already exists: " +:+ name), d')).
Proof.
  intros Hwf Hc. set (dir := getFileDir base name).
  assert (same_outside dir (nodes d) d') as Hout.
  { pose proof (run_call_preserves (same_outside dir (nodes d)) base name
      (CallCreate content fid pid client) d) as H. simpl in H. rewrite Hc in H.
    apply H; try done; intros; [apply WriteFile_outside|apply MkdirAll_outside
      |apply RemoveAll_outside|by apply removeBlocks_outside]. }
  assert (cleanup_fault d = Healthy → ∀ q, dir `prefix_of` q → nodes d' !! q = nodes d !! q) as Hin.
  { intros Hf q Hq. destruct (Stat d dir) eqn:Hs.
    - unfold CreateFile in Hc. fold dir in Hc. rewrite Hs in Hc. by injection Hc as _ <-.
    - rewrite (CreateFile_cleaned _ _ _ _ _ _ _ _ _ Hwf Hs Hc Hf q Hq).
      apply Stat_false in Hs as [Hne Hn]. by rewrite (wf_below _ _ _ Hwf Hne Hn Hq). }
  assert (cleanup_fault d = Healthy → FileExists base name d' = FileExists base name d) as Hex.
  { intros Hf. unfold FileExists, Stat. fold dir. by rewrite Hin. }
  split; [done|]. split; [by split; [apply Hex|apply Hin]|].
  intros H0 H1. split; [intros Hf; rewrite Hex in H1 by done; congruence|].
  intros content' fid' pid' client'. unfold CreateFile. unfold FileExists in H1. by rewrite H1.
Qed.

(** The block is half written and removed; the second time it stays. *)
Lemma CreateFile_atomic_witness :
  let d := mkDisk (nodes empty_store) [Healthy; Broken (Some (Bytes "par"))] in
  let d' := (CreateFile ["hydfs"] "f.txt" "partial" 1 2 "c" d).2 in
  let b := mkDisk (nodes empty_store) [Healthy; Broken (Some (Bytes "par")); Broken None] in
  let b' := (CreateFile ["hydfs"] "f.txt" "partial" 1 2 "c" b).2 in
  FileExists ["hydfs"] "f.txt" d' = false ∧
  (∀ q, getFileDir ["hydfs"] "f.txt" `prefix_of` q → nodes d' !! q = nodes d !! q) ∧
  FileExists ["hydfs"] "f.txt" b' = true ∧
  CreateFile ["hydfs"] "f.txt" "again" 1 2 "c" b' = (Err "file already exists: f.txt", b').
Proof.
  intros d d' b b'.
  assert (∀ x, nodes x = nodes empty_store → CreateFile ["hydfs"] "f.txt" "partial" 1 2 "c" x =
    ((CreateFile ["hydfs"] "f.txt" "partial" 1 2 "c" x).1, (CreateFile ["hydfs"] "f.txt" "partial" 1 2 "c" x).2)) as Hx
    by (intros x _; apply surjective_pairing).
  destruct (CreateFile_atomic ["hydfs"] "f.txt" "partial" 1 2 "c" "failed to write block" d d')
    as (_ & H1 & _); [exact empty_store_wf|rewrite Hx by done; apply f_equal2; [by vm_compute|done]|].
  destruct (CreateFile_atomic ["hydfs"] "f.txt" "partial" 1 2 "c" "failed to write block" b b')
    as (_ & _ & H2); [exact empty_store_wf|rewrite Hx by done; apply f_equal2; [by vm_compute|done]|].
  destruct (H1 eq_refl) as [E1 E2]. split; [rewrite E1; by vm_compute|]. split; [exact E2|].
  assert (FileExists ["hydfs"] "f.txt" b' = true) as E3 by (by vm_compute).
  split; [exact E3|]. apply H2; [by vm_compute|exact E3].
Defined.

(** An append that fails leaves the file as it was, whatever the disk does
    during the write of the block: only a write of the metadata that fails
    half way can damage the file. *)
Theorem AppendFile_failure_keeps (base : path) (name content client e : string)
    (bl : list BlockInfo) (d d' : bdisk) :
  represents base d name bl → room bl client →
  (∀ c, faults d !! 1%nat ≠ Some (Broken (Some c))) →
  AppendFile base name content client d = (Err e, d') →
  represents base d' name bl ∧ ReadFile base name d' = ReadFile base name d.
Proof.
  intros Hr Hroom Hfault Ha.
  assert (represents base d' name bl) as Hr'.
  2:{ split; [done|]. by rewrite (ReadFile_represents _ _ _ _ Hr), (ReadFile_represents _ _ _ _ Hr'). }
  rewrite append_init_only_init, append_init_exists in Ha by (by eapply represents_FileExists).
  destruct Hr as [md Hst]. exists md. set (dir := getFileDir base name) in *.
  unfold append_block, io_bind, or_fail, io_read in Ha. fold dir in Ha.
  rewrite (stored_readMetadata _ _ _ _ Hst) in Ha. cbv beta iota zeta in Ha.
  pose proof (append_metadata_ok _ _ client content (st_ok _ _ _ _ Hst) Hroom) as Hok.
  set (md' := append_metadata md client) in *.
  assert (TotalBlocks md' = Z.of_nat (length bl) + 1) as Ht.
  { rewrite (proj1 Hok), length_app. simpl. lia. }
  unfold writeBlock, writeMetadata in Ha. rewrite Ht in Ha.
  assert (∀ q c d0, nodes d0 = <[dir ++ [block_name (Z.of_nat (length bl) + 1)] := NFile c]> (nodes d) →
    nodes d0 !! q = nodes (mkDisk (<[dir ++ [block_name (Z.of_nat (length bl) + 1)] := NFile c]>
      (nodes d)) (faults d)) !! q) as Heq by by intros q c d0 ->.
  pose proof (WriteFile_cases dir (block_name (Z.of_nat (length bl) + 1)) (Bytes content) d) as Hw.
  destruct (WriteFile _ (Bytes content) d) as [[[]|e1] d1]; destruct Hw as [Hf1 Hw].
  - destruct Hw as (Hn & _ & _).
    assert (stored dir d1 md bl) as Hst1.
    { eapply stored_frame; [intros q _; by apply Heq|]. apply stored_write_beyond; [lia|done]. }
    pose proof (WriteFile_cases dir metadata_name (Json md') d1) as Hw.
    destruct (WriteFile _ (Json md') d1) as [[[]|e2] d2]; [done|].
    destruct Hw as [_ Hw]. injection Ha as _ <-.
    destruct Hw as [Hn2|(c & _ & _ & _ & Hb)].
    + eapply stored_frame; [|exact Hst1]. intros q _. by rewrite Hn2.
    + exfalso. apply (Hfault c). unfold next_fault in Hb. rewrite Hf1 in Hb.
      destruct (faults d) as [|f [|f' fs]]; simpl in *; congruence.
  - injection Ha as _ <-. destruct Hw as [Hn|(c & Hn & _)].
    + eapply stored_frame; [|exact Hst]. intros q _. by rewrite Hn.
    + eapply stored_frame; [intros q _; by apply Heq|]. apply stored_write_beyond; [lia|done].
Qed.

Lemma AppendFile_failure_keeps_witness :
  let d := mkDisk (nodes (store_with "f.txt" two_clients)) [Broken (Some (Bytes "to"))] in
  let d' := (AppendFile ["hydfs"] "f.txt" "torn" "a" d).2 in
  represents ["hydfs"] d' "f.txt" (log_blocks two_clients) ∧
  ReadFile ["hydfs"] "f.txt" d' = ReadFile ["hydfs"] "f.txt" d.
Proof.
  intros d d'.
  destruct (store_with_represents "f.txt" two_clients) as [[md Hr] _]; [done|by vm_compute|done|].
  apply (AppendFile_failure_keeps ["hydfs"] "f.txt" "torn" "a" "failed to write append block"
    (log_blocks two_clients) d d').
  - exists md. by eapply stored_frame; [|exact Hr].
  - by apply room_log.
  - intros c. unfold d. simpl. done.
  - unfold d'. rewrite (surjective_pairing (AppendFile _ _ _ _ d)). apply f_equal2; [by vm_compute|done].
Defined.

(** The calls on one file leave every other file as it is, and readable,
    provided neither directory lies below the other. *)
Theorem files_independent (base : path) (name other : string) (c : store_call)
    (bl : list BlockInfo) (d : bdisk) :
  represents base d other bl →
  apart (getFileDir base name) (getFileDir base other) →
  let d' := run_call base name c d in
  represents base d' other bl ∧ ReadFile base other d' = ReadFile base other d.
Proof.
  intros Hr Hap d'.
  assert (represents base d' other bl) as Hr'.
  2:{ split; [done|]. by rewrite (ReadFile_represents _ _ _ _ Hr), (ReadFile_represents _ _ _ _ Hr'). }
  destruct Hr as [md Hst]. exists md. eapply stored_frame; [|exact Hst].
  set (dir := getFileDir base name) in *.
  assert (same_outside dir (nodes d) d') as Hout.
  { apply (run_call_preserves (same_outside dir (nodes d))); try done; intros;
      [apply WriteFile_outside|apply MkdirAll_outside|apply RemoveAll_outside
      |by apply removeBlocks_outside]. }
  intros q Hq. apply Hout. destruct Hap as [H1 H2]. split.
  - intros Hd. destruct (prefix_weak_total _ _ q Hd Hq); naive_solver.
  - intros Hd. apply H2. by etrans.
Qed.

Lemma files_independent_witness :
  let d := store_with "f.txt" two_clients in
  let d' := run_call ["hydfs"] "g.txt" (CallAppend "z" "c") d in
  represents ["hydfs"] d' "f.txt" (log_blocks two_clients) ∧
  ReadFile ["hydfs"] "f.txt" d' = ReadFile ["hydfs"] "f.txt" d.
Proof.
  apply files_independent.
  - apply store_with_represents; [done|by vm_compute|done].
  - change (apart ["hydfs"; "g"] ["hydfs"; "f"]). split; intros H; by apply (bool_decide_pack _) in H.
Defined.

(** The extension of a name does not matter to the store: once a file
    exists, a file of the same stem with another extension cannot be created,
    and deleting either deletes both. *)
Theorem extensions_share_a_file (base : path) (stem ext1 ext2 : string) :
  string_forallb plain_char ext1 = true → string_forallb plain_char ext2 = true →
  let name1 := stem +:+ "." +:+ ext1 in
  let name2 := stem +:+ "." +:+ ext2 in
  ∀ d, DeleteFile base name1 d = DeleteFile base name2 d ∧
    (FileExists base name1 d = true →
     ∀ content fid pid client,
       CreateFile base name2 content fid pid client d =
         (Err ("file already exists: " +:+ name2), d)).
Proof.
  intros H1 H2 name1 name2 d.
  assert (getFileDir base name1 = getFileDir base name2) as Hd.
  { unfold getFileDir, name1, name2. rewrite !path_ext_app by done. by rewrite !trim_suffix_app. }
  split; [unfold DeleteFile; by rewrite Hd|].
  unfold FileExists, CreateFile. rewrite Hd. by intros ->.
Qed.

Lemma extensions_share_a_file_witness :
  let d := store_with "log.txt" two_clients in
  DeleteFile ["hydfs"] "log.txt" d = DeleteFile ["hydfs"] "log.csv" d ∧
  (FileExists ["hydfs"] "log.txt" d = true →
   ∀ content fid pid client,
     CreateFile ["hydfs"] "log.csv" content fid pid client d =
       (Err "file already exists: log.csv", d)).
Proof. exact (extensions_share_a_file ["hydfs"] "log" "txt" "csv" eq_refl eq_refl _). Defined.
