(* ===== verification/Common.v ===== *)
(** * Common: pkg/common, the configuration and the node

    [LoadConfig] works on the decoded JSON document: reading and parsing the
    file is the library's. *)

From S2P Require Import Prelude GoStrings Env Membership.

(** ** config.go *)

Record Config := mkConfig {
  NodePort : Z;
  ClientPort : Z;
  MembershipPort : Z;
  RainStormPort : Z;
  Nodes : list string;
  VMs : list string;
}.

Record rawConfig := mkRawConfig {
  ActiveProfile : string;
  Profiles : gmap string Config;
  raw_Nodes : list string;
}.

(** The profile: the environment variable, then [active_profile], then
    ["default"]. *)
Definition profile_name (env : string) (raw : rawConfig) : string :=
  let p := if decide (env = "") then ActiveProfile raw else env in
  if decide (p = "") then "default" else p.

(** [file] is the outcome of opening and decoding the document, [env] the value
    of [RAINSTORM_PROFILE]. *)
Definition LoadConfig (file : result rawConfig) (env : string) : result Config :=
  raw <- file ;;
  match Profiles raw !! profile_name env raw with
  | None => Err ("profile " +:+ profile_name env raw +:+ " not found in config")
  | Some cfg =>
      Ok (mkConfig (NodePort cfg) (ClientPort cfg) (MembershipPort cfg) (RainStormPort cfg)
            (raw_Nodes raw) (raw_Nodes raw))
  end.

(** ** types.go *)

Record BlockIdentifier := mkBlockIdentifier {
  bid_Timestamp : Z;
  bid_ClientID : string;
}.

#[export] Instance BlockIdentifier_eq_dec : EqDecision BlockIdentifier.
Proof. solve_decision. Defined.

Record FileMetadata := mkFileMetadata {
  Filename : string;
  fm_FileID : Z;
  fm_Version : Z;
  Size : Z;
  Blocks : list BlockIdentifier;
  CreatedAt : Z;
}.

(** [Node], without its storage, which lives on the disk, and its mutexes. *)
Record Node := mkNode {
  RingID : Z;
  node_Membership : Membership;
  FileStore : gmap string FileMetadata;
  IsActive : bool;
}.

(** [net.JoinHostPort(host, fmt.Sprintf("%d", port))]. *)
Definition JoinHostPort (host : string) (port : Z) : string :=
  if contains_char ":"%char host then "[" +:+ host +:+ "]:" +:+ itoa port
  else host +:+ ":" +:+ itoa port.

(** ** Lemmas *)

Lemma no_char_app c s t u v :
  string_forallb (not_char c) s = true → string_forallb (not_char c) u = true →
  s +:+ String c t = u +:+ String c v → s = u ∧ t = v.
Proof.
  revert u; induction s as [|a s IH]; intros [|b u]; simpl.
  - by intros _ _ [= ->].
  - unfold not_char. rewrite andb_true_iff, bool_decide_eq_true.
    intros _ [Hb _] [= -> _]. done.
  - unfold not_char at 1. rewrite andb_true_iff, bool_decide_eq_true.
    intros [Ha _] _ [= -> _]. done.
  - rewrite !andb_true_iff. intros [_ Hs] [_ Hu] [= -> Heq].
    by destruct (IH u Hs Hu Heq) as [-> ->].
Qed.

(** Different hosts or ports give different addresses. *)
Lemma JoinHostPort_inj h1 p1 h2 p2 :
  JoinHostPort h1 p1 = JoinHostPort h2 p2 →
  contains_char ":"%char h1 = false → contains_char ":"%char h2 = false →
  h1 = h2 ∧ p1 = p2.
Proof.
  unfold JoinHostPort. intros H H1 H2. rewrite H1, H2 in H.
  unfold contains_char in H1, H2. apply negb_false_iff in H1, H2.
  apply no_char_app in H as [-> H]; [|done..]. split; [done|]. by apply itoa_inj.
Qed.
