(* ===== verification/NodeLoop.v ===== *)
(** * NodeLoop: the group membership of a node, [main.go]

    [startGossipLoop] is a loop over the ticks of three clocks and the incoming
    datagrams; each branch of its [select] is one function from the node to the
    node, the messages it sends and whether it starts a re-replication scan.
    The console commands [join] and [leave], the client commands of the same
    names and the start of the process act on the same node.  [None] is a
    crash.  The order of a [range] over a map that stops at the first hit is an
    argument; a datagram is sent or refused by [udp]. *)

From S2P Require Import Prelude GoStrings Env Membership Swim Common.

(** ** The node *)

Definition with_membership (m : Membership) (n : Node) : Node :=
  mkNode (RingID n) m (FileStore n) (IsActive n).
Definition with_active (b : bool) (n : Node) : Node :=
  mkNode (RingID n) (node_Membership n) (FileStore n) b.

(** What a step sends, and whether it starts [checkAndRereplicate]. *)
Record Effect := mkEffect {
  e_sent : Sent;
  e_scan : bool;
}.

Definition no_effect : Effect := mkEffect [] false.

Definition Tfail : Z := 5 * Second.
Definition Tcleanup : Z := 30 * Second.

(** The first entry, in the order of the range, that satisfies [p]. *)
Definition first_match (p : Z * Info → bool) (order : list (Z * Info)) : option Z := fst <$> find p order.

Definition same_address (i j : Info) : bool :=
  bool_decide (Hostname i = Hostname j) && bool_decide (Port i = Port j).

Section node.
Context `{!GoEnv} (udp : string → Message → result Z).

(** ** startGossipLoop *)

Definition gossip_tick (rng : nat → N) (now : Z) (n : Node) : option (Node * Effect) :=
  if IsActive n then
    match Heartbeat (RingID n) now (node_Membership n) with
    | Err _ => Some (n, no_effect)
    | Ok m1 =>
        match GetTarget rng m1 with
        | (inl IndexPanic, _) => None
        | (inl _, m2) => Some (with_membership m2 n, no_effect)
        | (inr target, m2) =>
            let infoMap := GetInfoMap m2 in
            let g := mkMessage GossipMsg (info_of infoMap (RingID n)) zero_info zero_info infoMap in
            Some (with_membership m2 n, mkEffect (send udp g target).1 false)
        end
    end
  else Some (n, no_effect).

Definition failure_tick (rng : nat → N) (now : Z) (n : Node) : Node * Effect :=
  if IsActive n then
    let '(m, failureDetected) := UpdateStateGossip rng now Tfail Tfail false (node_Membership n) in
    (with_membership m n, mkEffect [] failureDetected)
  else (n, no_effect).

Definition cleanup_tick (now : Z) (n : Node) : Node * Effect :=
  (with_membership (Cleanup now Tcleanup (node_Membership n)) n, no_effect).

(** The orders of the ranges over the incoming map and over the node's own. *)
Record RangeOrder := mkRangeOrder {
  incoming : list (Z * Info);
  current : list (Z * Info);
  rand : nat → nat → N;
}.

Definition on_probe (o : RangeOrder) (now : Z) (msg : Message) (n : Node) : Node * Effect :=
  let from := same_address (SenderInfo msg) in
  let newRingID := default 0 (first_match (λ e, from e.2) (incoming o)) in
  let m := node_Membership n in
  let m1 := match first_match (λ e, from e.2 && negb (bool_decide (e.1 = newRingID))) (current o) with
            | Some oldID => RemoveMember (rand o 0) oldID m
            | None => m
            end in
  let m2 := (Merge (rand o 1) (msg_InfoMap msg) now m1).1 in
  let infoMap := GetInfoMap m2 in
  let ack := mkMessage ProbeAckGossip (info_of infoMap (RingID n)) zero_info zero_info infoMap in
  (with_membership m2 n, mkEffect (send udp ack (SenderInfo msg)).1 false).

(** A failed entry with the address of the incoming entry [e] and another
    identifier is removed. *)
Definition drop_old (o : RangeOrder) (m : Membership) (e : Z * Info) : Membership :=
  match first_match (λ old, same_address e.2 old.2 && negb (bool_decide (old.1 = e.1))
                            && bool_decide (State old.2 = Failed)) (current o) with
  | Some oldID => RemoveMember (rand o 0) oldID m
  | None => m
  end.

Definition on_gossip (o : RangeOrder) (now : Z) (msg : Message) (n : Node) : Node * Effect :=
  let m1 := foldl (drop_old o) (node_Membership n) (incoming o) in
  let '(m2, changed) := Merge (rand o 1) (msg_InfoMap msg) now m1 in
  (with_membership m2 n, mkEffect [] changed).

Definition on_leave (o : RangeOrder) (now : Z) (msg : Message) (n : Node) : Node * Effect :=
  match first_match (λ e, same_address (SenderInfo msg) e.2) (current o) with
  | Some id =>
      let '(m, changed) := UpdateStateSwim (rand o 0) now id Failed false (node_Membership n) in
      (with_membership m n, mkEffect [] changed)
  | None => (n, no_effect)
  end.

Definition on_other (o : RangeOrder) (now : Z) (msg : Message) (n : Node) : Node * Effect :=
  (with_membership (Merge (rand o 1) (msg_InfoMap msg) now (node_Membership n)).1 n, no_effect).

Definition handle_message (o : RangeOrder) (now : Z) (msg : Message) (n : Node) : Node * Effect :=
  match Type_ msg with
  | Probe => on_probe o now msg n
  | GossipMsg => on_gossip o now msg n
  | Leave => on_leave o now msg n
  | _ => on_other o now msg n
  end.

(** ** gracefulLeave *)

Definition leave_messages (leaveMsg : Message) (self_id : Z) (order : list (Z * Info)) : Sent :=
  order ≫= λ '(id, info),
    if decide (id = self_id ∨ State info ≠ Alive) then [] else (send udp leaveMsg info).1.

Definition gracefulLeave (rng : nat → N) (order : list (Z * Info)) (now : Z) (n : Node) : Node * Effect :=
  if IsActive n then
    match GetInfoMap (node_Membership n) !! RingID n with
    | None => (with_active false n, no_effect)
    | Some self =>
        if decide (State self = Failed) then (with_active false n, no_effect)
        else
          let m := (UpdateStateSwim rng now (RingID n) Failed false (node_Membership n)).1 in
          let leaveMsg := mkMessage Leave self zero_info zero_info (GetInfoMap m) in
          (with_membership m (with_active false n), mkEffect (leave_messages leaveMsg (RingID n) order) false)
    end
  else (n, no_effect).

(** ** joinGroup *)

(** One attempt: a probe with the current info map. *)
Definition join_probe (self : Info) (introducerHost : string) (port : Z) (infoMap : gmap Z Info) :
    Sent * bool :=
  let probe := mkMessage Probe self zero_info zero_info infoMap in
  match SendMessage udp probe introducerHost port with
  | Err _ => ([], false)
  | Ok _ => ([(udp_address introducerHost port, probe)], true)
  end.

(** [before i] and [after i] are the info maps the node holds when it sends the
    [i]-th probe and two seconds later; the gossip loop runs in between. *)
Fixpoint join_attempts (before after : nat → gmap Z Info) (self : Info) (introducerHost : string)
    (port : Z) (fuel attempt : nat) : Sent :=
  match fuel with
  | O => []
  | S fuel' =>
      let '(sent, ok) := join_probe self introducerHost port (before attempt) in
      sent ++
        (if ok && bool_decide (1 < size (after attempt))%nat then []
         else join_attempts before after self introducerHost port fuel' (S attempt))
  end.

Definition maxRetries : nat := 5.

Definition joinGroup (before after : nat → gmap Z Info) (cfg : Config) (n : Node) : option Sent :=
  match GetInfoMap (node_Membership n) !! RingID n with
  | None => Some []
  | Some self =>
      introducerHost ← VMs cfg !! 0%nat;
      Some (if decide (Hostname self = introducerHost) then []
            else join_attempts before after self introducerHost (NodePort cfg) maxRetries 1)
  end.

(** ** The commands *)

(** [handleCLIJoin] up to the start of [joinGroup]; the flag says that it is
    started once the configuration is read. *)
Definition handleCLIJoin (now : Z) (n : Node) : Node * bool :=
  let self := GetInfoMap (node_Membership n) !! RingID n in
  if IsActive n && match self with Some i => bool_decide (State i = Alive) | None => false end then (n, false)
  else
    let n1 := match self with
              | Some i =>
                  if decide (State i = Failed) then
                    mkNode (HashInfo (mkInfo (Hostname i) (Port i) now now 0 Alive))
                      (Reset now (Hostname i) (Port i)) (FileStore n) (IsActive n)
                  else n
              | None => n
              end in
    (with_active true n1, true).

Definition handleCLILeave (rng : nat → N) (order : list (Z * Info)) (now : Z) (n : Node) : Node * Effect :=
  if IsActive n then gracefulLeave rng order now n else (n, no_effect).

(** [leave] over the client port. *)
Definition client_leave (rng : nat → N) (now : Z) (n : Node) : Node * Effect :=
  (with_membership (UpdateStateSwim rng now (RingID n) Failed false (node_Membership n)).1 n, no_effect).

(** [main]: the node that starts. *)
Definition main_node (hostname : string) (port now : Z) : Node :=
  mkNode (HashInfo (mkInfo hostname port now now 0 Alive)) (Reset now hostname port) ∅ true.

(** ** The events of a node *)

Inductive Event :=
  | GossipTick (rng : nat → N) (now : Z)
  | FailureTick (rng : nat → N) (now : Z)
  | CleanupTick (now : Z)
  | Incoming (o : RangeOrder) (now : Z) (msg : Message)
  | JoinCommand (now : Z)
  | JoinProbe (self : Info) (introducerHost : string) (port : Z)
  | LeaveCommand (rng : nat → N) (order : list (Z * Info)) (now : Z)
  | ClientLeave (rng : nat → N) (now : Z).

(** [joinGroup] runs beside the loop: each of its probes is an event. *)
Definition handle_event (e : Event) (n : Node) : option (Node * Effect) :=
  match e with
  | GossipTick rng now => gossip_tick rng now n
  | FailureTick rng now => Some (failure_tick rng now n)
  | CleanupTick now => Some (cleanup_tick now n)
  | Incoming o now msg => Some (handle_message o now msg n)
  | JoinCommand now => Some ((handleCLIJoin now n).1, no_effect)
  | JoinProbe self host port =>
      Some (n, mkEffect (join_probe self host port (GetInfoMap (node_Membership n))).1 false)
  | LeaveCommand rng order now => Some (handleCLILeave rng order now n)
  | ClientLeave rng now => Some (client_leave rng now n)
  end.

(** ** The entries are filed under the hash of their own fields *)

Definition keyed (m : gmap Z Info) : Prop := map_Forall (λ id i, HashInfo i = id) m.

Lemma HashInfo_same i j :
  Hostname i = Hostname j → Port i = Port j → Version i = Version j → HashInfo i = HashInfo j.
Proof. unfold HashInfo. by intros -> -> ->. Qed.

Lemma HashInfo_set_timestamp t i : HashInfo (set_timestamp t i) = HashInfo i.
Proof. done. Qed.

Lemma keyed_Merge rng mi now m :
  keyed mi → keyed (InfoMap m) → keyed (InfoMap (Merge rng mi now m).1).
Proof.
  intros Hmi Hm id i. rewrite lookup_Merge. destruct (mi !! id) as [info|] eqn:Hi; [|apply Hm].
  specialize (Hmi id info Hi). unfold merge_cell. repeat case_match; simpl; intros; simplify_eq;
    first [by apply Hm|done].
Qed.

Lemma gossip_cell_hash now Tf Ts se i : HashInfo (gossip_cell now Tf Ts se i).1 = HashInfo i.
Proof. unfold gossip_cell. by repeat case_match. Qed.

Lemma keyed_UpdateStateGossip rng now Tf Ts se m :
  keyed (InfoMap m) → keyed (InfoMap (UpdateStateGossip rng now Tf Ts se m).1).
Proof.
  intros Hm id i. rewrite lookup_UpdateStateGossip. destruct (InfoMap m !! id) as [j|] eqn:Hj; simpl; [|done].
  intros [= <-]. rewrite gossip_cell_hash. by apply Hm.
Qed.

Lemma keyed_UpdateStateSwim rng now id st se m :
  keyed (InfoMap m) → keyed (InfoMap (UpdateStateSwim rng now id st se m).1).
Proof.
  intros Hm j i. rewrite lookup_UpdateStateSwim. case_decide as Heq; [subst j|apply Hm].
  destruct (InfoMap m !! id) as [i0|] eqn:Hi; simpl; [|done]. intros [= <-].
  specialize (Hm id i0 Hi). unfold swim_cell. case_decide; exact Hm.
Qed.

Lemma keyed_Cleanup now T m : keyed (InfoMap m) → keyed (InfoMap (Cleanup now T m)).
Proof.
  intros Hm id i. rewrite lookup_cleanup. destruct (InfoMap m !! id) as [j|] eqn:Hj; [|done].
  case_decide; [done|]. intros [= <-]. by apply Hm.
Qed.

Lemma keyed_RemoveMember rng id m : keyed (InfoMap m) → keyed (InfoMap (RemoveMember rng id m)).
Proof.
  intros Hm. assert (InfoMap (RemoveMember rng id m) = delete id (InfoMap m)) as ->.
  { unfold RemoveMember. by case_match. }
  by apply map_Forall_delete.
Qed.

Lemma keyed_Heartbeat id now m m' : keyed (InfoMap m) → Heartbeat id now m = Ok m' → keyed (InfoMap m').
Proof.
  unfold Heartbeat. intros Hm. destruct (InfoMap m !! id) as [i|] eqn:Hi; [|done].
  case_decide; [done|]. intros [= <-]. simpl. apply map_Forall_insert_2; [|done].
  rewrite <- (Hm id i Hi). by apply HashInfo_same.
Qed.

Lemma keyed_Reset now h p : keyed (InfoMap (Reset now h p)).
Proof. unfold Reset. simpl. by apply map_Forall_singleton. Qed.

(** The invariant of a node. *)
Definition good (m : Membership) : Prop := wf m ∧ keyed (InfoMap m).

Lemma good_Merge rng mi now m : keyed mi → good m → good (Merge rng mi now m).1.
Proof. intros Hmi [Hw Hk]. split; [by apply wf_Merge|by apply keyed_Merge]. Qed.

Lemma good_RemoveMember rng id m : good m → good (RemoveMember rng id m).
Proof. intros [Hw Hk]. split; [by apply wf_RemoveMember|by apply keyed_RemoveMember]. Qed.

Lemma good_UpdateStateSwim rng now id st se m : good m → good (UpdateStateSwim rng now id st se m).1.
Proof. intros [Hw Hk]. split; [by apply wf_UpdateStateSwim|by apply keyed_UpdateStateSwim]. Qed.

Lemma good_UpdateStateGossip rng now Tf Ts se m : good m → good (UpdateStateGossip rng now Tf Ts se m).1.
Proof. intros [Hw Hk]. split; [by apply wf_UpdateStateGossip|by apply keyed_UpdateStateGossip]. Qed.

Lemma good_Cleanup now T m : good m → good (Cleanup now T m).
Proof. intros [Hw Hk]. split; [by apply wf_Cleanup|by apply keyed_Cleanup]. Qed.

Lemma good_Heartbeat id now m m' : good m → Heartbeat id now m = Ok m' → good m'.
Proof. intros [Hw Hk] Hh. split; [by eapply wf_Heartbeat|by eapply keyed_Heartbeat]. Qed.

Lemma good_GetTarget rng m : good m → good (GetTarget rng m).2.
Proof. intros [Hw Hk]. split; [by apply wf_GetTarget|by rewrite InfoMap_GetTarget]. Qed.

Lemma good_Reset now h p : good (Reset now h p).
Proof. split; [apply wf_Reset|apply keyed_Reset]. Qed.

Lemma GetTarget_no_panic rng m : wf m → (GetTarget rng m).1 ≠ inl IndexPanic.
Proof.
  intros Hwf. destruct (decide (Members m = [])) as [Hn|Hn]; [unfold GetTarget; by rewrite Hn|].
  pose proof (wf_index _ Hwf) as Hidx.
  assert (0 < length (Members m))%nat by (destruct (Members m); [done|simpl; lia]).
  destruct (lookup_lt_is_Some_2 (Members m) (Z.to_nat (roundRobinIndex m))) as [id Hid]; [lia|].
  by rewrite (GetTarget_at rng m (Z.to_nat (roundRobinIndex m)) id) by (auto; lia).
Qed.

(** ** Any step of a node keeps the invariant *)

Definition keyed_sent (sent : Sent) : Prop := Forall (λ p, keyed (msg_InfoMap p.2)) sent.

(** The messages that come in are of the invariant. *)
Definition event_keyed (e : Event) : Prop :=
  match e with Incoming _ _ msg => keyed (msg_InfoMap msg) | _ => True end.

Lemma keyed_send msg to : keyed (msg_InfoMap msg) → keyed_sent (send udp msg to).1.
Proof. unfold send. intros. destruct (SendMessage _ _ _ _); by repeat constructor. Qed.

Lemma good_GetInfoMap m : good m → keyed (GetInfoMap m).
Proof. rewrite GetInfoMap_copy. by intros [_ ?]. Qed.

Lemma step_good_silent (n : Node) b :
  good (node_Membership n) →
  ∃ n' eff, Some (n, mkEffect [] b) = Some (n', eff) ∧ good (node_Membership n') ∧ keyed_sent (e_sent eff).
Proof. intros. do 2 eexists. split; [done|]. split; [done|constructor]. Qed.

Lemma gossip_tick_good rng now n :
  good (node_Membership n) →
  ∃ n' eff, gossip_tick rng now n = Some (n', eff) ∧ good (node_Membership n') ∧ keyed_sent (e_sent eff).
Proof.
  intros Hg. unfold gossip_tick. destruct (IsActive n); [|by apply step_good_silent].
  destruct (Heartbeat _ _ _) as [m1|e] eqn:Hh; [|by apply step_good_silent].
  assert (good m1) as Hg1 by eauto using good_Heartbeat.
  pose proof (good_GetTarget rng m1 Hg1) as Hg2. pose proof (GetTarget_no_panic rng m1 (proj1 Hg1)) as Hnp.
  destruct (GetTarget rng m1) as [[[]|target] m2]; try done; try (by apply step_good_silent).
  do 2 eexists. split; [done|]. split; [done|]. apply keyed_send. by apply good_GetInfoMap.
Qed.

Lemma foldl_good o l m : good m → good (foldl (drop_old o) m l).
Proof.
  revert m. induction l as [|e l IH]; intros m Hm; [done|]. simpl. apply IH. unfold drop_old.
  case_match; [by apply good_RemoveMember|done].
Qed.

Lemma handle_message_good o now msg n :
  keyed (msg_InfoMap msg) → good (node_Membership n) →
  let '(n', eff) := handle_message o now msg n in good (node_Membership n') ∧ keyed_sent (e_sent eff).
Proof.
  intros Hk Hg. unfold handle_message.
  assert (∀ m, good m → good (Merge (rand o 1) (msg_InfoMap msg) now m).1) as HM by auto using good_Merge.
  destruct (Type_ msg); try (split; [by apply HM|constructor]).
  - unfold on_gossip. pose proof (HM _ (foldl_good o (incoming o) _ Hg)) as Hg'.
    destruct (Merge _ _ _ _) as [m2 c]. split; [done|constructor].
  - unfold on_probe. cbv zeta.
    assert (∀ m1, good m1 → good (Merge (rand o 1) (msg_InfoMap msg) now m1).1 ∧
      keyed (GetInfoMap (Merge (rand o 1) (msg_InfoMap msg) now m1).1)) as HM'.
    { intros m1 H1. split; [by apply HM|]. by apply good_GetInfoMap, HM. }
    destruct (first_match _ (current o)); (split; [apply HM'|apply keyed_send; simpl; apply HM']);
      auto using good_RemoveMember.
  - unfold on_leave. destruct (first_match _ (current o)) as [z|]; [|split; [done|constructor]].
    pose proof (good_UpdateStateSwim (rand o 0) now z Failed false _ Hg).
    destruct (UpdateStateSwim _ _ _ _ _ _) as [m c]. split; [done|constructor].
Qed.

Lemma keyed_leave_messages msg id order : keyed (msg_InfoMap msg) → keyed_sent (leave_messages msg id order).
Proof.
  intros Hk. unfold leave_messages. induction order as [|[i info] l IH]; [constructor|].
  simpl. apply Forall_app. split; [|done]. case_decide; [constructor|by apply keyed_send].
Qed.

Lemma handle_event_good e n :
  event_keyed e → good (node_Membership n) →
  ∃ n' eff, handle_event e n = Some (n', eff) ∧ good (node_Membership n') ∧ keyed_sent (e_sent eff).
Proof.
  intros He Hg. destruct e; simpl.
  - by apply gossip_tick_good.
  - unfold failure_tick. pose proof (good_UpdateStateGossip rng now Tfail Tfail false _ Hg).
    destruct (IsActive n); [|by apply step_good_silent]. destruct (UpdateStateGossip _ _ _ _ _ _). by apply step_good_silent.
  - do 2 eexists. split; [done|]. split; [by apply good_Cleanup|constructor].
  - pose proof (handle_message_good o now msg n He Hg). destruct (handle_message _ _ _ _). eauto.
  - do 2 eexists. split; [done|]. split; [|constructor]. unfold handleCLIJoin.
    repeat (case_match; simpl; try done); apply good_Reset.
  - do 2 eexists. split; [done|]. split; [done|]. unfold join_probe.
    destruct (SendMessage _ _ _ _); repeat constructor. simpl. by apply good_GetInfoMap.
  - unfold handleCLILeave, gracefulLeave.
    pose proof (good_UpdateStateSwim rng now (RingID n) Failed false _ Hg) as Hg'.
    destruct (IsActive n); [|by apply step_good_silent].
    destruct (_ !! RingID n); [|by apply step_good_silent].
    case_decide; [by apply step_good_silent|]. do 2 eexists. split; [done|]. split; [done|].
    apply keyed_leave_messages. simpl. by apply good_GetInfoMap.
  - do 2 eexists. split; [done|]. split; [by apply good_UpdateStateSwim|constructor].
Qed.

(** ** The nodes of a cluster *)

(** The processes that run, by address, and every datagram ever sent; one may
    be lost, delivered late or delivered twice. *)
Record Net := mkNet {
  nodes : gmap string Node;
  packets : Sent;
}.

Definition net_init (N : Net) : Prop := nodes N = ∅ ∧ packets N = [].

(** An incoming message was sent to the node and the ranges visit its map and
    the node's. *)
Definition delivered (N : Net) (a : string) (n : Node) (e : Event) : Prop :=
  match e with
  | Incoming o _ msg =>
      (a, msg) ∈ packets N ∧ incoming o ≡ₚ map_to_list (msg_InfoMap msg) ∧
      current o ≡ₚ map_to_list (GetInfoMap (node_Membership n))
  | _ => True
  end.

Inductive net_step : Net → Net → Prop :=
  | net_start N host port now :
      nodes N !! udp_address host port = None →
      net_step N (mkNet (<[udp_address host port := main_node host port now]> (nodes N)) (packets N))
  | net_crash N a : net_step N (mkNet (delete a (nodes N)) (packets N))
  | net_handle N a n e n' eff :
      nodes N !! a = Some n → delivered N a n e → handle_event e n = Some (n', eff) →
      net_step N (mkNet (<[a := n']> (nodes N)) (packets N ++ e_sent eff)).

Definition net_good (N : Net) : Prop :=
  map_Forall (λ _ n, good (node_Membership n)) (nodes N) ∧ keyed_sent (packets N).

Lemma delivered_keyed N a n e : keyed_sent (packets N) → delivered N a n e → event_keyed e.
Proof.
  destruct e; try done. intros Hk (Hin & _). simpl. by apply (proj1 (Forall_forall _ _) Hk (a, msg)).
Qed.

Lemma net_reachable_good N : reachable net_init net_step N → net_good N.
Proof.
  apply reachable_invariant.
  - intros a [Hn Hp]. unfold net_good. rewrite Hn, Hp. split; [apply map_Forall_empty|constructor].
  - intros N1 N2 [Hn Hp] Hstep. destruct Hstep as [N1 host port now _|N1 a|N1 a n e n' eff Hl Hd He]; simpl in *.
    + split; [|done]. simpl. apply map_Forall_insert_2; [apply good_Reset|done].
    + split; [|done]. by apply map_Forall_delete.
    + destruct (handle_event_good e n) as (n1 & eff1 & He1 & Hg1 & Hs1);
        [by eapply delivered_keyed|by eapply Hn|]. rewrite He in He1. injection He1 as <- <-.
      split; [|by apply Forall_app]. simpl. by apply map_Forall_insert_2.
Qed.

(** C13: however the nodes of a cluster start, crash, leave, join and exchange
    messages, in every node's membership each entry is filed under the hash of
    its own host, port and version, so that an incarnation has one entry; the
    list to gossip with has no duplicates and only live members; and the node
    never panics: it handles any further event. *)
Theorem cluster_well_typed (N : Net) (a : string) (n : Node) :
  reachable net_init net_step N → nodes N !! a = Some n →
  let m := node_Membership n in
  map_Forall (λ id i, HashInfo i = id) (InfoMap m) ∧
  (∀ id1 id2 i1 i2, InfoMap m !! id1 = Some i1 → InfoMap m !! id2 = Some i2 →
     Hostname i1 = Hostname i2 → Port i1 = Port i2 → Version i1 = Version i2 → id1 = id2) ∧
  NoDup (Members m) ∧
  (∀ id, id ∈ Members m → ∃ i, InfoMap m !! id = Some i ∧ State i ≠ Failed) ∧
  (∀ e, delivered N a n e → is_Some (handle_event e n)).
Proof.
  intros [Hn Hp]%net_reachable_good Hl m. pose proof (Hn a n Hl) as Hg. destruct (Hg) as [Hw Hk].
  split; [done|]. split.
  { intros id1 id2 i1 i2 H1 H2 Hh Hpt Hv. rewrite <- (Hk _ _ H1), <- (Hk _ _ H2). by apply HashInfo_same. }
  split; [apply Hw|]. split; [apply Hw|]. intros e Hd.
  destruct (handle_event_good e n) as (n' & eff & -> & _); [by eapply delivered_keyed|done|done].
Qed.

(** ** A member that falls silent *)

(** A message without news about [id]: what it says of [id] is that it failed or
    is not newer than the entry held, and it does not come from, or tell of, a
    new incarnation at the address of [id]. *)
Definition no_news (id : Z) (n : Node) (msg : Message) : Prop :=
  let held := InfoMap (node_Membership n) !! id in
  (∀ info, msg_InfoMap msg !! id = Some info →
     State info = Failed ∨ ∃ i, held = Some i ∧ Counter info <= Counter i) ∧
  (∀ i, held = Some i → Type_ msg ≠ Leave → same_address (SenderInfo msg) i = false) ∧
  (∀ i id' info, held = Some i → msg_InfoMap msg !! id' = Some info → id' ≠ id → same_address info i = false).

Definition quiet (id : Z) (n : Node) (e : Event) : Prop :=
  match e with
  | GossipTick _ _ | CleanupTick _ | JoinProbe _ _ _ => True
  | Incoming o _ msg =>
      no_news id n msg ∧ keyed (msg_InfoMap msg) ∧ incoming o ≡ₚ map_to_list (msg_InfoMap msg) ∧
      current o ≡ₚ map_to_list (GetInfoMap (node_Membership n))
  | _ => False
  end.

(** [watched now n]: from [n0] the node came to [n] with its last failure check
    at time [now], without news about [id]. *)
Inductive watched (id t0 : Z) (n0 : Node) : Z → Node → Prop :=
  | watched_start : watched id t0 n0 t0 n0
  | watched_check now n rng now' :
      watched id t0 n0 now n → watched id t0 n0 now' (failure_tick rng now' n).1
  | watched_event now n e n' eff :
      watched id t0 n0 now n → quiet id n e → handle_event e n = Some (n', eff) → watched id t0 n0 now n'.

(** The entry of [id] is kept or fails or goes. *)
Definition fades (id : Z) (m m' : Membership) : Prop :=
  ∀ i, InfoMap m' !! id = Some i → InfoMap m !! id = Some i ∨ State i = Failed.

Lemma fades_refl id m : fades id m m.
Proof. intros i. by left. Qed.

Lemma fades_trans id m1 m2 m3 : fades id m1 m2 → fades id m2 m3 → fades id m1 m3.
Proof. intros H1 H2 i Hi. destruct (H2 i Hi) as [Hi2|?]; [by apply H1|by right]. Qed.

Lemma fades_same id m m' : InfoMap m' !! id = InfoMap m !! id → fades id m m'.
Proof. intros He i Hi. left. congruence. Qed.

Lemma InfoMap_RemoveMember rng id m : InfoMap (RemoveMember rng id m) = delete id (InfoMap m).
Proof. unfold RemoveMember. by case_match. Qed.

Lemma fades_Merge rng mi now m id :
  (∀ info, mi !! id = Some info →
     State info = Failed ∨ ∃ i, InfoMap m !! id = Some i ∧ Counter info <= Counter i) →
  fades id m (Merge rng mi now m).1.
Proof.
  intros Hn i. rewrite lookup_Merge. destruct (mi !! id) as [info|] eqn:Hi; [|by left].
  specialize (Hn info eq_refl). unfold merge_cell. destruct (valid_info info); [|by left].
  destruct Hn as [Hf|(held & -> & Hc)].
  - rewrite Hf. destruct (InfoMap m !! id); simpl; [|done]. case_decide; [|by left].
    intros [= <-]. by right.
  - destruct (decide (State info = Failed)) as [Hf|Hf].
    + case_decide; [|by left]. intros [= <-]. by right.
    + rewrite (proj2 (Z.ltb_ge _ _) Hc). by left.
Qed.

Lemma fades_Cleanup now T m id : fades id m (Cleanup now T m).
Proof.
  intros i. rewrite lookup_cleanup. destruct (InfoMap m !! id); [|done]. case_decide; [done|by left].
Qed.

Lemma fades_UpdateStateSwim rng now j m id : fades id m (UpdateStateSwim rng now j Failed false m).1.
Proof.
  intros i. rewrite lookup_UpdateStateSwim. case_decide; [subst|by left].
  destruct (InfoMap m !! j) as [k|] eqn:Hk; simpl; [|done]. unfold swim_cell.
  case_decide; [by left|]. intros [= <-]. by right.
Qed.

Lemma first_match_spec p order id :
  first_match p order = Some id → ∃ i, (id, i) ∈ order ∧ p (id, i) = true.
Proof.
  unfold first_match. induction order as [|[j i] l IH]; simpl; [done|].
  destruct (p (j, i)) eqn:Hp; simpl.
  - intros [= <-]. exists i. split; [left|done].
  - intros H'. destruct (IH H') as (i' & ? & ?). exists i'. split; [by right|done].
Qed.

Lemma drop_old_keeps id o m0 m e :
  current o ≡ₚ map_to_list (InfoMap m0) →
  (∀ i, InfoMap m0 !! id = Some i → e.1 ≠ id → same_address e.2 i = false) →
  InfoMap (drop_old o m e) !! id = InfoMap m !! id.
Proof.
  intros Ho Hne. unfold drop_old. destruct (first_match _ (current o)) as [old|] eqn:Hf; [|done].
  apply first_match_spec in Hf as (i & Hin & Hp). rewrite Ho in Hin. apply elem_of_map_to_list in Hin.
  simpl in Hp. apply andb_true_iff in Hp as [[Ha Hd]%andb_true_iff _].
  rewrite InfoMap_RemoveMember, lookup_delete_ne; [done|]. intros ->.
  apply negb_true_iff, bool_decide_eq_false in Hd. rewrite (Hne i) in Ha; [done|done|congruence].
Qed.

Lemma drop_all_keeps id o m0 m l :
  current o ≡ₚ map_to_list (InfoMap m0) →
  (∀ i e, InfoMap m0 !! id = Some i → e ∈ l → e.1 ≠ id → same_address e.2 i = false) →
  InfoMap (foldl (drop_old o) m l) !! id = InfoMap m !! id.
Proof.
  intros Ho. revert m. induction l as [|e l IH]; intros m Hne; [done|]. simpl.
  rewrite IH.
  - eapply drop_old_keeps; [done|]. intros i Hi. apply (Hne i); [done|left].
  - intros i e' Hi He'. apply (Hne i); [done|by right].
Qed.

Lemma fades_message id o now msg n :
  no_news id n msg → incoming o ≡ₚ map_to_list (msg_InfoMap msg) →
  current o ≡ₚ map_to_list (GetInfoMap (node_Membership n)) →
  fades id (node_Membership n) (node_Membership (handle_message o now msg n).1).
Proof.
  intros (Hnews & Hfrom & Hadr) Hin Hcur. rewrite GetInfoMap_copy in Hcur. unfold handle_message.
  assert (∀ m, InfoMap m !! id = InfoMap (node_Membership n) !! id →
    fades id (node_Membership n) (Merge (rand o 1) (msg_InfoMap msg) now m).1) as HM.
  { intros m Hm. eapply fades_trans; [by apply fades_same|]. apply fades_Merge. by rewrite Hm. }
  destruct (Type_ msg) eqn:Ht; try (by apply HM).
  - unfold on_gossip. destruct (Merge _ _ _ _) as [m2 c] eqn:HMe.
    simpl. change m2 with (m2, c).1. rewrite <- HMe. apply HM. eapply drop_all_keeps; [done|].
    intros i [id' info] Hi He Hne. rewrite Hin in He. apply elem_of_map_to_list in He. simpl. eauto.
  - unfold on_probe. cbv zeta. cbn [fst node_Membership with_membership]. apply HM.
    destruct (first_match _ (current o)) as [old|] eqn:Hf; [|done].
    apply first_match_spec in Hf as (i & Hold & Hp). rewrite Hcur in Hold. apply elem_of_map_to_list in Hold.
    simpl in Hp. apply andb_true_iff in Hp as [Ha _].
    rewrite InfoMap_RemoveMember, lookup_delete_ne; [done|]. intros ->. rewrite (Hfrom i) in Ha; done.
  - unfold on_leave. destruct (first_match _ (current o)) as [j|]; [|apply fades_refl].
    pose proof (fades_UpdateStateSwim (rand o 0) now j (node_Membership n) id).
    by destruct (UpdateStateSwim _ _ _ _ _ _).
Qed.

(** Before the timeout the silent member keeps its entry. *)
Definition fading (id t0 now : Z) (n : Node) : Prop :=
  good (node_Membership n) ∧ IsActive n = true ∧ RingID n ≠ id ∧
  ∀ i, InfoMap (node_Membership n) !! id = Some i →
    State i = Failed ∨ (State i = Alive ∧ Timestamp i = t0 ∧ now <= t0 + Tfail).

Lemma fading_fades id t0 now n n' :
  fading id t0 now n → good (node_Membership n') → IsActive n' = IsActive n → RingID n' = RingID n →
  fades id (node_Membership n) (node_Membership n') → fading id t0 now n'.
Proof.
  intros (Hg & Ha & Hr & Hi) Hg' Ha' Hr' Hf. split; [done|]. split; [congruence|]. split; [congruence|].
  intros i Hl. destruct (Hf i Hl) as [?|?]; [by apply Hi|by left].
Qed.

Lemma gossip_tick_fades id rng now n n' eff :
  RingID n ≠ id → gossip_tick rng now n = Some (n', eff) →
  fades id (node_Membership n) (node_Membership n') ∧ IsActive n' = IsActive n ∧ RingID n' = RingID n.
Proof.
  intros Hr. unfold gossip_tick. destruct (IsActive n) eqn:Ha; [|intros [= <- <-]; by split; [apply fades_refl|]].
  destruct (Heartbeat _ _ _) as [m1|e] eqn:Hh; [|intros [= <- <-]; by split; [apply fades_refl|]].
  assert (InfoMap m1 !! id = InfoMap (node_Membership n) !! id) as Hm1.
  { unfold Heartbeat in Hh. destruct (_ !! RingID n); [|done]. case_decide; [done|].
    injection Hh as <-. simpl. by apply lookup_insert_ne. }
  pose proof (InfoMap_GetTarget rng m1) as Hm2. destruct (GetTarget rng m1) as [[[]|tg] m2];
    try done; intros [= <- <-]; (split; [apply fades_same; simpl in *; congruence|done]).
Qed.

Lemma handle_message_same o now msg n :
  IsActive (handle_message o now msg n).1 = IsActive n ∧ RingID (handle_message o now msg n).1 = RingID n.
Proof.
  unfold handle_message, on_gossip, on_probe, on_leave, on_other. destruct (Type_ msg); try done.
  - by destruct (Merge _ _ _ _).
  - destruct (first_match _ (current o)); [|done]. by destruct (UpdateStateSwim _ _ _ _ _ _).
Qed.

Lemma watched_fading id t0 n0 now n :
  fading id t0 t0 n0 → watched id t0 n0 now n → fading id t0 now n.
Proof.
  intros H0. induction 1 as [|now n rng now' Hw (Hg & Ha & Hr & Hi)|now n e n' eff Hw IH Hq He]; [done| |].
  - unfold failure_tick. rewrite Ha.
    pose proof (good_UpdateStateGossip rng now' Tfail Tfail false _ Hg) as Hg'.
    pose proof (lookup_UpdateStateGossip rng now' Tfail Tfail false (node_Membership n) id) as Hl.
    destruct (UpdateStateGossip _ _ _ _ _ _) as [m c]. simpl in Hg', Hl. split_and!; [done..|].
    simpl. intros i. rewrite Hl. destruct (InfoMap (node_Membership n) !! id) as [j|]; [|done].
    simpl. intros [= <-]. destruct (Hi j eq_refl) as [Hf|(Hal & Ht & Hn)]; unfold gossip_cell.
    + rewrite Hf. by left.
    + rewrite Hal. destruct (Tfail <? time_sub now' (Timestamp j)) eqn:Hlt; simpl; [by left|].
      right. split; [done|]. split; [done|].
      pose proof (late now' (Timestamp j) Tfail ltac:(unfold Tfail, Second, two63; lia)) as Hlate.
      rewrite Hlt in Hlate. destruct (decide (Tfail < now' - Timestamp j)) as [Hd|]; [|lia].
      by apply Hlate in Hd.
  - pose proof IH as (Hg & Ha & Hr & Hi). destruct (handle_event_good e n) as (n1 & eff1 & He1 & Hg1 & _); [| done|].
    { destruct e; try done. by destruct Hq as (_ & ? & _). }
    rewrite He in He1. injection He1 as <- <-. destruct e; try done; simpl in He.
    + destruct (gossip_tick_fades id _ _ _ _ _ Hr He) as (Hf & Ha' & Hr'). by eapply fading_fades.
    + unfold cleanup_tick in He. injection He as <- <-. eapply fading_fades; try done. apply fades_Cleanup.
    + destruct Hq as (Hn & Hk & Ho1 & Ho2). pose proof (fades_message id o now0 msg n Hn Ho1 Ho2) as Hf.
      pose proof (handle_message_same o now0 msg n) as [Ha' Hr'].
      injection He as He. rewrite He in Hf, Ha', Hr'. by eapply fading_fades.
    + by injection He as <- <-.
Qed.

(** C14: a member that is heard of for the last time at [t0] is out of the list of
    an active node from the first failure check later than five seconds after
    [t0] on, as long as no news arrives: in between the node may gossip, clean
    up, send probes and take in messages that know nothing newer. *)
Theorem silent_member_dropped (id t0 now : Z) (n0 n : Node) (i : Info) :
  good (node_Membership n0) → IsActive n0 = true → RingID n0 ≠ id →
  InfoMap (node_Membership n0) !! id = Some i → State i = Alive → Timestamp i = t0 →
  watched id t0 n0 now n → t0 + Tfail < now →
  (∀ j, InfoMap (node_Membership n) !! id = Some j → State j = Failed) ∧
  id ∉ Members (node_Membership n).
Proof.
  intros Hg Ha Hr Hi Hst Ht Hw Hnow. destruct (watched_fading id t0 n0 now n) as (Hg' & _ & _ & Hf); [|done|].
  { split_and!; try done. intros j Hj. simplify_eq. right. split_and!; [done|done|].
    unfold Tfail, Second. lia. }
  assert (∀ j, InfoMap (node_Membership n) !! id = Some j → State j = Failed) as Hfail.
  { intros j Hj. destruct (Hf j Hj) as [?|(_&_&?)]; [done|lia]. }
  split; [done|]. intros Hin. destruct (wf_live _ (proj1 Hg') id Hin) as (j & Hj & Hs).
  by specialize (Hfail j Hj).
Qed.

(** ** Leaving and joining again *)

Lemma wf_not_member m id :
  wf m → (∀ j, InfoMap m !! id = Some j → State j = Failed) → id ∉ Members m.
Proof. intros Hw Hf Hin. destruct (wf_live _ Hw id Hin) as (j & Hj & Hs). by specialize (Hf j Hj). Qed.

Lemma UpdateStateSwim_fails rng now id m i :
  InfoMap m !! id = Some i → State i ≠ Failed →
  UpdateStateSwim rng now id Failed false m = (rebuild rng (<[id := set_state Failed (set_timestamp now i)]> (InfoMap m)), true).
Proof. intros Hi Hs. unfold UpdateStateSwim. rewrite Hi, decide_True by done. done. Qed.

(** A search with one possible hit. *)
Lemma first_match_unique p order m id i :
  order ≡ₚ map_to_list m → m !! id = Some i → p (id, i) = true →
  (∀ id' j, m !! id' = Some j → p (id', j) = true → id' = id) →
  first_match p order = Some id.
Proof.
  intros Ho Hi Hp Hu. destruct (first_match p order) as [id'|] eqn:Hf.
  - apply first_match_spec in Hf as (j & Hin & Hpj). rewrite Ho in Hin. apply elem_of_map_to_list in Hin.
    f_equal. by eapply Hu.
  - exfalso. assert ((id, i) ∈ order) as Hin by (rewrite Ho; by apply elem_of_map_to_list).
    revert Hf Hin. unfold first_match. clear Ho Hu. induction order as [|e l IH]; simpl; [by intros _ ?%not_elem_of_nil|].
    destruct (p e) eqn:He; [done|]. intros Hf [Heq|Hin]%elem_of_cons; [by subst; congruence|by apply IH].
Qed.

Lemma Merge_adds rng mi now m id info :
  mi !! id = Some info → InfoMap m !! id = None → valid_info info = true → State info ≠ Failed →
  let m' := (Merge rng mi now m).1 in
  InfoMap m' !! id = Some (set_timestamp now info) ∧ id ∈ Members m'.
Proof.
  intros Hmi Hm Hv Hs m'. assert (InfoMap m' !! id = Some (set_timestamp now info)) as Hl.
  { subst m'. rewrite lookup_Merge, Hmi, Hm. unfold merge_cell. by rewrite Hv, decide_True. }
  split; [done|]. subst m'. revert Hl. unfold Merge, merge_over. rewrite merge_loop_flag.
  assert ((range_flag (λ _, merge_cell now) (map_to_list mi) (InfoMap m, false)).2 = true) as Hc.
  { apply (range_flag_true _ _ mi); [done|]. exists id, info. split; [done|].
    unfold merge_cell. by rewrite Hv, Hm, decide_True. }
  destruct (range_flag _ _ _) as [im c]. simpl in Hc. subst c. simpl. intros Hl.
  rewrite RandomPermutation_Permutation. apply elem_of_live_ids. by exists (set_timestamp now info).
Qed.

Lemma first_alive_sent msg id order :
  (∀ a msg, ∃ k, udp a msg = Ok k) →
  leave_messages msg id order =
    (λ e, (udp_address (Hostname e.2) (Port e.2), msg)) <$> filter (λ e, ¬ (e.1 = id ∨ State e.2 ≠ Alive)) order.
Proof.
  intros Hudp. induction order as [|[j i] l IH]; [done|].
  change (leave_messages msg id ((j, i) :: l)) with
    ((if decide (j = id ∨ State i ≠ Alive) then [] else (send udp msg i).1) ++ leave_messages msg id l).
  rewrite IH, filter_cons. simpl. destruct (decide (j = id ∨ State i ≠ Alive)) as [Hd|Hd].
  - by rewrite decide_False by tauto.
  - rewrite decide_True by done. unfold send, SendMessage.
    by destruct (Hudp (udp_address (Hostname i) (Port i)) msg) as [k ->].
Qed.

(** C15: a node that leaves is out of the group at once: it sends the leave to
    every other alive member, exactly once, goes silent, and a member that
    knows one incarnation at its address marks it failed, gossips with it no
    more and starts the re-replication scan. *)
Theorem leave_removes_member (rng : nat → N) (order : list (Z * Info)) (now now' : Z) (n r : Node)
    (self held : Info) (o : RangeOrder) :
  IsActive n = true → wf (node_Membership n) → InfoMap (node_Membership n) !! RingID n = Some self →
  State self ≠ Failed → (∀ a msg, ∃ k, udp a msg = Ok k) →
  wf (node_Membership r) → InfoMap (node_Membership r) !! RingID n = Some held → State held ≠ Failed →
  same_address self held = true →
  (∀ id i, InfoMap (node_Membership r) !! id = Some i → same_address self i = true → id = RingID n) →
  current o ≡ₚ map_to_list (GetInfoMap (node_Membership r)) →
  let n1 := (handleCLILeave rng order now n).1 in
  let eff := (handleCLILeave rng order now n).2 in
  ∃ msg, Type_ msg = Leave ∧
    e_sent eff = (λ e, (udp_address (Hostname e.2) (Port e.2), msg)) <$>
                   filter (λ e, ¬ (e.1 = RingID n ∨ State e.2 ≠ Alive)) order ∧
    RingID n ∉ Members (node_Membership n1) ∧
    (∀ rng t, gossip_tick rng t n1 = Some (n1, no_effect) ∧ failure_tick rng t n1 = (n1, no_effect)) ∧
    let '(r1, eff1) := handle_message o now' msg r in
    RingID n ∉ Members (node_Membership r1) ∧ e_scan eff1 = true ∧
    InfoMap (node_Membership r1) = <[RingID n := set_state Failed (set_timestamp now' held)]> (InfoMap (node_Membership r)).
Proof.
  intros Ha Hw Hself Hs Hudp Hwr Hheld Hsh Hadr Huniq Ho. cbv zeta.
  unfold handleCLILeave, gracefulLeave. rewrite Ha, GetInfoMap_copy, Hself, decide_False by done.
  cbv zeta. cbn [fst snd e_sent]. eexists. split; [|split; [by apply first_alive_sent|]]; [done|].
  split; [|split; [done|]].
  - simpl. apply wf_not_member; [by apply wf_UpdateStateSwim|]. intros j.
    rewrite (UpdateStateSwim_fails _ _ _ _ self) by done. simpl. rewrite lookup_insert_eq. by intros [= <-].
  - unfold handle_message, on_leave. simpl.
    rewrite (first_match_unique _ _ (InfoMap (node_Membership r)) (RingID n) held); try done;
      [|by rewrite GetInfoMap_copy in Ho].
    rewrite (UpdateStateSwim_fails _ _ _ _ held) by done. simpl. split_and!; [|done|done].
    rewrite RandomPermutation_Permutation, elem_of_live_ids. rewrite lookup_insert_eq.
    intros (? & [= <-] & Hl). by apply Hl.
Qed.

(** C16: a node that left and joins again does so as a new incarnation: a fresh
    identifier and a membership with itself alone.  The introducer that gets
    its probe replaces the old incarnation by the new one, keeps the other
    entries, gossips with the new one and answers with all it knows; from the
    answer the node has every live member of the introducer in its list. *)
Theorem rejoin_replaces_incarnation (now now' now'' old : Z) (n r : Node) (self held : Info)
    (o o' : RangeOrder) :
  InfoMap (node_Membership n) !! RingID n = Some self → State self = Failed → valid_info self = true →
  let n1 := (handleCLIJoin now n).1 in
  let new := mkInfo (Hostname self) (Port self) now now 0 Alive in
  let probe := mkMessage Probe new zero_info zero_info (GetInfoMap (node_Membership n1)) in
  (** the introducer knows one other incarnation, [old] *)
  InfoMap (node_Membership r) !! old = Some held → same_address self held = true →
  InfoMap (node_Membership r) !! RingID n1 = None →
  (∀ id i, InfoMap (node_Membership r) !! id = Some i → same_address self i = true → id = old) →
  incoming o ≡ₚ map_to_list (msg_InfoMap probe) → current o ≡ₚ map_to_list (GetInfoMap (node_Membership r)) →
  handleCLIJoin now n = (n1, true) ∧ IsActive n1 = true ∧ RingID n1 = HashInfo new ∧
  InfoMap (node_Membership n1) = {[ RingID n1 := new ]} ∧ Members (node_Membership n1) = [RingID n1] ∧
  let '(r1, eff) := handle_message o now' probe r in
  InfoMap (node_Membership r1) =
    <[RingID n1 := set_timestamp now' new]> (delete old (InfoMap (node_Membership r))) ∧
  RingID n1 ∈ Members (node_Membership r1) ∧
  (∀ ack, ack ∈ (e_sent eff).*2 →
     let n2 := (handle_message o' now'' ack n1).1 in
     ∀ id i, InfoMap (node_Membership r1) !! id = Some i → valid_info i = true → State i ≠ Failed →
       id ≠ RingID n1 → id ∈ Members (node_Membership n2)).
Proof.
  intros Hself Hf Hv. unfold handleCLIJoin. rewrite GetInfoMap_copy, Hself.
  rewrite (bool_decide_eq_false_2 (State self = Alive)) by congruence.
  rewrite andb_false_r. rewrite decide_True by done. cbv zeta. cbn [fst].
  set (new := mkInfo (Hostname self) (Port self) now now 0 Alive).
  cbn [RingID with_active node_Membership msg_InfoMap IsActive]. rewrite !GetInfoMap_copy.
  change (InfoMap (Reset now (Hostname self) (Port self))) with ({[ HashInfo new := new ]} : gmap Z Info).
  intros Hold Hadr Hnone Huniq Hin Hcur.
  assert (old ≠ HashInfo new) as Hne by congruence.
  split; [done|]. split; [done|]. split; [done|]. split; [done|]. split; [done|].
  unfold handle_message at 1. simpl Type_. unfold on_probe. cbn [SenderInfo msg_InfoMap]. cbv zeta.
  assert (∀ i, same_address new i = same_address self i) as Hsame by done.
  rewrite (first_match_unique _ (incoming o) {[ HashInfo new := new ]} (HashInfo new) new); cycle 1.
  { done. } { apply lookup_singleton_eq. } { unfold same_address; simpl. by rewrite !bool_decide_eq_true_2. }
  { intros id j Hj. by apply lookup_singleton_Some in Hj as [-> _]. }
  rewrite (first_match_unique _ (current o) (InfoMap (node_Membership r)) old held); cycle 1.
  { done. } { done. } { simpl. rewrite Hsame, Hadr. by rewrite bool_decide_eq_false_2. }
  { intros id j Hj [Ha _]%andb_true_iff. by eapply Huniq. }
  cbn [default node_Membership with_membership e_sent].
  set (m := (Merge (rand o 1) {[HashInfo new := new]} now' (RemoveMember (rand o 0) old (node_Membership r))).1).
  assert (valid_info new = true) as Hvn by done.
  assert (InfoMap m !! HashInfo new = Some (set_timestamp now' new) ∧ HashInfo new ∈ Members m) as [Hl Hm].
  { apply (Merge_adds _ _ _ _ _ new); [apply lookup_singleton_eq| |done..].
    by rewrite InfoMap_RemoveMember, lookup_delete_ne. }
  split; [|split; [done|]].
  - apply map_eq. intros id. destruct (decide (id = HashInfo new)) as [->|Hid];
      [by rewrite Hl, lookup_insert_eq|]. rewrite lookup_insert_ne by done. subst m.
    by rewrite lookup_Merge, lookup_singleton_ne, InfoMap_RemoveMember by done.
  - intros ack Hack id i Hi Hvi Hsi Hid. unfold send in Hack.
    destruct (SendMessage _ _ _ _); simpl in Hack; [|by apply elem_of_nil in Hack].
    apply list_elem_of_singleton in Hack as ->. unfold handle_message. simpl Type_. unfold on_other.
    cbn [fst node_Membership with_membership msg_InfoMap with_active]. rewrite GetInfoMap_copy.
    apply (Merge_adds _ _ _ _ _ i); [done| |done..]. apply lookup_singleton_ne. intros Heq. by apply Hid.
Qed.

(** C34: the leave of the client port only marks the node failed in its own
    eyes: it sends nothing, it stays active without gossiping, and a join over
    the client port does not bring it back: the introducer that gets its probe
    takes it for failed. *)
Theorem client_leave_no_return (rng : nat → N) (now now' : Z) (n r : Node) (self : Info)
    (o : RangeOrder) (host : string) (port : Z) (infoMap : gmap Z Info) :
  IsActive n = true → InfoMap (node_Membership n) !! RingID n = Some self → State self ≠ Failed →
  valid_info self = true → wf (node_Membership r) →
  let '(n1, eff) := client_leave rng now n in
  e_sent eff = [] ∧ IsActive n1 = true ∧
  (∀ rng t, gossip_tick rng t n1 = Some (n1, no_effect)) ∧
  ∃ self', InfoMap (node_Membership n1) !! RingID n1 = Some self' ∧
    ∀ a probe, (a, probe) ∈ (join_probe self' host port (GetInfoMap (node_Membership n1))).1 →
      let r1 := (handle_message o now' probe r).1 in
      RingID n ∉ Members (node_Membership r1) ∧
      ∀ i, InfoMap (node_Membership r1) !! RingID n = Some i → State i = Failed.
Proof.
  intros Ha Hself Hs Hv Hw. unfold client_leave. rewrite (UpdateStateSwim_fails _ _ _ _ self) by done. cbn [fst].
  split; [done|]. split; [done|]. split.
  - intros rng' t. unfold gossip_tick. simpl. rewrite Ha. unfold Heartbeat. simpl.
    by rewrite lookup_insert_eq, decide_True.
  - eexists. split; [simpl; apply lookup_insert_eq|]. intros a probe Hp. unfold join_probe in Hp.
    destruct (SendMessage _ _ _ _); [|by apply elem_of_nil in Hp].
    apply list_elem_of_singleton in Hp. injection Hp as -> ->. unfold handle_message. simpl Type_.
    rewrite GetInfoMap_copy. unfold on_probe. cbv zeta.
    cbn [fst node_Membership with_membership msg_InfoMap SenderInfo].
    set (m1 := match first_match _ (current o) with Some _ => _ | None => _ end).
    assert (wf m1) as Hw1.
    { subst m1. destruct (first_match _ (current o)); [by apply wf_RemoveMember|done]. }
    set (im := InfoMap (rebuild _ _)).
    assert (∀ i, InfoMap (Merge (rand o 1) im now' m1).1 !! RingID n = Some i → State i = Failed) as Hf.
    { intros i. rewrite lookup_Merge. assert (im !! RingID n = Some (set_state Failed (set_timestamp now self)))
        as -> by apply lookup_insert_eq. unfold merge_cell.
      change (valid_info (set_state Failed (set_timestamp now self))) with (valid_info self). rewrite Hv. simpl.
      destruct (InfoMap m1 !! RingID n) as [j|]; [|done]. case_decide; [by intros [= <-]|].
      by intros [= <-]. }
    split; [|done]. apply wf_not_member; [by apply wf_Merge|done].
Qed.
End node.

Create HintDb gonode.
#[export] Hint Resolve good_Merge good_RemoveMember good_UpdateStateSwim good_UpdateStateGossip
  good_Cleanup good_Heartbeat good_GetTarget good_Reset : gonode.

(** ** The properties at concrete inputs *)

#[local] Existing Instance poly_env.

Definition demo_udp_ok : string → Message → result Z := λ _ _, Ok 100.

Definition demo_first : Node := main_node "node1" 8000 1.
Definition demo_second : Node := main_node "node2" 8000 2.

(** The probe with which the second node joins. *)
Definition demo_probe : Message :=
  mkMessage Probe (info_of (InfoMap (node_Membership demo_second)) (RingID demo_second)) zero_info zero_info
    (InfoMap (node_Membership demo_second)).

Definition demo_order (msg : Message) (n : Node) : RangeOrder :=
  mkRangeOrder (map_to_list (msg_InfoMap msg)) (map_to_list (GetInfoMap (node_Membership n))) (λ _ _, 0%N).

(** The first node after it took the probe in. *)
Definition demo_introducer : Node :=
  (handle_message demo_udp_ok (demo_order demo_probe demo_first) 3 demo_probe demo_first).1.

Definition demo_net : Net :=
  mkNet (<[udp_address "node1" 8000 := demo_introducer]>
          (<[udp_address "node2" 8000 := demo_second]> (<[udp_address "node1" 8000 := demo_first]> ∅)))
    ([(udp_address "node1" 8000, demo_probe)] ++
     e_sent (handle_message demo_udp_ok (demo_order demo_probe demo_first) 3 demo_probe demo_first).2).

Lemma demo_net_reachable : reachable net_init (net_step demo_udp_ok) demo_net.
Proof.
  eapply (reachable_step _ _ (mkNet (<[udp_address "node2" 8000 := demo_second]>
            (<[udp_address "node1" 8000 := demo_first]> ∅)) [(udp_address "node1" 8000, demo_probe)])).
  2:{ apply (net_handle demo_udp_ok (mkNet _ _) (udp_address "node1" 8000) demo_first
        (Incoming (demo_order demo_probe demo_first) 3 demo_probe)); [done| |done].
      split; [by left|done]. }
  eapply (reachable_step _ _ (mkNet (<[udp_address "node2" 8000 := demo_second]>
            (<[udp_address "node1" 8000 := demo_first]> ∅)) [])).
  2:{ pose proof (net_handle demo_udp_ok (mkNet (<[udp_address "node2" 8000 := demo_second]>
            (<[udp_address "node1" 8000 := demo_first]> ∅)) []) (udp_address "node2" 8000) demo_second
        (JoinProbe (info_of (InfoMap (node_Membership demo_second)) (RingID demo_second)) "node1" 8000)
        demo_second (mkEffect [(udp_address "node1" 8000, demo_probe)] false)) as Hstep.
      simpl in Hstep. rewrite insert_insert_eq in Hstep. apply Hstep; [by rewrite lookup_insert_eq|done|].
      unfold demo_probe. by rewrite GetInfoMap_copy. }
  eapply (reachable_step _ _ (mkNet (<[udp_address "node1" 8000 := demo_first]> ∅) [])).
  2:{ by apply (net_start demo_udp_ok (mkNet _ []) "node2" 8000 2). }
  eapply (reachable_step _ _ (mkNet ∅ [])).
  2:{ by apply (net_start demo_udp_ok (mkNet ∅ []) "node1" 8000 1). }
  by apply reachable_init.
Qed.

Lemma cluster_well_typed_witness :
  length (Members (node_Membership demo_introducer)) = 2%nat ∧ NoDup (Members (node_Membership demo_introducer)).
Proof.
  split; [vm_compute; reflexivity|].
  refine (proj1 (proj2 (proj2 (cluster_well_typed demo_udp_ok demo_net (udp_address "node1" 8000) demo_introducer
    demo_net_reachable _)))). apply lookup_insert_eq.
Defined.

Definition demo_second_id : Z := RingID demo_second.
Definition demo_second_info : Info := mkInfo "node2" 8000 2 2 0 Alive.

Lemma demo_introducer_good : good (node_Membership demo_introducer).
Proof.
  destruct (net_reachable_good demo_udp_ok demo_net demo_net_reachable) as [Hn _].
  apply (Hn (udp_address "node1" 8000)), lookup_insert_eq.
Qed.

Lemma demo_held :
  InfoMap (node_Membership demo_introducer) !! demo_second_id = Some (set_timestamp 3 demo_second_info).
Proof. vm_compute. reflexivity. Qed.

Lemma demo_unique id i :
  InfoMap (node_Membership demo_introducer) !! id = Some i → same_address demo_second_info i = true →
  id = demo_second_id.
Proof.
  assert (map_Forall (λ id i, same_address demo_second_info i = true → id = demo_second_id)
    (InfoMap (node_Membership demo_introducer))) as Hu by (apply (bool_decide_unpack _); vm_compute; exact I).
  apply Hu.
Qed.

Lemma silent_member_dropped_witness :
  demo_second_id ∉ Members (node_Membership
    (failure_tick (λ _, 0%N) (6 * Second) (failure_tick (λ _, 0%N) Second demo_introducer).1).1).
Proof.
  refine (proj2 (silent_member_dropped demo_udp_ok demo_second_id 3 (6 * Second) demo_introducer _
    (set_timestamp 3 demo_second_info) demo_introducer_good _ _ demo_held _ _
    (watched_check _ _ _ _ _ _ _ _ (watched_check _ _ _ _ _ _ _ _ (watched_start _ _ _ _))) _));
    [reflexivity|vm_compute; congruence|reflexivity|reflexivity|reflexivity].
Defined.

Definition demo_leave_order : list (Z * Info) := map_to_list (GetInfoMap (node_Membership demo_introducer)).

Lemma leave_removes_member_witness :
  ∃ msg, Type_ msg = Leave ∧
    demo_second_id ∉ Members (node_Membership
      (handle_message demo_udp_ok (demo_order msg demo_introducer) 9 msg demo_introducer).1).
Proof.
  destruct (leave_removes_member demo_udp_ok (λ _, 0%N) demo_leave_order 8 9 demo_second demo_introducer
    demo_second_info (set_timestamp 3 demo_second_info) (demo_order demo_probe demo_introducer)
    eq_refl (wf_Reset 2 "node2" 8000) ltac:(vm_compute; reflexivity) ltac:(discriminate)
    (λ _ _, ex_intro _ 100 eq_refl) (proj1 demo_introducer_good) demo_held ltac:(discriminate) eq_refl demo_unique
    (reflexivity _)) as (msg & Ht & _ & _ & _ & Hr).
  exists msg. split; [exact Ht|].
  change (handle_message demo_udp_ok (demo_order msg demo_introducer) 9 msg demo_introducer) with
      (handle_message demo_udp_ok (mkRangeOrder (map_to_list (msg_InfoMap msg))
         (current (demo_order demo_probe demo_introducer)) (λ _ _, 0%N)) 9 msg demo_introducer).
    unfold handle_message in Hr |- *. rewrite Ht in Hr |- *.
    change (on_leave (mkRangeOrder _ _ _) 9 msg demo_introducer) with
      (on_leave (demo_order demo_probe demo_introducer) 9 msg demo_introducer).
    destruct (on_leave _ _ _ _) as [r1 eff1]. exact (proj1 Hr).
Defined.

Definition demo_left : Node := (handleCLILeave demo_udp_ok (λ _, 0%N) demo_leave_order 8 demo_second).1.
Definition demo_rejoined : Node := (handleCLIJoin 9 demo_left).1.

Definition demo_reprobe : Message :=
  mkMessage Probe (mkInfo "node2" 8000 9 9 0 Alive) zero_info zero_info
    (GetInfoMap (node_Membership demo_rejoined)).

Lemma rejoin_replaces_incarnation_witness :
  demo_second_id ≠ RingID demo_rejoined ∧
  RingID demo_rejoined ∈ Members (node_Membership
    (handle_message demo_udp_ok (demo_order demo_reprobe demo_introducer) 10 demo_reprobe demo_introducer).1).
Proof.
  split; [vm_compute; congruence|].
  assert (InfoMap (node_Membership demo_left) !! RingID demo_left
    = Some (set_state Failed (set_timestamp 8 demo_second_info))) as Hself by (vm_compute; reflexivity).
  destruct (rejoin_replaces_incarnation (H := poly_env) demo_udp_ok 9 10 11 demo_second_id demo_left demo_introducer
    (set_state Failed (set_timestamp 8 demo_second_info)) (set_timestamp 3 demo_second_info)
    (demo_order demo_reprobe demo_introducer) (demo_order demo_reprobe demo_introducer)
    Hself eq_refl eq_refl demo_held eq_refl ltac:(vm_compute; reflexivity) demo_unique
    (reflexivity _) (reflexivity _)) as (_ & _ & _ & _ & _ & Hr).
  change (mkMessage Probe (mkInfo (Hostname _) _ _ _ _ _) _ _ _) with demo_reprobe in Hr.
    destruct (handle_message _ _ _ _ _) as [r1 eff]. exact (proj1 (proj2 Hr)).
Defined.

Lemma client_leave_no_return_witness :
  demo_second_id ∉ Members (node_Membership
    (handle_message demo_udp_ok (demo_order demo_probe demo_introducer) 9
      (mkMessage Probe (set_state Failed (set_timestamp 8 demo_second_info)) zero_info zero_info
         (GetInfoMap (node_Membership (client_leave (λ _, 0%N) 8 demo_second).1))) demo_introducer).1).
Proof.
  pose proof (client_leave_no_return demo_udp_ok (λ _, 0%N) 8 9 demo_second demo_introducer demo_second_info
    (demo_order demo_probe demo_introducer) "node1" 8000 ∅ eq_refl ltac:(vm_compute; reflexivity)
    ltac:(discriminate) eq_refl (proj1 demo_introducer_good)) as Hc.
  destruct (client_leave _ _ demo_second) as [n1 eff] eqn:Hn1. destruct Hc as (_ & _ & _ & self' & Hself' & Hc).
  assert (InfoMap (node_Membership (client_leave (λ _, 0%N) 8 demo_second).1) !! RingID (client_leave (λ _, 0%N) 8 demo_second).1
    = Some (set_state Failed (set_timestamp 8 demo_second_info))) as He by (vm_compute; reflexivity).
  rewrite Hn1 in He. simpl in He. rewrite He in Hself'. injection Hself' as <-.
  refine (proj1 (Hc (udp_address "node1" 8000) _ _)). left.
Defined.
