(* ===== verification/HyDFS.v ===== *)
(** * HyDFS: the file system part of main.go

    The node answers the messages of other nodes ([handleNodeConnection]) and
    the commands of clients.  A handler takes the node, and what the network
    answers, and returns the new node and what it sends.  [net] tells which
    addresses accept a connection and a message.  [None] is a panic.
    [read_node_line] puts the line limit of the port in front of the handler. *)

From S2P Require Import Prelude GoStrings Env Membership Ring FileSystem BlockStore Common.

(** ** Numbers that travel as JSON numbers

    Identifiers travel as [float64]: [float53] is the rounding of a natural
    number to 53 bits, to the nearest and to even, [u64_of_float] the way back. *)

Definition float53 (z : Z) : Z :=
  if z <? 2 ^ 53 then z
  else
    let e := Z.log2 z - 52 in
    let q := Z.shiftr z e in
    let r := z - Z.shiftl q e in
    let half := 2 ^ (e - 1) in
    let up := (half <? r) || ((half =? r) && Z.odd q) in
    Z.shiftl (if up then q + 1 else q) e.

Definition u64_of_float `{!GoEnv} (f : Z) : Z := if f <? two64 then f else u64_overflow.

(** ** Messages *)

(** [NodeMessage.Data]; a field that is absent or of another type is [None]. *)
Record MsgData := mkMsgData {
  d_file_id : option Z;
  d_content : option string;
  d_created_at : option Z;
  d_client_id : option string;
  d_primary_id : option Z;
  d_successors : list string;
  d_chain_index : Z;
}.

Definition no_data : MsgData := mkMsgData None None None None None [] 0.

Inductive NodeMessage :=
  | operation_log (operation filename : string)
  | replicate_file (filename nextReplica ackTarget : string) (isLastInChain : bool) (data : MsgData)
  | replication_ack (filename : string)
  | get_file (filename : string)
  | rereplicate_file (filename : string) (data : MsgData)
  | append_file (filename : string) (data : MsgData)
  | merge_request (filename : string)
  | merge_collect (filename : string)
  | merge_update (filename : string) (data : MsgData)
  | merge_complete (filename : string)
  | unknown_type (type : string).

Inductive Reply :=
  | get_file_response (content : string)
  | error_response (message : string)
  | blocks_response (blocks : list BlockInfo).

Inductive NodeEffect :=
  | SendNode (addr : string) (msg : NodeMessage)
  | ReplyWith (r : Reply)
  | SpawnMerge (filename : string).

(** ** The node *)

Record HNode := mkHNode {
  hn_node : Node;
  hn_store : bdisk;
  pendingAckTargets : gmap string string;
}.

Definition set_store (d : bdisk) (n : HNode) : HNode := mkHNode (hn_node n) d (pendingAckTargets n).
Definition set_pending (m : gmap string string) (n : HNode) : HNode := mkHNode (hn_node n) (hn_store n) m.

Definition record_file (filename : string) (md : Common.FileMetadata) (n : HNode) : HNode :=
  let x := hn_node n in
  mkHNode (mkNode (RingID x) (node_Membership x) (<[filename := md]> (FileStore x)) (IsActive x))
    (hn_store n) (pendingAckTargets n).

Definition members (n : HNode) : gmap Z Info := GetInfoMap (node_Membership (hn_node n)).
Definition self_id (n : HNode) : Z := RingID (hn_node n).

(** [fmt.Sprintf("%s:%d", info.Hostname, info.Port)]. *)
Definition addr_of (info : Info) : string := Hostname info +:+ ":" +:+ itoa (Port info).
Definition self_addr (n : HNode) : string := addr_of (info_of (members n) (self_id n)).
Definition self_host (n : HNode) : string := Hostname (info_of (members n) (self_id n)).

Definition is_alive (infoMap : gmap Z Info) (id : Z) : option Info :=
  match infoMap !! id with
  | Some info => if decide (State info = Alive) then Some info else None
  | None => None
  end.

(** A message to an address: delivered or lost. *)
Definition send_to (net : string → bool) (addr : string) (msg : NodeMessage) : list NodeEffect :=
  if net addr then [SendNode addr msg] else [].

(** The entry of a stored file. *)
Definition file_entry (filename : string) (fileID size createdAt : Z) : Common.FileMetadata :=
  Common.mkFileMetadata filename fileID 1 size [] createdAt.

Section hydfs.
Context `{!GoEnv} (base : path).

(** [broadcastOperation]; [order] visits the map of members. *)
Definition broadcastOperation (net : string → bool) (order : list (Z * Info)) (operation filename : string)
    (n : HNode) : list NodeEffect :=
  concat ((λ p, if decide (p.1 = self_id n ∨ State p.2 ≠ Alive) then []
                else send_to net (addr_of p.2) (operation_log operation filename)) <$> order).

(** *** Replication along a chain *)

Definition forwardReplication (net : string → bool) (n : HNode) (hydfsFile content : string)
    (fileID primaryNodeID : Z) (clientID : string) (createdAt : Z) (successors : list Z)
    (chainIndex : nat) (infoMap : gmap Z Info) : list NodeEffect :=
  match successors !! chainIndex with
  | None => []
  | Some currentNodeID =>
      match is_alive infoMap currentNodeID with
      | None => []
      | Some currentInfo =>
          let isLast := bool_decide (chainIndex = length successors - 1)%nat in
          let nextReplica := match successors !! S chainIndex with
            | Some id => addr_of (info_of infoMap id) | None => "" end in
          let ackTarget := match chainIndex with
            | O => addr_of (info_of infoMap (self_id n))
            | S i => addr_of (info_of infoMap (nth i successors 0)) end in
          send_to net (addr_of currentInfo)
            (replicate_file hydfsFile nextReplica ackTarget isLast
               (mkMsgData (Some (float53 fileID)) (Some content) (Some (float53 createdAt))
                  (Some clientID) (Some (float53 primaryNodeID)) (itoa <$> successors)
                  (Z.of_nat chainIndex)))
      end
  end.

(** The successors as the next replica parses them: zero when it cannot. *)
Definition parse_successors (l : list string) : list Z := (λ s, default 0 (parse_uint s)) <$> l.

(** The message a replica forwards to [nextReplica]. *)
Definition chain_message (n : HNode) (filename : string) (data : MsgData) : NodeMessage :=
  let chainIndex := d_chain_index data + 1 in
  let successors := parse_successors (d_successors data) in
  let nextNextReplica :=
    if chainIndex + 1 <? Z.of_nat (length successors) then
      match members n !! nth (Z.to_nat (chainIndex + 1)) successors 0 with
      | Some info => addr_of info
      | None => ""
      end
    else "" in
  replicate_file filename nextNextReplica (self_addr n)
    (chainIndex =? Z.of_nat (length successors) - 1)
    (mkMsgData (d_file_id data) (d_content data) (d_created_at data) (d_client_id data)
       (d_primary_id data) (d_successors data) chainIndex).

Definition chain_forward (net : string → bool) (n : HNode) (filename nextReplica : string)
    (isLastInChain : bool) (data : MsgData) : list NodeEffect :=
  if bool_decide (nextReplica = "") || isLastInChain then []
  else if decide (length (split_on ":"%char nextReplica) = 2%nat) then
         send_to net nextReplica (chain_message n filename data)
       else [].

Definition handle_replicate (net : string → bool) (filename nextReplica ackTarget : string)
    (isLastInChain : bool) (data : MsgData) (n : HNode) : HNode * list NodeEffect :=
  match d_file_id data, d_content data, d_created_at data with
  | Some fid, Some content, Some createdAt =>
      let fileID := u64_of_float fid in
      let clientID := default "" (d_client_id data) in
      let primaryNodeID := u64_of_float (default 0 (d_primary_id data)) in
      match CreateFile base filename content fileID primaryNodeID clientID (hn_store n) with
      | (Err _, d) => (set_store d n, [])
      | (Ok _, d) =>
          let n1 := record_file filename
            (file_entry filename fileID (Z.of_nat (String.length content)) createdAt) (set_store d n) in
          let n2 := if bool_decide (ackTarget = "") || isLastInChain then n1
                    else set_pending (<[filename := ackTarget]> (pendingAckTargets n1)) n1 in
          (n2, chain_forward net n2 filename nextReplica isLastInChain data
                 ++ if isLastInChain && negb (bool_decide (ackTarget = ""))
                    then send_to net ackTarget (replication_ack filename) else [])
      end
  | _, _, _ => (n, [])
  end.

Definition handle_ack (net : string → bool) (filename : string) (n : HNode) : HNode * list NodeEffect :=
  match pendingAckTargets n !! filename with
  | Some ackTarget =>
      (set_pending (delete filename (pendingAckTargets n)) n,
       if decide (ackTarget = "") then [] else send_to net ackTarget (replication_ack filename))
  | None => (n, [])
  end.

(** *** Reading *)

Definition replicas_of (n : HNode) (filename : string) : list Z :=
  GetSuccessors (HashString filename) (members n) NumReplicas.

(** [exchange addr msg]: the answer to a message that is answered on the same
    connection. *)
Definition handle_get (exchange : string → NodeMessage → option Reply) (filename : string) (n : HNode) :
    Reply :=
  match ReadFile base filename (hn_store n) with
  | Ok content => get_file_response content
  | Err e =>
      let forwarded :=
        match replicas_of n filename with
        | primaryID :: _ =>
            if decide (primaryID = self_id n) then None
            else match is_alive (members n) primaryID with
                 | Some info => exchange (addr_of info) (get_file filename)
                 | None => None
                 end
        | [] => None
        end in
      match forwarded with
      | Some r => r
      | None => error_response ("file not found: " +:+ e)
      end
  end.

(** *** Appending *)

Definition append_data (fileID : Z) (content clientID : string) : MsgData :=
  mkMsgData (Some (float53 fileID)) (Some content) None (Some clientID) None [] 0.

Definition handle_append (net : string → bool) (filename : string) (data : MsgData) (n : HNode) :
    HNode * list NodeEffect :=
  match d_content data, d_client_id data with
  | Some content, Some clientID =>
      match replicas_of n filename with
      | [] => (n, [])
      | (primaryID :: _) as replicas =>
          if decide (self_id n ∈ replicas)
          then (set_store (AppendFile base filename content clientID (hn_store n)).2 n, [])
          else match is_alive (members n) primaryID with
               | None => (n, [])
               | Some info =>
                   (n, send_to net (addr_of info)
                         (append_file filename (append_data (HashString filename) content clientID)))
               end
      end
  | _, _ => (n, [])
  end.

(** *** Re-replication *)

Definition rereplicate_client (n : HNode) : string := self_host n +:+ ":rereplicate".

Definition handle_rereplicate (filename : string) (data : MsgData) (n : HNode) : HNode :=
  match d_content data, d_file_id data with
  | Some content, Some fid =>
      let fileID := u64_of_float fid in
      let primaryNodeID :=
        match GetSuccessors fileID (members n) NumReplicas with [] => self_id n | id :: _ => id end in
      set_store (CreateFile base filename content fileID primaryNodeID (rereplicate_client n)
                   (hn_store n)).2 n
  | _, _ => n
  end.

(** One file of [checkAndRereplicate]: the node sends the whole file to the
    other replicas when it is the primary. *)
Definition rereplicate_entry (net : string → bool) (n : HNode) (metadata : BlockStore.FileMetadata) :
    list NodeEffect :=
  let hydfsFile := HyDFSFilename metadata in
  match GetSuccessors (FileID metadata) (members n) NumReplicas with
  | [] => []
  | (primaryID :: _) as expected =>
      if decide (primaryID = self_id n) then
        match ReadFile base hydfsFile (hn_store n) with
        | Err _ => []
        | Ok content =>
            concat ((λ id, match is_alive (members n) id with
              | Some info =>
                  if decide (id = self_id n) then []
                  else send_to net (addr_of info)
                         (rereplicate_file hydfsFile
                            (mkMsgData (Some (float53 (FileID metadata))) (Some content) None None None [] 0))
              | None => []
              end) <$> expected)
        end
      else []
  end.

(** The metadata documents of the directories below the root. *)
Definition stored_metadata (d : bdisk) : list BlockStore.FileMetadata :=
  omap (λ e, match e.2 with
             | NDir => match readMetadata (base ++ [e.1]) d with Ok md => Some md | Err _ => None end
             | NFile _ => None
             end) (ReadDir base d).

Definition checkAndRereplicate (net : string → bool) (n : HNode) : list NodeEffect :=
  if is_dir (hn_store n) base
  then concat (rereplicate_entry net n <$> stored_metadata (hn_store n)) else [].

(** *** Merging *)

Definition handle_merge_collect (filename : string) (n : HNode) : Reply :=
  match GetAllBlocks base filename (hn_store n) with
  | Ok blocks => blocks_response blocks
  | Err _ => blocks_response []
  end.

(** The replica replaces its file by the merged one, as a single block. *)
Definition handle_merge_update (filename : string) (data : MsgData) (n : HNode) : option HNode :=
  match d_content data with
  | None => Some n
  | Some content =>
      let d := (DeleteFile base filename (hn_store n)).2 in
      fid ← d_file_id data;
      let fileID := u64_of_float fid in
      primaryNodeID ← head (GetSuccessors fileID (members n) NumReplicas);
      Some (set_store (CreateFile base filename content fileID primaryNodeID "merged_content" d).2 n)
  end.

(** The key that tells blocks apart. *)
Definition merge_key (b : BlockInfo) : string := bi_ClientID b +:+ ":" +:+ itoa (bi_ClientSequence b).

Definition collect_blocks (m : gmap string BlockInfo) (blocks : list BlockInfo) : gmap string BlockInfo :=
  foldl (λ m b, <[merge_key b := b]> m) m blocks.

(** What a replica contributes: its own blocks are read directly. *)
Definition replica_blocks (exchange : string → NodeMessage → option Reply) (n : HNode) (hydfsFile : string)
    (id : Z) : list BlockInfo :=
  match is_alive (members n) id with
  | None => []
  | Some info =>
      if decide (id = self_id n) then
        match GetAllBlocks base hydfsFile (hn_store n) with Ok blocks => blocks | Err _ => [] end
      else match exchange (addr_of info) (merge_collect hydfsFile) with
           | Some (blocks_response blocks) => blocks
           | _ => []
           end
  end.

Definition all_blocks (exchange : string → NodeMessage → option Reply) (n : HNode) (hydfsFile : string)
    (order : list Z) : gmap string BlockInfo :=
  foldl collect_blocks ∅ (replica_blocks exchange n hydfsFile <$> order).

(** The merged file goes to every replica, the primary included. *)
Definition distribute (net : string → bool) (n : HNode) (hydfsFile content : string) (fileID : Z)
    (successors : list Z) : list NodeEffect :=
  concat ((λ id, match is_alive (members n) id with
    | Some info => send_to net (addr_of info)
        (merge_update hydfsFile (mkMsgData (Some (float53 fileID)) (Some content) None None None [] 0))
    | None => []
    end) <$> successors).

(** [handleCLIMerge]; [order] is the order in which the replicas' blocks come
    in. *)
Definition handleCLIMerge (net : string → bool) (exchange : string → NodeMessage → option Reply)
    (order : list Z) (hydfsFile : string) (n : HNode) : HNode * list NodeEffect :=
  let fileID := HashString hydfsFile in
  match replicas_of n hydfsFile with
  | [] => (n, [])
  | (primaryID :: _) as successors =>
      match is_alive (members n) primaryID with
      | None => (n, [])
      | Some primaryInfo =>
          if decide (primaryID = self_id n) then
            let blockSlice := (map_to_list (all_blocks exchange n hydfsFile order)).*2 in
            match MergeFile base hydfsFile blockSlice (hn_store n) with
            | (Err _, d) => (set_store d n, [])
            | (Ok _, d) =>
                match ReadFile base hydfsFile d, GetMetadata base hydfsFile d with
                | Ok content, Ok _ =>
                    (set_store d n, distribute net n hydfsFile content fileID successors)
                | _, _ => (set_store d n, [])
                end
            end
          else (n, send_to net (addr_of primaryInfo) (merge_request hydfsFile))
      end
  end.

(** *** The messages of other nodes *)

Definition handleNodeMessage (net : string → bool) (exchange : string → NodeMessage → option Reply)
    (msg : NodeMessage) (n : HNode) : option (HNode * list NodeEffect) :=
  match msg with
  | operation_log _ _ | merge_complete _ | unknown_type _ => Some (n, [])
  | replicate_file filename next ack isLast data => Some (handle_replicate net filename next ack isLast data n)
  | replication_ack filename => Some (handle_ack net filename n)
  | get_file filename => Some (n, [ReplyWith (handle_get exchange filename n)])
  | rereplicate_file filename data => Some (handle_rereplicate filename data n, [])
  | append_file filename data => Some (handle_append net filename data n)
  | merge_request filename => Some (n, [SpawnMerge filename])
  | merge_collect filename => Some (n, [ReplyWith (handle_merge_collect filename n)])
  | merge_update filename data => (λ n', (n', [])) <$> handle_merge_update filename data n
  end.

(** The line limit of the node port: the scanner gives up on a longer line and
    the connection is closed without an answer.  [size] is the length of the
    line a message makes. *)
Definition max_node_line : Z := 10 * 1024 * 1024.

Definition read_node_line (size : NodeMessage → Z) (net : string → bool)
    (exchange : string → NodeMessage → option Reply) (msg : NodeMessage) (n : HNode) :
    option (HNode * list NodeEffect) :=
  if size msg <? max_node_line then handleNodeMessage net exchange msg n else Some (n, []).
End hydfs.

(** ** Commands of clients *)

Section client.
Context `{!GoEnv} (base : path).

(** The message a coordinator that is not the primary sends to start the
    chain. *)
Definition chain_start (n : HNode) (hydfsFile content : string) (fileID primaryNodeID : Z)
    (clientID : string) (createdAt : Z) (successors : list Z) : NodeMessage :=
  replicate_file hydfsFile
    (match successors !! 1%nat with Some id => addr_of (info_of (members n) id) | None => "" end)
    (self_addr n) (bool_decide (length successors = 1%nat))
    (mkMsgData (Some (float53 fileID)) (Some content) (Some (float53 createdAt)) (Some clientID)
       (Some (float53 primaryNodeID)) (itoa <$> successors) 0).

(** [create localFile hydfsFile] of a client: [local] is the local file, [remote]
    the address of the client; the last component is the answer, without the text
    of a network error, if there is
    one. *)
Definition client_create (net : string → bool) (local : result string) (remote : string)
    (createdAt : Z) (hydfsFile : string) (n : HNode) : HNode * list NodeEffect * option string :=
  match FileStore (hn_node n) !! hydfsFile with
  | Some _ => (n, [], Some ("ERR file " +:+ hydfsFile +:+ " already exists"))
  | None =>
      match local with
      | Err e => (n, [], Some ("ERR failed to read local file: " +:+ e))
      | Ok content =>
          let fileID := HashString hydfsFile in
          let successors := replicas_of n hydfsFile in
          let clientID := self_host n +:+ ":" +:+ remote in
          match successors with
          | [] => (n, [], Some "ERR no alive nodes for replication")
          | primaryNodeID :: rest =>
              let primaryInfo := info_of (members n) primaryNodeID in
              if decide (self_id n = primaryNodeID) then
                match CreateFile base hydfsFile content fileID primaryNodeID clientID (hn_store n) with
                | (Err e, d) => (set_store d n, [], Some ("ERR failed to store: " +:+ e))
                | (Ok _, d) =>
                    let n' := record_file hydfsFile
                      (file_entry hydfsFile fileID (Z.of_nat (String.length content)) createdAt)
                      (set_store d n) in
                    if decide (rest = []) then (n', [], Some ("OK created " +:+ hydfsFile))
                    else (n', forwardReplication net n' hydfsFile content fileID primaryNodeID clientID
                                createdAt successors 1 (members n), None)
                end
              else if net (addr_of primaryInfo) then
                     (n, [SendNode (addr_of primaryInfo)
                            (chain_start n hydfsFile content fileID primaryNodeID clientID createdAt successors)],
                      Some ("OK created " +:+ hydfsFile +:+ " on " +:+ itoa (Z.of_nat (length successors))
                              +:+ " nodes via pipelined replication"))
                   else (n, [], Some "ERR failed to connect to primary")
          end
      end
  end.

(** [get hydfsFile localFile]: the content that is written to the local file, or
    the error. *)
Definition client_get (exchange : string → NodeMessage → option Reply) (hydfsFile : string) (n : HNode) :
    result string :=
  match replicas_of n hydfsFile with
  | [] => Err "ERR no replicas available"
  | primaryNodeID :: _ =>
      match is_alive (members n) primaryNodeID with
      | None => Err "ERR primary replica not available"
      | Some info =>
          match exchange (addr_of info) (get_file hydfsFile) with
          | Some (get_file_response content) => Ok content
          | Some (error_response message) => Err ("ERR " +:+ message)
          | Some (blocks_response _) => Err "ERR unexpected response"
          | None => Err "ERR failed to receive response"
          end
      end
  end.

(** [append localFile hydfsFile], of a client or of the console: the append goes
    to every replica.  [now] is [time.Now().UnixNano()]. *)
Definition handleCLIAppend (net : string → bool) (local : result string) (now : Z) (hydfsFile : string)
    (n : HNode) : list NodeEffect :=
  match local with
  | Err _ => []
  | Ok content =>
      let clientID := self_host n +:+ "_" +:+ itoa now in
      concat ((λ id, match is_alive (members n) id with
        | Some info => send_to net (addr_of info)
            (append_file hydfsFile (append_data (HashString hydfsFile) content clientID))
        | None => []
        end) <$> replicas_of n hydfsFile)
  end.

(** [create] of the console: a replica keeps the file in the flat store of
    [Manager], not in the block store, and the others get it without a chain. *)
Definition handleCLICreate (net : string → bool) (local : result string) (createdAt : Z)
    (hydfsFile : string) (n : HNode) : HNode * list NodeEffect :=
  match FileStore (hn_node n) !! hydfsFile with
  | Some _ => (n, [])
  | None =>
      match local with
      | Err _ => (n, [])
      | Ok content =>
          let fileID := HashString hydfsFile in
          let successors := replicas_of n hydfsFile in
          let others := concat ((λ id,
            if decide (id = self_id n) then []
            else match is_alive (members n) id with
                 | Some info => send_to net (addr_of info)
                     (replicate_file hydfsFile "" "" false
                        (mkMsgData (Some (float53 fileID)) (Some content) (Some (float53 createdAt))
                           None None [] 0))
                 | None => []
                 end) <$> successors) in
          if decide (successors = []) then (n, [])
          else if decide (self_id n ∈ successors) then
            match Manager_WriteFile hydfsFile content (hn_store n) with
            | (Err _, d) => (set_store d n, [])
            | (Ok _, d) =>
                (record_file hydfsFile
                   (file_entry hydfsFile fileID (Z.of_nat (String.length content)) createdAt)
                   (set_store d n), others)
            end
          else (n, others)
      end
  end.
End client.

(** A file that makes too long a line: the client is told that it was created,
    and the primary never sees it. *)
Theorem oversized_create_lost `{!GoEnv} (base : path) (size : NodeMessage → Z) (net : string → bool)
    (exchange : string → NodeMessage → option Reply) (content remote : string) (createdAt : Z)
    (hydfsFile : string) (n p : HNode) (id : Z) (rest : list Z) :
  FileStore (hn_node n) !! hydfsFile = None → replicas_of n hydfsFile = id :: rest → self_id n ≠ id →
  net (addr_of (info_of (members n) id)) = true → (∀ m, max_node_line <= size m) →
  let '(n', es, answer) := client_create base net (Ok content) remote createdAt hydfsFile n in
  n' = n ∧ (∃ s, answer = Some ("OK created " +:+ s)) ∧
  ∃ msg, es = [SendNode (addr_of (info_of (members n) id)) msg] ∧
    read_node_line base size net exchange msg p = Some (p, []).
Proof.
  intros Hf Hr Hs Hn Hsz. unfold client_create. rewrite Hf, Hr, decide_False, Hn by done.
  split; [done|]. split; [by eexists|]. eexists. split; [done|].
  unfold read_node_line. by rewrite (proj2 (Z.ltb_ge _ _)).
Qed.
