(* ===== verification/Cluster.v ===== *)
(** * Cluster: the nodes of HyDFS together

    Nodes that share a view of the members and the messages under way between
    them, all of them short enough for the line limit of the node port
    ([read_node_line]).  [chain_replicates] follows a replication chain to its end,
    [merge_synchronizes] a merge. *)

From S2P Require Import Prelude GoStrings Env Membership Ring FileSystem BlockStore Common HyDFS.

(** ** The cluster

    The nodes by identifier, the messages under way, and those that were
    delivered. *)

Record Cluster := mkCluster {
  cl_nodes : gmap Z HNode;
  cl_queue : list (string * NodeMessage);
  cl_log : list (string * NodeMessage);
}.

Definition node_at (c : gmap Z HNode) (addr : string) : option (Z * HNode) :=
  List.find (λ p, bool_decide (self_addr p.2 = addr)) (map_to_list c).

Definition sent_messages (es : list NodeEffect) : list (string * NodeMessage) :=
  omap (λ e, match e with SendNode a m => Some (a, m) | _ => None end) es.

Section cluster.
Context `{!GoEnv} (base : path).

(** The first message under way is delivered and handled; a node that panics
    stops, and a message to nobody is lost. *)
Definition cluster_step (c : Cluster) : Cluster :=
  match cl_queue c with
  | [] => c
  | (addr, msg) :: rest =>
      match node_at (cl_nodes c) addr with
      | None => mkCluster (cl_nodes c) rest (cl_log c)
      | Some (id, n) =>
          match handleNodeMessage base (λ _, true) (λ _ _, None) msg n with
          | None => mkCluster (delete id (cl_nodes c)) rest (cl_log c ++ [(addr, msg)])
          | Some (n', es) =>
              mkCluster (<[id := n']> (cl_nodes c)) (rest ++ sent_messages es) (cl_log c ++ [(addr, msg)])
          end
      end
  end.

Definition run_cluster (k : nat) (c : Cluster) : Cluster := Nat.iter k cluster_step c.
End cluster.

(** The addresses that got an acknowledgement of [file], in order. *)
Definition acks_for (file : string) (log : list (string * NodeMessage)) : list string :=
  omap (λ e, match e.2 with
             | replication_ack f => if decide (f = file) then Some e.1 else None
             | _ => None
             end) log.

Lemma acks_for_app file l1 l2 : acks_for file (l1 ++ l2) = acks_for file l1 ++ acks_for file l2.
Proof. apply omap_app. Qed.

Lemma acks_for_ack file addr : acks_for file [(addr, replication_ack file)] = [addr].
Proof. unfold acks_for. simpl. by rewrite decide_True. Qed.

(** ** Addresses *)

Lemma addr_nonempty info : addr_of info ≠ "".
Proof. unfold addr_of. by destruct (Hostname info). Qed.

Lemma addr_splits info :
  string_forallb (not_char ":"%char) (Hostname info) = true →
  length (split_on ":"%char (addr_of info)) = 2%nat.
Proof.
  intros Hh. unfold addr_of. change (":" +:+ ?s) with (String ":" s). rewrite split_on_app by done.
  rewrite split_on_no_sep; [done|]. by apply itoa_not_char.
Qed.

Lemma parse_itoa z : in_uint64 z → parse_uint (itoa z) = Some z.
Proof.
  intros [H0 H1]. assert (itoa z = pretty (Z.to_N z)) as -> by (by destruct z).
  unfold parse_uint. rewrite scan_digits_pretty, Z2N.id by done. by rewrite decide_True.
Qed.

Lemma parse_successors_itoa l : Forall in_uint64 l → parse_successors (itoa <$> l) = l.
Proof.
  intros Hl. unfold parse_successors. rewrite <- list_fmap_compose.
  rewrite <- (list_fmap_id l) at 2. apply list_fmap_ext. intros i x Hx. simpl.
  rewrite parse_itoa; [done|]. by eapply Forall_lookup_1.
Qed.

(** ** Nodes that share a view *)

Section view.
Context `{!GoEnv} (base : path) (im : gmap Z Info).

Definition address (id : Z) : string := addr_of (info_of im id).

(** The nodes [nodes] know the members [im], and have distinct addresses. *)
Record same_view (nodes : gmap Z HNode) : Prop := {
  sv_node id n : nodes !! id = Some n → self_id n = id ∧ members n = im;
  sv_uint id : is_Some (nodes !! id) → in_uint64 id;
  sv_host id : is_Some (nodes !! id) →
    string_forallb (not_char ":"%char) (Hostname (info_of im id)) = true;
  sv_inj id1 id2 : is_Some (nodes !! id1) → is_Some (nodes !! id2) →
    address id1 = address id2 → id1 = id2;
}.

Lemma same_view_insert nodes id n n' :
  same_view nodes → nodes !! id = Some n → self_id n' = self_id n → members n' = members n →
  same_view (<[id := n']> nodes).
Proof.
  intros [H1 H2 H3 H4] Hn Hs Hm.
  assert (∀ i, is_Some (<[id := n']> nodes !! i) → is_Some (nodes !! i)) as Hi.
  { intros i. destruct (decide (id = i)) as [<-|]; [by rewrite Hn|by rewrite lookup_insert_ne]. }
  split; [|by auto..]. intros i m [[<- <-]|[_ ?]]%lookup_insert_Some; [|by apply H1].
  rewrite Hs, Hm. by apply H1.
Qed.

Lemma node_at_address nodes id n :
  same_view nodes → nodes !! id = Some n → node_at nodes (address id) = Some (id, n).
Proof.
  intros Hv Hn. unfold node_at. destruct (List.find _ _) as [[i m]|] eqn:E.
  - apply find_some in E as [Hin E%bool_decide_eq_true]. rewrite <- list_elem_of_In in Hin.
    apply elem_of_map_to_list in Hin. destruct (sv_node _ Hv _ _ Hin) as [Hs Hm].
    unfold self_addr in E. simpl in E. rewrite Hs, Hm in E.
    assert (i = id) as -> by (eapply sv_inj; by eauto). congruence.
  - assert (In (id, n) (map_to_list nodes)) as Hin by (by rewrite <- list_elem_of_In, elem_of_map_to_list).
    apply (find_none _ _ E) in Hin. apply bool_decide_eq_false in Hin. destruct Hin.
    destruct (sv_node _ Hv _ _ Hn) as [Hs Hm]. unfold self_addr. simpl. by rewrite Hs, Hm.
Qed.
End view.

(** ** The chain of replicas *)

Section chain.
Context `{!GoEnv} (base : path) (im : gmap Z Info).
Context (file content client : string) (F C P : Z) (succs : list Z).

Record ready (n : HNode) : Prop := {
  rd_wf : wf (hn_store n);
  rd_faults : faults (hn_store n) = [];
  rd_free : FileExists base file (hn_store n) = false;
  rd_creatable : creatable base file (hn_store n);
  rd_pending : pendingAckTargets n !! file = None;
}.

(** The node has the file, and knows it. *)
Definition keeps (n : HNode) : Prop :=
  ReadFile base file (hn_store n) = Ok content ∧ is_Some (FileStore (hn_node n) !! file).

Lemma create_ready fid pid c n :
  ready n → ∃ d, CreateFile base file content fid pid c (hn_store n) = (Ok tt, d) ∧
    ReadFile base file d = Ok content.
Proof.
  intros [H1 H2 H3 H4 _].
  pose proof (CreateFile_represents base file content fid pid c _ H1 H2 H3 H4) as Hc.
  destruct (CreateFile _ _ _ _ _ _ _) as [r d]. destruct Hc as (-> & _ & Hc & _).
  exists d. split; [done|]. by rewrite (ReadFile_represents _ _ _ _ Hc).
Qed.

Definition chain_data (i : nat) : MsgData :=
  mkMsgData (Some F) (Some content) (Some C) (Some client) (Some P) (itoa <$> succs) (Z.of_nat i).

(** The message of step [i] of the chain, to be acknowledged to [ack]. *)
Definition chain_msg (i : nat) (ack : string) : NodeMessage :=
  replicate_file file (match succs !! S i with Some id => address im id | None => "" end) ack
    (bool_decide (i = length succs - 1)%nat) (chain_data i).

Lemma chain_forward_next n i id next :
  Forall in_uint64 succs → (∀ id, id ∈ succs → is_Some (im !! id)) →
  string_forallb (not_char ":"%char) (Hostname (info_of im id)) = true →
  members n = im → succs !! S i = Some id → next = address im id →
  chain_forward (λ _, true) n file next (bool_decide (i = length succs - 1)%nat) (chain_data i)
  = [SendNode next (chain_msg (S i) (address im (self_id n)))].
Proof.
  intros Hu Him Hh Hm Hid ->. assert (S i < length succs)%nat as Hlt by (by apply lookup_lt_Some in Hid).
  unfold chain_forward. rewrite bool_decide_eq_false_2 by apply addr_nonempty.
  rewrite bool_decide_eq_false_2 by lia. cbn [orb]. unfold address at 1.
  rewrite decide_True by (by apply addr_splits). unfold send_to. do 2 f_equal.
  unfold chain_message, chain_msg. simpl d_chain_index. simpl d_successors.
  rewrite parse_successors_itoa by done. unfold self_addr. rewrite Hm. f_equal.
  - destruct (Z.ltb_spec (Z.of_nat i + 1 + 1) (Z.of_nat (length succs))) as [Hl|Hl].
    + destruct (lookup_lt_is_Some_2 succs (S (S i)) ltac:(lia)) as [x Hx]. rewrite Hx.
      replace (Z.to_nat (Z.of_nat i + 1 + 1)) with (S (S i)) by lia.
      rewrite (nth_lookup_Some _ _ _ _ Hx). unfold address, info_of.
      by destruct (Him x ltac:(by eapply list_elem_of_lookup_2)) as [info ->].
    + by rewrite (lookup_ge_None_2 succs (S (S i))) by lia.
  - apply Bool.eq_iff_eq_true. rewrite Z.eqb_eq, bool_decide_eq_true. lia.
  - unfold chain_data. f_equal. simpl. lia.
Qed.

(** A replica that receives its message stores the file, and passes it on, or
    acknowledges it when it is the last. *)
Lemma replicate_step nodes log i id n ack :
  same_view im nodes → Forall in_uint64 succs →
  (∀ id, id ∈ succs → is_Some (im !! id) ∧ is_Some (nodes !! id)) →
  nodes !! id = Some n → ready n → succs !! i = Some id → ack ≠ "" →
  ∃ n', keeps n' ∧
    let last := bool_decide (i = length succs - 1)%nat in
    pendingAckTargets n' !! file = (if last then None else Some ack) ∧
    self_id n' = self_id n ∧ members n' = members n ∧
    cluster_step base (mkCluster nodes [(address im id, chain_msg i ack)] log) =
      mkCluster (<[id := n']> nodes)
        (if last then [(ack, replication_ack file)]
         else match succs !! S i with
              | Some x => [(address im x, chain_msg (S i) (address im id))] | None => [] end)
        (log ++ [(address im id, chain_msg i ack)]).
Proof.
  intros Hv Hu Hsn Hn Hr Hi Hack. destruct (sv_node _ _ Hv _ _ Hn) as [Hs Hm].
  destruct (create_ready (u64_of_float F) (u64_of_float P) client n Hr) as (d & Hd & Hrd).
  unfold cluster_step. simpl. rewrite (node_at_address _ _ _ _ Hv Hn). simpl.
  unfold handle_replicate, chain_data at 1. simpl. rewrite Hd.
  rewrite (bool_decide_eq_false_2 (ack = "")) by done. simpl.
  set (n1 := record_file file _ _).
  assert (keeps n1) as Hk by (split; [done|]; eexists; apply lookup_insert_eq).
  case_bool_decide as Hlast;
    [exists n1|exists (set_pending (<[file:=ack]> (pendingAckTargets n)) n1)];
    (split; [exact Hk|split; [|split_and!; [done|done|]]]).
  - exact (rd_pending _ Hr).
  - f_equal. unfold chain_forward. by rewrite orb_true_r.
  - apply lookup_insert_eq.
  - assert (i < length succs)%nat as Hlt by (by apply lookup_lt_Some in Hi).
    destruct (lookup_lt_is_Some_2 succs (S i) ltac:(lia)) as [x Hx]. rewrite Hx.
    pose proof (list_elem_of_lookup_2 _ _ _ Hx) as Hin. apply Hsn in Hin as [_ Hin].
    f_equal. rewrite app_nil_r.
    pose proof (λ m, chain_forward_next m i x (address im x) Hu (λ y Hy, proj1 (Hsn y Hy))
      (sv_host _ _ Hv _ Hin)) as Hf.
    rewrite bool_decide_eq_false_2 in Hf by done. rewrite Hf by done. simpl. by rewrite <- Hs.
Qed.

(** The replica that receives the acknowledgement passes it on. *)
Lemma ack_step nodes log id n ack :
  same_view im nodes → nodes !! id = Some n → pendingAckTargets n !! file = Some ack → ack ≠ "" →
  ∃ n', hn_store n' = hn_store n ∧ hn_node n' = hn_node n ∧ pendingAckTargets n' !! file = None ∧
    cluster_step base (mkCluster nodes [(address im id, replication_ack file)] log) =
      mkCluster (<[id := n']> nodes) [(ack, replication_ack file)]
        (log ++ [(address im id, replication_ack file)]).
Proof.
  intros Hv Hn Hp Hack. eexists. split; [|split; [|split]]; cycle 3.
  - unfold cluster_step. simpl. rewrite (node_at_address _ _ _ _ Hv Hn). simpl.
    unfold handle_ack. rewrite Hp, decide_False by done. simpl. reflexivity.
  - done.
  - done.
  - simpl. apply lookup_delete_eq.
Qed.

Lemma run_cluster_add k l c : run_cluster base (k + l) c = run_cluster base k (run_cluster base l c).
Proof. apply Nat.iter_add. Qed.

Lemma run_cluster_1 c : run_cluster base 1 c = cluster_step base c.
Proof. done. Qed.

Lemma notin_drop i j id : NoDup succs → succs !! i = Some id → (i < j)%nat → id ∉ drop j succs.
Proof.
  intros Hnd Hi Hj [k Hk]%list_elem_of_lookup. rewrite lookup_drop in Hk.
  pose proof (NoDup_lookup _ _ _ _ Hnd Hi Hk). lia.
Qed.

Lemma in_drop i j id : succs !! j = Some id → (i <= j)%nat → id ∈ drop i succs.
Proof.
  intros Hj Hij. rewrite list_elem_of_lookup. exists (j - i)%nat. rewrite lookup_drop.
  by replace (i + (j - i))%nat with j by lia.
Qed.

(** From step [i] on, the replicas that follow store the file, the
    acknowledgement comes back through all of them, and it is sent to [ack]. *)
Lemma chain_run k i id nodes log ack :
  (k = length succs - 1 - i)%nat →
  same_view im nodes → Forall in_uint64 succs → NoDup succs →
  (∀ id, id ∈ succs → is_Some (im !! id) ∧ is_Some (nodes !! id)) →
  (∀ j id, (i <= j)%nat → succs !! j = Some id → ∃ n, nodes !! id = Some n ∧ ready n) →
  succs !! i = Some id → ack ≠ "" →
  ∃ nodes' log', run_cluster base (2 * k + 1) (mkCluster nodes [(address im id, chain_msg i ack)] log)
      = mkCluster nodes' [(ack, replication_ack file)] log' ∧
    acks_for file log' = acks_for file log ++ (address im <$> reverse (take k (drop i succs))) ∧
    same_view im nodes' ∧
    (∀ j id, (i <= j)%nat → succs !! j = Some id →
      ∃ n, nodes' !! id = Some n ∧ keeps n ∧ pendingAckTargets n !! file = None) ∧
    (∀ id, id ∉ drop i succs → nodes' !! id = nodes !! id).
Proof.
  revert i id nodes log ack. induction k as [|k IH]; intros i id nodes log ack Hk Hv Hu Hnd Hsn Hready Hi Hack.
  - destruct (Hready i id ltac:(done) Hi) as (n & Hn & Hr).
    destruct (replicate_step nodes log i id n ack Hv Hu Hsn Hn Hr Hi Hack)
      as (n' & Hkeep & Hp & Hs & Hm & Hstep).
    assert (i < length succs)%nat as Hlt by (by apply lookup_lt_Some in Hi).
    rewrite bool_decide_eq_true_2 in Hp, Hstep by lia.
    eexists _, _. split; [exact Hstep|]. split; [by rewrite acks_for_app|].
    split; [by eapply same_view_insert|]. split.
    + intros j x Hj Hx. assert (j = i) as -> by (apply lookup_lt_Some in Hx; lia).
      simplify_eq. exists n'. by rewrite lookup_insert_eq.
    + intros x Hx. rewrite lookup_insert_ne; [done|]. intros <-. by apply Hx, (in_drop i i).
  - destruct (Hready i id ltac:(done) Hi) as (n & Hn & Hr).
    destruct (replicate_step nodes log i id n ack Hv Hu Hsn Hn Hr Hi Hack)
      as (n' & Hkeep & Hp & Hs & Hm & Hstep).
    rewrite bool_decide_eq_false_2 in Hp, Hstep by lia.
    destruct (lookup_lt_is_Some_2 succs (S i) ltac:(lia)) as [x Hx]. rewrite Hx in Hstep.
    edestruct (IH (S i) x (<[id:=n']> nodes) (log ++ [(address im id, chain_msg i ack)])
      (address im id)) as (nodes2 & log2 & Hrun & Hlog & Hv2 & Hdone & Hframe);
      [lia|by eapply same_view_insert|done|done| | |done|by apply addr_nonempty|].
    { intros y [Hy1 Hy2]%Hsn. split; [done|]. rewrite lookup_insert_is_Some.
      by destruct (decide (id = y)); [left|right]. }
    { intros j y Hj Hy. rewrite lookup_insert_ne; [apply (Hready j); [lia|done]|].
      intros ->. pose proof (NoDup_lookup _ _ _ _ Hnd Hi Hy). lia. }
    assert (nodes2 !! id = Some n') as Hn2.
    { rewrite Hframe by (by eapply notin_drop; eauto). apply lookup_insert_eq. }
    destruct (ack_step nodes2 log2 id n' ack Hv2 Hn2 Hp Hack) as (n3 & Hst & Hnd3 & Hp3 & Hstep3).
    eexists (<[id:=n3]> nodes2), _. split; [|split; [|split; [|split]]].
    + replace (2 * S k + 1)%nat with (1 + ((2 * k + 1) + 1))%nat by lia.
      rewrite run_cluster_add, (run_cluster_add (2 * k + 1)), !run_cluster_1.
      rewrite Hstep, Hrun. exact Hstep3.
    + rewrite !acks_for_app, Hlog, acks_for_app, acks_for_ack, app_nil_r, <- app_assoc. f_equal.
      rewrite (drop_S succs id i Hi). cbn [take]. by rewrite reverse_cons, fmap_app.
    + eapply same_view_insert; [done|done| |]; unfold self_id, members; by rewrite Hnd3.
    + intros j y Hj Hy. destruct (decide (y = id)) as [->|Hne].
      * exists n3. rewrite lookup_insert_eq. split_and!; [done| |done].
        unfold keeps. rewrite Hst, Hnd3. exact Hkeep.
      * rewrite lookup_insert_ne by done. apply (Hdone j); [|done].
        destruct (decide (j = i)) as [->|]; [congruence|lia].
    + intros y Hy. assert (y ≠ id) as Hne by (intros ->; by apply Hy, (in_drop i i)).
      rewrite lookup_insert_ne by done. rewrite Hframe, lookup_insert_ne; [done|done|].
      intros Hy'. apply Hy. rewrite <- (Nat.add_1_r i), <- drop_drop in Hy'.
      eapply elem_of_sublist; [exact Hy'|]. apply sublist_drop.
Qed.
End chain.

(** ** The creation of a file *)

Section create.
Context `{!GoEnv} (base : path) (im : gmap Z Info).

Lemma run_idle k nodes log : run_cluster base k (mkCluster nodes [] log) = mkCluster nodes [] log.
Proof. induction k as [|k IH]; [done|]. change (run_cluster base (S k) ?c) with (cluster_step base (run_cluster base k c)). by rewrite IH. Qed.

(** The acknowledgement that reaches a node which waits for none is the end. *)
Lemma last_ack nodes log file id n :
  same_view im nodes → nodes !! id = Some n → pendingAckTargets n !! file = None →
  cluster_step base (mkCluster nodes [(address im id, replication_ack file)] log) =
    mkCluster nodes [] (log ++ [(address im id, replication_ack file)]).
Proof.
  intros Hv Hn Hp. unfold cluster_step. simpl. rewrite (node_at_address _ _ _ _ Hv Hn). simpl.
  unfold handle_ack. rewrite Hp. simpl. by rewrite insert_id.
Qed.

Variables (file content client : string) (F C P : Z) (succs : list Z).
Let chain_msg := chain_msg im file content client F C P succs.

(** The whole chain from step [i] on, with the coordinator [co]. *)
Lemma chain_complete i k id co n nodes :
  same_view im nodes → Forall in_uint64 succs → NoDup succs →
  (∀ id, id ∈ succs → is_Some (im !! id) ∧ is_Some (nodes !! id)) →
  (∀ j id, (i <= j)%nat → succs !! j = Some id → ∃ n, nodes !! id = Some n ∧ ready base file n) →
  succs !! i = Some id → nodes !! co = Some n → pendingAckTargets n !! file = None →
  (2 * (length succs - i) <= k)%nat →
  ∃ nodes' log', run_cluster base k (mkCluster nodes [(address im id, chain_msg i (address im co))] [])
      = mkCluster nodes' [] log' ∧
    acks_for file log' = (address im <$> reverse (removelast (drop i succs))) ++ [address im co] ∧
    (∀ j id, (i <= j)%nat → succs !! j = Some id →
      ∃ n, nodes' !! id = Some n ∧ keeps base file content n ∧ pendingAckTargets n !! file = None) ∧
    (∀ id, id ∉ drop i succs → nodes' !! id = nodes !! id).
Proof.
  intros Hv Hu Hnd Hsn Hready Hi Hco Hp Hk.
  assert (i < length succs)%nat as Hlt by (by apply lookup_lt_Some in Hi).
  destruct (chain_run base im file content client F C P succs (length succs - 1 - i) i id nodes []
    (address im co) eq_refl Hv Hu Hnd Hsn Hready Hi (addr_nonempty _))
    as (nodes' & log' & Hrun & Hlog & Hv' & Hdone & Hframe).
  assert (∃ m, nodes' !! co = Some m ∧ pendingAckTargets m !! file = None) as (m & Hm & Hpm).
  { destruct (decide (co ∈ drop i succs)) as [Hin|Hin]; [|rewrite Hframe by done; by eexists].
    apply list_elem_of_lookup in Hin as [j Hj]. rewrite lookup_drop in Hj.
    destruct (Hdone (i + j)%nat co ltac:(lia) Hj) as (m & Hm & _ & Hpm). by exists m. }
  replace k with ((k - 2 * (length succs - i)) + (1 + (2 * (length succs - 1 - i) + 1)))%nat by lia.
  rewrite run_cluster_add, (run_cluster_add base 1), run_cluster_1. unfold chain_msg. rewrite Hrun.
  rewrite (last_ack _ _ _ _ _ Hv' Hm Hpm), run_idle. do 2 eexists. split; [done|].
  rewrite acks_for_app, acks_for_ack, Hlog. split; [|done].
  rewrite removelast_firstn_len, length_drop.
  by replace (Init.Nat.pred (length succs - i)) with (length succs - 1 - i)%nat by lia.
Qed.
End create.

Section create_theorem.
Context `{!GoEnv} (base : path) (im : gmap Z Info).

Lemma forward_first n file content client fid pid created co x rest :
  (∃ info, im !! x = Some info ∧ State info = Alive) →
  forwardReplication (λ _, true) n file content fid pid client created (co :: x :: rest) 1 im =
    [SendNode (address im x) (chain_msg im file content client (float53 fid) (float53 created)
       (float53 pid) (co :: x :: rest) 1 (address im co))].
Proof.
  intros (info & Hx & Ha). unfold forwardReplication. simpl. unfold is_alive.
  rewrite Hx, decide_True by done. unfold send_to, chain_msg, address. simpl.
  replace (info_of im x) with info by (unfold info_of; by rewrite Hx). done.
Qed.

(** No message is under way, the nodes [succs] keep the file and wait for no
    acknowledgement, the other nodes are as in [nodes]. *)
Definition replicated (file content : string) (succs : list Z) (nodes : gmap Z HNode) (c : Cluster) : Prop :=
  cl_queue c = [] ∧
  (∀ id, id ∈ succs → ∃ m, cl_nodes c !! id = Some m ∧ keeps base file content m ∧
     pendingAckTargets m !! file = None) ∧
  (∀ id, id ∉ succs → cl_nodes c !! id = nodes !! id).

(** The acknowledgement of the replicas [succs] has come back through all of
    them but the last, which sent it, and reached the coordinator. *)
Definition acknowledged (file : string) (succs : list Z) (co : Z) (c : Cluster) : Prop :=
  acks_for file (cl_log c) =
    if decide (succs = []) then [] else (address im <$> reverse (removelast succs)) ++ [address im co].

Section coordinator.
Context (nodes : gmap Z HNode) (co : Z) (n : HNode) (file content client : string) (fid created : Z).
Context (p : Z) (rest : list Z).
Hypothesis Hv : same_view im nodes.
Hypothesis Hco : nodes !! co = Some n.
Hypothesis Hp : pendingAckTargets n !! file = None.
Hypothesis Hal : ∀ id, id ∈ p :: rest → ∃ info, im !! id = Some info ∧ State info = Alive.
Hypothesis Hnd : NoDup (p :: rest).
Hypothesis Hready : ∀ id, id ∈ p :: rest → ∃ m, nodes !! id = Some m ∧ ready base file m.

Lemma succs_known id : id ∈ p :: rest → is_Some (im !! id) ∧ is_Some (nodes !! id).
Proof. intros Hid. destruct (Hal id Hid) as (info & -> & _), (Hready id Hid) as (m & -> & _). by eauto. Qed.

Lemma succs_uint : Forall in_uint64 (p :: rest).
Proof. apply Forall_forall. intros id Hid. by apply (sv_uint _ _ Hv), succs_known. Qed.

(** The coordinator is not the primary and sends the file to it. *)
Lemma chain_from_other :
  let c := run_cluster base (2 * length (p :: rest)) (mkCluster (<[co := n]> nodes)
      [(address im p, chain_start n file content fid p client created (p :: rest))] []) in
  replicated file content (p :: rest) nodes c ∧ acknowledged file (p :: rest) co c.
Proof.
  destruct (sv_node _ _ Hv _ _ Hco) as [Hs Hm]. rewrite insert_id by done.
  destruct (chain_complete base im file content client (float53 fid) (float53 created) (float53 p)
    (p :: rest) 0 (2 * length (p :: rest)) p co n nodes Hv succs_uint Hnd succs_known)
    as (nodes' & log' & Hrun & Hlog & Hdone & Hframe); [|done..|lia|].
  { intros j id _ Hj. apply Hready. by eapply list_elem_of_lookup_2. }
  assert (chain_start n file content fid p client created (p :: rest)
    = chain_msg im file content client (float53 fid) (float53 created) (float53 p) (p :: rest) 0
        (address im co)) as ->.
  { unfold chain_start, chain_msg, self_addr. rewrite Hm, Hs. f_equal.
    apply bool_decide_ext. simpl. lia. }
  rewrite Hrun. split; [|by unfold acknowledged; rewrite decide_False by done].
  split; [done|split]; [|exact Hframe].
  intros id [j Hj]%list_elem_of_lookup. by apply (Hdone j id); [lia|].
Qed.

(** The coordinator is the primary: it has stored the file, and starts the chain
    at the second replica. *)
Lemma chain_from_primary n' :
  p = co → self_id n' = self_id n → members n' = members n →
  keeps base file content n' → pendingAckTargets n' !! file = None →
  let c := run_cluster base (2 * length (p :: rest)) (mkCluster (<[co := n']> nodes)
      (sent_messages (forwardReplication (λ _, true) n' file content fid p client created
         (p :: rest) 1 im)) []) in
  replicated file content (p :: rest) nodes c ∧ acknowledged file rest co c.
Proof.
  pose proof succs_uint as Hu. pose proof succs_known as Hsn. pose proof Hal as Ha.
  pose proof Hready as Hr. pose proof Hnd as Hdup.
  intros -> Hs Hm Hk Hp'. pose proof (same_view_insert _ _ _ _ _ Hv Hco Hs Hm) as Hv'.
  pose proof (lookup_insert_eq nodes co n') as Hl.
  destruct rest as [|x l].
  - change (sent_messages _) with (@nil (string * NodeMessage)). rewrite run_idle.
    split; [|done]. split; [done|split]; simpl.
    + intros id ->%list_elem_of_singleton. by eexists.
    + intros id Hid. apply lookup_insert_ne. intros ->. by apply Hid, list_elem_of_singleton.
  - rewrite forward_first by (apply Ha; by right; left).
    destruct (chain_complete base im file content client (float53 fid) (float53 created) (float53 co)
      (co :: x :: l) 1 (2 * length (co :: x :: l)) x co n' (<[co:=n']> nodes) Hv')
      as (nodes' & log' & Hrun & Hlog & Hdone & Hframe); [..|done|done|done|simpl; lia|].
    + done.
    + done.
    + intros id Hid. destruct (Hsn id Hid) as [? Hid']. split; [done|].
      rewrite lookup_insert_is_Some. by destruct (decide (co = id)); [left|right].
    + intros [|j] id Hj Hid; [lia|]. rewrite lookup_insert_ne; [by eapply Hr, list_elem_of_lookup_2|].
      intros <-. by pose proof (NoDup_lookup _ 0%nat (S j) co Hdup eq_refl Hid).
    + simpl sent_messages. rewrite Hrun. split; [|by unfold acknowledged; rewrite decide_False by done].
      split; [done|split]; simpl.
      * intros id [[|j] Hj]%list_elem_of_lookup; [|by apply (Hdone (S j)); [lia|]].
        injection Hj as <-. rewrite Hframe by (apply (notin_drop (co :: x :: l) 0 1 co Hdup eq_refl); lia). by eexists.
      * intros id Hid. rewrite Hframe; [|intros ?; apply Hid; by right].
        apply lookup_insert_ne. intros ->. apply Hid. by left.
Qed.
End coordinator.

(** The replicas that get the file in a message: all but a coordinator that is
    the primary. *)
Definition downstream (co : Z) (succs : list Z) : list Z :=
  match succs with id :: rest => if decide (id = co) then rest else succs | [] => [] end.

(** The creation and its answer, once the client's request is taken apart. *)
Lemma client_create_replicates (nodes : gmap Z HNode) (co : Z) (n n' : HNode) (file content remote : string)
    (createdAt : Z) (es : list NodeEffect) (answer : option string) :
  same_view im nodes → nodes !! co = Some n →
  FileStore (hn_node n) !! file = None → pendingAckTargets n !! file = None →
  replicas_of n file ≠ [] →
  (∀ id, id ∈ replicas_of n file → ∃ m, nodes !! id = Some m ∧ ready base file m) →
  client_create base (λ _, true) (Ok content) remote createdAt file n = (n', es, answer) →
  let c := run_cluster base (2 * length (replicas_of n file))
             (mkCluster (<[co := n']> nodes) (sent_messages es) []) in
  replicated file content (replicas_of n file) nodes c ∧
  acknowledged file (downstream co (replicas_of n file)) co c ∧
  (answer = None ↔ head (replicas_of n file) = Some co ∧ (1 < length (replicas_of n file))%nat) ∧
  (∀ a, answer = Some a → ∃ s, a = "OK" +:+ s).
Proof.
  intros Hv Hco Hfs Hp Hne Hready Hcc. destruct (sv_node _ _ Hv _ _ Hco) as [Hs Hm].
  assert (∀ id, id ∈ replicas_of n file → ∃ info, im !! id = Some info ∧ State info = Alive) as Hal.
  { intros id. unfold replicas_of. rewrite Hm. apply GetSuccessors_alive. }
  pose proof (GetSuccessors_NoDup (HashString file) (members n) NumReplicas) as Hnd.
  fold (replicas_of n file) in Hnd. revert Hcc. unfold client_create. rewrite Hfs.
  destruct (replicas_of n file) as [|p rest] eqn:Hrep; [done|]. rewrite Hs.
  destruct (decide (co = p)) as [<-|Hcp].
  - destruct (Hready co ltac:(by left)) as (x & Hm' & Hr). assert (x = n) as -> by congruence. rewrite Hm.
    destruct (create_ready base file content (HashString file) co
      (self_host n +:+ ":" +:+ remote) n Hr) as (d & -> & Hrd).
    set (m := record_file file _ _).
    assert (keeps base file content m) as Hk by (split; [done|]; eexists; apply lookup_insert_eq).
    pose proof (chain_from_primary nodes co n file content (self_host n +:+ ":" +:+ remote)
      (HashString file) createdAt co rest Hv Hco Hal Hnd Hready m eq_refl eq_refl eq_refl
      Hk Hp) as Hrun.
    destruct (decide (rest = [])) as [->|Hrest].
    + intros [= <- <- <-]. destruct Hrun as [Hrun Hack]. split; [exact Hrun|].
      split; [by unfold downstream; rewrite decide_True by done|]. split; [|by intros ? [= <-]; eexists].
      split; [done|]. intros [_ ?]. simpl in *. lia.
    + intros [= <- <- <-]. destruct Hrun as [Hrun Hack]. split; [exact Hrun|].
      split; [by unfold downstream; rewrite decide_True by done|]. split; [|done].
      split; [|done]. intros _. split; [done|]. destruct rest; [done|simpl; lia].
  - rewrite Hm. intros [= <- <- <-]. unfold downstream. rewrite decide_False by (by intros ->).
    destruct (chain_from_other nodes co n file content (self_host n +:+ ":" +:+ remote)
      (HashString file) createdAt p rest) as [Hrun Hack]; [done..|].
    split; [exact Hrun|]. split; [exact Hack|]. split; [|by intros ? [= <-]; eexists]. split; [done|]. by intros [[= <-] _].
Qed.

(** C4: A created file reaches all of its replicas: when the chain of replicas
    has been followed to its end, with the coordinator among the replicas or
    not, no message is under way, every replica reads the content and knows the
    file, no replica waits for an acknowledgement, and the other nodes are as
    they were.  The acknowledgement of the last replica has come back up the
    chain, through every replica that got the file in a message, and has
    reached the coordinator.  The client is answered unless the coordinator is
    the primary of several replicas. *)
Theorem chain_replicates (nodes : gmap Z HNode) (co : Z) (n : HNode) (file content remote : string)
    (createdAt : Z) :
  same_view im nodes → nodes !! co = Some n →
  FileStore (hn_node n) !! file = None → pendingAckTargets n !! file = None →
  replicas_of n file ≠ [] →
  (∀ id, id ∈ replicas_of n file → ∃ m, nodes !! id = Some m ∧ ready base file m) →
  let '(n', es, answer) := client_create base (λ _, true) (Ok content) remote createdAt file n in
  let c := run_cluster base (2 * length (replicas_of n file))
             (mkCluster (<[co := n']> nodes) (sent_messages es) []) in
  replicated file content (replicas_of n file) nodes c ∧
  acknowledged file (downstream co (replicas_of n file)) co c ∧
  (answer = None ↔ head (replicas_of n file) = Some co ∧ (1 < length (replicas_of n file))%nat).
Proof.
  intros Hv Hco Hfs Hp Hne Hready. destruct (client_create _ _ _ _ _ _ _) as [[n' es] answer] eqn:Hcc.
  destruct (client_create_replicates nodes co n n' file content remote createdAt es answer)
    as (Hr & Hack & Ha & _); done.
Qed.
End create_theorem.

(** ** The merge of a file *)

(** What the node at an address answers on the same connection. *)
Definition exchange_with `{!GoEnv} (base : path) (nodes : gmap Z HNode) (addr : string) (msg : NodeMessage) :
    option Reply :=
  '(_, n) ← node_at nodes addr;
  '(_, es) ← handleNodeMessage base (λ _, true) (λ _ _, None) msg n;
  head (omap (λ e, match e with ReplyWith r => Some r | _ => None end) es).

(** *** What is collected *)

Definition from (bs : list BlockInfo) (m : gmap string BlockInfo) : Prop :=
  (∀ k b, m !! k = Some b → merge_key b = k ∧ b ∈ bs) ∧
  ∀ b, b ∈ bs → is_Some (m !! merge_key b).

Lemma collect_from bs l m : from bs m → from (bs ++ l) (collect_blocks m l).
Proof.
  revert bs m. induction l as [|b l IH]; intros bs m Hm; simpl; [by rewrite app_nil_r|].
  replace (bs ++ b :: l) with ((bs ++ [b]) ++ l) by (by rewrite <- app_assoc).
  apply IH. destruct Hm as [H1 H2]. split.
  - intros k x [[<- <-]|[_ [? ?]%H1]]%lookup_insert_Some; [|set_solver]. split; [done|set_solver].
  - intros x [Hx| ->%list_elem_of_singleton]%elem_of_app; rewrite lookup_insert_is_Some; [|by left].
    destruct (decide (merge_key b = merge_key x)); [by left|right; auto].
Qed.

Lemma collect_all (ls : list (list BlockInfo)) : from (concat ls) (foldl collect_blocks ∅ ls).
Proof.
  induction ls as [|l ls IH] using rev_ind.
  - split; [intros k b Hk; simpl in Hk; by rewrite lookup_empty in Hk|set_solver].
  - rewrite foldl_app, concat_app. simpl. rewrite app_nil_r. by apply collect_from.
Qed.

(** *** The updates *)

Section merge.
Context `{!GoEnv} (base : path) (im : gmap Z Info) (file : string).
Hypothesis Hdir : getFileDir base file ≠ [].

(** The node has the file, on a disk that works. *)
Definition holds (n : HNode) (bl : list BlockInfo) : Prop :=
  wf (hn_store n) ∧ faults (hn_store n) = [] ∧ represents base (hn_store n) file bl.

Lemma replaced_represents bl content fid pid client d :
  wf d → faults d = [] → represents base d file bl →
  ∃ d', CreateFile base file content fid pid client (DeleteFile base file d).2 = (Ok tt, d') ∧
    ReadFile base file d' = Ok content.
Proof.
  intros Hwf Hf [md Hst].
  assert (∀ q, nodes (DeleteFile base file d).2 !! q =
    if decide (getFileDir base file `prefix_of` q) then None else nodes d !! q) as Hrm.
  { intros q. apply lookup_RemoveAll. unfold next_fault. by rewrite Hf. }
  assert (faults (DeleteFile base file d).2 = []) as Hf'.
  { unfold DeleteFile. by rewrite (proj1 (RemoveAll_cases _ _)), Hf. }
  assert (creatable base file (DeleteFile base file d).2) as Hc.
  { intros q Hne Hq. rewrite Hrm. case_decide; [done|].
    pose proof (wf_above _ _ _ Hwf (st_dir _ _ _ _ Hst) Hq) as Hd.
    apply is_dir_true in Hd as [?| ->]; done. }
  pose proof (CreateFile_represents base file content fid pid client (DeleteFile base file d).2) as Hcr.
  destruct (CreateFile _ _ _ _ _ _ _) as [r d']. destruct Hcr as (-> & _ & Hr & _); [..|done|].
  - by apply RemoveAll_wf.
  - done.
  - apply Stat_false. split; [done|]. rewrite Hrm. by rewrite decide_True.
  - exists d'. split; [done|]. by rewrite (ReadFile_represents _ _ _ _ Hr).
Qed.

Lemma successors_exist h h' m n : GetSuccessors h m n ≠ [] → GetSuccessors h' m n ≠ [].
Proof.
  rewrite !GetSuccessors_ring. intros Hne Hnil. apply Hne. apply length_zero_iff_nil.
  apply (f_equal length) in Hnil. rewrite !length_take in *. simpl in *.
  pose proof (Permutation_length (ring_from_Permutation h (alive_sorted m))).
  pose proof (Permutation_length (ring_from_Permutation h' (alive_sorted m))). lia.
Qed.

Definition update (content : string) : NodeMessage :=
  merge_update file (mkMsgData (Some (float53 (HashString file))) (Some content) None None None [] 0).

Lemma update_step nodes q log id n bl content :
  same_view im nodes → nodes !! id = Some n → holds n bl → GetSuccessors (HashString file) im NumReplicas ≠ [] →
  ∃ n', ReadFile base file (hn_store n') = Ok content ∧ self_id n' = self_id n ∧ members n' = members n ∧
    cluster_step base (mkCluster nodes ((address im id, update content) :: q) log) =
      mkCluster (<[id := n']> nodes) q (log ++ [(address im id, update content)]).
Proof.
  intros Hv Hn (Hwf & Hf & Hr) Hne. destruct (sv_node _ _ Hv _ _ Hn) as [Hs Hm].
  unfold cluster_step. simpl. rewrite (node_at_address _ _ _ _ Hv Hn). simpl.
  unfold handle_merge_update. simpl. rewrite Hm.
  destruct (GetSuccessors (u64_of_float _) _ _) as [|p l] eqn:Hp.
  { by destruct (successors_exist _ (u64_of_float (float53 (HashString file))) _ _ Hne). }
  destruct (replaced_represents bl content (u64_of_float (float53 (HashString file))) p
    "merged_content" _ Hwf Hf Hr) as (d' & Hc & Hrd).
  simpl. rewrite Hc. simpl. rewrite app_nil_r. eexists; split; [|split; [|split; [|reflexivity]]]; done.
Qed.

(** All the updates are delivered. *)
Lemma updates_run nodes log (l : list Z) content :
  same_view im nodes → NoDup l → GetSuccessors (HashString file) im NumReplicas ≠ [] →
  (∀ id, id ∈ l → ∃ n bl, nodes !! id = Some n ∧ holds n bl) →
  ∃ nodes' log', run_cluster base (length l)
      (mkCluster nodes ((λ id, (address im id, update content)) <$> l) log) = mkCluster nodes' [] log' ∧
    (∀ id, id ∈ l → ∃ n, nodes' !! id = Some n ∧ ReadFile base file (hn_store n) = Ok content) ∧
    (∀ id, id ∉ l → nodes' !! id = nodes !! id).
Proof.
  revert nodes log. induction l as [|id l IH]; intros nodes log Hv Hnd Hne Hh.
  { eexists _, _. split; [done|]. split; [set_solver|done]. }
  apply NoDup_cons in Hnd as [Hid Hnd]. destruct (Hh id ltac:(by left)) as (n & bl & Hn & Hb).
  destruct (update_step nodes ((λ id, (address im id, update content)) <$> l) log id n bl content
    Hv Hn Hb Hne) as (n' & Hrd & Hs & Hm & Hstep).
  destruct (IH (<[id:=n']> nodes) (log ++ [(address im id, update content)]))
    as (nodes' & log' & Hrun & Hdone & Hframe); [by eapply same_view_insert|done|done| |].
  { intros x Hx. rewrite lookup_insert_ne by (by intros ->). apply Hh. by right. }
  exists nodes', log'. split; [|split].
  - rewrite length_cons, <- Nat.add_1_r, run_cluster_add, run_cluster_1, fmap_cons. by rewrite Hstep.
  - intros x [->|Hx]%elem_of_cons; [|by apply Hdone]. exists n'. split; [|done].
    rewrite Hframe by done. apply lookup_insert_eq.
  - intros x [Hx1 Hx2]%not_elem_of_cons. rewrite Hframe by done. by rewrite lookup_insert_ne.
Qed.

(** *** The collection *)

Lemma collected nodes n co (l : list Z) (bls : Z → list BlockInfo) :
  same_view im nodes → nodes !! co = Some n →
  (∀ id, id ∈ l → ∃ info, im !! id = Some info ∧ State info = Alive) →
  (∀ id, id ∈ l → ∃ m, nodes !! id = Some m ∧ holds m (bls id)) →
  replica_blocks base (exchange_with base nodes) n file <$> l = bls <$> l.
Proof.
  intros Hv Hco Hal Hh. apply list_fmap_ext. intros i id Hi%list_elem_of_lookup_2.
  destruct (sv_node _ _ Hv _ _ Hco) as [Hs Hm].
  destruct (Hal id Hi) as (info & Hinfo & Ha), (Hh id Hi) as (m & Hn & _ & _ & Hr).
  unfold replica_blocks, is_alive. rewrite Hm, Hinfo, decide_True by done. rewrite Hs.
  destruct (decide (id = co)) as [->|Hne].
  - simplify_eq. by rewrite (GetAllBlocks_represents _ _ _ _ Hr).
  - assert (addr_of info = address im id) as -> by (unfold address, info_of; by rewrite Hinfo).
    unfold exchange_with. rewrite (node_at_address _ _ _ _ Hv Hn). simpl.
    unfold handle_merge_collect. by rewrite (GetAllBlocks_represents _ _ _ _ Hr).
Qed.

Lemma distribute_all n content (l : list Z) :
  members n = im → (∀ id, id ∈ l → ∃ info, im !! id = Some info ∧ State info = Alive) →
  sent_messages (distribute (λ _, true) n file content (HashString file) l) =
    (λ id, (address im id, update content)) <$> l.
Proof.
  intros Hm. unfold distribute. rewrite Hm. induction l as [|id l IH]; intros Hal; [done|].
  destruct (Hal id ltac:(by left)) as (info & Hinfo & Ha). simpl. unfold is_alive.
  rewrite Hinfo, decide_True by done. simpl. unfold address at 1, info_of. rewrite Hinfo. simpl. f_equal.
  apply IH. intros x Hx. apply Hal. by right.
Qed.
End merge.

Section merge_theorem.
Context `{!GoEnv} (base : path) (im : gmap Z Info) (file : string).

Lemma MergeFile_holds n bl blocks :
  holds base file n bl → ∃ d, MergeFile base file blocks (hn_store n) = (Ok tt, d) ∧
    holds base file (set_store d n) (renumber (sort_blocks blocks)).
Proof.
  intros (Hwf & Hf & Hr). pose proof (MergeFile_represents _ _ _ blocks _ Hr Hf) as Hm.
  pose proof (run_call_preserves wf base file (CallMerge blocks) (hn_store n)) as Hw. simpl in Hw.
  destruct (MergeFile _ _ _ _) as [r d]. destruct Hm as (-> & Hf' & Hr'). exists d. split; [done|].
  split; [|done]. apply Hw; [intros; apply WriteFile_wf|apply MkdirAll_wf|apply RemoveAll_wf| |done].
  intros d0 Hd0. by apply removeBlocks_wf.
Qed.

(** Blocks with the same client and number are the same append: the replicas
    number the appends of a client by themselves, so this fails when one of
    them missed an append that the client did not make last. *)
Definition agreeing (succs : list Z) (bls : Z → list BlockInfo) : Prop :=
  ∀ id1 id2 b1 b2, id1 ∈ succs → id2 ∈ succs → b1 ∈ bls id1 → b2 ∈ bls id2 →
    merge_key b1 = merge_key b2 → block_entry b1 = block_entry b2.

(** The blocks that are merged come from the replicas, one for every key that
    occurs; when the replicas agree on the keys, these are all their blocks. *)
Definition union_of (succs : list Z) (bls : Z → list BlockInfo) (blocks : list BlockInfo) : Prop :=
  NoDup (merge_key <$> blocks) ∧
  (∀ b, b ∈ blocks → ∃ id, id ∈ succs ∧ b ∈ bls id) ∧
  (∀ id b, id ∈ succs → b ∈ bls id → merge_key b ∈ merge_key <$> blocks) ∧
  (agreeing succs bls → ∀ e, e ∈ block_entry <$> blocks ↔
     ∃ id b, id ∈ succs ∧ b ∈ bls id ∧ e = block_entry b).

Lemma all_blocks_union (l succs : list Z) (bls : Z → list BlockInfo) :
  l ≡ₚ succs → union_of succs bls (map_to_list (foldl collect_blocks ∅ (bls <$> l))).*2.
Proof.
  intros Hl. destruct (collect_all (bls <$> l)) as [H1 H2]. set (m := foldl _ _ _) in *.
  assert (merge_key <$> (map_to_list m).*2 = (map_to_list m).*1) as Hk.
  { rewrite <- list_fmap_compose. apply list_fmap_ext. intros i [k b] Hi. simpl.
    apply list_elem_of_lookup_2, elem_of_map_to_list in Hi. by apply H1. }
  assert (∀ b, b ∈ (map_to_list m).*2 → ∃ id, id ∈ succs ∧ b ∈ bls id) as Hfrom.
  { intros b ([k b'] & -> & Hin)%list_elem_of_fmap. apply elem_of_map_to_list, H1 in Hin as [_ Hin].
    simpl. apply elem_of_concat_fmap in Hin as (id & Hid & Hb). exists id. by rewrite <- Hl. }
  assert (∀ id b, id ∈ succs → b ∈ bls id → merge_key b ∈ merge_key <$> (map_to_list m).*2) as Hall.
  { intros id b Hid Hb. rewrite Hk. destruct (H2 b) as [b' Hb'].
    { apply elem_of_concat_fmap. exists id. by rewrite Hl. }
    apply list_elem_of_fmap. exists (merge_key b, b'). by rewrite elem_of_map_to_list. }
  split; [rewrite Hk; apply NoDup_fst_map_to_list|]. split; [exact Hfrom|]. split; [exact Hall|].
  intros Hag e. rewrite list_elem_of_fmap. split.
  - intros (b & -> & (id & Hid & Hb)%Hfrom). by exists id, b.
  - intros (id & b & Hid & Hb & ->).
    pose proof (Hall id b Hid Hb) as (b' & Heq & Hb')%list_elem_of_fmap.
    destruct (Hfrom b' Hb') as (id' & Hid' & Hb''). exists b'. split; [|done].
    by apply (Hag id id').
Qed.

(** C3: A merge that the primary runs makes the replicas agree, however the
    replicas have diverged and in whatever order their blocks come in: when the
    updates have been delivered every replica reads the same content, that of
    one block for every client and sequence number that occurs on a replica,
    sorted by them.  When blocks with the same client and number are the same
    append on all replicas, this is the union of their blocks: none is lost,
    and one that several replicas have counts once.  Otherwise two different
    appends can have the same number, and one of them is lost everywhere. *)
Theorem merge_synchronizes (nodes : gmap Z HNode) (co : Z) (n : HNode) (order : list Z)
    (bls : Z → list BlockInfo) :
  getFileDir base file ≠ [] → same_view im nodes → nodes !! co = Some n →
  head (replicas_of n file) = Some co → order ≡ₚ replicas_of n file →
  (∀ id, id ∈ replicas_of n file → ∃ m, nodes !! id = Some m ∧ holds base file m (bls id)) →
  let '(n', es) := handleCLIMerge base (λ _, true) (exchange_with base nodes) order file n in
  let c := run_cluster base (length (replicas_of n file))
             (mkCluster (<[co := n']> nodes) (sent_messages es) []) in
  ∃ blocks, union_of (replicas_of n file) bls blocks ∧
    cl_queue c = [] ∧
    (∀ id, id ∈ replicas_of n file → ∃ m, cl_nodes c !! id = Some m ∧
       ReadFile base file (hn_store m) = Ok (contents (sort_blocks blocks))) ∧
    (∀ id, id ∉ replicas_of n file → cl_nodes c !! id = nodes !! id).
Proof.
  intros Hdir Hv Hco Hhd Hord Hh. destruct (sv_node _ _ Hv _ _ Hco) as [Hs Hm].
  assert (∀ id, id ∈ replicas_of n file → ∃ info, im !! id = Some info ∧ State info = Alive) as Hal.
  { intros id. unfold replicas_of. rewrite Hm. apply GetSuccessors_alive. }
  assert (GetSuccessors (HashString file) im NumReplicas ≠ []) as Hne.
  { unfold replicas_of in Hhd. rewrite Hm in Hhd. by intros Hnil; rewrite Hnil in Hhd. }
  assert (NoDup (replicas_of n file)) as Hnd by (unfold replicas_of; rewrite Hm; apply GetSuccessors_NoDup).
  assert (co ∈ replicas_of n file) as Hin by (by apply head_Some_elem_of).
  unfold handleCLIMerge. destruct (replicas_of n file) as [|p rest] eqn:Hrep; [done|].
  injection Hhd as ->. destruct (Hal co Hin) as (info & Hinfo & Ha). unfold is_alive.
  rewrite Hm, Hinfo, !decide_True by done. unfold all_blocks.
  rewrite (collected base im file nodes n co order bls Hv Hco) by (intros id; rewrite Hord; auto).
  set (blocks := (map_to_list _).*2). destruct (Hh co Hin) as (m & Hm' & Hb).
  assert (m = n) as -> by congruence. destruct (MergeFile_holds n _ blocks Hb) as (d & -> & Hd).
  destruct Hd as (Hwf' & Hf' & Hr'). simpl in Hr'. rewrite (ReadFile_represents _ _ _ _ Hr').
  destruct Hr' as [md Hst]. unfold GetMetadata. rewrite (stored_readMetadata _ _ _ _ Hst).
  rewrite contents_renumber. set (n' := set_store d n). cbv beta iota zeta.
  rewrite (distribute_all im file n _ (co :: rest) Hm Hal).
  destruct (updates_run base im file Hdir (<[co:=n']> nodes) [] (co :: rest)
    (contents (sort_blocks blocks))) as (nodes' & log' & Hrun & Hdone & Hframe); [|done..| |].
  { by eapply same_view_insert. }
  { intros id Hid. destruct (decide (co = id)) as [<-|Hne'].
    - rewrite lookup_insert_eq. exists n', (renumber (sort_blocks blocks)). split; [done|]. by repeat split; [..|exists md].
    - rewrite lookup_insert_ne by done. destruct (Hh id Hid) as (m & ? & ?). by eauto. }
  rewrite Hrun. exists blocks. split; [by apply all_blocks_union|]. split; [done|]. split; [done|].
  intros id Hid. simpl. rewrite Hframe by done. apply lookup_insert_ne. intros <-. by apply Hid.
Qed.
End merge_theorem.

(** ** A cluster at work *)

Definition demo_view : gmap Z Info :=
  {[ 10 := mkInfo "vm1" 8000 0 0 0 Alive; 2 ^ 62 := mkInfo "vm2" 8000 0 0 0 Alive;
     2 ^ 63 := mkInfo "vm3" 8000 0 0 0 Alive; 3 * 2 ^ 62 := mkInfo "vm4" 8000 0 0 0 Alive ]}.

Definition demo_hnode (id : Z) (d : bdisk) : HNode :=
  mkHNode (mkNode id (mkMembership [] demo_view 0) ∅ true) d ∅.

Definition demo_nodes (d : Z → bdisk) : gmap Z HNode :=
  map_imap (λ id _, Some (demo_hnode id (d id))) demo_view.

Lemma demo_nodes_lookup d id n :
  demo_nodes d !! id = Some n → n = demo_hnode id (d id) ∧ is_Some (demo_view !! id).
Proof.
  unfold demo_nodes. rewrite map_lookup_imap. intros (info & Hi & [= <-])%bind_Some. by eauto.
Qed.

Lemma demo_same_view d : same_view demo_view (demo_nodes d).
Proof.
  assert (∀ id, is_Some (demo_nodes d !! id) → is_Some (demo_view !! id)) as Hd.
  { intros id [n Hn]. by apply demo_nodes_lookup in Hn as [_ ?]. }
  split.
  - intros id n [-> _]%demo_nodes_lookup. split; [done|]. apply GetInfoMap_copy.
  - intros id [info Hi]%Hd. revert id info Hi.
    change (map_Forall (λ id _, in_uint64 id) demo_view).
    apply (bool_decide_unpack _). vm_compute. exact I.
  - intros id [info Hi]%Hd. revert id info Hi.
    change (map_Forall (λ id _, string_forallb (not_char ":"%char) (Hostname (info_of demo_view id)) = true)
      demo_view).
    apply (bool_decide_unpack _). vm_compute. exact I.
  - intros id1 id2 [info1 H1]%Hd [info2 H2]%Hd. revert id2 info2 H2. revert id1 info1 H1.
    change (map_Forall (λ id1 _, map_Forall (λ id2 _,
      address demo_view id1 = address demo_view id2 → id1 = id2) demo_view) demo_view).
    apply (bool_decide_unpack _). vm_compute. exact I.
Qed.

Lemma demo_ready id file : FileExists ["hydfs"] file empty_store = false →
  ready ["hydfs"] file (demo_hnode id empty_store).
Proof. intros Hf. split; [apply empty_store_wf|done|done|apply empty_store_creatable|done]. Qed.

Lemma chain_replicates_witness :
  let nodes := demo_nodes (λ _, empty_store) in
  let n := demo_hnode 10 empty_store in
  let '(n', es, answer) :=
    client_create (H := poly_env) ["hydfs"] (λ _, true) (Ok "hello") "cli:1" 7 "f.txt" n in
  let c := run_cluster (H := poly_env) ["hydfs"] 6 (mkCluster (<[10 := n']> nodes) (sent_messages es) []) in
  replicated ["hydfs"] "f.txt" "hello" [3 * 2 ^ 62; 10; 2 ^ 62] nodes c ∧
  acks_for "f.txt" (cl_log c) = ["vm1:8000"; "vm4:8000"; "vm1:8000"] ∧
  answer ≠ None.
Proof.
  intros nodes n.
  assert (replicas_of (H := poly_env) n "f.txt" = [3 * 2 ^ 62; 10; 2 ^ 62]) as Hrep by (by vm_compute).
  pose proof (chain_replicates (H := poly_env) ["hydfs"] demo_view nodes 10 n "f.txt" "hello" "cli:1" 7
    (demo_same_view _) eq_refl eq_refl eq_refl) as Hc.
  rewrite Hrep in Hc. specialize (Hc ltac:(done)).
  destruct (client_create _ _ _ _ _ _ _) as [[n' es] answer].
  destruct Hc as (Hr & Hack & Ha).
  - intros id Hid. exists (demo_hnode id empty_store). split; [|apply demo_ready; by vm_compute].
    revert id Hid. apply Forall_forall. repeat constructor.
  - split; [exact Hr|]. split; [exact Hack|]. by intros [[= Hx] _]%Ha.
Defined.

(** The appends that reached each replica: [10] got them in another order, and
    the third missed one. *)
Definition demo_appends (id : Z) : list (string * string) :=
  if decide (id = 10) then [("b", "y1"); ("a", "x1")]
  else if decide (id = 2 ^ 62) then [("a", "x1")] else [("a", "x1"); ("b", "y1")].

Lemma demo_holds id :
  holds ["hydfs"] "f.txt" (demo_hnode id (store_with "f.txt" (demo_appends id)))
    (log_blocks (demo_appends id)).
Proof.
  assert (demo_appends id ≠ [] ∧ Z.of_nat (length (demo_appends id)) < two63) as [Hne Hl].
  { unfold demo_appends. by repeat case_decide. }
  destruct (store_with_represents "f.txt" (demo_appends id) Hne) as [Hr Hf]; [by vm_compute|done|].
  split; [|split; [exact Hf|exact Hr]]. apply store_with_wf.
Qed.

Lemma merge_synchronizes_witness :
  let nodes := demo_nodes (λ id, store_with "f.txt" (demo_appends id)) in
  let n := demo_hnode (3 * 2 ^ 62) (store_with "f.txt" (demo_appends (3 * 2 ^ 62))) in
  let '(n', es) := handleCLIMerge (H := poly_env) ["hydfs"] (λ _, true)
    (exchange_with (H := poly_env) ["hydfs"] nodes) [10; 2 ^ 62; 3 * 2 ^ 62] "f.txt" n in
  ∃ blocks, union_of [3 * 2 ^ 62; 10; 2 ^ 62] (λ id, log_blocks (demo_appends id)) blocks ∧
    ∀ id, id ∈ [3 * 2 ^ 62; 10; 2 ^ 62] → ∃ m,
      cl_nodes (run_cluster (H := poly_env) ["hydfs"] 3
        (mkCluster (<[3 * 2 ^ 62 := n']> nodes) (sent_messages es) [])) !! id = Some m ∧
      ReadFile ["hydfs"] "f.txt" (hn_store m) = Ok (contents (sort_blocks blocks)).
Proof.
  intros nodes n.
  assert (replicas_of (H := poly_env) n "f.txt" = [3 * 2 ^ 62; 10; 2 ^ 62]) as Hrep by (by vm_compute).
  pose proof (merge_synchronizes (H := poly_env) ["hydfs"] demo_view "f.txt" nodes (3 * 2 ^ 62) n
    [10; 2 ^ 62; 3 * 2 ^ 62] (λ id, log_blocks (demo_appends id))) as Hc.
  rewrite Hrep in Hc. destruct (handleCLIMerge _ _ _ _ _ _) as [n' es].
  destruct Hc as (blocks & Hu & _ & Hd & _); [done|apply demo_same_view|reflexivity|done| | |].
  - apply (bool_decide_unpack _). vm_compute. exact I.
  - intros id Hid. exists (demo_hnode id (store_with "f.txt" (demo_appends id))).
    split; [|apply demo_holds]. revert id Hid. apply Forall_forall. repeat constructor.
  - exists blocks. split; [exact Hu|exact Hd].
Defined.

(** Without agreement the merge loses an append.  One replica missed the first
    append of a client and gave its number to the second. *)
Definition conflicting_appends (id : Z) : list (string * string) :=
  if decide (id = 10) then [("sink-task-1", "second;")]
  else [("sink-task-1", "first;"); ("sink-task-1", "second;")].

Theorem merge_conflict_loses :
  let nodes := demo_nodes (λ id, store_with "f.txt" (conflicting_appends id)) in
  let n := demo_hnode (3 * 2 ^ 62) (store_with "f.txt" (conflicting_appends (3 * 2 ^ 62))) in
  let '(n', es) := handleCLIMerge (H := poly_env) ["hydfs"] (λ _, true)
    (exchange_with (H := poly_env) ["hydfs"] nodes) [3 * 2 ^ 62; 2 ^ 62; 10] "f.txt" n in
  ReadFile ["hydfs"] "f.txt" (hn_store n) = Ok "first;second;" ∧
  ReadFile ["hydfs"] "f.txt" (hn_store n') = Ok "second;second;".
Proof. vm_compute. by split. Qed.
