(* ===== verification/FileOps.v ===== *)
(** * FileOps: package [pkg/fileops]

    [storage.go] keeps a file as blocks named by time stamp and client, with a
    metadata document that lists them in order; [coordinator.go] places a file
    on the nodes that follow its SHA-1 digest on the ring and sends its first
    block to them.  The disks of the nodes form a world, a map from addresses:
    a coordinator that is one of the replicas sends the request to itself like
    to any other, so its disk is the one that the request finds.  What a node
    does with the line of a request is the argument [listen]: [main_port] is the
    node port of main.go, which ignores it, [package_port] a node that calls
    [HandleReplicateBlock]. *)

From S2P Require Import Prelude GoStrings Env Membership Ring FileSystem Common HyDFS.

(** ** storage.go *)

Definition StorageRoot : path := ["hydfs_storage"].

Record ReplicaNode := mkReplicaNode {
  rn_RingID : Z;
  rn_Hostname : string;
  rn_Port : Z;
}.

Record BlockMetadata := mkBlockMetadata {
  BlockID : BlockIdentifier;
  bm_Size : Z;
  Checksum : string;
  bm_CreatedAt : Z;
}.

Record FileBlockMetadata := mkFileBlockMetadata {
  fb_HyDFSFilename : string;
  fb_Blocks : list BlockMetadata;
  fb_Version : Z;
}.

Abbreviation fdisk := (disk FileBlockMetadata).

Definition InitStorage : io (J := FileBlockMetadata) unit := MkdirAll StorageRoot.

Definition GetFileStoragePath (hydfsFilename : string) : path := path_join StorageRoot hydfsFilename.

Definition block_filename (blockID : BlockIdentifier) : string :=
  "block_" +:+ itoa (bid_Timestamp blockID) +:+ "_" +:+ bid_ClientID blockID.

Definition GetBlockPath (hydfsFilename : string) (blockID : BlockIdentifier) : path :=
  path_join (GetFileStoragePath hydfsFilename ++ ["blocks"]) (block_filename blockID).

Definition GetMetadataPath (hydfsFilename : string) : path :=
  GetFileStoragePath hydfsFilename ++ ["metadata.json"].

Definition FileExists (hydfsFilename : string) (d : fdisk) : bool :=
  Stat d (GetMetadataPath hydfsFilename).

Definition LoadMetadata (hydfsFilename : string) (d : fdisk) : result FileBlockMetadata :=
  match ReadFileRaw d (GetMetadataPath hydfsFilename) with
  | Err _ => Err "failed to read metadata"
  | Ok (Json md) => Ok md
  | Ok (Bytes _) => Err "failed to unmarshal metadata"
  end.

Definition SaveMetadata (metadata : FileBlockMetadata) : io (J := FileBlockMetadata) unit :=
  let metadataPath := GetMetadataPath (fb_HyDFSFilename metadata) in
  _ <-- or_fail (MkdirAll (removelast metadataPath)) "failed to create metadata directory" ;;
  or_fail (WriteFile metadataPath (Json metadata)) "failed to write metadata".

Section storage.
Context `{!GoEnv}.

Definition WriteBlock (now : Z) (hydfsFilename : string) (blockID : BlockIdentifier) (data : string) :
    io (J := FileBlockMetadata) BlockMetadata :=
  let blockPath := GetBlockPath hydfsFilename blockID in
  _ <-- or_fail (MkdirAll (removelast blockPath)) "failed to create blocks directory" ;;
  _ <-- or_fail (WriteFile blockPath (Bytes data)) "failed to write block" ;;
  io_ret (mkBlockMetadata blockID (Z.of_nat (String.length data)) (sha1_hex data) now).

Definition ReadBlock (hydfsFilename : string) (d : fdisk) (blockID : BlockIdentifier) : result string :=
  match ReadBytes d (GetBlockPath hydfsFilename blockID) with
  | Ok data => Ok data
  | Err _ => Err "failed to read block"
  end.

Definition ReadFullFile (hydfsFilename : string) (d : fdisk) : result string :=
  metadata <- LoadMetadata hydfsFilename d ;;
  blocks <- result_mapM (λ b, ReadBlock hydfsFilename d (BlockID b)) (fb_Blocks metadata) ;;
  Ok (foldl String.append "" blocks).

Definition DeleteFile (hydfsFilename : string) : io (J := FileBlockMetadata) unit :=
  RemoveAll (GetFileStoragePath hydfsFilename).

Definition ListLocalFiles (d : fdisk) : result (list string) :=
  if is_dir d StorageRoot then
    Ok (omap (λ e, match e.2 with
                   | NDir => if Stat d (StorageRoot ++ [e.1; "metadata.json"]) then Some e.1 else None
                   | NFile _ => None
                   end) (ReadDir StorageRoot d))
  else if Stat d StorageRoot then Err "not a directory" else Ok [].

Definition GetFileID (hydfsFilename : string) : Z := sha1_u64 hydfsFilename.

(** The first node at or after the file, or the first one. *)
Definition coordinatorIdx (fileID : Z) (nodeIDs : list Z) : nat :=
  match list_find (λ id, fileID ≤ id) nodeIDs with Some (i, _) => i | None => 0%nat end.

(** [order] is the order in which the map of members is visited. *)
Definition GetCoordinatorAndReplicas (order : list (Z * Info)) (hydfsFilename : string)
    (m : Membership) : result (list ReplicaNode) :=
  let fileID := GetFileID hydfsFilename in
  let infoMap := GetInfoMap m in
  let nodeIDs := merge_sort (≤) order.*1 in
  if decide (nodeIDs = []) then Err "no alive nodes in membership"
  else
    let numNodes := length nodeIDs in
    Ok (omap (λ i : nat, nodeID ← nodeIDs !! ((coordinatorIdx fileID nodeIDs + i) mod numNodes)%nat;
                let info := info_of infoMap nodeID in
                Some (mkReplicaNode nodeID (Hostname info) (Port info)))
          (seq 0 (Nat.min 3 numNodes))).

(** [local] is the outcome of reading the local file. *)
Definition CreateBlock (now now' : Z) (hydfsFilename : string) (local : result string)
    (clientID : string) : io (BlockMetadata * BlockIdentifier * string) := λ d,
  match local with
  | Err _ => (Err "failed to read local file", d)
  | Ok data =>
      let blockID := mkBlockIdentifier now clientID in
      (blockMeta <-- WriteBlock now' hydfsFilename blockID data ;;
       io_ret (blockMeta, blockID, data)) d
  end.

(** The output file is rewritten with what it holds so far: [Write] appends. *)
Fixpoint assemble (hydfsFilename : string) (outputPath : path) (acc : string)
    (blocks : list BlockMetadata) : io (J := FileBlockMetadata) unit :=
  match blocks with
  | [] => io_ret tt
  | b :: rest =>
      blockData <-- or_fail (io_read (λ d, ReadBlock hydfsFilename d (BlockID b))) "failed to read block" ;;
      _ <-- or_fail (WriteFile outputPath (Bytes (acc +:+ blockData))) "failed to write to output file" ;;
      assemble hydfsFilename outputPath (acc +:+ blockData) rest
  end.

Definition AssembleFileFromBlocks (hydfsFilename : string) (outputPath : path) :
    io (J := FileBlockMetadata) unit :=
  metadata <-- io_read (LoadMetadata hydfsFilename) ;;
  _ <-- or_fail (WriteFile outputPath (Bytes "")) "failed to create output file" ;;
  assemble hydfsFilename outputPath "" (fb_Blocks metadata).

Definition CopyLocalFileToStorage (local : result string) (storagePath : path) :
    io (J := FileBlockMetadata) unit := λ d,
  match local with
  | Err _ => (Err "failed to open source file", d)
  | Ok data =>
      (_ <-- or_fail (MkdirAll (removelast storagePath)) "failed to create directory" ;;
       _ <-- or_fail (WriteFile storagePath (Bytes "")) "failed to create destination file" ;;
       or_fail (WriteFile storagePath (Bytes data)) "failed to copy file") d
  end.
End storage.

(** ** coordinator.go *)

Record CreateFileRequest := mkCreateFileRequest {
  cr_HyDFSFilename : string;
  cr_ClientID : string;
}.

Record CreateFileResponse := mkCreateFileResponse {
  cr_Success : bool;
  cr_Error : string;
  Replicas : list string;
  cr_FileID : Z;
  CoordinatorID : Z;
}.

Record ReplicateBlockRequest := mkReplicateBlockRequest {
  rr_HyDFSFilename : string;
  rr_BlockID : BlockIdentifier;
  rr_Data : string;
  IsCreate : bool;
}.

Record ReplicateBlockResponse := mkReplicateBlockResponse {
  rr_Success : bool;
  rr_Error : string;
  rr_Hostname : string;
  rr_Port : Z;
}.

Abbreviation world := (gmap string fdisk).

Section coordinator.
Context `{!GoEnv}.

Definition refused (selfInfo : Info) (e : string) : ReplicateBlockResponse :=
  mkReplicateBlockResponse false e (Hostname selfInfo) (Port selfInfo).

Definition HandleReplicateBlock (now : Z) (selfInfo : Info) (req : ReplicateBlockRequest) (d : fdisk) :
    ReplicateBlockResponse * fdisk :=
  let f := rr_HyDFSFilename req in
  if IsCreate req && FileExists f d
  then (refused selfInfo ("file " +:+ f +:+ " already exists"), d)
  else
    match WriteBlock now f (rr_BlockID req) (rr_Data req) d with
    | (Err e, d1) => (refused selfInfo ("failed to write block: " +:+ e), d1)
    | (Ok blockMeta, d1) =>
        let loaded :=
          if FileExists f d1 then
            match LoadMetadata f d1 with
            | Err e => Err e
            | Ok md => Ok (mkFileBlockMetadata (fb_HyDFSFilename md) (fb_Blocks md ++ [blockMeta])
                             (wrap64 (fb_Version md + 1)))
            end
          else Ok (mkFileBlockMetadata f [blockMeta] 1) in
        match loaded with
        | Err e => (refused selfInfo ("failed to load metadata: " +:+ e), d1)
        | Ok md =>
            match SaveMetadata md d1 with
            | (Err e, d2) => (refused selfInfo ("failed to save metadata: " +:+ e), d2)
            | (Ok _, d2) => (mkReplicateBlockResponse true "" (Hostname selfInfo) (Port selfInfo), d2)
            end
        end
    end.

Definition replica_info (r : ReplicaNode) : Info :=
  mkInfo (rn_Hostname r) (rn_Port r) zero_time zero_time 0 Alive.

Definition replica_addr (r : ReplicaNode) : string := rn_Hostname r +:+ ":" +:+ itoa (rn_Port r).

(** What a node does with the line of a request that comes in on its node port:
    the response it writes, if it writes one, and its disk. *)
Definition Listener : Type :=
  ReplicaNode → ReplicateBlockRequest → fdisk → option ReplicateBlockResponse * fdisk.

(** [handleNodeConnection] of main.go: the line decodes as a [NodeMessage] whose
    type is none of the known ones, so [HandleReplicateBlock] is not called and
    nothing is answered ([main_port_ignores]). *)
Definition main_port : Listener := λ _ _ d, (None, d).

(** A node that passes the request to the package, as the code after a failed
    decoding would. *)
Definition package_port (now : Z) : Listener := λ r req d,
  let '(resp, d') := HandleReplicateBlock now (replica_info r) req d in (Some resp, d').

(** The node that listens at the address of the replica gets the request;
    [net] tells which connections work. *)
Definition sendReplicateRequest (net : string → bool) (listen : Listener) (r : ReplicaNode)
    (req : ReplicateBlockRequest) (w : world) : result ReplicateBlockResponse * world :=
  if net (replica_addr r) then
    match w !! replica_addr r with
    | None => (Err "failed to connect", w)
    | Some d =>
        let '(resp, d') := listen r req d in
        (match resp with Some resp => Ok resp | None => Err "failed to read response" end,
         <[replica_addr r := d']> w)
    end
  else (Err "failed to connect", w).

(** The loop over the replicas: the addresses that stored the block. *)
Fixpoint replicate_to (net : string → bool) (listen : Listener) (req : ReplicateBlockRequest)
    (replicas : list ReplicaNode) (w : world) : list string * world :=
  match replicas with
  | [] => ([], w)
  | r :: rest =>
      let '(resp, w1) := sendReplicateRequest net listen r req w in
      let '(ok, w2) := replicate_to net listen req rest w1 in
      (match resp with
       | Ok resp => if rr_Success resp then replica_addr r :: ok else ok
       | Err _ => ok
       end, w2)
  end.

(** [self] is the coordinator's entry in its own membership, [w !! self_addr]
    its disk. *)
Definition HandleCreateFile (net : string → bool) (listen : Listener) (order : list (Z * Info)) (now now' : Z)
    (local : result string) (m : Membership) (selfInfo : Info) (req : CreateFileRequest)
    (w : world) : result CreateFileResponse * world :=
  let f := cr_HyDFSFilename req in
  let self_addr := Hostname selfInfo +:+ ":" +:+ itoa (Port selfInfo) in
  match w !! self_addr with
  | None => (Err "no such node", w)
  | Some d =>
      if FileExists f d
      then (Ok (mkCreateFileResponse false ("file " +:+ f +:+ " already exists") [] 0 0), w)
      else
        match GetCoordinatorAndReplicas order f m with
        | Err _ => (Err "failed to get replicas", w)
        | Ok replicas =>
            match CreateBlock now now' f local (cr_ClientID req) d with
            | (Err _, d1) => (Err "failed to create block", <[self_addr := d1]> w)
            | (Ok (blockMeta, blockID, blockData), d1) =>
                let isSelfReplica := existsb (λ r, bool_decide (rn_Hostname r = Hostname selfInfo)
                                                   && bool_decide (rn_Port r = Port selfInfo)) replicas in
                match (if isSelfReplica then SaveMetadata (mkFileBlockMetadata f [blockMeta] 1) d1
                       else (Ok tt, d1)) with
                | (Err _, d2) => (Err "failed to save metadata", <[self_addr := d2]> w)
                | (Ok _, d2) =>
                    let '(ok, w') := replicate_to net listen (mkReplicateBlockRequest f blockID blockData true)
                                       replicas (<[self_addr := d2]> w) in
                    (Ok (mkCreateFileResponse true "" ok (GetFileID f)
                           match replicas with r :: _ => rn_RingID r | [] => 0 end), w')
                end
            end
        end
  end.
End coordinator.

(** ** The placement and the ring *)

Definition set_alive (info : Info) : Info := set_state Alive info.

Lemma coordinatorIdx_splits ids h :
  StronglySorted (≤) ids →
  let p := coordinatorIdx h ids in
  (p < length ids ∨ ids = [])%nat ∧
  drop p ids ++ take p ids = ring_from h ids.
Proof.
  intros Hs p. unfold ring_from. subst p. unfold coordinatorIdx.
  destruct (list_find (λ id, h ≤ id) ids) as [[i x]|] eqn:E.
  - apply list_find_Some in E as (Hx & Hge & Hlt). apply lookup_lt_Some in Hx as Hi.
    split; [by left|]. rewrite <- (take_drop i ids) at 3 4. rewrite !filter_app.
    assert (Forall (λ id, h ≤ id) (drop i ids)) as Hd.
    { apply Forall_lookup. intros j y Hy. rewrite lookup_drop in Hy.
      destruct j as [|j]; [rewrite Nat.add_0_r in Hy; by simplify_eq|].
      rewrite <- (take_drop_middle _ _ _ Hx) in Hs.
      apply StronglySorted_app in Hs as (_ & _ & Hs). apply StronglySorted_inv in Hs as [_ Hs].
      assert (x ≤ y); [|lia]. rewrite Forall_lookup in Hs. apply (Hs j).
      rewrite lookup_drop. by replace (S i + j)%nat with (i + S j)%nat by lia. }
    assert (Forall (λ id, id < h) (take i ids)) as Ht.
    { apply Forall_lookup. intros j y [Hy Hj]%lookup_take_Some.
      specialize (Hlt j y Hy Hj). lia. }
    rewrite (filter_none _ (take i ids)) by (eapply Forall_impl; [done|]; simpl; lia).
    rewrite (filter_all _ (drop i ids)) by done. rewrite (filter_all _ (take i ids)) by done.
    rewrite (filter_none _ (drop i ids)) by (eapply Forall_impl; [done|]; simpl; lia).
    by rewrite app_nil_r.
  - apply list_find_None in E. split; [destruct ids; [by right|left; simpl; lia]|].
    rewrite drop_0, take_0, app_nil_r.
    rewrite filter_none, filter_all; [done| |]; (eapply Forall_impl; [done|]); simpl; lia.
Qed.

Lemma alive_sorted_all m : alive_sorted (set_alive <$> m) = merge_sort (≤) (map_to_list m).*1.
Proof.
  unfold alive_sorted. apply merge_sort_Perm. rewrite map_to_list_fmap.
  rewrite filter_all.
  - rewrite <- list_fmap_compose. by rewrite (list_fmap_ext _ fst) by (by intros ? []).
  - apply Forall_fmap, Forall_forall. by intros [].
Qed.

Lemma omap_info {A} (l : list Z) (f : Z → A) (js : list nat) (g : nat → nat) :
  omap (λ i, nodeID ← l !! g i; Some (f nodeID)) js = f <$> omap (λ i, l !! g i) js.
Proof. induction js as [|i js IH]; [done|]. simpl. destruct (l !! g i); simpl; [f_equal|]; exact IH. Qed.

(** C8: The coordinator and the replicas that [pkg/fileops] finds by a linear
    search are the successors that [pkg/hashing] finds by a binary search, for
    the same digest, on the ring of all members taken to be alive; so the two
    agree when every member is alive, and [pkg/fileops] also places files on
    failed members otherwise.  It fails only when there is no member. *)
Theorem coordinator_matches_ring `{!GoEnv} (order : list (Z * Info)) (f : string) (m : Membership) :
  order ≡ₚ map_to_list (InfoMap m) →
  match GetCoordinatorAndReplicas order f m with
  | Err _ => InfoMap m = ∅
  | Ok replicas =>
      rn_RingID <$> replicas = GetSuccessors (GetFileID f) (set_alive <$> InfoMap m) NumReplicas ∧
      (∀ r, r ∈ replicas → ∃ info, InfoMap m !! rn_RingID r = Some info ∧
         rn_Hostname r = Hostname info ∧ rn_Port r = Port info) ∧
      ((∀ id info, InfoMap m !! id = Some info → State info = Alive) →
       rn_RingID <$> replicas = GetSuccessors (GetFileID f) (InfoMap m) NumReplicas)
  end.
Proof.
  intros Ho. unfold GetCoordinatorAndReplicas.
  assert (merge_sort (≤) order.*1 = merge_sort (≤) (map_to_list (InfoMap m)).*1) as -> by
    (apply merge_sort_Perm; by rewrite Ho).
  set (ids := merge_sort (≤) _). case_decide as Hids.
  { subst ids. apply map_to_list_empty_iff. apply (fmap_nil_inv fst), Permutation_nil_r.
    rewrite <- Hids. by rewrite merge_sort_Permutation. }
  destruct (coordinatorIdx_splits ids (GetFileID f)) as [[Hp|?] Hring]; [apply StronglySorted_merge_sort; tc_solve| |done].
  rewrite GetInfoMap_copy.
  rewrite (omap_info ids (λ id, mkReplicaNode id (Hostname (info_of (InfoMap m) id))
    (Port (info_of (InfoMap m) id))) _ (λ i, (coordinatorIdx (GetFileID f) ids + i) mod length ids)%nat).
  rewrite omap_rotation by lia. rewrite Hring. set (ring := take _ _).
  assert (rn_RingID <$> ((λ id, mkReplicaNode id (Hostname (info_of (InfoMap m) id))
    (Port (info_of (InfoMap m) id))) <$> ring) = ring) as Hid.
  { rewrite <- list_fmap_compose. apply list_fmap_id. }
  assert (ring = GetSuccessors (GetFileID f) (set_alive <$> InfoMap m) NumReplicas) as Hsucc.
  { rewrite GetSuccessors_ring, alive_sorted_all. fold ids. subst ring.
    pose proof (Permutation_length (ring_from_Permutation (GetFileID f) ids)) as Hlen.
    change (Z.to_nat NumReplicas) with 3%nat.
    destruct (decide (3 <= length ids)%nat); [by rewrite Nat.min_l|].
    rewrite !take_ge by lia. done. }
  rewrite Hid. split; [done|]. split.
  - intros r (id & -> & Hin)%list_elem_of_fmap. simpl. rewrite Hsucc in Hin.
    apply GetSuccessors_alive in Hin as (info & Hin & _).
    rewrite lookup_fmap in Hin. apply fmap_Some in Hin as (info' & Hin & _).
    exists info'. unfold info_of. by rewrite Hin.
  - intros Hal. rewrite Hsucc. f_equal. apply map_eq. intros id. rewrite lookup_fmap.
    destruct (InfoMap m !! id) as [info|] eqn:E; [|done]. simpl. f_equal.
    specialize (Hal _ _ E). destruct info. simpl in *. by subst.
Qed.

(** ** The paths of a file *)

(** A name that is one component of a path. *)
Definition plain_name (s : string) : Prop :=
  s ≠ "" ∧ s ≠ "." ∧ s ≠ ".." ∧ string_forallb (not_char "/"%char) s = true.
#[export] Instance plain_name_dec s : Decision (plain_name s) := _.

Lemma clean_plain l : Forall plain_name l → clean_components l = l.
Proof.
  intros Hl. unfold clean_components.
  assert (∀ acc, foldl clean_step acc l = reverse l ++ acc) as Hf.
  { induction Hl as [|c l (H1 & H2 & H3 & _) Hl IH]; intros acc; [done|]. simpl.
    rewrite IH, reverse_cons, <- app_assoc. f_equal. simpl. unfold clean_step.
    rewrite decide_False by tauto. by rewrite decide_False. }
  by rewrite Hf, app_nil_r, reverse_involutive.
Qed.

Lemma join_plain base s : Forall plain_name base → plain_name s → path_join base s = base ++ [s].
Proof.
  intros Hb Hs. unfold path_join. rewrite split_on_no_sep by apply Hs.
  apply clean_plain, Forall_app. by split; [|constructor].
Qed.

(** The name of a block of a client whose name has no slash. *)
Definition plain_client (id : BlockIdentifier) : Prop :=
  string_forallb (not_char "/"%char) (bid_ClientID id) = true.

Lemma block_filename_plain id : plain_client id → plain_name (block_filename id).
Proof.
  intros Hc. unfold block_filename. split_and!; [done..|].
  rewrite !string_forallb_app. rewrite Hc. simpl. rewrite andb_true_r. by apply itoa_not_char.
Qed.

Definition blocks_dir (f : string) : path := ["hydfs_storage"; f; "blocks"].
Definition metadata_path (f : string) : path := ["hydfs_storage"; f; "metadata.json"].

Lemma storage_path f : plain_name f → GetFileStoragePath f = ["hydfs_storage"; f].
Proof.
  intros Hf. unfold GetFileStoragePath, StorageRoot. rewrite join_plain; [done| |done].
  apply (bool_decide_unpack _). vm_compute. exact I.
Qed.

Lemma GetMetadataPath_eq f : plain_name f → GetMetadataPath f = metadata_path f.
Proof. intros Hf. unfold GetMetadataPath. by rewrite storage_path. Qed.

Lemma GetBlockPath_eq f id :
  plain_name f → plain_client id → GetBlockPath f id = blocks_dir f ++ [block_filename id].
Proof.
  intros Hf Hc. unfold GetBlockPath. rewrite storage_path by done. rewrite join_plain; [done| |].
  - repeat constructor; apply Hf || (apply (bool_decide_unpack _); vm_compute; exact I).
  - by apply block_filename_plain.
Qed.

Lemma block_filename_inj id1 id2 : block_filename id1 = block_filename id2 → id1 = id2.
Proof.
  destruct id1 as [t1 c1], id2 as [t2 c2]. unfold block_filename. simpl. intros [= Heq].
  change ("_" +:+ ?s) with (String "_" s) in Heq.
  apply no_char_app in Heq as [Ht ->]; [|by apply itoa_not_char..].
  by apply itoa_inj in Ht as ->.
Qed.

(** ** Writing on a working disk *)

(** Nothing on the disk is in the way of the file: the directories are not
    regular files, the files not directories. *)
Record store_ok (f : string) (d : fdisk) : Prop := {
  so_wf : wf d;
  so_faults : faults d = [];
  so_dirs q : q ≠ [] → q `prefix_of` blocks_dir f → is_file (nodes d !! q) = false;
  so_meta : nodes d !! metadata_path f ≠ Some NDir;
  so_block n : nodes d !! (blocks_dir f ++ [n]) ≠ Some NDir;
}.

(** The disk [d'] is [d] but for the file at [p] and new directories among the
    prefixes of [dir]. *)
Definition wrote (dir p : path) (c : content FileBlockMetadata) (d d' : fdisk) : Prop :=
  nodes d' !! p = Some (NFile c) ∧
  ∀ q, q ≠ p → nodes d' !! q = nodes d !! q ∨
    nodes d !! q = None ∧ nodes d' !! q = Some NDir ∧ q ≠ [] ∧ q `prefix_of` dir.

Lemma mkdir_write (dir : path) (n : string) (c : content FileBlockMetadata) (d : fdisk) :
  wf d → faults d = [] → (∀ q, q ≠ [] → q `prefix_of` dir → is_file (nodes d !! q) = false) →
  nodes d !! (dir ++ [n]) ≠ Some NDir →
  ∃ d1 d2, MkdirAll dir d = (Ok tt, d1) ∧ WriteFile (dir ++ [n]) c d1 = (Ok tt, d2) ∧
    wf d2 ∧ faults d2 = [] ∧ wrote dir (dir ++ [n]) c d d2.
Proof.
  intros Hwf Hf Hq Hn. pose proof (MkdirAll_wf dir d Hwf) as Hwf1.
  destruct (MkdirAll_cases dir d) as [[e He]|[He _]].
  { exfalso. unfold MkdirAll, next_fault in He. rewrite Hf in He.
    destruct (existsb _ _) eqn:E; [|done]. apply existsb_exists in E as (q & Hin & Hfile).
    rewrite <- list_elem_of_In in Hin. apply elem_of_prefixes in Hin as [Hne Hp].
    by rewrite Hq in Hfile. }
  rewrite He in *. simpl in Hwf1. rewrite Hf in *. set (d1 := mkDisk _ _) in *.
  assert (∀ q, nodes d1 !! q = match nodes d !! q with Some n => Some n | None =>
      if decide (q ≠ [] ∧ q `prefix_of` dir) then Some NDir else None end) as Hl
    by (intros; apply lookup_MkdirAll).
  assert (is_dir d1 dir = true) as Hd.
  { apply is_dir_true. destruct (decide (dir = [])) as [|Hne]; [by left|right]. rewrite Hl.
    specialize (Hq dir Hne). destruct (nodes d !! dir) as [[]|]; [done|by discriminate Hq|].
    by rewrite decide_True. }
  assert (nodes d1 !! (dir ++ [n]) ≠ Some NDir) as Hn1.
  { rewrite Hl. destruct (nodes d !! (dir ++ [n])) as [[]|]; [done..|].
    rewrite decide_False; [done|]. intros [_ [k Hk]]. rewrite <- app_assoc in Hk.
    apply (f_equal length) in Hk. rewrite !length_app in Hk. simpl in Hk. lia. }
  eexists d1, _. split; [done|]. split; [by apply WriteFile_ok|]. split; [|split; [done|split]].
  - pose proof (WriteFile_wf dir n c d1 Hwf1) as Hw. by rewrite WriteFile_ok in Hw.
  - apply lookup_insert_eq.
  - intros q Hne. simpl. rewrite lookup_insert_ne by done. rewrite Hl.
    destruct (nodes d !! q); [by left|]. case_decide as Hp; [right|by left]. by destruct Hp.
Qed.

Lemma prefix_dir (q dir : path) (n : string) : q `prefix_of` dir → q ≠ dir ++ [n].
Proof.
  intros [k ->] Hq. apply (f_equal length) in Hq. rewrite !length_app in Hq. simpl in Hq. lia.
Qed.

Lemma wrote_keeps dir p c d d' q x :
  wrote dir p c d d' → q ≠ p → nodes d !! q = Some x → nodes d' !! q = Some x.
Proof. intros [_ Hw] Hne Hq. destruct (Hw q Hne) as [->|(? & _)]; congruence. Qed.

(** Both documents of a file lie in its directories. *)
Lemma wrote_ok f dir p c d d' :
  store_ok f d → wrote dir p c d d' → wf d' → faults d' = [] →
  dir `prefix_of` blocks_dir f →
  (p = metadata_path f ∨ ∃ n, p = blocks_dir f ++ [n]) → store_ok f d'.
Proof.
  intros [H1 H2 H3 H4 H5] [Hp Hw] Hwf Hf Hdir Hpp. split; [done|done| | |].
  - intros q Hne Hq. assert (q ≠ p) as Hqp.
    { destruct Hpp as [->|[n ->]]; [|by apply prefix_dir]. intros ->.
      destruct Hq as [k Hk]. done. }
    destruct (Hw q Hqp) as [->|(_ & -> & _)]; [by apply H3|done].
  - destruct (decide (metadata_path f = p)) as [<-|Hne]; [by rewrite Hp|].
    destruct (Hw _ Hne) as [->|(_ & _ & _ & Hpre)]; [done|].
    exfalso. assert (metadata_path f `prefix_of` blocks_dir f) as [k Hk] by (by etrans). done.
  - intros n. destruct (decide (blocks_dir f ++ [n] = p)) as [<-|Hne]; [by rewrite Hp|].
    destruct (Hw _ Hne) as [->|(_ & _ & _ & Hpre)]; [done|].
    exfalso. assert (blocks_dir f ++ [n] `prefix_of` blocks_dir f) as [k Hk] by (by etrans). done.
Qed.

(** ** A file as the log of its blocks *)

Section log.
Context `{!GoEnv} (f : string).
Hypothesis Hplain : plain_name f.

Definition block_ok (d : fdisk) (b : BlockMetadata) (e : BlockIdentifier * string) : Prop :=
  BlockID b = e.1 ∧ plain_client e.1 ∧ Checksum b = sha1_hex e.2 ∧
  bm_Size b = Z.of_nat (String.length e.2) ∧
  nodes d !! (blocks_dir f ++ [block_filename e.1]) = Some (NFile (Bytes e.2)).

(** The file consists of the blocks of [log]; without blocks it does not
    exist. *)
Definition file_log (d : fdisk) (log : list (BlockIdentifier * string)) : Prop :=
  store_ok f d ∧
  match log with
  | [] => nodes d !! metadata_path f = None
  | _ => ∃ md, nodes d !! metadata_path f = Some (NFile (Json md)) ∧ fb_HyDFSFilename md = f ∧
           fb_Version md = wrap64 (Z.of_nat (length log)) ∧ Forall2 (block_ok d) (fb_Blocks md) log
  end.

Lemma file_log_exists d log : file_log d log → FileExists f d = bool_decide (log ≠ []).
Proof.
  intros [_ Hl]. unfold FileExists, Stat. rewrite GetMetadataPath_eq by done.
  destruct log; simpl; [by rewrite Hl|]. destruct Hl as (md & -> & _). done.
Qed.

Lemma WriteBlock_ok now id data d :
  store_ok f d → plain_client id →
  ∃ d', WriteBlock now f id data d =
      (Ok (mkBlockMetadata id (Z.of_nat (String.length data)) (sha1_hex data) now), d') ∧
    store_ok f d' ∧ wrote (blocks_dir f) (blocks_dir f ++ [block_filename id]) (Bytes data) d d'.
Proof.
  intros Hok Hc. unfold WriteBlock. rewrite GetBlockPath_eq, removelast_snoc by done.
  destruct (mkdir_write (blocks_dir f) (block_filename id) (Bytes data) d) as
    (d1 & d2 & Hm & Hw & Hwf & Hf & Hwr); [by apply Hok..|].
  exists d2. unfold io_bind, or_fail. rewrite Hm, Hw. split; [done|]. split; [|done].
  eapply wrote_ok; [done|done|done|done|done|]. right. by eexists.
Qed.

Lemma SaveMetadata_ok md d :
  store_ok f d → fb_HyDFSFilename md = f →
  ∃ d', SaveMetadata md d = (Ok tt, d') ∧ store_ok f d' ∧
    wrote ["hydfs_storage"; f] (metadata_path f) (Json md) d d'.
Proof.
  intros Hok Hf. unfold SaveMetadata. rewrite Hf, GetMetadataPath_eq by done.
  assert (["hydfs_storage"; f] `prefix_of` blocks_dir f) as Hpre by (by exists ["blocks"]).
  destruct (mkdir_write ["hydfs_storage"; f] "metadata.json" (Json md) d) as
    (d1 & d2 & Hm & Hw & Hwf & Hfa & Hwr); [by apply Hok|by apply Hok| |by apply (so_meta _ _ Hok)|].
  { intros q Hq Hp. apply (so_dirs _ _ Hok); [done|]. by etrans. }
  change (removelast (metadata_path f)) with ["hydfs_storage"; f].
  change (["hydfs_storage"; f] ++ ["metadata.json"]) with (metadata_path f) in *.
  exists d2. unfold io_bind, or_fail. rewrite Hm, Hw. split; [done|]. split; [|done].
  eapply wrote_ok; [done|done|done|done|done|by left].
Qed.

Lemma block_ok_wrote dir p c d d' b e :
  wrote dir p c d d' → p ≠ blocks_dir f ++ [block_filename e.1] → block_ok d b e → block_ok d' b e.
Proof. intros Hw Hne (H1 & H2 & H3 & H4 & H5). split_and!; [done..|]. by eapply wrote_keeps. Qed.

Lemma blocks_ok_wrote dir p c d d' bs log :
  wrote dir p c d d' → (∀ e, e ∈ log → p ≠ blocks_dir f ++ [block_filename e.1]) →
  Forall2 (block_ok d) bs log → Forall2 (block_ok d') bs log.
Proof.
  intros Hw Hne Hbs. induction Hbs as [|b e bs log Hb Hbs IH]; constructor.
  - eapply block_ok_wrote; [done| |done]. apply Hne. by left.
  - apply IH. intros x Hx. apply Hne. by right.
Qed.

Lemma ReadFullFile_log d log :
  file_log d log → ReadFullFile f d =
    match log with [] => Err "failed to read metadata" | _ => Ok (foldl String.append "" log.*2) end.
Proof.
  intros [_ Hl]. unfold ReadFullFile, LoadMetadata, ReadFileRaw. rewrite GetMetadataPath_eq by done.
  destruct log as [|e0 log]; [by rewrite Hl|]. destruct Hl as (md & -> & _ & _ & Hbs). simpl.
  assert (result_mapM (λ b, ReadBlock f d (BlockID b)) (fb_Blocks md) = Ok (e0 :: log).*2) as ->; [|done].
  induction Hbs as [|b e bs l (Hid & Hc & _ & _ & Hb) Hbs IH]; [done|]. simpl. rewrite IH.
  unfold ReadBlock, ReadBytes, ReadFileRaw. rewrite Hid, GetBlockPath_eq by done. by rewrite Hb.
Qed.

(** What a request does to the log: a creation is refused when there is a file
    already, everything else adds a block. *)
Definition log_request (log : list (BlockIdentifier * string)) (isCreate : bool)
    (e : BlockIdentifier * string) : bool * list (BlockIdentifier * string) :=
  if isCreate && bool_decide (log ≠ []) then (false, log) else (true, log ++ [e]).

(** A block and then the metadata that lists it make the log longer. *)
Lemma extend_log now id data d d1 d2 log md :
  file_log d log → id ∉ log.*1 → plain_client id →
  wrote (blocks_dir f) (blocks_dir f ++ [block_filename id]) (Bytes data) d d1 →
  store_ok f d2 → wrote ["hydfs_storage"; f] (metadata_path f) (Json md) d1 d2 →
  fb_HyDFSFilename md = f → fb_Version md = wrap64 (Z.of_nat (length log) + 1) →
  (∃ bs, fb_Blocks md = bs ++ [mkBlockMetadata id (Z.of_nat (String.length data)) (sha1_hex data) now] ∧
     Forall2 (block_ok d) bs log) →
  file_log d2 (log ++ [(id, data)]).
Proof.
  intros Hl Hid Hc Hw1 Hok Hw2 Hf Hv (bs & Hbs & Hall). split; [done|].
  assert (Forall2 (block_ok d2) (fb_Blocks md) (log ++ [(id, data)])) as H2.
  { assert (∀ n, metadata_path f ≠ blocks_dir f ++ [n]) as Hmn by done.
    rewrite Hbs. apply Forall2_app; [|constructor; [|constructor]].
    - eapply blocks_ok_wrote; [exact Hw2|intros; apply Hmn|].
      eapply blocks_ok_wrote; [exact Hw1| |exact Hall].
      intros e He [_ Heq%block_filename_inj]%app_inj_tail.
      apply Hid. rewrite Heq. by apply list_elem_of_fmap_2.
    - split_and!; [done..|]. eapply wrote_keeps; [exact Hw2|intros Heq; by apply (Hmn _ (eq_sym Heq))|].
      apply Hw1. }
  assert (nodes d2 !! metadata_path f = Some (NFile (Json md))) as Hm by apply Hw2.
  destruct (log ++ [(id, data)]) as [|e l] eqn:E; [by destruct log|]. exists md.
  split_and!; [done|done| |done]. rewrite Hv. f_equal. rewrite <- E, length_app. simpl. lia.
Qed.

Lemma HandleReplicateBlock_log now self c id data d log :
  file_log d log → plain_client id → (c = false → id ∉ log.*1) →
  let '(resp, d') := HandleReplicateBlock now self (mkReplicateBlockRequest f id data c) d in
  rr_Success resp = (log_request log c (id, data)).1 ∧ file_log d' (log_request log c (id, data)).2.
Proof.
  intros Hl Hc Hid2. unfold HandleReplicateBlock, log_request. simpl.
  rewrite (file_log_exists _ _ Hl). destruct (c && bool_decide (log ≠ [])) eqn:Ec; [done|].
  assert (id ∉ log.*1) as Hid.
  { destruct c; [|by apply Hid2]. simpl in Ec. apply bool_decide_eq_false in Ec.
    apply dec_stable in Ec as ->. set_solver. }
  destruct (WriteBlock_ok now id data d (proj1 Hl) Hc) as (d1 & -> & Hok1 & Hw1).
  assert (nodes d1 !! metadata_path f = nodes d !! metadata_path f) as Hm1.
  { destruct (proj2 Hw1 (metadata_path f)) as [|(_ & _ & _ & [k Hk])]; done. }
  unfold FileExists, LoadMetadata, ReadFileRaw, Stat. rewrite GetMetadataPath_eq by done. rewrite Hm1.
  destruct log as [|e log]; simpl in Hl.
  - rewrite (proj2 Hl). simpl.
    destruct (SaveMetadata_ok (mkFileBlockMetadata f [mkBlockMetadata id
      (Z.of_nat (String.length data)) (sha1_hex data) now] 1) d1 Hok1 eq_refl) as (d2 & -> & Hok2 & Hw2).
    split; [done|]. eapply (extend_log now id data d d1 d2 [] _ Hl); try done. by exists [].
  - destruct Hl as [Hok (md & Hmd & Hf & Hv & Hbs)]. rewrite Hmd. simpl. rewrite Hf.
    edestruct SaveMetadata_ok as (d2 & -> & Hok2 & Hw2); [exact Hok1| |]; [done|].
    split; [done|]. eapply (extend_log now id data d d1 d2 (e :: log)); try done.
    + split; [done|]. by exists md.
    + simpl. rewrite Hv. apply wrap64_succ.
    + by eexists.
Qed.
End log.

(** ** Requests in sequence *)

Section run.
Context `{!GoEnv}.

Abbreviation request := (bool * (BlockIdentifier * string))%type.

(** The requests of a replica: whether each was accepted, and the disk. *)
Fixpoint run_requests (now : Z) (self : Info) (f : string) (l : list request) (d : fdisk) :
    list bool * fdisk :=
  match l with
  | [] => ([], d)
  | (c, (id, data)) :: rest =>
      let '(resp, d1) := HandleReplicateBlock now self (mkReplicateBlockRequest f id data c) d in
      let '(oks, d2) := run_requests now self f rest d1 in
      (rr_Success resp :: oks, d2)
  end.

(** What the requests do to the log. *)
Fixpoint log_requests (l : list request) (log : list (BlockIdentifier * string)) :
    list bool * list (BlockIdentifier * string) :=
  match l with
  | [] => ([], log)
  | (c, e) :: rest =>
      let '(ok, log1) := log_request log c e in
      let '(oks, log2) := log_requests rest log1 in (ok :: oks, log2)
  end.

Lemma run_requests_log now self f l d log :
  plain_name f → file_log f d log → Forall (λ r : request, plain_client r.2.1) l →
  NoDup (log.*1 ++ (snd <$> l).*1) →
  let '(oks, d') := run_requests now self f l d in
  oks = (log_requests l log).1 ∧ file_log f d' (log_requests l log).2.
Proof.
  intros Hf. revert d log. induction l as [|[c [id data]] l IH]; intros d log Hl Hc Hnd; [done|].
  apply Forall_cons in Hc as [Hc1 Hc]. simpl in Hnd, Hc1.
  assert (id ∉ log.*1) as Hid.
  { apply NoDup_app in Hnd as (_ & Hnd & _). intros Hin. apply (Hnd id Hin). by left. }
  simpl. pose proof (HandleReplicateBlock_log f Hf now self c id data d log Hl Hc1 (λ _, Hid)) as Hs.
  destruct (HandleReplicateBlock _ _ _ _) as [resp d1]. destruct Hs as [Hok Hl1].
  assert (NoDup ((log_request log c (id, data)).2.*1 ++ (snd <$> l).*1)) as Hnd1.
  { unfold log_request. destruct (c && _); simpl.
    - eapply sublist_NoDup; [exact Hnd|]. apply sublist_app; [done|]. by apply sublist_cons.
    - rewrite fmap_app, <- app_assoc. done. }
  destruct (log_request log c (id, data)) as [ok log1] eqn:E. simpl in *.
  pose proof (IH d1 log1 Hl1 Hc Hnd1) as Hr.
  destruct (run_requests _ _ _ _ _) as [oks d2], (log_requests l log1) as [oks' log2].
  destruct Hr as [-> Hr]. by rewrite Hok.
Qed.

(** C6: A replica implements the log of a file: after any sequence of requests
    with distinct blocks it accepted exactly those that are not the creation of
    a file that exists, and the file reads as the concatenation of what it
    accepted, in that order; it does not exist when nothing was accepted. *)
Theorem replica_implements_log (now : Z) (self : Info) (f : string) (l : list request) (d : fdisk) :
  plain_name f → store_ok f d → FileExists f d = false →
  Forall (λ r : request, plain_client r.2.1) l → NoDup (snd <$> l).*1 →
  let '(oks, d') := run_requests now self f l d in
  let '(oks', log) := log_requests l [] in
  oks = oks' ∧ FileExists f d' = bool_decide (log ≠ []) ∧
  ReadFullFile f d' = match log with [] => Err "failed to read metadata"
                      | _ => Ok (foldl String.append "" log.*2) end.
Proof.
  intros Hf Hok Hex Hc Hnd.
  assert (file_log f d []) as Hl.
  { split; [done|]. unfold FileExists, Stat in Hex. rewrite GetMetadataPath_eq in Hex by done.
    apply orb_false_iff in Hex as [_ Hex]. apply bool_decide_eq_false in Hex.
    by apply eq_None_not_Some. }
  pose proof (run_requests_log now self f l d [] Hf Hl Hc Hnd) as Hr.
  destruct (run_requests _ _ _ _ _) as [oks d'], (log_requests l []) as [oks' log].
  destruct Hr as [-> Hr]. split; [done|]. split; [by apply file_log_exists|by apply ReadFullFile_log].
Qed.
End run.

(** The disk of the examples. *)
Definition fresh_disk : fdisk := mkDisk ∅ [].

Lemma fresh_store_ok f : store_ok f fresh_disk.
Proof. split; [|done|..]; intros; simpl in *; try rewrite lookup_empty in *; try done. by intros p n [x Hx]. Qed.

Definition demo_requests : list (bool * (BlockIdentifier * string)) :=
  [(true, (mkBlockIdentifier 1 "c", "ab")); (true, (mkBlockIdentifier 2 "d", "xx"));
   (false, (mkBlockIdentifier 3 "c", "cd"))].

Lemma replica_implements_log_witness :
  let '(oks, d') := run_requests (H := poly_env) 5 zero_info "f.txt" demo_requests fresh_disk in
  oks = [true; false; true] ∧ ReadFullFile "f.txt" d' = Ok "abcd".
Proof.
  pose proof (replica_implements_log (H := poly_env) 5 zero_info "f.txt" demo_requests fresh_disk
    ltac:(apply (bool_decide_unpack _); vm_compute; exact I) (fresh_store_ok _) eq_refl
    ltac:(by repeat constructor) ltac:(apply (bool_decide_unpack _); vm_compute; exact I)) as Hr.
  destruct (run_requests _ _ _ _ _) as [oks d']. destruct Hr as (-> & _ & Hr). split; [done|exact Hr].
Defined.

(** ** The creation of a file *)

(** The line of a request as main.go decodes it: nothing happens. *)
Definition replicate_line : NodeMessage := unknown_type "replicate_block".

Lemma main_port_ignores `{!GoEnv} base net exchange n r req d :
  handleNodeMessage base net exchange replicate_line n = Some (n, []) ∧ main_port r req d = (None, d).
Proof. done. Qed.

Section create.
Context `{!GoEnv} (f : string).
Hypothesis Hplain : plain_name f.

Lemma replicate_to_log now id data self_addr rs w :
  plain_client id → NoDup (replica_addr <$> rs) →
  (∀ r, r ∈ rs → ∃ d, w !! replica_addr r = Some d ∧
     file_log f d (if decide (replica_addr r = self_addr) then [(id, data)] else [])) →
  let '(ok, w') := replicate_to (λ _, true) (package_port now) (mkReplicateBlockRequest f id data true) rs w in
  ok = filter (λ a, a ≠ self_addr) (replica_addr <$> rs) ∧
  (∀ r, r ∈ rs → ∃ d, w' !! replica_addr r = Some d ∧ file_log f d [(id, data)]) ∧
  (∀ a, a ∉ replica_addr <$> rs → w' !! a = w !! a).
Proof.
  intros Hc. revert w. induction rs as [|r rs IH]; intros w Hnd Hd; [split_and!; [done|set_solver|done]|].
  apply NoDup_cons in Hnd as [Hr Hnd]. simpl. unfold sendReplicateRequest.
  destruct (Hd r ltac:(by left)) as (d & Hw & Hl). rewrite Hw. unfold package_port at 1.
  pose proof (HandleReplicateBlock_log f Hplain now (replica_info r) true id data d _ Hl Hc) as Hs.
  destruct (HandleReplicateBlock _ _ _ _) as [resp d']. destruct Hs as [Hok Hl']; [done|].
  specialize (IH (<[replica_addr r := d']> w) Hnd). destruct (replicate_to _ _ _ rs _) as [ok w'].
  destruct IH as (IH1 & IH2 & IH3).
  { intros x Hx. rewrite lookup_insert_ne; [apply Hd; by right|].
    intros Heq. apply Hr. rewrite Heq. by apply list_elem_of_fmap_2. }
  assert (file_log f d' [(id, data)]) as Hd' by (by case_decide).
  split; [|split].
  - rewrite filter_cons. case_decide as Hself; simpl in Hok; rewrite Hok; subst ok.
    + by rewrite decide_False by tauto.
    + by rewrite decide_True.
  - intros x [->|Hx]%elem_of_cons; [|by apply IH2]. exists d'. split; [|done].
    rewrite IH3 by done. apply lookup_insert_eq.
  - intros a [Ha1 Ha2]%not_elem_of_cons. rewrite IH3 by done. by rewrite lookup_insert_ne.
Qed.

Lemma self_replica (selfInfo : Info) rs :
  string_forallb (not_char ":"%char) (Hostname selfInfo) = true →
  (∀ r, r ∈ rs → string_forallb (not_char ":"%char) (rn_Hostname r) = true) →
  existsb (λ r, bool_decide (rn_Hostname r = Hostname selfInfo)
                && bool_decide (rn_Port r = Port selfInfo)) rs =
  bool_decide (Hostname selfInfo +:+ ":" +:+ itoa (Port selfInfo) ∈ replica_addr <$> rs).
Proof.
  intros Hs Hr. apply Bool.eq_iff_eq_true. rewrite existsb_exists, bool_decide_eq_true, list_elem_of_fmap.
  split.
  - intros (r & Hin & [H1 H2]%andb_true_iff). exists r. rewrite <- list_elem_of_In in Hin.
    apply bool_decide_eq_true in H1, H2. unfold replica_addr. by rewrite H1, H2.
  - intros (r & Heq & Hin). exists r. rewrite <- list_elem_of_In. split; [done|].
    unfold replica_addr in Heq. change (":" +:+ ?s) with (String ":" s) in Heq.
    apply no_char_app in Heq as [-> Hp]; [|done|by apply Hr]. apply itoa_inj in Hp as ->.
    by rewrite !bool_decide_eq_true_2.
Qed.

(** What the coordinator does by itself: it keeps the file when it is a replica,
    and the block alone when it is none. *)
Lemma HandleCreateFile_local (net : string → bool) (listen : Listener) (order : list (Z * Info))
    (now now' : Z) (content client : string) (m : Membership) (selfInfo : Info) (w : world) (d : fdisk)
    (rs : list ReplicaNode) :
  let self_addr := Hostname selfInfo +:+ ":" +:+ itoa (Port selfInfo) in
  let id := mkBlockIdentifier now client in
  w !! self_addr = Some d → file_log f d [] → GetCoordinatorAndReplicas order f m = Ok rs →
  plain_client id →
  string_forallb (not_char ":"%char) (Hostname selfInfo) = true →
  (∀ r, r ∈ rs → string_forallb (not_char ":"%char) (rn_Hostname r) = true) →
  ∃ d2, HandleCreateFile net listen order now now' (Ok content) m selfInfo (mkCreateFileRequest f client) w =
    (let '(ok, w') := replicate_to net listen (mkReplicateBlockRequest f id content true) rs
                       (<[self_addr := d2]> w) in
     (Ok (mkCreateFileResponse true "" ok (GetFileID f)
            match rs with r :: _ => rn_RingID r | [] => 0 end), w')) ∧
    (self_addr ∈ replica_addr <$> rs → file_log f d2 [(id, content)]) ∧
    (self_addr ∉ replica_addr <$> rs → file_log f d2 [] ∧ ReadBlock f d2 id = Ok content).
Proof.
  intros self_addr id Hw Hl Hrs Hc Hh1 Hh2. unfold HandleCreateFile.
  cbn [cr_HyDFSFilename cr_ClientID]. fold self_addr. cbv zeta. rewrite Hw.
  rewrite (file_log_exists _ Hplain _ _ Hl), bool_decide_eq_false_2, Hrs by auto.
  unfold CreateBlock, io_bind at 1. fold id.
  destruct (WriteBlock_ok f Hplain now' id content d (proj1 Hl) Hc) as (d1 & -> & Hok1 & Hw1). simpl.
  rewrite (self_replica _ _ Hh1 Hh2). fold self_addr.
  assert (file_log f d1 []) as Hl1.
  { split; [done|]. destruct (proj2 Hw1 (metadata_path f)) as [->|(_ & _ & _ & [k Hk])]; [done| |done].
    apply Hl. }
  case_bool_decide as Hself.
  - edestruct (SaveMetadata_ok f Hplain) as (d2 & -> & Hok2 & Hw2); [exact Hok1|done|].
    exists d2. split; [done|]. split; [|done]. intros _.
    eapply (extend_log f now' id content d d1 d2 []); try done; [set_solver|]. by exists [].
  - exists d1. split; [done|]. split; [done|]. intros _. split; [done|].
    unfold ReadBlock, ReadBytes, ReadFileRaw. rewrite GetBlockPath_eq by done. by rewrite (proj1 Hw1).
Qed.

Lemma replicate_to_main net req rs w : replicate_to net main_port req rs w = ([], w).
Proof.
  revert w. induction rs as [|r rs IH]; intros w; [done|]. simpl. unfold sendReplicateRequest.
  destruct (net _); [|by rewrite IH]. destruct (w !! replica_addr r) as [d|] eqn:Hd; [|by rewrite IH].
  simpl. rewrite (insert_id _ _ _ Hd). by rewrite IH.
Qed.

(** With nodes that pass the request to the package, a created file can be read
    on every replica that [pkg/fileops] chose, with the coordinator's copy among
    them when it is one; but a coordinator that is a replica refuses its own
    request and is missing from the list of the answer, and one that is none
    keeps the block of a file that does not exist there. *)
Theorem create_reaches_replicas (order : list (Z * Info)) (now now' : Z) (content client : string)
    (m : Membership) (selfInfo : Info) (w : world) (d : fdisk) (rs : list ReplicaNode) :
  let self_addr := Hostname selfInfo +:+ ":" +:+ itoa (Port selfInfo) in
  w !! self_addr = Some d → file_log f d [] → GetCoordinatorAndReplicas order f m = Ok rs →
  (∀ r, r ∈ rs → ∃ d, w !! replica_addr r = Some d ∧ file_log f d []) →
  NoDup (replica_addr <$> rs) → plain_client (mkBlockIdentifier now client) →
  string_forallb (not_char ":"%char) (Hostname selfInfo) = true →
  (∀ r, r ∈ rs → string_forallb (not_char ":"%char) (rn_Hostname r) = true) →
  let '(resp, w') := HandleCreateFile (λ _, true) (package_port now') order now now' (Ok content) m
                       selfInfo (mkCreateFileRequest f client) w in
  (∃ a, resp = Ok a ∧ cr_Success a = true ∧
     Replicas a = filter (λ a, a ≠ self_addr) (replica_addr <$> rs)) ∧
  (∀ r, r ∈ rs → ∃ d', w' !! replica_addr r = Some d' ∧ ReadFullFile f d' = Ok content) ∧
  (self_addr ∉ replica_addr <$> rs → ∃ d', w' !! self_addr = Some d' ∧
     FileExists f d' = false ∧ ReadBlock f d' (mkBlockIdentifier now client) = Ok content).
Proof.
  intros self_addr Hw Hl Hrs Hds Hnd Hc Hh1 Hh2.
  destruct (HandleCreateFile_local (λ _, true) (package_port now') order now now' content client m selfInfo
    w d rs Hw Hl Hrs Hc Hh1 Hh2) as (d2 & -> & Hin & Hout). fold self_addr in Hin, Hout |- *.
  pose proof (replicate_to_log now' _ content self_addr rs (<[self_addr:=d2]> w) Hc Hnd) as Hr.
  destruct (replicate_to _ _ _ _ _) as [ok w']. destruct Hr as (-> & Hdone & Hframe).
  { intros r Hr. case_decide as Hself.
    - exists d2. rewrite Hself, lookup_insert_eq. split; [done|]. apply Hin. rewrite <- Hself.
      by apply list_elem_of_fmap_2.
    - rewrite lookup_insert_ne by done. by apply Hds. }
  split; [by eexists|]. split.
  - intros r Hr. destruct (Hdone r Hr) as (d' & ? & Hd'). exists d'. split; [done|].
    by rewrite (ReadFullFile_log _ Hplain _ _ Hd').
  - intros Hself. exists d2. rewrite Hframe, lookup_insert_eq by done. destruct (Hout Hself) as [Hl2 Hb].
    split; [done|]. split; [by rewrite (file_log_exists _ Hplain _ _ Hl2)|done].
Qed.

(** C7: With the node port of main.go no replica gets the file: the creation is
    answered as a success with an empty list of replicas, whatever the network
    does, and the disk of no other node changes.  The coordinator alone has the
    file, if it is one of the replicas; if it is none, the file exists nowhere
    and the coordinator keeps its block. *)
Theorem create_reaches_no_replica (net : string → bool) (order : list (Z * Info)) (now now' : Z)
    (content client : string) (m : Membership) (selfInfo : Info) (w : world) (d : fdisk)
    (rs : list ReplicaNode) :
  let self_addr := Hostname selfInfo +:+ ":" +:+ itoa (Port selfInfo) in
  w !! self_addr = Some d → file_log f d [] → GetCoordinatorAndReplicas order f m = Ok rs →
  plain_client (mkBlockIdentifier now client) →
  string_forallb (not_char ":"%char) (Hostname selfInfo) = true →
  (∀ r, r ∈ rs → string_forallb (not_char ":"%char) (rn_Hostname r) = true) →
  let '(resp, w') := HandleCreateFile net main_port order now now' (Ok content) m selfInfo
                       (mkCreateFileRequest f client) w in
  (∃ a, resp = Ok a ∧ cr_Success a = true ∧ Replicas a = []) ∧
  (∀ addr, addr ≠ self_addr → w' !! addr = w !! addr) ∧
  ∃ d', w' !! self_addr = Some d' ∧
    (self_addr ∈ replica_addr <$> rs → ReadFullFile f d' = Ok content) ∧
    (self_addr ∉ replica_addr <$> rs → FileExists f d' = false ∧
       ReadBlock f d' (mkBlockIdentifier now client) = Ok content).
Proof.
  intros self_addr Hw Hl Hrs Hc Hh1 Hh2.
  destruct (HandleCreateFile_local net main_port order now now' content client m selfInfo
    w d rs Hw Hl Hrs Hc Hh1 Hh2) as (d2 & -> & Hin & Hout). fold self_addr in Hin, Hout |- *.
  rewrite replicate_to_main. split; [by eexists|]. split; [intros addr Ha; by apply lookup_insert_ne|].
  exists d2. split; [apply lookup_insert_eq|]. split.
  - intros Hself. by rewrite (ReadFullFile_log _ Hplain _ _ (Hin Hself)).
  - intros Hself. destruct (Hout Hself) as [Hl2 Hb]. split; [|done]. by rewrite (file_log_exists _ Hplain _ _ Hl2).
Qed.
End create.

(** Three nodes; the file falls on all of them, or on others than [vm4]. *)
Definition demo_members : Membership :=
  mkMembership [10; 20; 30] {[ 10 := mkInfo "vm1" 8000 0 0 0 Alive; 20 := mkInfo "vm2" 8000 0 0 0 Alive;
    30 := mkInfo "vm3" 8000 0 0 0 Alive ]} 0.

Definition demo_world : world := {[ "vm1:8000" := fresh_disk; "vm2:8000" := fresh_disk;
  "vm3:8000" := fresh_disk; "vm4:8000" := fresh_disk ]}.

Lemma coordinator_matches_ring_witness :
  ∃ replicas, GetCoordinatorAndReplicas (H := poly_env) (map_to_list (InfoMap demo_members)) "f.txt"
      demo_members = Ok replicas ∧
    rn_RingID <$> replicas =
      GetSuccessors (GetFileID (H := poly_env) "f.txt") (InfoMap demo_members) NumReplicas.
Proof.
  pose proof (coordinator_matches_ring (H := poly_env) (map_to_list (InfoMap demo_members)) "f.txt"
    demo_members ltac:(reflexivity)) as Hm.
  destruct (GetCoordinatorAndReplicas _ _ _) as [replicas|e].
  - exists replicas. split; [done|]. apply Hm. apply (bool_decide_unpack (map_Forall (λ _ info, State info = Alive) _)).
    vm_compute. exact I.
  - discriminate Hm.
Defined.

Lemma create_reaches_replicas_witness :
  let '(resp, w') := HandleCreateFile (H := poly_env) (λ _, true) (package_port (H := poly_env) 6) (map_to_list (InfoMap demo_members)) 5 6
    (Ok "hello") demo_members (mkInfo "vm1" 8000 0 0 0 Alive) (mkCreateFileRequest "f.txt" "c") demo_world in
  (∃ a, resp = Ok a ∧ "vm1:8000" ∉ Replicas a ∧ length (Replicas a) = 2%nat) ∧
  ∃ d, w' !! "vm1:8000" = Some d ∧ ReadFullFile "f.txt" d = Ok "hello".
Proof.
  assert (GetCoordinatorAndReplicas (H := poly_env) (map_to_list (InfoMap demo_members)) "f.txt"
    demo_members = Ok [mkReplicaNode 10 "vm1" 8000; mkReplicaNode 20 "vm2" 8000;
      mkReplicaNode 30 "vm3" 8000]) as Hrs by (by vm_compute).
  assert (plain_name "f.txt") as Hp by (apply (bool_decide_unpack _); vm_compute; exact I).
  assert (file_log (H := poly_env) "f.txt" fresh_disk []) as Hl by (split; [apply fresh_store_ok|done]).
  pose proof (create_reaches_replicas (H := poly_env) "f.txt" Hp (map_to_list (InfoMap demo_members)) 5 6
    "hello" "c" demo_members (mkInfo "vm1" 8000 0 0 0 Alive) demo_world fresh_disk _ eq_refl Hl Hrs) as Hc.
  destruct (HandleCreateFile _ _ _ _ _ _ _ _ _ _) as [resp w'].
  destruct Hc as ((a & -> & _ & Ha) & Hr & _).
  - intros r Hr. exists fresh_disk. split; [|done]. revert r Hr. apply Forall_forall. by repeat constructor.
  - apply (bool_decide_unpack _). vm_compute. exact I.
  - done.
  - done.
  - apply Forall_forall. by repeat constructor.
  - split; [exists a; rewrite Ha; split; [done|]; split; [|by vm_compute]|].
    + apply (bool_decide_unpack _). vm_compute. exact I.
    + apply (Hr (mkReplicaNode 10 "vm1" 8000)). by left.
Defined.

(** The coordinator is a replica, and the only node with the file. *)
Lemma create_reaches_no_replica_witness :
  let '(resp, w') := HandleCreateFile (H := poly_env) (λ _, true) main_port (map_to_list (InfoMap demo_members))
    5 6 (Ok "hello") demo_members (mkInfo "vm1" 8000 0 0 0 Alive) (mkCreateFileRequest "f.txt" "c") demo_world in
  (∃ a, resp = Ok a ∧ cr_Success a = true ∧ Replicas a = []) ∧
  (∃ d, w' !! "vm1:8000" = Some d ∧ ReadFullFile "f.txt" d = Ok "hello") ∧
  w' !! "vm2:8000" = Some fresh_disk.
Proof.
  assert (GetCoordinatorAndReplicas (H := poly_env) (map_to_list (InfoMap demo_members)) "f.txt"
    demo_members = Ok [mkReplicaNode 10 "vm1" 8000; mkReplicaNode 20 "vm2" 8000;
      mkReplicaNode 30 "vm3" 8000]) as Hrs by (by vm_compute).
  assert (plain_name "f.txt") as Hp by (apply (bool_decide_unpack _); vm_compute; exact I).
  assert (file_log (H := poly_env) "f.txt" fresh_disk []) as Hl by (split; [apply fresh_store_ok|done]).
  pose proof (create_reaches_no_replica (H := poly_env) "f.txt" Hp (λ _, true) (map_to_list (InfoMap demo_members))
    5 6 "hello" "c" demo_members (mkInfo "vm1" 8000 0 0 0 Alive) demo_world fresh_disk _ eq_refl Hl Hrs) as Hc.
  destruct (HandleCreateFile _ _ _ _ _ _ _ _ _ _) as [resp w'].
  destruct Hc as (Ha & Hframe & d' & Hd & Hin & _).
  - done.
  - done.
  - apply Forall_forall. by repeat constructor.
  - split; [exact Ha|]. split; [|by rewrite Hframe].
    exists d'. split; [exact Hd|]. apply Hin. apply list_elem_of_fmap. exists (mkReplicaNode 10 "vm1" 8000).
    split; [done|by left].
Defined.
