(* ===== verification/Logging.v ===== *)
(** * Logging: the distributed grep of [pkg/logging/logger.go]

    [Query] runs grep over the newest log file of a node, [QueryDistributed]
    asks the nodes over their client port and formats what they answer; what a
    node answers is in [main.go], the client command [dgrep_query].  The
    process [grep] and the listing of the directory [logs] are arguments; a
    connection is the answer of the other side.  The order in which the
    answers come in is an argument. *)

From S2P Require Import Prelude GoStrings.

(** ** getMachineNumber *)

Fixpoint leading_digits (s : string) : string :=
  match s with
  | String c s' => if is_digit c then String c (leading_digits s') else EmptyString
  | EmptyString => EmptyString
  end.

(** The first match of [node(\d+)], its group. *)
Fixpoint node_digits (s : string) : option string :=
  let digits := leading_digits (drop_string 4 s) in
  if has_prefix "node" s && negb (bool_decide (digits = "")) then Some digits
  else match s with String _ s' => node_digits s' | EmptyString => None end.

(** The match of [(\d+)$]. *)
Fixpoint trailing_digits (s : string) : option string :=
  match s with
  | String _ s' => if string_forallb is_digit s then Some s else trailing_digits s'
  | EmptyString => None
  end.

Definition getMachineNumber (hostname : string) : result Z :=
  match node_digits hostname ≫= atoi with
  | Some num => Ok num
  | None =>
      match trailing_digits hostname ≫= atoi with
      | Some num => Ok num
      | None => Err ("no machine number found in hostname: " +:+ hostname)
      end
  end.

(** ** Query *)

(** The end of the process [grep]. *)
Inductive GrepExit :=
  | GrepSuccess (output : string)
  | GrepExitCode (code : Z)
  | GrepFailed (e : string).

(** The names [prefix*.log]. *)
Definition glob_log (prefix : string) (logs : list string) : list string :=
  filter (λ name, has_prefix prefix name = true ∧ has_suffix ".log" name = true ∧
                  (String.length prefix + 4 ≤ String.length name)%nat) logs.

(** [logs] is what the directory [logs] holds, [grep] runs over the file whose
    name comes last in its arguments. *)
Definition Query (os_hostname : result string) (logs : list string) (grep : list string → GrepExit)
    (grepArgs : list string) : result string :=
  let hostname := match os_hostname with Ok h => h | Err _ => "unknown-host" end in
  machineNum <- getMachineNumber hostname ;;
  let matches := match glob_log ("node" +:+ itoa machineNum +:+ "_") logs with
                 | [] => glob_log ("vm" +:+ pad_zero 2 machineNum +:+ "_") logs
                 | l => l
                 end in
  match last (merge_sort str_le matches) with
  | None => Ok ""
  | Some logFile =>
      match grep (grepArgs ++ ["logs/" +:+ logFile]) with
      | GrepSuccess output => Ok output
      | GrepExitCode code =>
          if (code =? 1) || (code =? 2) then Ok ""
          else Err ("command execution failed: exit status " +:+ itoa code)
      | GrepFailed e => Err ("command execution failed: " +:+ e)
      end
  end.

(** ** The answer of a node, main.go *)

(** [writeResp] *)
Definition resp (s : string) : string := if has_suffix nl s then s else s +:+ nl.

Definition END_DGREP : string := "END_DGREP".

(** The client command [dgrep_query]: [query] is [Query] on the node. *)
Definition dgrep_query (query : list string → result string) (parts : list string) : string :=
  match parts with
  | [] | [_] => resp "ERR usage: dgrep_query <grep-args>" +:+ resp END_DGREP
  | _ :: grepArgs =>
      match query grepArgs with
      | Err e => resp ("ERROR: " +:+ e) +:+ resp END_DGREP
      | Ok output =>
          if decide (output = "") then resp END_DGREP else resp output +:+ resp END_DGREP
      end
  end.

(** ** QueryDistributed *)

Record GrepResult := mkGrepResult {
  gr_Hostname : string;
  VMNumber : Z;
  Output : string;
  gr_Error : option string;
  LineCount : Z;
}.

(** What a connection to a node yields: no connection, no request sent, or the
    bytes up to the end of the stream or to an error. *)
Inductive Answer :=
  | ConnFailed (e : string)
  | SendFailed (e : string)
  | Stream (bytes : string) (read_error : option string).

Definition max_token : Z := 1024 * 1024.

(** The tokens of [bufio.ScanLines], without the limit. *)
Definition tokens (bytes : string) : list string :=
  let l := split_on NL bytes in
  match last l with Some "" => removelast l | _ => l end.

Definition drop_cr (line : string) : string := trim_suffix line (String (Ascii.ascii_of_nat 13) "").

Fixpoint read_lines (l : list string) (read_error : option string) (output : string) (lineCount : Z) :
    result (string * Z) :=
  match l with
  | [] => match read_error with None => Ok (output, lineCount) | Some e => Err e end
  | token :: rest =>
      if max_token <=? Z.of_nat (String.length token) then Err "bufio.Scanner: token too long"
      else
        let line := drop_cr token in
        if decide (line = END_DGREP) then Ok (output, lineCount)
        else if decide (line = "") then read_lines rest read_error output lineCount
        else read_lines rest read_error (output +:+ line +:+ nl) (lineCount + 1)
  end.

Definition host_result (host : string) (num : Z) (a : Answer) : GrepResult :=
  match a with
  | ConnFailed e => mkGrepResult host num "" (Some ("connection failed: " +:+ e)) 0
  | SendFailed e => mkGrepResult host num "" (Some ("send failed: " +:+ e)) 0
  | Stream bytes read_error =>
      match read_lines (tokens bytes) read_error "" 0 with
      | Err e => mkGrepResult host num "" (Some ("read failed: " +:+ e)) 0
      | Ok (output, lineCount) => mkGrepResult host num output None lineCount
      end
  end.

(** The counters of the summary. *)
Definition totalLines (results : list GrepResult) : Z :=
  foldr (λ r acc, match gr_Error r with
                  | Some _ => acc
                  | None => if decide (Output r = "") then acc else LineCount r + acc
                  end) 0 results.

Definition successCount (results : list GrepResult) : Z :=
  foldr (λ r acc, match gr_Error r with Some _ => acc | None => 1 + acc end) 0 results.

Definition previewLines : nat := 5.

(** The block of one node. *)
Definition show_result (r : GrepResult) : string :=
  "VM" +:+ pad_zero 2 (VMNumber r) +:+ " (" +:+ gr_Hostname r +:+ "):" +:+ nl +:+
  repeat_string "─" 40 +:+ nl +:+
  match gr_Error r with
  | Some e => "  ERROR: " +:+ e +:+ nl +:+ nl
  | None =>
      if decide (Output r = "") then "  No matches" +:+ nl +:+ nl
      else
        let lines := split_on NL (trim_space (Output r)) in
        "  " +:+ itoa (LineCount r) +:+ " lines matched:" +:+ nl +:+
        join "" ((λ l, "  " +:+ l +:+ nl) <$> take previewLines lines) +:+
        (if decide (previewLines < length lines)%nat
         then "  ... (" +:+ itoa (Z.of_nat (length lines - previewLines)) +:+ " more lines)" +:+ nl
         else "") +:+ nl
  end.

Definition by_number (r1 r2 : GrepResult) : Prop := VMNumber r1 <= VMNumber r2.
#[export] Instance by_number_dec r1 r2 : Decision (by_number r1 r2) := Z.le_dec _ _.

(** The results, sorted; [order] is the order in which the answers come in, so
    that equal numbers come in any order. *)
Definition all_results (connect : string → string → Answer) (grepArgs : list string)
    (order : list (string * Z)) : list GrepResult :=
  let cmd := "dgrep_query " +:+ join " " grepArgs +:+ nl in
  merge_sort by_number ((λ p, host_result p.1 p.2 (connect (p.1 +:+ ":8003") cmd)) <$> order).

Definition QueryDistributed (connect : string → string → Answer) (grepArgs : list string)
    (order : list (string * Z)) : string :=
  let results := all_results connect grepArgs order in
  join "" (show_result <$> results) +:+
  repeat_string "═" 40 +:+ nl +:+
  "Summary: " +:+ itoa (successCount results) +:+ "/" +:+ itoa (Z.of_nat (length results)) +:+
  " VMs responded successfully" +:+ nl +:+
  "Total matching lines: " +:+ itoa (totalLines results) +:+ nl.

(** ** What comes over the line *)

(** A line that survives the protocol. *)
Definition clean (line : string) : Prop :=
  drop_cr line = line ∧ line ≠ END_DGREP ∧ Z.of_nat (String.length line) < max_token.

(** The lines of an output that are not empty. *)
Definition full_lines (out : string) : list string := filter (λ l, l ≠ "") (tokens out).

(** What a node that answers [q] adds to the result. *)
Definition found (q : result string) : list string :=
  match q with Ok out => full_lines out | Err e => full_lines ("ERROR: " +:+ e) end.

Lemma split_on_cat sep s t :
  split_on sep (s +:+ String sep t) = split_on sep s ++ split_on sep t.
Proof.
  induction s as [|c s IH]; simpl; [by rewrite decide_True|].
  rewrite IH. case_decide; [done|]. pose proof (split_on_ne sep s). by destruct (split_on sep s).
Qed.

Lemma join_snoc_empty sep l : l ≠ [] → join sep (l ++ [""]) = join sep l +:+ sep.
Proof.
  induction l as [|w l IH]; [done|]. intros _. destruct l as [|w' l].
  - simpl. by rewrite app_empty_r.
  - change ((w :: w' :: l) ++ [""]) with (w :: ((w' :: l) ++ [""])). rewrite join_cons by done.
    rewrite IH by done. rewrite (join_cons sep w) by done. by rewrite !app_assoc_str.
Qed.

Lemma split_last_empty s : last (split_on NL s) = Some "" → s = "" ∨ ∃ s', s = s' +:+ nl.
Proof.
  intros [l Hl]%last_Some. pose proof (join_split NL s) as Hj. rewrite Hl in Hj.
  destruct l as [|w l]; [by left|]. right. exists (join nl (w :: l)). rewrite <- Hj. by apply join_snoc_empty.
Qed.

Lemma tokens_nl s : tokens (s +:+ nl) = split_on NL s.
Proof.
  unfold tokens. change nl with (String NL ""). rewrite split_on_cat. simpl (split_on NL "").
  rewrite last_snoc. apply removelast_last.
Qed.

Lemma tokens_resp s : s ≠ "" → tokens (resp s) = tokens s.
Proof.
  intros Hs. unfold resp. destruct (has_suffix nl s) eqn:Hsuf; [done|].
  rewrite tokens_nl. unfold tokens. destruct (last (split_on NL s)) as [[|]|] eqn:Hl; try done.
  apply split_last_empty in Hl as [?|[s' ->]]; [done|]. by rewrite has_suffix_app in Hsuf.
Qed.

Lemma resp_nl s : ∃ s', resp s = s' +:+ nl.
Proof.
  unfold resp. destruct (has_suffix nl s) eqn:Hs; [|eauto]. by apply has_suffix_inv.
Qed.

(** A response followed by the end marker. *)
Lemma tokens_response s : s ≠ "" → tokens (resp s +:+ resp END_DGREP) = tokens s ++ [END_DGREP].
Proof.
  intros Hs. rewrite <- (tokens_resp s) by done. destruct (resp_nl s) as [s' ->].
  change (resp END_DGREP) with (END_DGREP +:+ nl). rewrite tokens_nl, <- app_assoc_str, tokens_nl.
  rewrite app_assoc_str. change (nl +:+ END_DGREP) with (String NL END_DGREP). by rewrite split_on_cat.
Qed.

Lemma join_nil_cons w l : join "" (w :: l) = w +:+ join "" l.
Proof. destruct l; simpl; [by rewrite app_empty_r|done]. Qed.

Lemma read_lines_clean l e output count :
  Forall clean l →
  read_lines (l ++ [END_DGREP]) e output count =
    Ok (output +:+ join "" ((λ w, w +:+ nl) <$> filter (λ w, w ≠ "") l),
        count + Z.of_nat (length (filter (λ w, w ≠ "") l))).
Proof.
  intros Hl. revert output count. induction Hl as [|w l (Hcr & Hend & Hlen) Hl IH]; intros output count.
  - simpl. by rewrite app_empty_r, Z.add_0_r.
  - cbn [app read_lines]. destruct (Z.leb_spec max_token (Z.of_nat (String.length w))); [lia|].
    rewrite Hcr. rewrite decide_False by done. rewrite filter_cons.
    destruct (decide (w = "")) as [->|Hw].
    + by rewrite IH, decide_False by tauto.
    + rewrite IH, decide_True by done. f_equal. f_equal.
      * by rewrite fmap_cons, join_nil_cons, !app_assoc_str.
      * simpl. lia.
Qed.

Lemma fields_blank s : fields (s +:+ nl) = fields s.
Proof.
  induction s as [|c s IH]; [done|]. destruct (is_space c) eqn:Hc.
  - simpl. by rewrite Hc.
  - destruct s as [|d s]; [simpl; by rewrite Hc|]. destruct (is_space d) eqn:Hd.
    + change (fields (String c (String d s))) with
        (if is_space c then fields (String d s) else if is_space d then String c "" :: fields (String d s) else
         match fields (String d s) with w :: ws => String c w :: ws | [] => [String c ""] end).
      change (fields (String c (String d s) +:+ nl)) with
        (if is_space c then fields (String d s +:+ nl)
         else if is_space d then String c "" :: fields (String d s +:+ nl) else
         match fields (String d s +:+ nl) with w :: ws => String c w :: ws | [] => [String c ""] end).
      by rewrite Hc, Hd, IH.
    + change (String c (String d s) +:+ nl) with (String c (String d (s +:+ nl))).
      rewrite !fields_grow by done. change (String d (s +:+ nl)) with (String d s +:+ nl). by rewrite IH.
Qed.

Section collected.
Context (connect : string → string → Answer) (grepArgs : list string).

Definition command : string := "dgrep_query " +:+ join " " grepArgs +:+ nl.

(** The other side of a connection reads the command as it was sent and answers
    with its own query. *)
Definition answers (host : string) (q : result string) : Prop :=
  ∃ query e, q = query grepArgs ∧
    connect (host +:+ ":8003") command = Stream (dgrep_query query (fields command)) e.

Definition refuses (host : string) : Prop :=
  ∃ e, connect (host +:+ ":8003") command = ConnFailed e.

Lemma fields_command :
  Forall (λ w, no_space w = true ∧ w ≠ "") grepArgs → grepArgs ≠ [] →
  fields command = "dgrep_query" :: grepArgs.
Proof.
  intros Hw Hne. unfold command. rewrite <- app_assoc_str, fields_blank.
  change ("dgrep_query " +:+ join " " grepArgs) with ("dgrep_query" +:+ " " +:+ join " " grepArgs).
  rewrite <- join_cons by done. apply fields_join. by constructor.
Qed.

Definition response_text (q : result string) : string :=
  match q with Ok out => out | Err e => "ERROR: " +:+ e end.

(** The result a node's answer makes. *)
Lemma host_result_answers host num q :
  Forall (λ w, no_space w = true ∧ w ≠ "") grepArgs → grepArgs ≠ [] →
  answers host q → Forall clean (tokens (response_text q)) →
  let l := found q in
  host_result host num (connect (host +:+ ":8003") command) =
    mkGrepResult host num (join "" ((λ w, w +:+ nl) <$> l)) None (Z.of_nat (length l)).
Proof.
  intros Hargs Hne (query & e & Hq & Hc) Hclean. rewrite Hc, fields_command by done. unfold dgrep_query.
  destruct grepArgs as [|a args] eqn:Ha; [done|]. rewrite <- Hq. unfold found, full_lines.
  assert (host_result host num (Stream (resp (response_text q) +:+ resp END_DGREP) e) =
    mkGrepResult host num (join "" ((λ w, w +:+ nl) <$> filter (λ l, l ≠ "") (tokens (response_text q)))) None
      (Z.of_nat (length (filter (λ l, l ≠ "") (tokens (response_text q)))))
    ∨ response_text q = "") as [Hr|Hr].
  { destruct (decide (response_text q = "")); [by right|left]. unfold host_result.
    by rewrite tokens_response, read_lines_clean by done. }
  - destruct q as [out|err]; simpl in *; [|done]. case_decide; [by subst|done].
  - destruct q as [out|err]; simpl in *; [|done]. subst out. done.
Qed.

(** What the nodes have to say: a refused connection is [None]. *)
Definition world (node : string → option (result string)) (order : list (string * Z)) : Prop :=
  Forall (λ p, match node p.1 with
               | Some q => answers p.1 q ∧ Forall clean (tokens (response_text q))
               | None => refuses p.1
               end) order.

Definition lines_of (node : string → option (result string)) (p : string * Z) : Z :=
  match node p.1 with Some q => Z.of_nat (length (found q)) | None => 0 end.

Definition reached (node : string → option (result string)) (p : string * Z) : Z :=
  match node p.1 with Some _ => 1 | None => 0 end.

Definition sum (l : list Z) : Z := foldr Z.add 0 l.

Lemma totalLines_perm r1 r2 : r1 ≡ₚ r2 → totalLines r1 = totalLines r2.
Proof. induction 1; simpl; repeat (case_match || case_decide); try lia; congruence. Qed.

Lemma successCount_perm r1 r2 : r1 ≡ₚ r2 → successCount r1 = successCount r2.
Proof. induction 1; simpl; repeat case_match; try lia; congruence. Qed.

(** C19: a distributed grep adds up what the nodes find: whatever the order in
    which the answers come in, there is one result per node, ordered by the
    number of the node; the lines of a node that answers are those its own
    query printed, empty ones apart, and the summary counts the lines of all
    and the nodes that answered.  A query that fails on the node arrives as a
    line and counts as one. *)
Theorem dgrep_collects (node : string → option (result string)) (order : list (string * Z)) :
  Forall (λ w, no_space w = true ∧ w ≠ "") grepArgs → grepArgs ≠ [] → world node order →
  let results := all_results connect grepArgs order in
  Sorted by_number results ∧
  (λ r, (gr_Hostname r, VMNumber r)) <$> results ≡ₚ order ∧
  (∀ host num q, (host, num) ∈ order → node host = Some q →
     mkGrepResult host num (join "" ((λ w, w +:+ nl) <$> found q)) None (Z.of_nat (length (found q))) ∈ results) ∧
  totalLines results = sum (lines_of node <$> order) ∧
  successCount results = sum (reached node <$> order).
Proof.
  intros Hargs Hne Hw. cbv zeta. unfold all_results. fold command.
  set (f := λ p : string * Z, host_result p.1 p.2 (connect (p.1 +:+ ":8003") command)).
  assert (∀ host num q, (host, num) ∈ order → node host = Some q → f (host, num) =
    mkGrepResult host num (join "" ((λ w, w +:+ nl) <$> found q)) None (Z.of_nat (length (found q)))) as Hf.
  { intros host num q Hin Hq. pose proof (proj1 (Forall_forall _ _) Hw _ Hin) as Hp. simpl in Hp.
    rewrite Hq in Hp. destruct Hp as [Ha Hc]. by apply host_result_answers. }
  assert (∀ host num, (host, num) ∈ order → node host = None →
    ∃ e, f (host, num) = mkGrepResult host num "" (Some e) 0) as Hf'.
  { intros host num Hin Hq. pose proof (proj1 (Forall_forall _ _) Hw _ Hin) as Hp. simpl in Hp.
    rewrite Hq in Hp. destruct Hp as [e Hp]. unfold f. simpl. rewrite Hp. by eexists. }
  pose proof (merge_sort_Permutation by_number (f <$> order)) as Hperm.
  split; [|split; [|split]].
  - apply Sorted_merge_sort. intros r1 r2. unfold by_number. lia.
  - rewrite Hperm, <- list_fmap_compose. clear Hperm Hf Hf'. induction order as [|[h n] l IH]; [done|]. simpl.
    f_equiv; [|apply IH; by inversion Hw]. unfold f. simpl. unfold host_result.
    destruct (connect _ _) as [|e|b e]; try done. by destruct (read_lines _ _ _ _) as [[]|].
  - intros host num q Hin Hq. rewrite Hperm. rewrite <- Hf by done. by apply list_elem_of_fmap_2.
  - rewrite (totalLines_perm _ _ Hperm), (successCount_perm _ _ Hperm). clear Hperm Hw.
    induction order as [|[h n] l IH]; [done|]. rewrite !fmap_cons.
    destruct IH as [IH1 IH2]; [intros; apply Hf; [by right|done]|intros; apply Hf'; [by right|done]|].
    unfold lines_of at 1, reached at 1. simpl. rewrite <- IH1, <- IH2.
    destruct (node h) as [q|] eqn:Hq.
    + rewrite (Hf h n q) by (done || by left). simpl. split; [|done]. case_decide as Ho; [|done].
      assert (found q = []) as ->; [|done]. destruct (found q) as [|w ws] eqn:E; [done|].
      rewrite fmap_cons, join_nil_cons in Ho. by destruct w.
    + destruct (Hf' h n) as [e ->]; [by left|done|]. done.
Qed.
End collected.

(** ** The properties at concrete inputs *)

Definition demo_grep (args : list string) : GrepExit :=
  if decide (args = ["-i"; "error"; "logs/node1_20250102_000000.log"])
  then GrepSuccess ("an error" +:+ nl +:+ "Error two" +:+ nl) else GrepExitCode 2.

Definition demo_query : list string → result string :=
  Query (Ok "node1") ["node1_20250101_000000.log"; "node1_20250102_000000.log"; "node10_20260101_000000.log"] demo_grep.

Definition demo_connect (addr cmd : string) : Answer :=
  if decide (addr = "node1:8003") then Stream (dgrep_query demo_query (fields cmd)) None
  else ConnFailed "connection refused".

Definition demo_node (host : string) : option (result string) :=
  if decide (host = "node1") then Some (demo_query ["-i"; "error"]) else None.

Lemma dgrep_collects_witness :
  totalLines (all_results demo_connect ["-i"; "error"] [("node2", 2); ("node1", 1)]) = 2 ∧
  successCount (all_results demo_connect ["-i"; "error"] [("node2", 2); ("node1", 1)]) = 1.
Proof.
  destruct (dgrep_collects demo_connect ["-i"; "error"] demo_node [("node2", 2); ("node1", 1)])
    as (_ & _ & _ & H1 & H2).
  - repeat constructor; discriminate.
  - discriminate.
  - constructor; [by exists "connection refused"|]. constructor; [|constructor]. split.
    + exists demo_query, None. split; reflexivity.
    + apply (bool_decide_unpack _). vm_compute. exact I.
  - split; [exact H1|exact H2].
Defined.
