(* ===== verification/RainStorm.v ===== *)
(** * RainStorm: pkg/rainstorm/types.go, and the dispatch of server.go

    The messages of the stream processor.  A message is typed by its payload;
    the JSON encoding of payloads is the library's. *)

From S2P Require Import Prelude GoStrings Env Membership Common.
From Stdlib Require Export QArith.
#[global] Close Scope Q_scope.
#[global] Open Scope Z_scope.

Inductive OperatorType := OpTransform | OpFilter | OpAggregate | OpSource.

Inductive TaskState := TaskStateIdle | TaskStateRunning | TaskStateFailed | TaskStateCompleted.

#[export] Instance OperatorType_eq_dec : EqDecision OperatorType.
Proof. solve_decision. Defined.
#[export] Instance TaskState_eq_dec : EqDecision TaskState.
Proof. solve_decision. Defined.

Record Task := mkTask {
  ID : string;
  StageID : Z;
  OpType : OperatorType;
  OpExecutable : string;
  OpArgs : list string;
  t_Port : Z;
  AssignedWorker : string;
  t_State : TaskState;
  PID : Z;
  LogFile : string;
  InputRate : Z;
  TaskIndex : Z;
  TotalTasks : Z;
  OutputFile : string;
  NumSources : Z;
  JobTimestamp : string;
  HyDFSDestFile : string;
  HyDFSLeader : string;
  RainStormLeader : string;
  ExactlyOnce : bool;
}.

#[export] Instance Task_eq_dec : EqDecision Task.
Proof. solve_decision. Defined.

Definition set_task_state (st : TaskState) (t : Task) : Task :=
  mkTask (ID t) (StageID t) (OpType t) (OpExecutable t) (OpArgs t) (t_Port t)
    (AssignedWorker t) st (PID t) (LogFile t) (InputRate t) (TaskIndex t) (TotalTasks t)
    (OutputFile t) (NumSources t) (JobTimestamp t) (HyDFSDestFile t) (HyDFSLeader t)
    (RainStormLeader t) (ExactlyOnce t).

(** [StageID] to the addresses of the stage's tasks. *)
Abbreviation routing := (gmap Z (list string)).

(** Reading an absent stage yields the nil slice. *)
Definition targets_of (r : routing) (stage : Z) : list string := default [] (r !! stage).

Record StageConfig := mkStageConfig {
  sc_StageID : Z;
  sc_OpType : OperatorType;
  sc_OpExecutable : string;
  sc_OpArgs : list string;
  BasePort : Z;
  IsSink : bool;
  sc_HyDFSDestFile : string;
}.

Record JobSubmitPayload := mkJobSubmitPayload {
  App : string;
  SrcFile : string;
  DestFile : string;
  NumTasks : Z;
  Stages : list string;
  StageArgs : list (list string);
  js_ExactlyOnce : bool;
  AutoScale : bool;
  js_InputRate : Z;
  js_LowWatermark : Z;
  js_HighWatermark : Z;
}.

Record TaskInfo := mkTaskInfo {
  ti_TaskID : string;
  ti_VM : string;
  ti_PID : Z;
  ti_OpExe : string;
  ti_LogFile : string;
  ti_State : string;
}.

(** [CurrentRate] is a rational here: the code's [float64] rounds. *)
Record TaskMetrics := mkTaskMetrics {
  TaskID : string;
  TuplesProcessed : Z;
  CurrentRate : Q;
  m_Timestamp : Z;
}.

(** The payload of [task_failed]. *)
Record TaskFailurePayload := mkTaskFailurePayload {
  tf_TaskID : string;
  tf_VM : string;
  tf_PID : Z;
  tf_OpExe : string;
  tf_LogFile : string;
  tf_Error : string;
}.

(** The payload of [task_completed]. *)
Record TaskCompletedPayload := mkTaskCompletedPayload {
  tc_TaskID : string;
  tc_VM : string;
  tc_PID : Z;
  tc_OpExe : string;
  tc_LogFile : string;
  Success : bool;
  tc_Error : string;
}.

(** ** Tuples

    A value is the string an operator or a source made, or absent, as in an
    acknowledgement. *)

Inductive Value := VNil | VString (s : string).

Record Tuple := mkTuple {
  Type_ : string;
  Key : string;
  Value_ : Value;
  tu_ID : string;
  IsEOF : bool;
}.

#[export] Instance Value_eq_dec : EqDecision Value.
Proof. solve_decision. Defined.
#[export] Instance Tuple_eq_dec : EqDecision Tuple.
Proof. solve_decision. Defined.

(** [fmt.Sprintf("%v", v)]. *)
Definition show_value (v : Value) : string :=
  match v with VNil => "<nil>" | VString s => s end.

(** ** Messages *)

(** [RainStormMessage]: the type and the payload in one. *)
Inductive RainStormMessage :=
  | submit_job (payload : JobSubmitPayload)
  | schedule_task (task : Task) (routing_table : routing)
  | kill_task_worker (vm : string) (pid : Z)
  | list_tasks
  | kill_task (vm : string) (pid : Z)
  | task_started (task : Task)
  | task_metrics (metrics : TaskMetrics)
  | task_completed (payload : TaskCompletedPayload)
  | task_failed (payload : TaskFailurePayload)
  | get_task_location (stage_id : Z)
  | unknown_message (type : string).

Inductive Role := RoleLeader | RoleWorker.

#[export] Instance Role_eq_dec : EqDecision Role.
Proof. solve_decision. Defined.

(** What [handleConnection] runs for a message; [None] when it ignores it. *)
Inductive Handler :=
  | HSubmitJob (payload : JobSubmitPayload)
  | HScheduleTask (task : Task) (routing_table : routing)
  | HKillTaskWorker (vm : string) (pid : Z)
  | HListTasks
  | HKillTask (vm : string) (pid : Z)
  | HTaskStarted (task : Task)
  | HTaskMetrics (metrics : TaskMetrics)
  | HTaskCompleted (payload : TaskCompletedPayload)
  | HTaskFailure (payload : TaskFailurePayload)
  | HGetTaskLocation (stage_id : Z).

Definition only_as {A} (want role : Role) (a : A) : option A :=
  if decide (role = want) then Some a else None.

Definition handleConnection (role : Role) (msg : RainStormMessage) : option Handler :=
  match msg with
  | submit_job p => only_as RoleLeader role (HSubmitJob p)
  | schedule_task t r => Some (HScheduleTask t r)
  | kill_task_worker vm pid => only_as RoleWorker role (HKillTaskWorker vm pid)
  | list_tasks => only_as RoleLeader role HListTasks
  | kill_task vm pid => only_as RoleLeader role (HKillTask vm pid)
  | task_started t => only_as RoleLeader role (HTaskStarted t)
  | task_metrics m => only_as RoleLeader role (HTaskMetrics m)
  | task_completed p => only_as RoleLeader role (HTaskCompleted p)
  | task_failed p => only_as RoleLeader role (HTaskFailure p)
  | get_task_location st => only_as RoleLeader role (HGetTaskLocation st)
  | unknown_message _ => None
  end.
