(* ===== verification/Cli.v ===== *)
(** * Cli: the submission of a job, [cmd/cli/main.go]

    [parse_job] is the command line up to the payload of the [submit_job]
    message, [submit] the whole program: the configuration, the address of the
    leader and the message.  The connection is the parameter [net], which says
    whether the message was sent. *)

From S2P Require Import Prelude GoStrings Common RainStorm.

(** ** Operators on the command line *)

Definition knownOps : list string :=
  ["grep"; "count"; "filter"; "transform"; "echo"; "identity"; "output"].

(** An operator is a known name or looks like a path. *)
Definition is_op (arg : string) : bool :=
  bool_decide (arg ∈ knownOps) || contains_char "/"%char arg.

(** The positions of the first [n] operators of [l], whose first argument is at
    [i]. *)
Fixpoint opPositions (n i : nat) (l : list string) : list nat :=
  match n, l with
  | O, _ | _, [] => []
  | S n', arg :: l' => if is_op arg then i :: opPositions n' (S i) l' else opPositions n (S i) l'
  end.

(** [args[a:b]] *)
Definition slice {A} (l : list A) (a b : nat) : list A := take (b - a) (drop a l).

(** The operators at the positions and what stands before the next one, or
    before [last]. *)
Fixpoint stage_slices (args : list string) (positions : list nat) (last : nat) : list (string * list string) :=
  match positions with
  | [] => []
  | opIdx :: rest =>
      (default "" (args !! opIdx), slice args (S opIdx) (default last (head rest))) ::
        stage_slices args rest last
  end.

Definition truthy (s : string) : bool := bool_decide (s = "true") || bool_decide (s = "1").

(** [filepath.Base] *)
Definition path_base (s : string) : string :=
  match reverse (filter (λ c, c ≠ "") (split_on "/"%char s)) with
  | c :: _ => c
  | [] => if decide (s = "") then "." else "/"
  end.

(** ** main *)

(** [argv0] is the name of the program, [args] the arguments. *)
Definition parse_job (argv0 : string) (args : list string) : result JobSubmitPayload :=
  if decide (length args < 8)%nat then Err "usage"
  else
    let arg i := default "" (args !! i) in
    let nStages := sscanf_d (arg 0%nat) 0 in
    let nTasks := sscanf_d (arg 1%nat) 0 in
    if (nStages <? 1) || (3 <? nStages) then Err "Nstages must be 1-3"
    else if Z.of_nat (length args) <? 2 + nStages + 7 then Err "Not enough arguments"
    else
      let last := (length args - 7)%nat in
      let positions := opPositions (Z.to_nat nStages) 2 (slice args 2 last) in
      if decide (length positions ≠ Z.to_nat nStages) then Err "Could not find the operators"
      else
        let ops := stage_slices args positions last in
        let fixed i := default "" (args !! (last + i)%nat) in
        Ok (mkJobSubmitPayload (path_base argv0) (fixed 0%nat) (fixed 1%nat) nTasks ops.*1 ops.*2
              (truthy (fixed 2%nat)) (truthy (fixed 3%nat))
              (sscanf_d (fixed 4%nat) 0) (sscanf_d (fixed 5%nat) 0) (sscanf_d (fixed 6%nat) 0)).

(** The message is sent to the first node of the configuration; without one to
    [node1] at the default port. *)
Definition leader_address (cfg : result Config) : string :=
  match cfg with
  | Err _ => JoinHostPort "node1" 8002
  | Ok c => JoinHostPort (match Nodes c with n :: _ => n | [] => "node1" end) (RainStormPort c)
  end.

Definition submit (net : string → JobSubmitPayload → bool) (cfg : result Config) (argv0 : string)
    (args : list string) : result (string * JobSubmitPayload) :=
  job <- parse_job argv0 args ;;
  if net (leader_address cfg) job then Ok (leader_address cfg, job) else Err "Failed to send job".

(** ** The command line of a job *)

Definition stage_line (stage : string * list string) : list string := stage.1 :: stage.2.

Definition command_line (stages : list (string * list string)) (fixed : list string) (nTasks : Z) : list string :=
  [itoa (Z.of_nat (length stages)); itoa nTasks] ++ (stages ≫= stage_line) ++ fixed.

Definition show_bool (b : bool) : string := if b then "true" else "false".

(** The operators are recognised and none of their arguments is taken for one;
    nothing is looked for in the arguments of the last. *)
Fixpoint readable (stages : list (string * list string)) : Prop :=
  match stages with
  | [] => True
  | (op, args) :: rest =>
      is_op op = true ∧ (rest = [] ∨ Forall (λ a, is_op a = false) args) ∧ readable rest
  end.

Lemma opPositions_skip n i l l' :
  Forall (λ a, is_op a = false) l → opPositions n i (l ++ l') = opPositions n (i + length l) l'.
Proof.
  intros Hl. revert i. induction Hl as [|a l Ha _ IH]; intros i; simpl.
  - by rewrite Nat.add_0_r.
  - destruct n; [by destruct l'|]. rewrite Ha, IH. f_equal. lia.
Qed.

Lemma opPositions_0 i l : opPositions 0 i l = [].
Proof. by destruct l. Qed.

(** Where the stages start, when the first starts at [i]. *)
Fixpoint starts (i : nat) (stages : list (string * list string)) : list nat :=
  match stages with
  | [] => []
  | s :: rest => i :: starts (i + length (stage_line s)) rest
  end.

Lemma opPositions_stages i stages :
  readable stages → opPositions (length stages) i (stages ≫= stage_line) = starts i stages.
Proof.
  revert i. induction stages as [|[op args] rest IH]; intros i; simpl; [done|].
  intros (Hop & Hargs & Hrest). rewrite Hop. f_equal. destruct Hargs as [->|Hargs].
  - simpl. apply opPositions_0.
  - rewrite opPositions_skip, IH by done. f_equal. lia.
Qed.

Lemma stage_slices_starts pre stages post :
  stage_slices (pre ++ (stages ≫= stage_line) ++ post) (starts (length pre) stages)
    (length pre + length (stages ≫= stage_line)) = stages.
Proof.
  revert pre. induction stages as [|[op args] rest IH]; intros pre; simpl; [done|].
  f_equal.
  - f_equal.
    + by rewrite lookup_app_r, Nat.sub_diag by lia.
    + unfold slice. rewrite drop_app_ge by lia. replace (S (length pre) - length pre)%nat with 1%nat by lia.
      simpl. rewrite <- app_assoc. rewrite drop_0.
      set (e := default _ _). assert (e = length pre + S (length args))%nat as ->.
      { subst e. destruct rest as [|s rest]; simpl; [|done]. rewrite app_nil_r. lia. }
      rewrite take_app_le by lia. rewrite take_ge; [done|lia].
  - specialize (IH (pre ++ op :: args)). rewrite length_app in IH. simpl in IH.
    rewrite <- !app_assoc in IH. simpl in IH. rewrite length_app. simpl.
    rewrite <- app_assoc. etransitivity; [|exact IH]. unfold mbind. f_equal. lia.
Qed.

(** What the program makes of the command line of any stages it can tell apart. *)
Lemma parse_command_line argv0 stages src dest eo auto rate lw hw nTasks :
  readable stages → (1 <= length stages <= 3)%nat → in_int64 nTasks →
  in_int64 rate → in_int64 lw → in_int64 hw →
  parse_job argv0 (command_line stages [src; dest; show_bool eo; show_bool auto; itoa rate; itoa lw; itoa hw] nTasks)
  = Ok (mkJobSubmitPayload (path_base argv0) src dest nTasks stages.*1 stages.*2 eo auto rate lw hw).
Proof.
  intros Hr Hn Ht H1 H2 H3. unfold parse_job, command_line.
  set (body := stages ≫= stage_line). set (fixed := [src; dest; _; _; _; _; _]).
  assert (length stages ≤ length body)%nat as Hb.
  { subst body. clear Hr Hn. induction stages as [|[op a] l IH]; simpl; [lia|].
    rewrite length_app. unfold mbind in IH. lia. }
  set (args := _ ++ body ++ fixed).
  assert (length args = 2 + length body + 7)%nat as Hlen by (subst args fixed; rewrite !length_app; simpl; lia).
  rewrite decide_False by lia. cbv zeta.
  assert (∀ i, fixed !! i = args !! (length args - 7 + i)%nat) as Hfix.
  { intros i. rewrite Hlen. subst args. rewrite app_assoc, lookup_app_r by (rewrite length_app; simpl; lia).
    f_equal. rewrite length_app. simpl. lia. }
  assert (default "" (args !! 0%nat) = itoa (Z.of_nat (length stages))) as -> by done.
  assert (default "" (args !! 1%nat) = itoa nTasks) as -> by done.
  rewrite !sscanf_itoa by (done || (unfold in_int64, two63; lia)).
  destruct (Z.ltb_spec (Z.of_nat (length stages)) 1); [lia|].
  destruct (Z.ltb_spec 3 (Z.of_nat (length stages))); [lia|]. simpl orb. cbv iota.
  destruct (Z.ltb_spec (Z.of_nat (length args)) (2 + Z.of_nat (length stages) + 7)); [lia|].
  assert (slice args 2 (length args - 7) = body) as ->.
  { unfold slice. rewrite Hlen. unfold args. simpl. rewrite drop_0. apply take_app_length'. lia. }
  rewrite Nat2Z.id. unfold body. rewrite (opPositions_stages 2 stages Hr).
  assert (∀ i l, length (starts i l) = length l) as Hst by (intros i l; revert i; induction l; simpl; auto).
  rewrite decide_False by (rewrite Hst; lia).
  pose proof (stage_slices_starts [itoa (Z.of_nat (length stages)); itoa nTasks] stages fixed) as Hs.
  simpl length in Hs. fold body args in Hs |- *.
  replace (length args - 7)%nat with (2 + length body)%nat in * by lia. rewrite Hs.
  rewrite <- !Hfix. simpl. rewrite !sscanf_itoa by done. by destruct eo, auto.
Qed.

(** C17: a job survives the command line: the program reads back from its
    arguments the stages with their operators and arguments, the files, the
    numbers and the switches it was called with, and submits exactly this job
    to the first node of the configuration; of the last stage the arguments
    are free. *)
Theorem cli_roundtrip (net : string → JobSubmitPayload → bool) (c : Config) (argv0 : string)
    (stages : list (string * list string)) (src dest : string) (eo auto : bool) (rate lw hw nTasks : Z)
    (leader : string) (rest : list string) :
  readable stages → (1 <= length stages <= 3)%nat → in_int64 nTasks →
  in_int64 rate → in_int64 lw → in_int64 hw →
  Nodes c = leader :: rest → (∀ a job, net a job = true) →
  submit net (Ok c) argv0
    (command_line stages [src; dest; show_bool eo; show_bool auto; itoa rate; itoa lw; itoa hw] nTasks)
  = Ok (JoinHostPort leader (RainStormPort c),
        mkJobSubmitPayload (path_base argv0) src dest nTasks stages.*1 stages.*2 eo auto rate lw hw).
Proof.
  intros Hr Hn Ht H1 H2 H3 Hc Hnet. unfold submit. rewrite parse_command_line by done. simpl.
  unfold leader_address. by rewrite Hnet, Hc.
Qed.

(** C35: an argument that contains a slash or is the name of an operator is taken
    for the next operator: the job that is submitted runs the argument as its
    second stage and gives it what was meant as the second stage. *)
Theorem cli_argument_taken_for_operator (argv0 op1 op2 a src dest : string) (before after args2 : list string)
    (eo auto : bool) (rate lw hw nTasks : Z) :
  is_op op1 = true → is_op a = true → Forall (λ x, is_op x = false) before →
  in_int64 nTasks → in_int64 rate → in_int64 lw → in_int64 hw →
  parse_job argv0 (command_line [(op1, before ++ a :: after); (op2, args2)]
    [src; dest; show_bool eo; show_bool auto; itoa rate; itoa lw; itoa hw] nTasks)
  = Ok (mkJobSubmitPayload (path_base argv0) src dest nTasks [op1; a] [before; after ++ op2 :: args2]
          eo auto rate lw hw).
Proof.
  intros Ho1 Ha Hb Ht H1 H2 H3.
  rewrite <- (parse_command_line argv0 [(op1, before); (a, after ++ op2 :: args2)]); try done.
  - unfold command_line. simpl. rewrite !app_nil_r, <- !app_assoc. simpl. by rewrite <- !app_assoc.
  - simpl. naive_solver.
  - simpl. lia.
Qed.

Definition demo_config : Config := mkConfig 8000 8003 8001 8002 ["node1"; "node2"] ["node1"; "node2"].

Lemma cli_roundtrip_witness :
  submit (λ _ _, true) (Ok demo_config) "./bin/rainstorm"
    ["2"; "3"; "grep"; "Stop"; "count"; "5"; "in.csv"; "out.csv"; "true"; "false"; "100"; "10"; "90"]
  = Ok ("node1:8002", mkJobSubmitPayload "rainstorm" "in.csv" "out.csv" 3 ["grep"; "count"] [["Stop"]; ["5"]]
          true false 100 10 90).
Proof.
  refine (cli_roundtrip (λ _ _, true) demo_config "./bin/rainstorm" [("grep", ["Stop"]); ("count", ["5"])]
    "in.csv" "out.csv" true false 100 10 90 3 "node1" ["node2"] _ _ _ _ _ _ eq_refl (λ _ _, eq_refl));
    unfold in_int64, two63; simpl; try lia.
  split; [reflexivity|]. split; [right; repeat constructor|]. split; [reflexivity|]. split; [by left|exact I].
Defined.

Lemma cli_argument_taken_for_operator_witness :
  (λ r, match r with Ok j => Stages j | Err _ => [] end)
    (parse_job "rainstorm"
       ["2"; "1"; "grep"; "N/A"; "count"; "in.csv"; "out.csv"; "true"; "false"; "1"; "2"; "3"])
  = ["grep"; "N/A"].
Proof.
  assert (parse_job "rainstorm"
       ["2"; "1"; "grep"; "N/A"; "count"; "in.csv"; "out.csv"; "true"; "false"; "1"; "2"; "3"]
    = Ok (mkJobSubmitPayload "rainstorm" "in.csv" "out.csv" 1 ["grep"; "N/A"] [[]; ["count"]] true false 1 2 3)) as ->.
  { refine (cli_argument_taken_for_operator "rainstorm" "grep" "count" "N/A" "in.csv" "out.csv" [] [] [] true
      false 1 2 3 1 eq_refl eq_refl _ _ _ _ _); try constructor; unfold two63; lia. }
  reflexivity.
Defined.
