(* ===== verification/Console.v ===== *)
(** * Console: the commands of clients and of the console, [main.go]

    [client_command] is one line of [handleClientConnection]: the node, what it
    sends or starts, and the responses.  The console has handlers of its own;
    those that change the node or the file system are in [HyDFS] and
    [NodeLoop], the others are here: what they print, the lines they send to
    other nodes ([multiappend], [dgrep]) and to the leader ([list_tasks],
    [kill_task]).  [port_line] is what a node does with a line on either of its
    ports.  Log lines are not modelled. *)

From S2P Require Import Prelude GoStrings Env Membership Tables Swim Ring FileSystem BlockStore Common NodeLoop HyDFS Logging RainStorm.

(** ** Tables of members and files *)

Definition ring_id (id : Z) : string := pad_zero 20 id.

Definition by_id (e1 e2 : Z * Info) : Prop := e1.1 <= e2.1.
#[export] Instance by_id_dec e1 e2 : Decision (by_id e1 e2) := Z.le_dec _ _.

(** The alive members, sorted by identifier. *)
Definition member_entries (infoMap : gmap Z Info) : list (Z * Info) :=
  merge_sort by_id (filter (λ e, State e.2 = Alive) (map_to_list infoMap)).

Definition member_line (e : Z * Info) : string :=
  pad_right 40 (Hostname e.2) +:+ " " +:+ pad_right 10 (itoa (Port e.2)) +:+ " " +:+ ring_id e.1 +:+ nl.

(** [list_mem_ids] of a client. *)
Definition list_mem_ids (infoMap : gmap Z Info) : string :=
  pad_right 40 "Hostname" +:+ " " +:+ pad_right 10 "Port" +:+ " " +:+ pad_right 20 "Ring ID" +:+ nl +:+
  repeat_string "-" 75 +:+ nl +:+ join "" (member_line <$> member_entries infoMap).

Definition list_self (n : Node) : string :=
  let self := info_of (GetInfoMap (node_Membership n)) (RingID n) in
  "RingID=" +:+ ring_id (RingID n) +:+ " Hostname=" +:+ Hostname self +:+ " Port=" +:+ itoa (Port self) +:+
  " State=" +:+ stateName (State self).

Definition rule : string := repeat_string "═" 60 +:+ nl.
Definition dashes (n : nat) : string := repeat_string "-" n +:+ nl.

(** The console's tables. *)
Definition handleCLIListMemIds (infoMap : gmap Z Info) : string :=
  let entries := member_entries infoMap in
  rule +:+ "MEMBERSHIP LIST WITH RING IDs" +:+ nl +:+ rule +:+
  pad_right 40 "Hostname" +:+ " " +:+ pad_right 10 "Port" +:+ " " +:+ pad_right 20 "Ring ID" +:+ nl +:+
  repeat_string "─" 60 +:+ nl +:+ join "" (member_line <$> entries) +:+ rule +:+
  "Total Members: " +:+ itoa (Z.of_nat (length entries)) +:+ nl +:+ rule.

(** [format_version] is [Version.Format] with the layout of the console. *)
Definition handleCLIListSelf (format_version : Z → string) (n : Node) : string :=
  let self := info_of (GetInfoMap (node_Membership n)) (RingID n) in
  let line := repeat_string "═" 40 +:+ nl in
  line +:+ "SELF INFORMATION" +:+ nl +:+ line +:+
  "Ring ID:   " +:+ ring_id (RingID n) +:+ nl +:+ "Hostname:  " +:+ Hostname self +:+ nl +:+
  "Port:      " +:+ itoa (Port self) +:+ nl +:+ "State:     " +:+ stateName (State self) +:+ nl +:+
  "Active:    " +:+ (if IsActive n then "Yes (gossiping)" else "No (left cluster)") +:+ nl +:+
  "Version:   " +:+ format_version (Version self) +:+ nl +:+ line.

Definition handleCLIListMem (table : string) : string :=
  let line := repeat_string "═" 40 +:+ nl in
  line +:+ "MEMBERSHIP LIST" +:+ nl +:+ line +:+ table +:+ line.

Section commands.
Context `{!GoEnv} (base : path).

Fixpoint replica_lines (infoMap : gmap Z Info) (first : bool) (ids : list Z) : string :=
  match ids with
  | [] => ""
  | id :: rest =>
      pad_right 40 (Hostname (info_of infoMap id)) +:+ " " +:+ ring_id id +:+
      (if first then " [PRIMARY]" else "") +:+ nl +:+ replica_lines infoMap false rest
  end.

(** [ls], of a client and of the console; [None] without replicas. *)
Definition ls_text (hydfsFile : string) (n : HNode) : option string :=
  match replicas_of n hydfsFile with
  | [] => None
  | successors =>
      Some (rule +:+ "File Name: " +:+ hydfsFile +:+ nl +:+ "File ID:   " +:+ ring_id (HashString hydfsFile) +:+ nl +:+
            "Replication Factor (n): " +:+ itoa NumReplicas +:+ nl +:+ rule +:+
            pad_right 40 "Hostname" +:+ " " +:+ pad_right 20 "Node ID" +:+ nl +:+ dashes 60 +:+
            replica_lines (members n) true successors +:+ rule)
  end.

Definition handleCLILs (parts : list string) (n : HNode) : string :=
  match parts with
  | _ :: hydfsFile :: _ => default ("No replicas found for " +:+ hydfsFile +:+ nl) (ls_text hydfsFile n)
  | _ => "Usage: ls <hydfsfile>" +:+ nl +:+ "Example: ls hydfs_file.txt" +:+ nl
  end.

(** The files in the directories below the root, by name. *)
Definition storedFiles (d : bdisk) : gmap string Z :=
  foldl (λ m md, <[HyDFSFilename md := FileID md]> m) ∅ (stored_metadata base d).

Definition liststore (n : HNode) : string :=
  if is_dir (hn_store n) base then
    let files := storedFiles (hn_store n) in
    rule +:+ "Node: " +:+ self_host n +:+ nl +:+ "Ring ID: " +:+ ring_id (self_id n) +:+ nl +:+ rule +:+
    "Stored Files: " +:+ itoa (Z.of_nat (size files)) +:+ nl +:+ dashes 60 +:+
    pad_right 30 "HyDFS Filename" +:+ " " +:+ pad_right 20 "File ID" +:+ nl +:+ dashes 60 +:+
    join "" ((λ f, pad_right 30 f +:+ " " +:+ ring_id (default 0 (files !! f)) +:+ nl) <$>
               merge_sort str_le (map_to_list files).*1) +:+ rule
  else "ERR failed to read storage".

(** [liststore] of the console shows the table of the node instead; [order]
    visits it. *)
Definition handleCLIListStore (order : list (string * Common.FileMetadata)) (n : HNode) : string :=
  let line := repeat_string "═" 40 +:+ nl in
  line +:+ "FILES STORED ON THIS NODE" +:+ nl +:+ line +:+
  "Node: " +:+ self_host n +:+ " (Ring ID: " +:+ ring_id (self_id n) +:+ ")" +:+ nl +:+
  repeat_string "─" 40 +:+ nl +:+
  (if decide (size (FileStore (hn_node n)) = 0%nat) then "No files stored." +:+ nl
   else "Total files: " +:+ itoa (Z.of_nat (size (FileStore (hn_node n)))) +:+ nl +:+ nl +:+
        join "" ((λ '(f, md), f +:+ nl +:+ "Version: " +:+ itoa (Common.fm_Version md) +:+ ", Blocks: " +:+
                    itoa (Z.of_nat (length (Common.Blocks md))) +:+ nl) <$> order)) +:+ line.

(** ** getfromreplica *)

(** [write] creates the directory and writes the local file; it yields the path. *)
Definition handleCLIGetFromReplica (exchange : string → NodeMessage → option Reply)
    (write : string → string → result string) (vmAddr hydfsFile localFile : string) : result string :=
  let targetAddr := if contains_char ":"%char vmAddr then vmAddr else vmAddr +:+ ":" +:+ itoa 8081 in
  match exchange targetAddr (get_file hydfsFile) with
  | None => Err "Failed to read response"
  | Some (get_file_response content) => write localFile content
  | Some (error_response e) => Err ("Error from replica: " +:+ e)
  | Some (blocks_response _) => Err "Unexpected response type"
  end.
End commands.

(** ** multiappend *)

(** A number is looked up in the configured hosts, anything else is a host;
    [None] is the panic of an index out of range. *)
Definition vm_target (vmHosts : list string) (vmStr : string) : option (result string) :=
  match atoi vmStr with
  | Some vmNum =>
      if (vmNum <? 1) || (10 <? vmNum) then Some (Err "Invalid VM number")
      else Ok <$> vmHosts !! Z.to_nat (vmNum - 1)
  | None => Some (Ok vmStr)
  end.

Definition fullLocalPath (localFile : string) : string :=
  if has_prefix "data/" localFile || has_prefix "/" localFile then localFile
  else "data/business/" +:+ localFile.

Definition append_command (localFile hydfsFile : string) : string :=
  "append " +:+ fullLocalPath localFile +:+ " " +:+ hydfsFile +:+ nl.

(** The port [multiappend] dials; the code calls it the client port. *)
Definition append_port : Z := 8000.

Definition append_addr (host : string) : string :=
  if contains_char ":"%char host then host else host +:+ ":" +:+ itoa append_port.

(** One append: the address, the line that is sent and whether the answer is a
    success.  [connect] is [None] when the connection fails, [Some None] when no
    whole line is answered in time. *)
Definition append_at (connect : string → string → option (option string)) (vmHosts : list string) (hydfsFile : string)
    (p : string * string) : option (list (string * string) * Z) :=
  target ← vm_target vmHosts p.1;
  Some match target with
       | Err _ => ([], 0)
       | Ok host =>
           let addr := append_addr host in
           let cmd := append_command p.2 hydfsFile in
           match connect addr cmd with
           | None => ([], 0)
           | Some None => ([(addr, cmd)], 0)
           | Some (Some response) =>
               ([(addr, cmd)], if has_prefix "OK" (trim_space response) then 1 else 0)
           end
       end.

(** The appends run concurrently; [None] when one of them panics, which ends the
    process. *)
Definition handleCLIMultiAppend (connect : string → string → option (option string)) (cfg : result Config)
    (parts : list string) : option (list (string * string) * Z) :=
  match parts with
  | _ :: hydfsFile :: vmListStr :: fileListStr :: _ =>
      let vmParts := split_on ","%char vmListStr in
      let fileParts := split_on ","%char fileListStr in
      if decide (length vmParts ≠ length fileParts) then Some ([], 0)
      else
        let vmHosts := match cfg with Ok c => VMs c | Err _ => [] end in
        results ← mapM (append_at connect vmHosts hydfsFile) (zip vmParts fileParts);
        Some (concat results.*1, foldr Z.add 0 results.*2)
  | _ => Some ([], 0)
  end.

(** ** dgrep *)

(** The arguments without [--save file], and the file. *)
Fixpoint save_flag (parts : list string) (saveFile : string) (grepArgs : list string) : string * list string :=
  match parts with
  | [] => (saveFile, grepArgs)
  | arg :: rest =>
      match rest with
      | file :: rest' =>
          if decide (arg = "--save") then save_flag rest' file grepArgs
          else save_flag rest saveFile (grepArgs ++ [arg])
      | [] => (saveFile, grepArgs ++ [arg])
      end
  end.

(** The alive hosts and their numbers; [order] visits the members. *)
Definition alive_vm (aliveVMs : gmap string Z) (info : Info) : gmap string Z :=
  if decide (State info = Alive) then
    let hostname := Hostname info in
    let nodeNum := sscanf_d (if has_prefix "node" hostname then drop_string 4 hostname else hostname) 0 in
    <[hostname := if 0 <? nodeNum then nodeNum else Z.of_nat (size aliveVMs) + 1]> aliveVMs
  else aliveVMs.

Definition alive_vms (order : list (Z * Info)) : gmap string Z := foldl alive_vm ∅ order.*2.

(** What is printed, and the file it is saved to; [results] orders the answers. *)
Definition handleCLIDgrep (connect : string → string → Answer) (order : list (Z * Info))
    (results : list (string * Z)) (parts : list string) : string * option (string * string) :=
  match parts with
  | [] | [_] => ("Usage: dgrep [flags] <pattern>" +:+ nl, None)
  | _ :: args =>
      let '(saveFile, grepArgs) := save_flag args "" [] in
      if decide (size (alive_vms order) = 0%nat) then (" No alive VMs in cluster" +:+ nl, None)
      else
        let result := QueryDistributed connect grepArgs results in
        (result, if decide (saveFile = "") then None else Some (saveFile, result))
  end.

(** ** The leader's console commands *)

Definition task_line (t : TaskInfo) : string :=
  pad_right 20 (ti_TaskID t) +:+ " " +:+ pad_right 30 (ti_VM t) +:+ " " +:+ pad_right 8 (itoa (ti_PID t)) +:+ " " +:+
  pad_right 20 (ti_OpExe t) +:+ " " +:+ pad_right 10 (ti_State t) +:+ nl +:+
  (if decide (ti_LogFile t = "") then "" else "Log: " +:+ ti_LogFile t +:+ nl).

Definition tasks_text (tasks : list TaskInfo) : string :=
  rule +:+ "RAINSTORM TASKS" +:+ nl +:+ rule +:+
  pad_right 20 "Task ID" +:+ " " +:+ pad_right 30 "VM" +:+ " " +:+ pad_right 8 "PID" +:+ " " +:+
  pad_right 20 "Operator" +:+ " " +:+ pad_right 10 "State" +:+ nl +:+ repeat_string "─" 60 +:+ nl +:+
  join "" (task_line <$> tasks) +:+ rule +:+ "Total Tasks: " +:+ itoa (Z.of_nat (length tasks)) +:+ nl +:+ nl.

Definition leader_addr (cfg : result Config) : result string :=
  c <- cfg ;;
  match VMs c with
  | [] => Err "No VMs configured"
  | leader :: _ => Ok (JoinHostPort leader (RainStormPort c))
  end.

(** [ask] sends the message and reads the tasks of the answer. *)
Definition handleCLIListTasks (ask : string → RainStormMessage → result (list TaskInfo)) (cfg : result Config) :
    result string :=
  leaderAddr <- leader_addr cfg ;;
  tasks <- ask leaderAddr list_tasks ;;
  Ok (tasks_text tasks).

Definition handleCLIKillTask (cfg : result Config) (parts : list string) : result (string * RainStormMessage) :=
  match parts with
  | _ :: vm :: pidStr :: _ =>
      match atoi pidStr with
      | None => Err ("Invalid PID: " +:+ pidStr)
      | Some pid => leaderAddr <- leader_addr cfg ;; Ok (leaderAddr, kill_task vm pid)
      end
  | _ => Err "Usage: kill_task <vm> <pid>"
  end.

(** ** A line of a client *)

(** What a command takes from outside: the network, the local files, the clock,
    the orders of the ranges and random numbers, and [Query] on this node. *)
Record ClientEnv := mkClientEnv {
  ce_net : string → bool;
  ce_exchange : string → NodeMessage → option Reply;
  ce_read : string → result string;
  ce_write : string → string → result string;
  ce_remote : string;
  ce_now : Z;
  ce_rng : nat → N;
  ce_order : list (Z * Info);
  ce_merge_order : list Z;
  ce_query : list string → result string;
  ce_config : result Config;
}.

(** What a command sends, and the goroutines it starts. *)
Inductive ClientEffect :=
  | Sends (e : NodeEffect)
  | SpawnJoin (cfg : Config)
  | SpawnGetFromReplica (vmAddr hydfsFile localFile : string)
  | SpawnMultiAppend (parts : list string).

Definition with_node (x : Node) (n : HNode) : HNode := mkHNode x (hn_store n) (pendingAckTargets n).

Section client.
Context `{!GoEnv} (base : path) (env : ClientEnv).

Definition broadcast (operation hydfsFile : string) (n : HNode) : list ClientEffect :=
  Sends <$> broadcastOperation (ce_net env) (ce_order env) operation hydfsFile n.

(** [create localFile hydfsFile]. *)
Definition command_create (localFile hydfsFile : string) (n : HNode) :
    HNode * list ClientEffect * list string :=
  let '(n', out, answer) :=
    client_create base (ce_net env) (ce_read env localFile) (ce_remote env) (ce_now env) hydfsFile n in
  (n', Sends <$> out, match answer with Some a => [a] | None => [] end).

Definition command_get (hydfsFile localFile : string) (n : HNode) : list string :=
  match client_get (ce_exchange env) hydfsFile n with
  | Err e => [e]
  | Ok content =>
      match ce_write env localFile content with
      | Err e => ["ERR failed to write file: " +:+ e]
      | Ok localPath =>
          ["OK retrieved " +:+ hydfsFile +:+ " (" +:+ itoa (Z.of_nat (String.length content)) +:+
           " bytes) to " +:+ localPath]
      end
  end.

Definition command_append (localFile hydfsFile : string) (n : HNode) : list ClientEffect * list string :=
  (broadcast "append" hydfsFile n ++
   (Sends <$> handleCLIAppend (ce_net env) (ce_read env localFile) (ce_now env) hydfsFile n),
   ["OK append " +:+ localFile +:+ " -> " +:+ hydfsFile +:+ " (operation logged)"]).

Definition command_merge (hydfsFile : string) (n : HNode) : HNode * list ClientEffect * list string :=
  let '(n', out) := handleCLIMerge base (ce_net env) (ce_exchange env) (ce_merge_order env) hydfsFile n in
  (n', broadcast "merge" hydfsFile n ++ (Sends <$> out), ["OK merge " +:+ hydfsFile +:+ " completed"]).

Definition helpMsg : string :=
  "Available commands:" +:+ nl +:+ "  MP1: dgrep" +:+ nl +:+
  "  MP2: list_mem | list_mem_ids | list_self | join | leave" +:+ nl +:+
  "  MP3: create | get | append | merge | ls | liststore | getfromreplica | multiappend" +:+ nl.

(** [handleClientConnection], one line; the responses are the bytes written. *)
Definition client_command (text : string) (n : HNode) : HNode * list ClientEffect * string :=
  let answer (l : list string) := join "" (resp <$> l) in
  let keep (l : list string) := (n, [], answer l) in
  match fields text with
  | [] => (n, [], "")
  | cmd0 :: args =>
      let cmd := to_lower cmd0 in
      let at_ c := bool_decide (cmd = c) in
      if at_ "list_mem" then keep [Table (node_Membership (hn_node n))]
      else if at_ "list_mem_ids" then keep [list_mem_ids (members n)]
      else if at_ "list_self" then keep [list_self (hn_node n)]
      else if at_ "join" then
        match ce_config env with
        | Err e => keep ["ERR join: cannot load config: " +:+ e]
        | Ok cfg => (n, [SpawnJoin cfg], answer ["OK join initiated"])
        end
      else if at_ "leave" then
        (with_node (client_leave (ce_rng env) (ce_now env) (hn_node n)).1 n, [], answer ["OK left group"])
      else if at_ "create" then
        match args with
        | localFile :: hydfsFile :: _ =>
            let '(n', out, l) := command_create localFile hydfsFile n in (n', out, answer l)
        | _ => keep ["ERR usage: create localfilename HyDFSfilename"]
        end
      else if at_ "get" then
        match args with
        | hydfsFile :: localFile :: _ => keep (command_get hydfsFile localFile n)
        | _ => keep ["ERR usage: get HyDFSfilename localfilename"]
        end
      else if at_ "append" then
        match args with
        | localFile :: hydfsFile :: _ =>
            let '(out, l) := command_append localFile hydfsFile n in (n, out, answer l)
        | _ => keep ["ERR usage: append localfilename HyDFSfilename"]
        end
      else if at_ "merge" then
        match args with
        | hydfsFile :: _ => let '(n', out, l) := command_merge hydfsFile n in (n', out, answer l)
        | _ => keep ["ERR usage: merge HyDFSfilename"]
        end
      else if at_ "ls" then
        match args with
        | hydfsFile :: _ => keep [default "ERR no replicas available" (ls_text hydfsFile n)]
        | _ => keep ["ERR usage: ls HyDFSfilename"]
        end
      else if at_ "liststore" then keep [liststore base n]
      else if at_ "getfromreplica" then
        match args with
        | vmAddr :: hydfsFile :: localFile :: _ =>
            (n, broadcast "getfromreplica" hydfsFile n ++ [SpawnGetFromReplica vmAddr hydfsFile localFile],
             answer ["OK getfromreplica " +:+ hydfsFile +:+ " from " +:+ vmAddr])
        | _ => keep ["ERR usage: getfromreplica VMaddress HyDFSfilename localfilename"]
        end
      else if at_ "multiappend" then
        match args with
        | hydfsFile :: _ :: _ :: _ =>
            (n, broadcast "multiappend" hydfsFile n ++ [SpawnMultiAppend (cmd0 :: args)],
             answer ["OK multiappend " +:+ hydfsFile +:+ " (operation initiated)"])
        | _ => keep ["ERR usage: multiappend HyDFSfilename VM1,VM2,... localfile1,localfile2,..."]
        end
      else if at_ "dgrep_query" then (n, [], dgrep_query (ce_query env) (cmd0 :: args))
      else keep ["ERR unknown command: " +:+ cmd; helpMsg]
  end.

(** ** A line of the console *)

(** What the console adds to the environment. *)
Record ConsoleEnv := mkConsoleEnv {
  cs_udp : string → Message → result Z;
  cs_format_version : Z → string;
  cs_files : list (string * Common.FileMetadata);
  cs_connect : string → string → option (option string);
  cs_grep : string → string → Answer;
  cs_results : list (string * Z);
  cs_ask : string → RainStormMessage → result (list TaskInfo);
}.

(** The node with what it sends and starts, and what a command that only shows
    something prints; the end of the process. *)
Inductive ConsoleResult :=
  | Continues (n : HNode) (out : list ClientEffect) (sent : Sent) (text : string)
  | Submitted (leader : string) (msg : RainStormMessage)
  | Exits (sent : Sent)
  | Panics.

Definition shows (n : HNode) (text : string) : ConsoleResult := Continues n [] [] text.

Definition console_command (cenv : ConsoleEnv) (text : string) (n : HNode) : ConsoleResult :=
  let x := hn_node n in
  let parts := fields text in
  match parts with
  | [] => shows n ""
  | cmd :: args =>
      let at_ c := bool_decide (cmd = c) in
      if at_ "list_mem" then shows n (handleCLIListMem (Table (node_Membership x)))
      else if at_ "list_mem_ids" then shows n (handleCLIListMemIds (members n))
      else if at_ "list_self" then shows n (handleCLIListSelf (cs_format_version cenv) x)
      else if at_ "join" then
        let '(x', start) := handleCLIJoin (ce_now env) x in
        Continues (with_node x' n)
          (if start then match ce_config env with Ok cfg => [SpawnJoin cfg] | Err _ => [] end else []) [] ""
      else if at_ "leave" then
        let '(x', eff) := handleCLILeave (cs_udp cenv) (ce_rng env) (ce_order env) (ce_now env) x in
        Continues (with_node x' n) [] (e_sent eff) ""
      else if at_ "create" then
        match args with
        | localFile :: hydfsFile :: _ =>
            let '(n', out) := handleCLICreate (ce_net env) (ce_read env localFile) (ce_now env) hydfsFile n in
            Continues n' (Sends <$> out) [] ""
        | _ => shows n ""
        end
      else if at_ "get" then
        match args with
        | hydfsFile :: _ :: _ => Continues n (broadcast "get" hydfsFile n) [] ""
        | _ => shows n ""
        end
      else if at_ "append" then
        match args with
        | localFile :: hydfsFile :: _ =>
            Continues n (Sends <$> handleCLIAppend (ce_net env) (ce_read env localFile) (ce_now env) hydfsFile n)
              [] ""
        | _ => shows n ""
        end
      else if at_ "merge" then
        match args with
        | hydfsFile :: _ =>
            let '(n', out) := handleCLIMerge base (ce_net env) (ce_exchange env) (ce_merge_order env) hydfsFile n in
            Continues n' (Sends <$> out) [] ""
        | _ => shows n ""
        end
      else if at_ "ls" then shows n (handleCLILs parts n)
      else if at_ "liststore" then shows n (handleCLIListStore (cs_files cenv) n)
      else if at_ "getfromreplica" then
        match args with
        | vmAddr :: hydfsFile :: localFile :: _ =>
            match handleCLIGetFromReplica (ce_exchange env) (ce_write env) vmAddr hydfsFile localFile with
            | Ok localPath => shows n localPath
            | Err e => shows n e
            end
        | _ => shows n ""
        end
      else if at_ "multiappend" then
        match handleCLIMultiAppend (cs_connect cenv) (ce_config env) parts with
        | None => Panics
        | Some _ => shows n ""
        end
      else if at_ "dgrep" then
        shows n (handleCLIDgrep (cs_grep cenv) (ce_order env) (cs_results cenv) parts).1
      else if at_ "list_tasks" then
        match handleCLIListTasks (cs_ask cenv) (ce_config env) with
        | Ok tasks => shows n tasks
        | Err e => shows n e
        end
      else if at_ "kill_task" then
        match handleCLIKillTask (ce_config env) parts with
        | Ok (leader, msg) => Submitted leader msg
        | Err e => shows n e
        end
      else if at_ "help" then shows n ""
      else if at_ "quit" || at_ "exit" then
        Exits (e_sent (gracefulLeave (cs_udp cenv) (ce_rng env) (ce_order env) (ce_now env) x).2)
      else shows n ("Unknown command: " +:+ cmd +:+ nl +:+ "Type 'help' for available commands." +:+ nl)
  end.
End client.

(** [reader.ReadString('\n')] on a stream of bytes. *)
Definition first_line (bytes : string) : option string :=
  match split_on NL bytes with
  | l :: _ :: _ => Some (l +:+ nl)
  | _ => None
  end.

(** ** The ports of a node

    What a node does with a line that comes in on one of its ports: its new
    state, what it sends or starts, and the first line it answers.  [decode] is
    [json.Unmarshal] into a [NodeMessage], [encode] the line of a reply; the
    state of a node that panics does not matter, it answers nothing. *)
Definition port_line `{!GoEnv} (base : path) (cfg : Config) (decode : string → option NodeMessage)
    (encode : Reply → string) (env : ClientEnv) (port : Z) (line : string) (n : HNode) :
    option (HNode * list ClientEffect * option string) :=
  if decide (port = ClientPort cfg) then
    let '(n', out, text) := client_command base env line n in Some (n', out, first_line text)
  else if decide (port = NodePort cfg) then
    match decode line with
    | None => Some (n, [], None)
    | Some msg =>
        let '(n', es) := default (n, []) (handleNodeMessage base (ce_net env) (ce_exchange env) msg n) in
        Some (n', Sends <$> es, head (omap (λ e, match e with ReplyWith r => Some (encode r) | _ => None end) es))
    end
  else None.

(** The other side of the connections of [multiappend]: the nodes by address. *)
Definition connect_nodes `{!GoEnv} (base : path) (cfg : Config) (decode : string → option NodeMessage)
    (encode : Reply → string) (envs : string → ClientEnv) (nodes : gmap string HNode) (addr line : string) :
    option (option string) :=
  n ← nodes !! addr;
  '(_, _, answer) ← port_line base cfg decode encode (envs addr) append_port line n;
  Some answer.

(** ** The lines of multiappend *)

Lemma no_space_app s t : no_space (s +:+ t) = no_space s && no_space t.
Proof. apply string_forallb_app. Qed.

Lemma fullLocalPath_word f : no_space f = true → f ≠ "" → no_space (fullLocalPath f) = true ∧ fullLocalPath f ≠ "".
Proof.
  intros Hf Hne. unfold fullLocalPath. destruct (_ || _); [done|]. rewrite no_space_app, Hf. done.
Qed.

Lemma fields_line l : Forall (λ w, no_space w = true ∧ w ≠ "") l → fields (join " " l +:+ nl) = l.
Proof. intros Hl. rewrite fields_blank. by apply fields_join. Qed.

(** A command with two arguments. *)
Lemma fields_two_words c a b :
  no_space c = true → c ≠ "" → no_space a = true → a ≠ "" → no_space b = true → b ≠ "" →
  fields (c +:+ " " +:+ a +:+ " " +:+ b +:+ nl) = [c; a; b].
Proof.
  intros. replace (c +:+ " " +:+ a +:+ " " +:+ b +:+ nl) with (join " " [c; a; b] +:+ nl)
    by (cbn [join]; by rewrite !app_assoc_str).
  apply fields_line. by repeat constructor.
Qed.

(** A node whose client port gets the line runs the append it stands for. *)
Lemma client_reads_append `{!GoEnv} base env localFile hydfsFile n :
  no_space localFile = true → localFile ≠ "" → no_space hydfsFile = true → hydfsFile ≠ "" →
  client_command base env (append_command localFile hydfsFile) n =
    (n, (command_append env (fullLocalPath localFile) hydfsFile n).1,
     resp ("OK append " +:+ fullLocalPath localFile +:+ " -> " +:+ hydfsFile +:+ " (operation logged)")).
Proof.
  intros Hl Hln Hh Hhn. destruct (fullLocalPath_word localFile Hl Hln) as [Hw Hwn].
  unfold client_command, append_command. change ("append " +:+ ?s) with ("append" +:+ " " +:+ s).
  rewrite (fields_two_words "append" (fullLocalPath localFile) hydfsFile) by done. reflexivity.
Qed.

Lemma trim_ok s : has_prefix "OK" (trim_space ("OK" +:+ s)) = true.
Proof.
  unfold trim_space. simpl. destruct (trim_right s) as [|c t]; [done|]. simpl. done.
Qed.

Lemma resp_ok s : ∃ t, resp ("OK" +:+ s) = "OK" +:+ t +:+ nl.
Proof.
  unfold resp. destruct (has_suffix nl ("OK" +:+ s)) eqn:E; [|by exists s].
  apply has_suffix_inv in E as [[|c [|c' s']] E]; simplify_eq/=. by exists s'.
Qed.

(** An answer that starts with [OK] is read as a line that does. *)
Lemma first_line_ok s : ∃ l, first_line (resp ("OK" +:+ s)) = Some ("OK" +:+ l).
Proof.
  destruct (resp_ok s) as [t ->]. unfold first_line. simpl.
  pose proof (split_on_ne NL t) as Hne.
  change (t +:+ nl) with (t +:+ String NL ""). rewrite split_on_cat.
  destruct (split_on NL t) as [|w ws]; [done|]. exists (w +:+ nl). by destruct ws.
Qed.

Lemma append_at_answered connect vmHosts hydfsFile vm host file answer :
  vm_target vmHosts vm = Some (Ok host) →
  connect (append_addr host) (append_command file hydfsFile) = Some answer →
  append_at connect vmHosts hydfsFile (vm, file) =
    Some ([(append_addr host, append_command file hydfsFile)],
          match answer with Some r => if has_prefix "OK" (trim_space r) then 1 else 0 | None => 0 end).
Proof. intros Hv Hc. unfold append_at. simpl. rewrite Hv. simpl. rewrite Hc. by destruct answer. Qed.

Lemma mapM_None_elem {A B} (f : A → option B) l x : x ∈ l → f x = None → mapM f l = None.
Proof.
  induction l as [|y l IH]; intros Hx Hf; [by apply elem_of_nil in Hx|]. simpl.
  apply elem_of_cons in Hx as [->|Hx]; [by rewrite Hf|].
  destruct (f y); [|done]. simpl. by rewrite IH.
Qed.

(** Every host answers, and all answers count [k]. *)
Lemma mapM_appends connect vmHosts hydfsFile vms hosts files (k : Z) :
  Forall2 (λ vm host, vm_target vmHosts vm = Some (Ok host)) vms hosts → length vms = length files →
  (∀ host file, host ∈ hosts → file ∈ files → ∃ answer,
     connect (append_addr host) (append_command file hydfsFile) = Some answer ∧
     match answer with Some r => if has_prefix "OK" (trim_space r) then 1 else 0 | None => 0 end = k) →
  mapM (append_at connect vmHosts hydfsFile) (zip vms files) =
    Some (zip_with (λ host f, ([(append_addr host, append_command f hydfsFile)], k)) hosts files).
Proof.
  intros Hv. revert files. induction Hv as [|vm host vms hosts Hvm _ IH]; intros [|f files] Hlen Hc;
    try done. simpl in *. destruct (Hc host f ltac:(by left) ltac:(by left)) as (answer & Hr & Hk).
  rewrite (append_at_answered connect vmHosts hydfsFile vm host f answer) by done. simpl.
  rewrite IH by (lia || intros; apply Hc; by right). simpl. by rewrite Hk.
Qed.

Lemma concat_singles {A B C} (g : A → B → C) (k : Z) la lb :
  concat (zip_with (λ a b, ([g a b], k)) la lb).*1 = zip_with g la lb.
Proof. revert lb. induction la as [|a la IH]; intros [|b lb]; simpl; [done..|]. by rewrite IH. Qed.

Lemma sum_same {A B C} (g : A → B → C) (k : Z) la lb :
  length la = length lb → foldr Z.add 0 (zip_with (λ a b, ([g a b], k)) la lb).*2 = k * Z.of_nat (length la).
Proof. revert lb. induction la as [|a la IH]; intros [|b lb] Hl; simpl in *; try done; [lia|]. rewrite IH; lia. Qed.

(** C20: [multiappend] dials port 8000 of every node it names, with the line of
    the append.  With the shipped configuration that is the node port: the line
    is no JSON message, the nodes do nothing and answer nothing, and no append
    succeeds.  Only where the client port is 8000 does every node run the append
    of its file, and then all of them count.  A number up to ten for which no
    host is configured ends the process. *)
Theorem multiappend_commands `{!GoEnv} (base : path) (cfg : Config) (decode : string → option NodeMessage)
    (encode : Reply → string) (envs : string → ClientEnv) (nodes : gmap string HNode) (hydfsFile : string)
    (vms hosts files : list string) :
  no_space hydfsFile = true → hydfsFile ≠ "" → vms ≠ [] → length vms = length files →
  Forall (λ vm, string_forallb (not_char ","%char) vm = true) vms →
  Forall (λ f, string_forallb (not_char ","%char) f = true ∧ no_space f = true ∧ f ≠ "") files →
  (∀ rest, decode ("append " +:+ rest) = None) →
  let parts := ["multiappend"; hydfsFile; join "," vms; join "," files] in
  let run := handleCLIMultiAppend (connect_nodes base cfg decode encode envs nodes) (Ok cfg) parts in
  let lines := zip_with (λ host f, (append_addr host, append_command f hydfsFile)) hosts files in
  (Forall2 (λ vm host, vm_target (VMs cfg) vm = Some (Ok host)) vms hosts →
   (∀ host, host ∈ hosts → is_Some (nodes !! append_addr host)) →
   (NodePort cfg = append_port → ClientPort cfg ≠ append_port →
      run = Some (lines, 0) ∧
      ∀ f env n, f ∈ files → port_line base cfg decode encode env append_port (append_command f hydfsFile) n =
        Some (n, [], None)) ∧
   (ClientPort cfg = append_port →
      run = Some (lines, Z.of_nat (length vms)) ∧
      ∀ f env n, f ∈ files → ∃ answer,
        port_line base cfg decode encode env append_port (append_command f hydfsFile) n =
        Some (n, (command_append env (fullLocalPath f) hydfsFile n).1, Some ("OK" +:+ answer)))) ∧
  (∀ vm k, vm ∈ vms → atoi vm = Some k → 1 <= k <= 10 → Z.of_nat (length (VMs cfg)) < k → run = None).
Proof.
  intros Hh Hhn Hne Hlen Hvm Hf Hdec parts run lines.
  assert (files ≠ []) as Hfn by (destruct vms, files; done).
  assert (split_on ","%char (join "," vms) = vms ∧ split_on ","%char (join "," files) = files) as [Hsv Hsf].
  { split; apply split_join; try done. eapply Forall_impl; [exact Hf|]. by intros f []. }
  assert (run = (results ← mapM (append_at (connect_nodes base cfg decode encode envs nodes) (VMs cfg) hydfsFile)
    (zip vms files); Some (concat results.*1, foldr Z.add 0 results.*2))) as ->.
  { unfold run, handleCLIMultiAppend, parts. by rewrite Hsv, Hsf, decide_False by tauto. }
  split.
  - intros Hv Hnodes. pose proof (Forall2_length _ _ _ Hv) as Hl.
    assert (∀ k, (∀ f env n, f ∈ files → ∃ n' out answer,
       port_line base cfg decode encode env append_port (append_command f hydfsFile) n = Some (n', out, answer) ∧
       match answer with Some r => if has_prefix "OK" (trim_space r) then 1 else 0 | None => 0 end = k) →
      (results ← mapM (append_at (connect_nodes base cfg decode encode envs nodes) (VMs cfg) hydfsFile)
        (zip vms files); Some (concat results.*1, foldr Z.add 0 results.*2)) =
      Some (lines, k * Z.of_nat (length vms))) as Hrun.
    { intros k Hk. rewrite (mapM_appends _ _ _ _ hosts _ k); [|done..|].
      - simpl. by rewrite concat_singles, sum_same, Hl by lia.
      - intros host f Hhost Hfile. unfold connect_nodes. destruct (Hnodes host Hhost) as [n ->]. simpl.
        destruct (Hk f (envs (append_addr host)) n Hfile) as (n' & out & answer & -> & Ha). by exists answer. }
    split.
    + intros Hnp Hcp.
      assert (∀ f env n, f ∈ files → port_line base cfg decode encode env append_port (append_command f hydfsFile) n =
        Some (n, [], None)) as Hport.
      { intros f env n _. unfold port_line. rewrite decide_False, decide_True by done.
        unfold append_command. by rewrite Hdec. }
      split; [|done]. rewrite (Hrun 0); [done|]. intros f env n Hin. by exists n, [], None; rewrite Hport.
    + intros Hcp.
      assert (∀ f env n, f ∈ files → ∃ answer,
        port_line base cfg decode encode env append_port (append_command f hydfsFile) n =
        Some (n, (command_append env (fullLocalPath f) hydfsFile n).1, Some ("OK" +:+ answer))) as Hport.
      { intros f env n Hin. destruct (proj1 (Forall_forall _ _) Hf f Hin) as (_ & Hs & Hfe).
        unfold port_line. rewrite decide_True, client_reads_append by done.
        destruct (first_line_ok (" append " +:+ fullLocalPath f +:+ " -> " +:+ hydfsFile +:+ " (operation logged)"))
          as [l Hl']. exists l. by rewrite <- Hl'. }
      split; [|done]. rewrite (Hrun 1); [by rewrite Z.mul_1_l|]. intros f env n Hin.
      destruct (Hport f env n Hin) as [a ->]. do 3 eexists. split; [done|]. cbv beta iota zeta. by rewrite trim_ok.
  - intros vm k Hin Ha Hk Hgt.
    apply list_elem_of_lookup in Hin as [i Hi]. destruct (lookup_lt_is_Some_2 files i) as [f Hfi].
    { rewrite <- Hlen. by eapply lookup_lt_Some. }
    rewrite (mapM_None_elem _ _ (vm, f)); [done| |].
    + apply list_elem_of_lookup. exists i. apply lookup_zip_with_Some. eauto.
    + unfold append_at, vm_target. simpl. rewrite Ha. destruct (Z.ltb_spec k 1), (Z.ltb_spec 10 k); try lia. simpl.
      rewrite lookup_ge_None_2 by lia. done.
Qed.

(** The hosts [dgrep] asks are those of the alive members, each once. *)
Lemma dgrep_asks_alive order host :
  is_Some (alive_vms order !! host) ↔ ∃ e, e ∈ order ∧ State e.2 = Alive ∧ Hostname e.2 = host.
Proof.
  unfold alive_vms. rewrite <- (reverse_involutive order). rewrite fmap_reverse.
  induction (reverse order) as [|e l IH].
  - simpl. split; [by intros [? ?%lookup_empty_Some]|]. intros (e & Hin & _). by apply elem_of_nil in Hin.
  - rewrite fmap_cons, !reverse_cons, foldl_app. simpl. unfold alive_vm at 1. split.
    + case_decide as Ha; [|intros (e' & ? & ?)%IH; exists e'; set_solver].
      destruct (decide (Hostname e.2 = host)) as [Heq|Hneq]; [intros _; exists e; set_solver|].
      rewrite lookup_insert_ne by done. intros (e' & ? & ?)%IH. exists e'. set_solver.
    + intros (e' & [Hin|He%list_elem_of_singleton]%elem_of_app & Ha & Hh).
      * assert (is_Some (foldl alive_vm ∅ (reverse l.*2) !! host)) as Hs by (apply IH; eauto).
        case_decide; [|done]. destruct (decide (Hostname e.2 = host)) as [->|];
          [rewrite lookup_insert_eq; eauto|by rewrite lookup_insert_ne].
      * subst e'. rewrite decide_True by done. rewrite Hh, lookup_insert_eq. eauto.
Qed.

(** ** The properties at concrete inputs *)

Definition demo_hosts : Config := mkConfig 8000 8003 8001 8002 [] ["node1"; "node2"].

Definition demo_env : ClientEnv :=
  mkClientEnv (λ _, true) (λ _ _, None) (λ _, Ok "") (λ f _, Ok f) "client" 0 (λ _, 0%N) [] []
    (λ _, Ok "") (Ok demo_hosts).

Definition demo_client : HNode := mkHNode (mkNode 1 (mkMembership [] ∅ 0) ∅ true) (mkDisk ∅ []) ∅.

(** A decoder for which only lines that open an object are messages. *)
Definition demo_decode (line : string) : option NodeMessage :=
  if has_prefix "{" line then Some (unknown_type line) else None.

Definition other_hosts : Config := mkConfig 8004 8000 8001 8002 [] ["node1"; "node2"].

(** The same command with the ports of config.json, and with 8000 as the client
    port. *)
Lemma multiappend_commands_witness :
  let nodes := {[ "node2:8000" := demo_client; "node5:8000" := demo_client ]} in
  let parts := ["multiappend"; "log.txt"; "2,node5"; "a.txt,/tmp/b.txt"] in
  let lines := [("node2:8000", "append data/business/a.txt log.txt" +:+ nl);
                ("node5:8000", "append /tmp/b.txt log.txt" +:+ nl)] in
  let run cfg := handleCLIMultiAppend
    (connect_nodes (H := poly_env) ["hydfs"] cfg demo_decode (λ _, "") (λ _, demo_env) nodes) (Ok cfg) in
  run demo_hosts parts = Some (lines, 0) ∧ run other_hosts parts = Some (lines, 2) ∧
  run demo_hosts ["multiappend"; "log.txt"; "3"; "a.txt"] = None.
Proof.
  intros nodes parts lines run.
  assert (∀ host, host ∈ ["node2"; "node5"] → is_Some (nodes !! append_addr host)) as Hnodes.
  { intros host [->|[->|[]%elem_of_nil]%elem_of_cons]%elem_of_cons; vm_compute; eauto. }
  split; [|split].
  - refine (proj1 (proj1 (proj1 (multiappend_commands (H := poly_env) ["hydfs"] demo_hosts demo_decode (λ _, "")
      (λ _, demo_env) nodes "log.txt" ["2"; "node5"] ["node2"; "node5"] ["a.txt"; "/tmp/b.txt"] eq_refl _ _ eq_refl
      _ _ _) _ Hnodes) eq_refl _)); try discriminate; try (by repeat constructor); try (repeat constructor; discriminate).
  - refine (proj1 (proj2 (proj1 (multiappend_commands (H := poly_env) ["hydfs"] other_hosts demo_decode (λ _, "")
      (λ _, demo_env) nodes "log.txt" ["2"; "node5"] ["node2"; "node5"] ["a.txt"; "/tmp/b.txt"] eq_refl _ _ eq_refl
      _ _ _) _ Hnodes) eq_refl)); try discriminate; try (by repeat constructor); try (repeat constructor; discriminate).
  - refine (proj2 (multiappend_commands (H := poly_env) ["hydfs"] demo_hosts demo_decode (λ _, "")
      (λ _, demo_env) nodes "log.txt" ["3"] [] ["a.txt"] eq_refl _ _ eq_refl _ _ _) "3" 3 _ eq_refl _ _).
    + discriminate.
    + discriminate.
    + by repeat constructor.
    + repeat constructor; discriminate.
    + done.
    + by left.
    + lia.
    + simpl; lia.
Defined.
