(* ===== verification/OutputFile.v ===== *)
(** * OutputFile: the output file of a job, [createHyDFSFile] of
    pkg/rainstorm/leader.go

    The leader creates the empty output file by a [create] line to the client
    port of its own node, before the job starts.  The function is composed here
    with the client port ([Console]) and the replicas of the file ([Cluster]). *)

From S2P Require Import Prelude GoStrings Env Membership Ring FileSystem BlockStore Common NodeLoop HyDFS Cluster Logging Console.

(** The line for the client port. *)
Definition create_line (tmpPath filename : string) : string :=
  "create " +:+ tmpPath +:+ " " +:+ filename +:+ nl.

(** [write_tmp] is the path of the empty temporary file; [connect] is [Err] when
    the line cannot be sent, [Ok None] when no whole line comes back in time,
    which counts as success. *)
Definition createHyDFSFile (write_tmp : result string) (connect : string → string → result (option string))
    (clientPort : Z) (filename : string) : result unit :=
  tmpPath <- write_tmp ;;
  answer <- connect ("localhost:" +:+ itoa clientPort) (create_line tmpPath filename) ;;
  match answer with
  | None => Ok tt
  | Some response =>
      let response := trim_space response in
      if has_prefix "OK" response then Ok tt else Err ("create failed: " +:+ response)
  end.

(** What a job's output file has to do with the nodes of the cluster. *)
Definition client_sent (es : list ClientEffect) : list (string * NodeMessage) :=
  sent_messages (omap (λ e, match e with Sends e => Some e | _ => None end) es).

Section output_file.
Context `{!GoEnv} (base : path).

(** The client port of the leader's own node. *)
Definition own_port (env : ClientEnv) (n : HNode) (clientPort : Z) (addr line : string) :
    result (option string) :=
  if decide (addr = "localhost:" +:+ itoa clientPort)
  then Ok (first_line (client_command base env line n).2)
  else Err "connection refused".

Lemma own_port_answers env n clientPort line :
  own_port env n clientPort ("localhost:" +:+ itoa clientPort) line =
    Ok (first_line (client_command base env line n).2).
Proof. unfold own_port. by rewrite decide_True. Qed.

(** The client port takes the line for the creation it stands for. *)
Lemma client_reads_create env n tmp dest :
  no_space tmp = true → tmp ≠ "" → no_space dest = true → dest ≠ "" →
  client_command base env (create_line tmp dest) n =
    let '(n', es, answer) :=
      client_create base (ce_net env) (ce_read env tmp) (ce_remote env) (ce_now env) dest n in
    (n', Sends <$> es, default "" (resp <$> answer)).
Proof.
  intros Ht Htn Hd Hdn. unfold client_command, create_line.
  change ("create " +:+ ?s) with ("create" +:+ " " +:+ s). rewrite fields_two_words by done.
  simpl. unfold command_create. destruct (client_create _ _ _ _ _ _ _) as [[n' es] [a|]]; done.
Qed.

Lemma client_sent_nodes es : client_sent (Sends <$> es) = sent_messages es.
Proof.
  unfold client_sent. f_equal. induction es as [|e es IH]; [done|]. simpl. f_equal. apply IH.
Qed.
End output_file.

Section created.
Context `{!GoEnv} (base : path) (im : gmap Z Info).

(** C5: The output file of a job exists before its tasks run: when the leader's
    node serves the client port and no name has a blank, [createHyDFSFile]
    reports success, whether the node answers or leaves it without an answer,
    and when the messages it caused have been handled every replica of the file
    holds the empty file and waits for nobody. *)
Theorem output_file_created (nodes : gmap Z HNode) (leader : Z) (n : HNode) (env : ClientEnv)
    (tmp dest : string) (clientPort : Z) :
  same_view im nodes → nodes !! leader = Some n →
  FileStore (hn_node n) !! dest = None → pendingAckTargets n !! dest = None →
  replicas_of n dest ≠ [] →
  (∀ id, id ∈ replicas_of n dest → ∃ m, nodes !! id = Some m ∧ ready base dest m) →
  no_space tmp = true → tmp ≠ "" → no_space dest = true → dest ≠ "" →
  ce_net env = (λ _, true) → ce_read env tmp = Ok "" →
  createHyDFSFile (Ok tmp) (own_port base env n clientPort) clientPort dest = Ok tt ∧
  let '(n', es, _) := client_command base env (create_line tmp dest) n in
  replicated base dest "" (replicas_of n dest) nodes
    (run_cluster base (2 * length (replicas_of n dest))
       (mkCluster (<[leader := n']> nodes) (client_sent es) [])).
Proof.
  intros Hv Hn Hfs Hp Hne Hready Ht Htn Hd Hdn Hnet Hread.
  unfold createHyDFSFile. cbv beta iota. rewrite own_port_answers, client_reads_create, Hnet, Hread by done.
  destruct (client_create _ _ _ _ _ _ _) as [[n' es] answer] eqn:Hcc.
  destruct (client_create_replicates base im nodes leader n n' dest "" (ce_remote env) (ce_now env) es answer)
    as (Hr & _ & _ & Hok); try done.
  split; [|by rewrite client_sent_nodes]. destruct answer as [a|]; simpl; [|done].
  destruct (Hok a eq_refl) as [s ->]. destruct (first_line_ok s) as [l ->].
  cbv beta iota zeta. by rewrite trim_ok.
Qed.

(** With a blank in the working directory the line has one word more: the
    command reads the first half of the path, and nothing is created. *)
Theorem output_path_with_blank (env : ClientEnv) (n : HNode) (w1 w2 dest e : string) (clientPort : Z) :
  no_space w1 = true → w1 ≠ "" → no_space w2 = true → w2 ≠ "" → no_space dest = true → dest ≠ "" →
  FileStore (hn_node n) !! w2 = None → ce_read env w1 = Err e →
  client_command base env (create_line (w1 +:+ " " +:+ w2) dest) n =
    (n, [], resp ("ERR failed to read local file: " +:+ e)).
Proof.
  intros H1 H1n H2 H2n Hd Hdn Hfs Hr. unfold client_command.
  replace (create_line (w1 +:+ " " +:+ w2) dest) with (join " " ["create"; w1; w2; dest] +:+ nl).
  - rewrite fields_line by (by repeat constructor). simpl. unfold command_create, client_create. by rewrite Hfs, Hr.
  - cbn [join]. unfold create_line. by rewrite !app_assoc_str.
Qed.
End created.

(** ** A cluster at work *)

Definition leader_env : ClientEnv :=
  mkClientEnv (λ _, true) (λ _ _, None) (λ _, Ok "") (λ f _, Ok f) "[::1]:40000" 7 (λ _, 0%N) [] []
    (λ _, Ok "") (Err "no configuration").

Lemma output_file_created_witness :
  let nodes := demo_nodes (λ _, empty_store) in
  let n := demo_hnode 10 empty_store in
  let '(n', es, _) :=
    client_command (H := poly_env) ["hydfs"] leader_env (create_line "/app/rainstorm_outputs/hydfs_empty_7.txt" "f.txt") n in
  replicated ["hydfs"] "f.txt" "" [3 * 2 ^ 62; 10; 2 ^ 62] nodes
    (run_cluster (H := poly_env) ["hydfs"] 6 (mkCluster (<[10 := n']> nodes) (client_sent es) [])).
Proof.
  intros nodes n.
  assert (replicas_of (H := poly_env) n "f.txt" = [3 * 2 ^ 62; 10; 2 ^ 62]) as Hrep by (by vm_compute).
  pose proof (output_file_created (H := poly_env) ["hydfs"] demo_view nodes 10 n leader_env
    "/app/rainstorm_outputs/hydfs_empty_7.txt" "f.txt" 8003 (demo_same_view _) eq_refl eq_refl eq_refl) as Hc.
  rewrite Hrep in Hc. destruct (client_command _ _ _ _) as [[n' es] text].
  destruct Hc as [_ Hr]; [done| |done..|exact Hr].
  intros id Hid. exists (demo_hnode id empty_store). split; [|apply demo_ready; by vm_compute].
  revert id Hid. apply Forall_forall. repeat constructor.
Defined.
