(* ===== verification/Leader.v ===== *)
(** * Leader: pkg/rainstorm/leader.go

    The leader schedules the tasks of a job, tracks their completion, restarts
    failed ones and scales stages.  A handler takes the server and what the
    call observes of the world (clock, order of a map, which addresses answer)
    and returns the new server and the effects: messages that were delivered
    and goroutines that were started.  Goroutines run later, in any order
    ([leader_step]).  [HandleTaskCompleted] and [HandleTaskFailure] release
    their locks in between and are split there: what they do next is a
    goroutine of the pool.  [HandleSubmitJob], [addTaskToStage] and
    [removeTaskFromStage] also take a lock more than once; they are one step
    here, up to the waits of [removeTaskFromStage]. *)

From S2P Require Import Prelude GoStrings Env Membership Common RainStorm.

(** ** State *)

Record Job := mkJob {
  CurrentJobName : string;
  CurrentJobDestFile : string;
  job_Timestamp : string;
  JobStartTime : Z;
  ExpectedTasks : Z;
  OriginalTaskCount : Z;
  CompletedTasks : Z;
  CompletedTaskIDs : gset string;
  UpscaledTaskIDs : gset string;
  OriginalTasksDone : bool;
  OutputTaskFiles : gmap string string;
  CurrentRoutingTable : option routing;
  JobEnded : bool;
}.

Record Scale := mkScale {
  AutoScaleEnabled : bool;
  LowWatermark : Z;
  HighWatermark : Z;
  StageTaskCount : gmap Z Z;
  LastScaleTime : gmap Z Z;
  LowRateStart : gmap Z Z;
  StageConfigs : list StageConfig;
}.

Record Server := mkServer {
  sv_Node : Node;
  sv_Config : Config;
  AllTasks : gmap string Task;
  sv_TaskMetrics : gmap string TaskMetrics;
  job : Job;
  scale : Scale;
}.

Definition set_tasks (f : gmap string Task → gmap string Task) (s : Server) : Server :=
  mkServer (sv_Node s) (sv_Config s) (f (AllTasks s)) (sv_TaskMetrics s) (job s) (scale s).
Definition set_metrics (f : gmap string TaskMetrics → gmap string TaskMetrics) (s : Server) : Server :=
  mkServer (sv_Node s) (sv_Config s) (AllTasks s) (f (sv_TaskMetrics s)) (job s) (scale s).
Definition set_job (j : Job) (s : Server) : Server :=
  mkServer (sv_Node s) (sv_Config s) (AllTasks s) (sv_TaskMetrics s) j (scale s).
Definition set_scale (c : Scale) (s : Server) : Server :=
  mkServer (sv_Node s) (sv_Config s) (AllTasks s) (sv_TaskMetrics s) (job s) c.

Definition set_routing (r : option routing) (j : Job) : Job :=
  mkJob (CurrentJobName j) (CurrentJobDestFile j) (job_Timestamp j) (JobStartTime j)
    (ExpectedTasks j) (OriginalTaskCount j) (CompletedTasks j) (CompletedTaskIDs j)
    (UpscaledTaskIDs j) (OriginalTasksDone j) (OutputTaskFiles j) r (JobEnded j).

Definition set_low_rate (m : gmap Z Z) (c : Scale) : Scale :=
  mkScale (AutoScaleEnabled c) (LowWatermark c) (HighWatermark c) (StageTaskCount c)
    (LastScaleTime c) m (StageConfigs c).

(** ** Effects *)

(** The routing table a goroutine was given: the map of the server itself, which
    it reads when it runs, or a copy. *)
Inductive Table := LiveTable | CopiedTable (r : routing).

Definition table_of (t : Table) (s : Server) : routing :=
  match t with LiveTable => default ∅ (CurrentRoutingTable (job s)) | CopiedTable r => r end.

Inductive Goroutine :=
  | GAddTask (stageID taskIndex : Z)
  | GRemoveTask (stageID taskIndex : Z)
  | GRemoveEOF (worker : string) (port numSources : Z) (taskID : string)
  | GRemoveLater (worker taskID : string)
  | GCompletedEnd (completed expected : Z) (jobName : string)
  | GSendEOF (worker : string) (port numSources : Z) (taskID : string)
  | GRoutingUpdate (task : Task) (r : Table)
  | GFailMark (p : TaskFailurePayload)
  | GFailPlan (p : TaskFailurePayload) (task : Task)
  | GFailStore (p : TaskFailurePayload) (task : Task) (newWorker : string)
  | GFailRoute (p : TaskFailurePayload) (task : Task) (newWorker : string)
  | GFailSend (task : Task).

Inductive Effect :=
  | Deliver (addr : string) (msg : RainStormMessage)
  | DeliverTuple (addr : string) (t : Tuple)
  | RunEnd (jobName : string)
  | Spawn (g : Goroutine).

(** ** Workers *)

(** [GetAliveWorkers]; [order] is the order in which the map is visited. *)
Definition GetAliveWorkers (s : Server) (order : list (Z * Info)) : list string :=
  let infoMap := InfoMap (node_Membership (sv_Node s)) in
  let leaderHostname := Hostname (info_of infoMap (RingID (sv_Node s))) in
  omap (λ p, if decide (State p.2 = Alive ∧ Hostname p.2 ≠ leaderHostname)
             then Some (Hostname p.2) else None) order.

(** [workers[i % len(workers)]]. *)
Definition pick (workers : list string) (i : Z) : string :=
  nth (Z.to_nat (i mod Z.of_nat (length workers))) workers "".

(** ** sendScheduleTask *)

Definition sendScheduleTask (net : string → bool) (task : Task) (r : routing) (s : Server) :
    Server * list Effect :=
  let targetAddr := JoinHostPort (AssignedWorker task) (RainStormPort (sv_Config s)) in
  if net targetAddr
  then (set_tasks <[ID task := task]> s, [Deliver targetAddr (schedule_task task r)])
  else (s, []).

Fixpoint send_all (net : string → bool) (tasks : list Task) (r : routing) (s : Server) :
    Server * list Effect :=
  match tasks with
  | [] => (s, [])
  | t :: ts =>
      let '(s1, e1) := sendScheduleTask net t r s in
      let '(s2, e2) := send_all net ts r s1 in
      (s2, e1 ++ e2)
  end.

(** ** HandleSubmitJob *)

Definition src_task_id (i : Z) : string := "src-task-" +:+ itoa i.
Definition stage_task_id (stage i : Z) : string :=
  "stage" +:+ itoa stage +:+ "-task-" +:+ itoa i.

(** [task.RainStormLeader]: set when the configuration lists a VM. *)
Definition leader_addr (cfg : Config) : string :=
  match VMs cfg with [] => "" | vm :: _ => JoinHostPort vm (RainStormPort cfg) end.

(** The variables of the loops: the tasks so far, [workerIndex], [basePort]. *)
Record Alloc := mkAlloc { al_tasks : list Task; workerIndex : Z; basePort : Z }.

Definition source_task (cfg : Config) (p : JobSubmitPayload) (jobTimestamp worker : string)
    (port i : Z) : Task :=
  mkTask (src_task_id i) 0 OpSource "internal_source" [SrcFile p] port worker TaskStateIdle
    0 "" (js_InputRate p) i (NumTasks p) "" 0 jobTimestamp "" "" (leader_addr cfg) false.

Definition output_path (jobTimestamp app : string) (i : Z) : string :=
  "rainstorm_outputs/" +:+ jobTimestamp +:+ "/output_" +:+ app +:+ "_task" +:+ itoa i +:+ ".txt".

Definition stage_task (cfg : Config) (p : JobSubmitPayload) (jobTimestamp hydfsLeader worker : string)
    (stage : Z) (opExe : string) (opArgs : list string) (port i : Z) : Task :=
  let sink := bool_decide (stage = Z.of_nat (length (Stages p))) && negb (bool_decide (DestFile p = "")) in
  mkTask (stage_task_id stage i) stage OpTransform opExe opArgs port worker TaskStateIdle
    0 "" 0 0 0 (if sink then output_path jobTimestamp (App p) i else "") (NumTasks p) jobTimestamp
    (if sink then DestFile p else "") hydfsLeader (leader_addr cfg) false.

(** The body of the loops over [i < numTasks]. *)
Definition alloc_one (workers : list string) (mk : string → Z → Z → Task) (a : Alloc) (i : Z) : Alloc :=
  mkAlloc (al_tasks a ++ [mk (pick workers (workerIndex a)) (basePort a + i) i])
    (workerIndex a + 1) (basePort a + 1).

Definition alloc_stage (workers : list string) (n : Z) (mk : string → Z → Z → Task) (a : Alloc) : Alloc :=
  foldl (alloc_one workers mk) a (seqZ 0 n).

Definition stage_args (p : JobSubmitPayload) (stageIdx : nat) : list string :=
  default [] (StageArgs p !! stageIdx).

(** The tasks of a job, in the order in which they are scheduled. *)
Definition allocate (cfg : Config) (p : JobSubmitPayload) (jobTimestamp : string)
    (workers : list string) : Alloc :=
  let hydfsLeader := JoinHostPort (pick workers 0) (NodePort cfg) in
  foldl (λ a '(stageIdx, opExe),
      alloc_stage workers (NumTasks p)
        (λ worker port i, stage_task cfg p jobTimestamp hydfsLeader worker
           (Z.of_nat stageIdx + 1) opExe (stage_args p stageIdx) port i) a)
    (alloc_stage workers (NumTasks p) (source_task cfg p jobTimestamp) (mkAlloc [] 0 10000))
    (imap pair (Stages p)).

Definition add_route (r : routing) (t : Task) : routing :=
  <[StageID t := targets_of r (StageID t) ++ [JoinHostPort (AssignedWorker t) (t_Port t)]]> r.

Definition build_routing (tasks : list Task) : routing := foldl add_route ∅ tasks.

Definition output_files (tasks : list Task) : gmap string string :=
  foldl (λ m t, if decide (OutputFile t = "") then m else <[ID t := OutputFile t]> m) ∅ tasks.

Definition stage_configs (p : JobSubmitPayload) (base : Z) : list StageConfig :=
  imap (λ stageIdx opExe,
    mkStageConfig (Z.of_nat stageIdx + 1) OpTransform opExe (stage_args p stageIdx)
      (base + Z.of_nat stageIdx * 100)
      (bool_decide (Z.of_nat stageIdx + 1 = Z.of_nat (length (Stages p)))) (DestFile p))
    (Stages p).

Definition stage_counts (p : JobSubmitPayload) : gmap Z Z :=
  list_to_map (imap (λ stageIdx _, (Z.of_nat stageIdx + 1, NumTasks p)) (Stages p)).

(** [now] is [time.Now()], [jobTimestamp] its layout.  The creation of the
    destination file in HyDFS does not change the leader's state: its error is
    only logged. *)
Definition HandleSubmitJob (net : string → bool) (order : list (Z * Info)) (now : Z)
    (jobTimestamp : string) (p : JobSubmitPayload) (s0 : Server) : Server * list Effect :=
  let s := set_metrics (λ _, ∅) s0 in
  if decide (3 < length (Stages p))%nat then (s, [])
  else
    let workers := GetAliveWorkers s order in
    if decide (workers = []) then (s, [])
    else
      let a := allocate (sv_Config s) p jobTimestamp workers in
      let tasks := al_tasks a in
      let routingTable := build_routing tasks in
      let total := Z.of_nat (length tasks) in
      let j := mkJob (App p) (DestFile p) jobTimestamp now total total 0 ∅ ∅ false
        (output_files tasks) (Some routingTable) false in
      let c := mkScale (AutoScale p) (js_LowWatermark p) (js_HighWatermark p) (stage_counts p)
        ∅ ∅ (stage_configs p (basePort a)) in
      send_all net tasks routingTable (set_scale c (set_job j s)).

(** ** Requests *)

Definition state_name (st : TaskState) : string :=
  match st with
  | TaskStateIdle => "idle"
  | TaskStateRunning => "running"
  | TaskStateFailed => "failed"
  | TaskStateCompleted => "completed"
  end.

(** The response to [list_tasks]; [order] visits [AllTasks]. *)
Definition HandleListTasks (order : list (string * Task)) : list TaskInfo :=
  (λ '(_, t), mkTaskInfo (ID t) (AssignedWorker t) (PID t) (OpExecutable t) (LogFile t)
     (state_name (t_State t))) <$> order.

(** [HandleKillTask] and [forwardKillToWorker]. *)
Definition HandleKillTask (net : string → bool) (vm : string) (pid : Z) (s : Server) : list Effect :=
  let targetAddr := JoinHostPort vm (RainStormPort (sv_Config s)) in
  if net targetAddr then [Deliver targetAddr (kill_task_worker vm pid)] else [].

Definition HandleTaskStarted (task : Task) (s : Server) : Server :=
  match AllTasks s !! ID task with
  | None => s
  | Some e =>
      set_tasks <[ID task :=
        mkTask (ID e) (StageID e) (OpType e) (OpExecutable e) (OpArgs e) (t_Port e)
          (AssignedWorker e) TaskStateRunning (PID task) (LogFile task) (InputRate e) (TaskIndex e)
          (TotalTasks e) (OutputFile e) (NumSources e) (JobTimestamp e) (HyDFSDestFile e)
          (HyDFSLeader e) (RainStormLeader e) (ExactlyOnce e)]> s
  end.

Definition HandleTaskMetrics (metrics : TaskMetrics) (s : Server) : Server :=
  set_metrics <[TaskID metrics := metrics]> s.

(** The addresses sent back to [get_task_location]. *)
Definition HandleGetTaskLocation (stageID : Z) (s : Server) : list string :=
  match CurrentRoutingTable (job s) with
  | None => []
  | Some r => targets_of r stageID
  end.

(** ** Completion *)

(** The first critical section: the task's state. *)
Definition mark_task (taskID : string) (st : TaskState) (s : Server) : Server :=
  match AllTasks s !! taskID with
  | None => s
  | Some t => set_tasks <[taskID := set_task_state st t]> s
  end.

(** The number of completed tasks that autoscaling did not add. *)
Definition original_completed (j : Job) : Z :=
  Z.of_nat (size (CompletedTaskIDs j ∖ UpscaledTaskIDs j)).

(** [CompletedTaskIDs[id] = true; CompletedTasks++], unless counted already. *)
Definition count_task (taskID : string) (j : Job) : Job :=
  if decide (taskID ∈ CompletedTaskIDs j) then j
  else mkJob (CurrentJobName j) (CurrentJobDestFile j) (job_Timestamp j) (JobStartTime j)
         (ExpectedTasks j) (OriginalTaskCount j) (CompletedTasks j + 1)
         ({[taskID]} ∪ CompletedTaskIDs j) (UpscaledTaskIDs j) (OriginalTasksDone j)
         (OutputTaskFiles j) (CurrentRoutingTable j) (JobEnded j).

Definition set_original_done (j : Job) : Job :=
  mkJob (CurrentJobName j) (CurrentJobDestFile j) (job_Timestamp j) (JobStartTime j)
    (ExpectedTasks j) (OriginalTaskCount j) (CompletedTasks j) (CompletedTaskIDs j)
    (UpscaledTaskIDs j) true (OutputTaskFiles j) (CurrentRoutingTable j) (JobEnded j).

(** The upscaled tasks that still run. *)
Definition upscaled_running (s : Server) : list Task :=
  omap (λ id, match AllTasks s !! id with
              | Some t => if decide (t_State t = TaskStateCompleted) then None else Some t
              | None => None
              end) (elements (UpscaledTaskIDs (job s))).

(** The second critical section: counting. *)
Definition count_completion (taskID : string) (s : Server) : Server * list Goroutine :=
  let j := count_task taskID (job s) in
  let all_original :=
    (OriginalTaskCount j <=? original_completed j) && negb (OriginalTasksDone j) in
  let j' := if all_original then set_original_done j else j in
  let s' := set_job j' s in
  let eofs := if all_original
    then (λ t, GSendEOF (AssignedWorker t) (t_Port t) (NumSources t) (ID t)) <$> upscaled_running s'
    else [] in
  (s', eofs ++ [GCompletedEnd (CompletedTasks j) (ExpectedTasks j) (CurrentJobName j)]).

Definition set_ended (j : Job) : Job :=
  mkJob (CurrentJobName j) (CurrentJobDestFile j) (job_Timestamp j) (JobStartTime j)
    (ExpectedTasks j) (OriginalTaskCount j) (CompletedTasks j) (CompletedTaskIDs j)
    (UpscaledTaskIDs j) (OriginalTasksDone j) (OutputTaskFiles j) (CurrentRoutingTable j) true.

(** The last critical section, with the counters read in the one before. *)
Definition end_job (completed expected : Z) (jobName : string) (s : Server) : Server * list Effect :=
  if (expected <=? completed) && negb (JobEnded (job s))
  then (set_job (set_ended (job s)) s, [RunEnd jobName])
  else (s, []).

Definition completion_state (success : bool) : TaskState :=
  if success then TaskStateCompleted else TaskStateFailed.

(** The handler up to the point where it releases the job's lock; what it does
    next is the goroutine [GCompletedEnd]. *)
Definition HandleTaskCompleted_begin (p : TaskCompletedPayload) (s : Server) :
    Server * list Goroutine :=
  count_completion (tc_TaskID p) (mark_task (tc_TaskID p) (completion_state (Success p)) s).

(** The handler run without interruption. *)
Definition HandleTaskCompleted (p : TaskCompletedPayload) (s : Server) : Server * list Effect :=
  let '(s1, gs) := HandleTaskCompleted_begin p s in
  foldl (λ '(s, es) g,
    match g with
    | GCompletedEnd c e n => let '(s', es') := end_job c e n s in (s', es ++ es')
    | _ => (s, es ++ [Spawn g])
    end) (s1, []) gs.

(** ** Failure *)

(** Replace the first occurrence of [old]. *)
Fixpoint replace_first (old new : string) (l : list string) : list string :=
  match l with
  | [] => []
  | a :: l' => if decide (a = old) then new :: l' else a :: replace_first old new l'
  end.

Definition restart_task (task : Task) (newWorker : string) : Task :=
  mkTask (ID task) (StageID task) (OpType task) (OpExecutable task) (OpArgs task) (t_Port task)
    newWorker TaskStateIdle 0 "" (InputRate task) (TaskIndex task) (TotalTasks task)
    (OutputFile task) (NumSources task) (JobTimestamp task) (HyDFSDestFile task)
    (HyDFSLeader task) (RainStormLeader task) (ExactlyOnce task).

Definition reroute (task : Task) (vm newWorker : string) (r : routing) : routing :=
  match r !! StageID task with
  | None => r
  | Some targets =>
      <[StageID task :=
        replace_first (JoinHostPort vm (t_Port task)) (JoinHostPort newWorker (t_Port task)) targets]> r
  end.

(** [HandleTaskFailure], from one release of a lock to the next: the test whether
    the job has ended; the task's state; the choice of the worker; the new task;
    the routing table; the message, which carries the table of the moment it is
    sent. *)
Definition failure_check (p : TaskFailurePayload) (s : Server) : list Goroutine :=
  if JobEnded (job s) then [] else [GFailMark p].

Definition failure_mark (p : TaskFailurePayload) (s : Server) : Server * list Goroutine :=
  match AllTasks s !! tf_TaskID p with
  | None => (s, [])
  | Some task => (mark_task (tf_TaskID p) TaskStateFailed s, [GFailPlan p task])
  end.

Definition failure_plan (order : list (Z * Info)) (p : TaskFailurePayload) (task : Task) (s : Server) :
    list Goroutine :=
  match CurrentRoutingTable (job s) with
  | None => []
  | Some _ =>
      match GetAliveWorkers s order with
      | [] => []
      | newWorker :: _ => [GFailStore p task newWorker]
      end
  end.

Definition failure_store (p : TaskFailurePayload) (task : Task) (newWorker : string) (s : Server) :
    Server * list Goroutine :=
  (set_tasks <[ID task := restart_task task newWorker]> s, [GFailRoute p task newWorker]).

Definition failure_route (p : TaskFailurePayload) (task : Task) (newWorker : string) (s : Server) :
    Server * list Goroutine :=
  (set_job (set_routing (reroute task (tf_VM p) newWorker <$> CurrentRoutingTable (job s)) (job s)) s,
   [GFailSend (restart_task task newWorker)]).

Definition failure_send (net : string → bool) (task : Task) (s : Server) : Server * list Effect :=
  sendScheduleTask net task (table_of LiveTable s) s.

(** The handler run without interruption. *)
Definition HandleTaskFailure (net : string → bool) (order : list (Z * Info))
    (p : TaskFailurePayload) (s : Server) : Server * list Effect :=
  match failure_check p s with
  | [] => (s, [])
  | _ =>
      match failure_mark p s with
      | (s1, GFailPlan _ task :: _) =>
          match failure_plan order p task s1 with
          | GFailStore _ _ newWorker :: _ =>
              let s2 := (failure_store p task newWorker s1).1 in
              let s3 := (failure_route p task newWorker s2).1 in
              failure_send net (restart_task task newWorker) s3
          | _ => (s1, [])
          end
      | (s1, _) => (s1, [])
      end
  end.

(** ** Autoscaling *)

(** [broadcastRoutingUpdate]: the goroutines it starts, with the table they are
    given. *)
Definition broadcastRoutingUpdate (changedStageID : Z) (r : Table) (s : Server) : list Effect :=
  let upstream := changedStageID - 1 in
  if upstream <? 0 then []
  else
    omap (λ '(_, t),
      if decide (StageID t = upstream ∧ t_State t = TaskStateRunning)
      then Some (Spawn (GRoutingUpdate t r)) else None) (map_to_list (AllTasks s)).

Definition sendRoutingUpdate (net : string → bool) (now : Z) (task : Task) (r : routing) : list Effect :=
  let addr := JoinHostPort (AssignedWorker task) (t_Port task) in
  let downstream := StageID task + 1 in
  if net addr
  then [DeliverTuple addr
          (mkTuple "routing_update" (itoa downstream) (VString (join "," (targets_of r downstream)))
             ("routing-" +:+ itoa downstream +:+ "-" +:+ itoa now) false)]
  else [].

Definition sendEOFToTask (net : string → bool) (now : Z) (worker : string) (port numSources : Z)
    (taskID : string) : list Effect :=
  let taskAddr := JoinHostPort worker port in
  if net taskAddr
  then (λ i, DeliverTuple taskAddr
          (mkTuple "" ("shutdown-" +:+ itoa i) (VString "EOF")
             ("eof-" +:+ taskID +:+ "-" +:+ itoa i +:+ "-" +:+ itoa now) true)) <$> seqZ 0 numSources
  else [].

Definition isTaskCompleted (taskID : string) (s : Server) : bool :=
  bool_decide (taskID ∈ CompletedTaskIDs (job s)).

Definition find_stage (stageID : Z) (l : list StageConfig) : option StageConfig :=
  List.find (λ c, sc_StageID c =? stageID) l.

Definition upscaled_path (jobTimestamp : string) (taskIndex : Z) : string :=
  "rainstorm_outputs/" +:+ jobTimestamp +:+ "/output_main_task" +:+ itoa taskIndex +:+ ".txt".

Definition upscaled_task (cfg : Config) (c : StageConfig) (jobTimestamp worker hydfsLeader : string)
    (numSources stageID taskIndex : Z) : Task :=
  let sink := IsSink c && negb (bool_decide (sc_HyDFSDestFile c = "")) in
  mkTask (stage_task_id stageID taskIndex) stageID (sc_OpType c) (sc_OpExecutable c) (sc_OpArgs c)
    (BasePort c + taskIndex + 1000) worker TaskStateIdle 0 "" 0 0 0
    (if sink then upscaled_path jobTimestamp taskIndex else "") numSources jobTimestamp
    (if sink then sc_HyDFSDestFile c else "") hydfsLeader (leader_addr cfg) false.

(** [ExpectedTasks++; UpscaledTaskIDs[id] = true; CurrentRoutingTable[stage] = append(...)]. *)
Definition expect_task (taskID addr : string) (stageID : Z) (j : Job) : Job :=
  let r := default ∅ (CurrentRoutingTable j) in
  mkJob (CurrentJobName j) (CurrentJobDestFile j) (job_Timestamp j) (JobStartTime j)
    (ExpectedTasks j + 1) (OriginalTaskCount j) (CompletedTasks j) (CompletedTaskIDs j)
    ({[taskID]} ∪ UpscaledTaskIDs j) (OriginalTasksDone j) (OutputTaskFiles j)
    (Some (<[stageID := targets_of r stageID ++ [addr]]> r)) (JobEnded j).

(** The goroutines of [broadcastRoutingUpdate] get the map of the server here:
    [updatedRouting := s.CurrentRoutingTable] copies no entry. *)
Definition addTaskToStage (net : string → bool) (order : list (Z * Info)) (stageID taskIndex : Z)
    (s : Server) : Server * list Effect :=
  match find_stage stageID (StageConfigs (scale s)) with
  | None => (s, [])
  | Some c =>
      let workers := GetAliveWorkers s order in
      if decide (workers = []) then (s, [])
      else
        let worker := pick workers taskIndex in
        let r := default ∅ (CurrentRoutingTable (job s)) in
        let numSources := Z.of_nat (length (targets_of r 0)) in
        let task := upscaled_task (sv_Config s) c (job_Timestamp (job s)) worker
          (JoinHostPort (pick workers 0) (NodePort (sv_Config s))) numSources stageID taskIndex in
        let addr := JoinHostPort worker (t_Port task) in
        let j := expect_task (ID task) addr stageID (job s) in
        let s1 := set_job j (set_tasks <[ID task := task]> s) in
        let '(s2, es) := sendScheduleTask net task (table_of LiveTable s1) s1 in
        (s2, broadcastRoutingUpdate stageID LiveTable s1 ++ es)
  end.

(** [removeTaskFromStage], up to the wait for the routing updates, which get a
    copy of the map. *)
Definition removeTaskFromStage (stageID taskIndex : Z) (s : Server) : Server * list Effect :=
  let taskID := stage_task_id stageID taskIndex in
  match AllTasks s !! taskID with
  | None => (s, [])
  | Some task =>
      let targetAddr := JoinHostPort (AssignedWorker task) (t_Port task) in
      let r := default ∅ (CurrentRoutingTable (job s)) in
      let r' := <[stageID := filter (λ a, a ≠ targetAddr) (targets_of r stageID)]> r in
      let s1 := set_job (count_task taskID (set_routing (Some r') (job s))) s in
      (s1, broadcastRoutingUpdate stageID (CopiedTable r') s1
             ++ [Spawn (GRemoveEOF (AssignedWorker task) (t_Port task) (NumSources task) taskID)])
  end.

(** What the goroutine does after the grace period. *)
Definition remove_later (net : string → bool) (worker taskID : string) (s : Server) :
    Server * list Effect :=
  let pid := match AllTasks s !! taskID with Some t => PID t | None => 0 end in
  let es := if negb (isTaskCompleted taskID s) && (0 <? pid)
            then HandleKillTask net worker pid s else [] in
  (set_tasks (delete taskID) s, es).

Definition count_of (m : gmap Z Z) (k : Z) : Z := default 0 (m !! k).

Definition scaleStage (now stageID delta : Z) (s : Server) : Server * list Effect :=
  let c := scale s in
  let currentCount := count_of (StageTaskCount c) stageID in
  let newCount := currentCount + delta in
  if newCount <? 1 then (s, [])
  else
    (set_scale (mkScale (AutoScaleEnabled c) (LowWatermark c) (HighWatermark c)
       (<[stageID := newCount]> (StageTaskCount c)) (<[stageID := now]> (LastScaleTime c))
       (LowRateStart c) (StageConfigs c)) s,
     [Spawn (if 0 <? delta then GAddTask stageID (newCount - 1)
             else GRemoveTask stageID (currentCount - 1))]).

(** The rates of a stage: the sum of the rates, the number of tasks and the
    number of tuples. *)
Record StageStats := mkStageStats { totalRate : Q; taskCount : Z; stageTuples : Z }.

(** The stage a sample counts for. *)
Definition sample_stage (s : Server) (taskID : string) (m : TaskMetrics) : option Z :=
  match AllTasks s !! taskID with
  | Some t =>
      if (0 <? StageID t) && bool_decide (t_State t = TaskStateRunning) && (0 <? TuplesProcessed m)
      then Some (StageID t) else None
  | None => None
  end.

Definition add_sample (s : Server) (acc : gmap Z StageStats) (p : string * TaskMetrics) :
    gmap Z StageStats :=
  match sample_stage s p.1 p.2 with
  | None => acc
  | Some st =>
      let old := default (mkStageStats 0 0 0) (acc !! st) in
      <[st := mkStageStats (totalRate old + CurrentRate p.2) (taskCount old + 1)
                (stageTuples old + TuplesProcessed p.2)]> acc
  end.

(** [metrics] visits [TaskMetrics]. *)
Definition stage_stats (metrics : list (string * TaskMetrics)) (s : Server) : gmap Z StageStats :=
  foldl (add_sample s) ∅ metrics.

Definition Qltb (x y : Q) : bool := negb (Qle_bool y x).

Definition avg_rate (st : StageStats) : Q := Qdiv (totalRate st) (inject_Z (taskCount st)).

(** The loop over the stages; [stages] visits the keys of [stageRates]. *)
Fixpoint check_stages (now cooldown lw hw : Z) (stats : gmap Z StageStats) (stages : list Z)
    (s : Server) : Server * list Effect :=
  match stages with
  | [] => (s, [])
  | stageID :: rest =>
      let next := check_stages now cooldown lw hw stats rest in
      match stats !! stageID with
      | None => next s
      | Some st =>
          if (taskCount st =? 0) || (stageTuples st <? 50) then next s
          else
            let avg := avg_rate st in
            let c := scale s in
            let current := count_of (StageTaskCount c) stageID in
            let cooling := match LastScaleTime c !! stageID with
                           | Some t => time_sub now t <? cooldown
                           | None => false
                           end in
            if cooling then next s
            else if Qltb (inject_Z hw) avg && (1 <? stageID) then
                   let '(s', es) := scaleStage now stageID 1 s in
                   (set_scale (set_low_rate (delete stageID (LowRateStart (scale s'))) (scale s')) s', es)
            else if Qltb avg (inject_Z lw) && (1 <? current)
                      && Qltb (1 # 10) (totalRate st) && (1 <? stageID) then
                   match LowRateStart c !! stageID with
                   | None => next (set_scale (set_low_rate (<[stageID := now]> (LowRateStart c)) c) s)
                   | Some t =>
                       if 3 * Second <=? time_sub now t
                       then scaleStage now stageID (-1)
                              (set_scale (set_low_rate (delete stageID (LowRateStart c)) c) s)
                       else next s
                   end
            else next (set_scale (set_low_rate (delete stageID (LowRateStart c)) c) s)
      end
  end.

(** [time.Now()] is [now] at every call of one check. *)
Definition checkAndScale (now cooldown : Z) (metrics : list (string * TaskMetrics)) (stages : list Z)
    (s : Server) : Server * list Effect :=
  let c := scale s in
  if negb (AutoScaleEnabled c) then (s, [])
  else if time_sub now (JobStartTime (job s)) <? 10 * Second then (s, [])
  else check_stages now cooldown (LowWatermark c) (HighWatermark c) (stage_stats metrics s) stages s.

(** [autoscaleMonitor] calls it with this cooldown. *)
Definition scaleCooldown : Z := 5 * Second.

(** ** The system: messages and goroutines in any order

    [ends] counts the RUN END lines of the current job; [issued] holds the
    identifiers that may be reported as completed: those of the tasks the leader
    has handed out for the job, and those of earlier jobs, which it does not
    tell apart. *)

Record System := mkSystem {
  srv : Server;
  pool : list Goroutine;
  ends : nat;
  issued : gset string;
}.

Definition spawned (es : list Effect) : list Goroutine :=
  omap (λ e, match e with Spawn g => Some g | _ => None end) es.

Definition run_ends (es : list Effect) : nat :=
  length (omap (λ e, match e with RunEnd n => Some n | _ => None end) es).

(** The state after a handler with effects [es]. *)
Definition after (y : System) (gs : list Goroutine) (r : Server * list Effect) : System :=
  mkSystem r.1 (gs ++ spawned r.2) (ends y + run_ends r.2) (dom (AllTasks r.1) ∪ issued y).

(** A step of the leader while one job runs. *)
Inductive leader_step (y : System) : System → Prop :=
  | step_completed p :
      tc_TaskID p ∈ issued y →
      leader_step y
        (after y (pool y) (let '(s', gs) := HandleTaskCompleted_begin p (srv y) in (s', Spawn <$> gs)))
  | step_end l1 l2 c e n :
      pool y = l1 ++ GCompletedEnd c e n :: l2 →
      leader_step y (after y (l1 ++ l2) (end_job c e n (srv y)))
  | step_failed p :
      leader_step y (after y (pool y) (srv y, Spawn <$> failure_check p (srv y)))
  | step_fail_mark l1 l2 p :
      pool y = l1 ++ GFailMark p :: l2 →
      leader_step y (after y (l1 ++ l2) (let '(s', gs) := failure_mark p (srv y) in (s', Spawn <$> gs)))
  | step_fail_plan l1 l2 order p task :
      pool y = l1 ++ GFailPlan p task :: l2 →
      leader_step y (after y (l1 ++ l2) (srv y, Spawn <$> failure_plan order p task (srv y)))
  | step_fail_store l1 l2 p task w :
      pool y = l1 ++ GFailStore p task w :: l2 →
      leader_step y (after y (l1 ++ l2) (let '(s', gs) := failure_store p task w (srv y) in (s', Spawn <$> gs)))
  | step_fail_route l1 l2 p task w :
      pool y = l1 ++ GFailRoute p task w :: l2 →
      leader_step y (after y (l1 ++ l2) (let '(s', gs) := failure_route p task w (srv y) in (s', Spawn <$> gs)))
  | step_fail_send l1 l2 net task :
      pool y = l1 ++ GFailSend task :: l2 →
      leader_step y (after y (l1 ++ l2) (failure_send net task (srv y)))
  | step_started task :
      leader_step y (after y (pool y) (HandleTaskStarted task (srv y), []))
  | step_metrics m :
      leader_step y (after y (pool y) (HandleTaskMetrics m (srv y), []))
  | step_check now metrics stages :
      leader_step y (after y (pool y) (checkAndScale now scaleCooldown metrics stages (srv y)))
  | step_add l1 l2 net order st i :
      pool y = l1 ++ GAddTask st i :: l2 →
      leader_step y (after y (l1 ++ l2) (addTaskToStage net order st i (srv y)))
  | step_remove l1 l2 st i :
      pool y = l1 ++ GRemoveTask st i :: l2 →
      leader_step y (after y (l1 ++ l2) (removeTaskFromStage st i (srv y)))
  | step_remove_eof l1 l2 net now w port n id :
      pool y = l1 ++ GRemoveEOF w port n id :: l2 →
      leader_step y
        (after y (l1 ++ l2) (srv y, sendEOFToTask net now w port n id ++ [Spawn (GRemoveLater w id)]))
  | step_remove_later l1 l2 net w id :
      pool y = l1 ++ GRemoveLater w id :: l2 →
      leader_step y (after y (l1 ++ l2) (remove_later net w id (srv y)))
  | step_send_eof l1 l2 net now w port n id :
      pool y = l1 ++ GSendEOF w port n id :: l2 →
      leader_step y (after y (l1 ++ l2) (srv y, sendEOFToTask net now w port n id))
  | step_routing l1 l2 net now t r :
      pool y = l1 ++ GRoutingUpdate t r :: l2 →
      leader_step y (after y (l1 ++ l2) (srv y, sendRoutingUpdate net now t (table_of r (srv y)))).

(** The identifiers of the tasks of a job. *)
Definition job_ids (order : list (Z * Info)) (ts : string) (p : JobSubmitPayload) (s : Server) : gset string :=
  list_to_set (ID <$> al_tasks (allocate (sv_Config s) p ts (GetAliveWorkers s order))).

(** The system right after a job was submitted.  Tasks of earlier jobs may still
    run: those the leader has kept ([AllTasks] is never emptied), and [old],
    which it has forgotten. *)
Definition submitted (net : string → bool) (order : list (Z * Info)) (now : Z) (ts : string)
    (p : JobSubmitPayload) (old : gset string) (s : Server) : System :=
  mkSystem (HandleSubmitJob net order now ts p s).1 [] 0 (job_ids order ts p s ∪ (old ∪ dom (AllTasks s))).

(** ** The job tracker: what the leader promises about completion

    The tracker sees the counters of the job, the completions which have been
    counted but have not checked for the end of the job yet, with the counters
    they read, and the number of RUN END lines.  [scaling] says whether tasks
    may be added to and withdrawn from the job. *)

Record Tracker := mkTracker {
  tr_job : Job;
  tr_pending : list (Z * Z);
  tr_ends : nat;
}.

Definition mark_original (b : bool) (j : Job) : Job := if b then set_original_done j else j.

Inductive track_step (scaling : bool) (known : gset string) (t : Tracker) : Tracker → Prop :=
  | tk_idle : track_step scaling known t t
  | tk_route r :
      track_step scaling known t (mkTracker (set_routing r (tr_job t)) (tr_pending t) (tr_ends t))
  | tk_complete id b :
      id ∈ known →
      track_step scaling known t
        (mkTracker (mark_original b (count_task id (tr_job t)))
           (tr_pending t ++ [(CompletedTasks (count_task id (tr_job t)), ExpectedTasks (tr_job t))])
           (tr_ends t))
  | tk_end l1 l2 c e :
      tr_pending t = l1 ++ (c, e) :: l2 →
      track_step scaling known t
        (if (e <=? c) && negb (JobEnded (tr_job t))
         then mkTracker (set_ended (tr_job t)) (l1 ++ l2) (S (tr_ends t))
         else mkTracker (tr_job t) (l1 ++ l2) (tr_ends t))
  | tk_expect id addr st :
      scaling = true →
      track_step scaling known t
        (mkTracker (expect_task id addr st (tr_job t)) (tr_pending t) (tr_ends t))
  | tk_withdraw id r :
      scaling = true → id ∈ known →
      track_step scaling known t
        (mkTracker (count_task id (set_routing r (tr_job t))) (tr_pending t) (tr_ends t)).

Definition completion_of (g : Goroutine) : option (Z * Z) :=
  match g with GCompletedEnd c e _ => Some (c, e) | _ => None end.

Definition tracker (y : System) : Tracker :=
  mkTracker (job (srv y)) (omap completion_of (pool y)) (ends y).

(** No goroutine of the pool changes the set of tasks. *)
Definition scale_free (y : System) : Prop :=
  AutoScaleEnabled (scale (srv y)) = false ∧
  ∀ g, g ∈ pool y → match g with GAddTask _ _ | GRemoveTask _ _ => False | _ => True end.

(** ** Lemmas: the tasks of a job *)

Section allocation.
Context (workers : list string) (mk : string → Z → Z → Task).

(** The tasks of one loop which starts with [workerIndex = w], [basePort = b]. *)
Definition row (n w b : Z) : list Task :=
  (λ i, mk (pick workers (w + i)) (b + 2 * i) i) <$> seqZ 0 n.

Lemma alloc_stage_row n a :
  0 <= n →
  alloc_stage workers n mk a =
    mkAlloc (al_tasks a ++ row n (workerIndex a) (basePort a)) (workerIndex a + n) (basePort a + n).
Proof.
  intros Hn. unfold alloc_stage, row. rewrite <- (Z2Nat.id n) by done. generalize (Z.to_nat n).
  clear Hn n. intros k. induction k as [|k IH].
  { destruct a; simpl. by rewrite app_nil_r, !Z.add_0_r. }
  rewrite seqZ_S, foldl_app, IH. simpl. unfold alloc_one; simpl.
  rewrite fmap_app. simpl. rewrite <- app_assoc. f_equal; [|lia|lia].
  do 3 f_equal. f_equal; lia.
Qed.

Lemma length_row n w b : length (row n w b) = Z.to_nat n.
Proof. unfold row. by rewrite length_fmap, length_seqZ. Qed.

Lemma lookup_row n w b (i : nat) :
  Z.of_nat i < n → row n w b !! i = Some (mk (pick workers (w + Z.of_nat i)) (b + 2 * Z.of_nat i) (Z.of_nat i)).
Proof.
  intros Hi. unfold row. rewrite list_lookup_fmap.
  rewrite (proj2 (lookup_seqZ 0 n i (Z.of_nat i))) by lia. done.
Qed.
End allocation.

(** The loop over the stages, from the stage [k] on. *)
Definition stage_rows (workers : list string) (n : Z) (mk : nat → string → string → Z → Z → Task)
    (k : nat) (stages : list string) : list Task :=
  concat (imap (λ j opExe, row workers (mk (k + j)%nat opExe) n (Z.of_nat (k + j + 1) * n)
                  (10000 + Z.of_nat (k + j + 1) * n)) stages).

Lemma stage_rows_cons workers n mk k opExe stages :
  stage_rows workers n mk k (opExe :: stages) =
    row workers (mk k opExe) n (Z.of_nat (k + 1) * n) (10000 + Z.of_nat (k + 1) * n)
      ++ stage_rows workers n mk (S k) stages.
Proof.
  unfold stage_rows. cbn [imap concat]. rewrite Nat.add_0_r. f_equal. f_equal.
  apply imap_ext. intros j x _. simpl. by rewrite Nat.add_succ_r.
Qed.

Lemma stage_loop workers n mk k stages a :
  0 <= n → workerIndex a = Z.of_nat (k + 1) * n → basePort a = 10000 + Z.of_nat (k + 1) * n →
  foldl (λ a '(j, opExe), alloc_stage workers n (mk j opExe) a) a
    (imap (λ j x, ((k + j)%nat, x)) stages) =
  mkAlloc (al_tasks a ++ stage_rows workers n mk k stages)
    (Z.of_nat (k + 1 + length stages) * n) (10000 + Z.of_nat (k + 1 + length stages) * n).
Proof.
  intros Hn. revert k a; induction stages as [|opExe stages IH]; intros k a Hw Hb.
  - destruct a; simpl in *. rewrite app_nil_r, Nat.add_0_r. by subst.
  - cbn [imap foldl]. rewrite Nat.add_0_r, alloc_stage_row by done.
    rewrite (imap_ext _ (λ j x, ((S k + j)%nat, x))) by (intros; simpl; by rewrite Nat.add_succ_r).
    rewrite (IH (S k)).
    + simpl. rewrite <- app_assoc, Hw, Hb, stage_rows_cons. f_equal; lia.
    + simpl. lia.
    + simpl. lia.
Qed.

Section job_tasks.
Context (cfg : Config) (p : JobSubmitPayload) (ts : string) (workers : list string).

Definition mk_stage (j : nat) (opExe worker : string) (port i : Z) : Task :=
  stage_task cfg p ts (JoinHostPort (pick workers 0) (NodePort cfg)) worker (Z.of_nat j + 1) opExe
    (stage_args p j) port i.

Lemma allocate_rows :
  0 <= NumTasks p →
  allocate cfg p ts workers =
    mkAlloc (row workers (source_task cfg p ts) (NumTasks p) 0 10000
               ++ stage_rows workers (NumTasks p) mk_stage 0 (Stages p))
      (Z.of_nat (1 + length (Stages p)) * NumTasks p)
      (10000 + Z.of_nat (1 + length (Stages p)) * NumTasks p).
Proof.
  intros Hn. unfold allocate. rewrite alloc_stage_row by done. simpl.
  pose proof (stage_loop workers (NumTasks p) mk_stage 0 (Stages p)
    (mkAlloc (row workers (source_task cfg p ts) (NumTasks p) 0 10000) (NumTasks p) (10000 + NumTasks p))
    Hn) as H.
  simpl in H. rewrite <- H by lia. done.
Qed.

(** The task [i] of the stage [st]. *)
Definition job_task (st : nat) (i : Z) : Task :=
  let port := 10000 + Z.of_nat st * NumTasks p + 2 * i in
  let worker := pick workers (Z.of_nat st * NumTasks p + i) in
  match st with
  | O => source_task cfg p ts worker port i
  | S j => mk_stage j (default "" (Stages p !! j)) worker port i
  end.

Definition stage_list (st : nat) : list Task := job_task st <$> seqZ 0 (NumTasks p).

Lemma stage_rows_lists k stages :
  (∀ j, stages !! j = Stages p !! (k + j)%nat) →
  stage_rows workers (NumTasks p) mk_stage k stages =
    concat (stage_list <$> seq (S k) (length stages)).
Proof.
  revert k; induction stages as [|x stages IH]; intros k Hk; [done|].
  rewrite stage_rows_cons. cbn [length seq fmap list_fmap concat]. f_equal.
  - unfold row, stage_list. apply list_fmap_ext. intros _ i _. unfold job_task.
    specialize (Hk 0%nat). simpl in Hk. rewrite Nat.add_0_r in Hk. rewrite <- Hk. simpl.
    rewrite Nat.add_1_r. done.
  - apply IH. intros j. specialize (Hk (S j)). simpl in Hk. by rewrite Hk, Nat.add_succ_r.
Qed.

(** The tasks of a job are those of the stages in order. *)
Lemma allocate_tasks :
  0 <= NumTasks p →
  al_tasks (allocate cfg p ts workers) =
    concat (stage_list <$> seq 0 (S (length (Stages p)))).
Proof.
  intros Hn. rewrite allocate_rows by done. cbn [al_tasks seq fmap list_fmap concat].
  apply (f_equal2 app).
  - unfold row, stage_list. apply list_fmap_ext. intros _ i _. unfold job_task. simpl.
    f_equal.
  - by apply stage_rows_lists.
Qed.

Lemma elem_of_job_tasks t :
  0 <= NumTasks p →
  t ∈ al_tasks (allocate cfg p ts workers) ↔
    ∃ st i, (st ≤ length (Stages p))%nat ∧ 0 <= i < NumTasks p ∧ t = job_task st i.
Proof.
  intros Hn. rewrite allocate_tasks by done. rewrite list_elem_of_In, in_concat.
  setoid_rewrite <- list_elem_of_In. unfold stage_list. split.
  - intros (l & (st & -> & Hst%elem_of_seq)%list_elem_of_fmap & (i & -> & Hi%elem_of_seqZ)%list_elem_of_fmap).
    exists st, i. split; [lia|]. split; [lia|done].
  - intros (st & i & Hst & Hi & ->). exists (stage_list st). split.
    + apply list_elem_of_fmap. exists st. split; [done|]. apply elem_of_seq. lia.
    + apply list_elem_of_fmap. exists i. split; [done|]. apply elem_of_seqZ. lia.
Qed.

Lemma job_task_StageID st i : StageID (job_task st i) = Z.of_nat st.
Proof. destruct st; simpl; lia. Qed.

Lemma job_task_Port st i : t_Port (job_task st i) = 10000 + Z.of_nat st * NumTasks p + 2 * i.
Proof. by destruct st. Qed.

Lemma job_task_worker st i :
  AssignedWorker (job_task st i) = pick workers (Z.of_nat st * NumTasks p + i).
Proof. by destruct st. Qed.

Lemma job_task_ID st i :
  ID (job_task st i) = match st with O => src_task_id i | _ => stage_task_id (Z.of_nat st) i end.
Proof. destruct st; [done|]. simpl. f_equal. lia. Qed.
End job_tasks.

(** ** Lemmas: identifiers *)

Lemma itoa_no_dash z : 0 <= z → string_forallb (not_char "-"%char) (itoa z) = true.
Proof.
  intros Hz. eapply string_forallb_impl; [|by apply itoa_nonneg_digits].
  intros c Hc. apply bool_decide_eq_true. intros ->. done.
Qed.

Lemma stage_task_id_inj s1 i1 s2 i2 :
  0 <= s1 → 0 <= s2 → stage_task_id s1 i1 = stage_task_id s2 i2 → s1 = s2 ∧ i1 = i2.
Proof.
  unfold stage_task_id. intros H1 H2 H%(f_equal (drop_string 5)). cbn [drop_string String.append] in H.
  apply no_char_app in H as [Hs H]; [|by apply itoa_no_dash..].
  apply itoa_inj in Hs. injection H as H. by apply itoa_inj in H.
Qed.

Lemma src_task_id_inj i j : src_task_id i = src_task_id j → i = j.
Proof. intros H%(f_equal (drop_string 9)). by apply itoa_inj in H. Qed.

Lemma src_stage_ids i s j : src_task_id i ≠ stage_task_id s j.
Proof. intros H%(f_equal (take_string 2)). done. Qed.

Lemma job_task_ID_inj cfg p ts ws st1 i1 st2 i2 :
  ID (job_task cfg p ts ws st1 i1) = ID (job_task cfg p ts ws st2 i2) → st1 = st2 ∧ i1 = i2.
Proof.
  rewrite !job_task_ID. destruct st1, st2; intros H.
  - by apply src_task_id_inj in H as ->.
  - by apply src_stage_ids in H.
  - symmetry in H. by apply src_stage_ids in H.
  - apply stage_task_id_inj in H as [H ->]; [|lia..]. split; [lia|done].
Qed.

(** A function of stage and index is injective on the tasks. *)
Lemma job_tasks_NoDup {B} (g : Task → B) cfg p ts ws :
  0 <= NumTasks p →
  (∀ st1 i1 st2 i2, (st1 ≤ length (Stages p))%nat → (st2 ≤ length (Stages p))%nat →
    0 <= i1 < NumTasks p → 0 <= i2 < NumTasks p →
    g (job_task cfg p ts ws st1 i1) = g (job_task cfg p ts ws st2 i2) → st1 = st2 ∧ i1 = i2) →
  NoDup (g <$> al_tasks (allocate cfg p ts ws)).
Proof.
  intros Hn Hg. rewrite allocate_tasks, fmap_concat, <- list_fmap_compose by done.
  apply NoDup_concat_fmap.
  - apply NoDup_seq.
  - intros st Hst%elem_of_seq. unfold compose, stage_list. rewrite <- list_fmap_compose.
    apply NoDup_fmap_2_strong; [|apply NoDup_seqZ].
    intros i j Hi%elem_of_seqZ Hj%elem_of_seqZ Heq. apply (Hg st i st j) in Heq; [tauto|lia..].
  - intros st1 st2 b H1%elem_of_seq H2%elem_of_seq. unfold compose, stage_list.
    rewrite <- !list_fmap_compose.
    intros (i & -> & Hi%elem_of_seqZ)%list_elem_of_fmap (j & Heq & Hj%elem_of_seqZ)%list_elem_of_fmap.
    apply (Hg st1 i st2 j) in Heq; [tauto|lia..].
Qed.

Lemma job_ids_NoDup cfg p ts ws :
  0 <= NumTasks p → NoDup (ID <$> al_tasks (allocate cfg p ts ws)).
Proof. intros Hn. apply job_tasks_NoDup; [done|]. intros. by eapply job_task_ID_inj. Qed.

Lemma length_job_tasks cfg p ts ws :
  0 <= NumTasks p →
  Z.of_nat (length (al_tasks (allocate cfg p ts ws))) = (Z.of_nat (length (Stages p)) + 1) * NumTasks p.
Proof.
  intros Hn. rewrite allocate_tasks by done.
  assert (∀ k m, Z.of_nat (length (concat (stage_list cfg p ts ws <$> seq k m))) = Z.of_nat m * NumTasks p) as H.
  { intros k m. revert k. induction m as [|m IH]; intros k; [done|].
    cbn [seq fmap list_fmap concat]. rewrite length_app, Nat2Z.inj_add, IH.
    unfold stage_list. rewrite length_fmap, length_seqZ. lia. }
  rewrite H. lia.
Qed.

(** ** Lemmas: the routing table *)

Definition task_addr (t : Task) : string := JoinHostPort (AssignedWorker t) (t_Port t).

Lemma targets_add_route r t st :
  targets_of (add_route r t) st =
    if decide (StageID t = st) then targets_of r st ++ [task_addr t] else targets_of r st.
Proof.
  unfold add_route, targets_of. case_decide as H.
  - by rewrite H, lookup_insert_eq.
  - by rewrite lookup_insert_ne.
Qed.

Lemma targets_build tasks st :
  targets_of (build_routing tasks) st = task_addr <$> filter (λ t, StageID t = st) tasks.
Proof.
  unfold build_routing. induction tasks as [|t tasks IH] using rev_ind; [done|].
  rewrite foldl_app, filter_app, fmap_app. cbn [foldl]. rewrite targets_add_route, IH.
  rewrite filter_cons, filter_nil. case_decide; [done|]. by rewrite app_nil_r.
Qed.

Lemma filter_stage cfg p ts ws st :
  0 <= NumTasks p → (st ≤ length (Stages p))%nat →
  filter (λ t, StageID t = Z.of_nat st) (al_tasks (allocate cfg p ts ws)) = stage_list cfg p ts ws st.
Proof.
  intros Hn Hst. rewrite allocate_tasks by done.
  replace (S (length (Stages p))) with (st + S (length (Stages p) - st))%nat by lia.
  rewrite seq_app, fmap_app, concat_app, filter_app. cbn [seq fmap list_fmap concat].
  rewrite filter_app.
  assert (∀ l : list nat, (∀ j, j ∈ l → j ≠ st) →
    filter (λ t, StageID t = Z.of_nat st) (concat (stage_list cfg p ts ws <$> l)) = []) as Hnone.
  { intros l Hl. induction l as [|j l IH]; [done|].
    rewrite fmap_cons. cbn [concat]. rewrite filter_app, IH.
    - rewrite app_nil_r. unfold stage_list. apply filter_none, Forall_forall.
      intros t (i & -> & _)%list_elem_of_fmap. rewrite job_task_StageID.
      specialize (Hl j ltac:(by left)). lia.
    - intros j' Hj'. apply Hl. by right. }
  rewrite (Hnone (seq 0 st)) by (intros j Hj%elem_of_seq; lia).
  rewrite (Hnone (seq _ _)) by (intros j Hj%elem_of_seq; lia).
  rewrite app_nil_r. simpl. apply filter_all, Forall_forall. intros t (i & -> & _)%list_elem_of_fmap.
  apply job_task_StageID.
Qed.

(** ** Lemmas: what a handler does to the tracker *)

(** The task a goroutine is about to hand out again. *)
Definition goroutine_task (g : Goroutine) : option Task :=
  match g with
  | GFailPlan _ t | GFailStore _ t _ | GFailRoute _ t _ | GFailSend t => Some t
  | _ => None
  end.

(** Effects that neither end the job nor complete a task. *)
Definition silent (e : Effect) : Prop :=
  match e with RunEnd _ => False | Spawn g => completion_of g = None | _ => True end.

(** Nor do they hand out a task. *)
Definition quiet (e : Effect) : Prop :=
  match e with RunEnd _ => False | Spawn g => completion_of g = None ∧ goroutine_task g = None | _ => True end.

Lemma quiet_silent es : Forall quiet es → Forall silent es.
Proof. intros H. eapply Forall_impl; [exact H|]. intros []; simpl; naive_solver. Qed.

Lemma quiet_tasks es g : Forall quiet es → g ∈ spawned es → goroutine_task g = None.
Proof.
  intros He (e & Hin & Hg)%list_elem_of_omap. rewrite Forall_forall in He. specialize (He e Hin).
  destruct e; simplify_eq. by destruct He.
Qed.

Lemma silent_spawned es : Forall silent es → omap completion_of (spawned es) = [].
Proof.
  induction 1 as [|e es He Hes IH]; [done|]. destruct e as [| | |g]; try done.
  simpl in *. by rewrite He.
Qed.

Lemma silent_ends es : Forall silent es → run_ends es = 0%nat.
Proof.
  unfold run_ends. induction 1 as [|e es He Hes IH]; [done|]. by destruct e.
Qed.

Lemma sendScheduleTask_quiet net t r s :
  let '(s', es) := sendScheduleTask net t r s in
  job s' = job s ∧ scale s' = scale s ∧ Forall quiet es ∧ spawned es = [].
Proof. unfold sendScheduleTask. destruct (net _); (do 2 (split; [done|])); by repeat constructor. Qed.

Lemma broadcast_quiet st r s : Forall quiet (broadcastRoutingUpdate st r s).
Proof.
  unfold broadcastRoutingUpdate. case_match; [constructor|].
  apply Forall_forall. intros e ([id t] & _ & He)%list_elem_of_omap. by case_decide; simplify_eq.
Qed.

Lemma mark_task_job id st s : job (mark_task id st s) = job s ∧ scale (mark_task id st s) = scale s.
Proof. unfold mark_task. by case_match. Qed.

Lemma failure_silent (gs : list Goroutine) :
  (∀ g, g ∈ gs → completion_of g = None) → Forall silent (Spawn <$> gs).
Proof. intros H. apply Forall_fmap, Forall_forall. exact H. Qed.

Lemma failure_check_silent p s : Forall silent (Spawn <$> failure_check p s).
Proof. unfold failure_check. destruct (JobEnded _); by repeat constructor. Qed.

Lemma failure_mark_silent p s :
  let '(s', gs) := failure_mark p s in job s' = job s ∧ scale s' = scale s ∧ Forall silent (Spawn <$> gs).
Proof.
  unfold failure_mark. destruct (AllTasks s !! _); [|by repeat constructor].
  destruct (mark_task_job (tf_TaskID p) TaskStateFailed s) as [-> ->]. by repeat constructor.
Qed.

Lemma failure_plan_silent order p task s : Forall silent (Spawn <$> failure_plan order p task s).
Proof.
  unfold failure_plan. destruct (CurrentRoutingTable _); [|constructor].
  destruct (GetAliveWorkers _ _); by repeat constructor.
Qed.

Lemma scaleStage_quiet now st delta s :
  let '(s', es) := scaleStage now st delta s in job s' = job s ∧ Forall quiet es.
Proof.
  unfold scaleStage. cbv zeta. destruct (_ <? 1); [by split|]. split; [done|].
  constructor; [|done]. by destruct (0 <? delta).
Qed.

Lemma check_stages_quiet now cooldown lw hw stats stages s :
  let '(s', es) := check_stages now cooldown lw hw stats stages s in
  job s' = job s ∧ Forall quiet es.
Proof.
  revert s; induction stages as [|st stages IH]; intros s; cbn [check_stages]; [by split|].
  destruct (stats !! st) as [x|]; [|apply IH].
  destruct (_ || _); [apply IH|]. cbv zeta.
  destruct (match LastScaleTime (scale s) !! st with Some t => _ | None => _ end); [apply IH|].
  destruct (Qltb _ _ && _).
  { pose proof (scaleStage_quiet now st 1 s) as H. by destruct (scaleStage now st 1 s). }
  destruct (_ && _ && _ && _).
  - destruct (LowRateStart (scale s) !! st) as [t|].
    + destruct (_ <=? _); [|apply IH].
      match goal with |- context [scaleStage now st (-1) ?s'] =>
        pose proof (scaleStage_quiet now st (-1) s') as H; by destruct (scaleStage now st (-1) s') end.
    + match goal with |- context [check_stages _ _ _ _ _ _ ?s'] =>
        specialize (IH s'); by destruct (check_stages now cooldown lw hw stats stages s') end.
  - match goal with |- context [check_stages _ _ _ _ _ _ ?s'] =>
      specialize (IH s'); by destruct (check_stages now cooldown lw hw stats stages s') end.
Qed.

Lemma checkAndScale_quiet now cooldown metrics stages s :
  let '(s', es) := checkAndScale now cooldown metrics stages s in
  job s' = job s ∧ Forall quiet es.
Proof.
  unfold checkAndScale. destruct (negb _); [by split|]. destruct (_ <? _); [by split|].
  apply check_stages_quiet.
Qed.

Lemma addTaskToStage_quiet net order st i s :
  let '(s', es) := addTaskToStage net order st i s in
  (job s' = job s ∨ ∃ id addr, job s' = expect_task id addr st (job s)) ∧ Forall quiet es.
Proof.
  unfold addTaskToStage. destruct (find_stage _ _) as [c|]; [|by split; auto].
  case_decide; [by split; auto|]. cbv zeta.
  match goal with |- context [sendScheduleTask net ?t ?r ?s1] =>
    pose proof (sendScheduleTask_quiet net t r s1) as Hs; destruct (sendScheduleTask net t r s1) end.
  destruct Hs as (-> & _ & Hq & _). split; [by right; eauto|].
  apply Forall_app. split; [apply broadcast_quiet|done].
Qed.

Lemma removeTaskFromStage_quiet st i s :
  let '(s', es) := removeTaskFromStage st i s in
  (job s' = job s ∨
    stage_task_id st i ∈ dom (AllTasks s) ∧
    ∃ r, job s' = count_task (stage_task_id st i) (set_routing r (job s))) ∧ Forall quiet es.
Proof.
  unfold removeTaskFromStage. destruct (AllTasks s !! _) as [t|] eqn:Ht; [|by split; auto].
  split; [right; split; [by apply elem_of_dom_2 in Ht|by eexists]|].
  apply Forall_app. split; [apply broadcast_quiet|by repeat constructor].
Qed.

Lemma HandleKillTask_quiet net vm pid s :
  Forall quiet (HandleKillTask net vm pid s) ∧ spawned (HandleKillTask net vm pid s) = [].
Proof. unfold HandleKillTask. case_match; by repeat constructor. Qed.

Lemma sendEOF_quiet net now w port n id :
  Forall quiet (sendEOFToTask net now w port n id) ∧ spawned (sendEOFToTask net now w port n id) = [].
Proof.
  unfold sendEOFToTask. case_match; [|by repeat constructor].
  generalize (seqZ 0 n). intros l. induction l as [|x l [IH1 IH2]]; [by repeat constructor|].
  split; [by constructor|done].
Qed.

Lemma sendRouting_quiet net now t r :
  Forall quiet (sendRoutingUpdate net now t r) ∧ spawned (sendRoutingUpdate net now t r) = [].
Proof. unfold sendRoutingUpdate. case_match; by repeat constructor. Qed.

Lemma HandleTaskStarted_job t s :
  job (HandleTaskStarted t s) = job s ∧ scale (HandleTaskStarted t s) = scale s.
Proof. unfold HandleTaskStarted. by case_match. Qed.

Lemma spawned_fmap gs : spawned (Spawn <$> gs) = gs.
Proof. unfold spawned. induction gs as [|g gs IH]; [done|]. simpl. f_equal. exact IH. Qed.

Lemma run_ends_spawn gs : run_ends (Spawn <$> gs) = 0%nat.
Proof. unfold run_ends. by induction gs. Qed.

Lemma completion_of_eofs {A} (f : A → Goroutine) l :
  (∀ a, completion_of (f a) = None) → omap completion_of (f <$> l) = [].
Proof. intros Hf. induction l as [|a l IH]; [done|]. simpl. rewrite Hf. exact IH. Qed.

Lemma tracker_after y gs r :
  Forall silent r.2 → tracker (after y gs r) = mkTracker (job r.1) (omap completion_of gs) (ends y).
Proof.
  intros Hq. unfold tracker, after; simpl. rewrite omap_app, silent_spawned, silent_ends by done.
  by rewrite app_nil_r, Nat.add_0_r.
Qed.

Lemma pool_without l1 (g : Goroutine) l2 :
  completion_of g = None → omap completion_of (l1 ++ l2) = omap completion_of (l1 ++ g :: l2).
Proof. intros Hg. rewrite !omap_app. simpl. by rewrite Hg. Qed.
(** ** The leader implements the tracker *)

Lemma HandleTaskCompleted_begin_tracker p s :
  let '(s', gs) := HandleTaskCompleted_begin p s in
  ∃ b, job s' = mark_original b (count_task (tc_TaskID p) (job s)) ∧
    omap completion_of gs =
      [(CompletedTasks (count_task (tc_TaskID p) (job s)), ExpectedTasks (job s))].
Proof.
  unfold HandleTaskCompleted_begin, count_completion.
  destruct (mark_task_job (tc_TaskID p) (completion_state (Success p)) s) as [-> _].
  set (j := count_task (tc_TaskID p) (job s)). cbv zeta. eexists. split; [reflexivity|].
  rewrite omap_app.
  assert (ExpectedTasks j = ExpectedTasks (job s)) as <- by (unfold j, count_task; by case_decide).
  destruct (_ && _); [|done]. by rewrite completion_of_eofs.
Qed.

(** A step that does not touch the job. *)
Lemma same_job scaling y y' gs r :
  y' = after y gs r → Forall silent r.2 → job r.1 = job (srv y) →
  omap completion_of gs = omap completion_of (pool y) → track_step scaling (issued y) (tracker y) (tracker y').
Proof. intros -> Hq Hj Hg. rewrite tracker_after, Hj, Hg by done. apply tk_idle. Qed.

Lemma leader_refines scaling y y' :
  scaling = true ∨ scale_free y → dom (AllTasks (srv y)) ⊆ issued y →
  leader_step y y' → track_step scaling (issued y) (tracker y) (tracker y').
Proof.
  intros Hsc Hdom Hstep. destruct Hstep.
  - pose proof (HandleTaskCompleted_begin_tracker p (srv y)) as Hb.
    destruct (HandleTaskCompleted_begin p (srv y)) as [s' gs]. destruct Hb as (b & Hj & Hgs).
    unfold tracker, after; simpl. rewrite spawned_fmap, omap_app, Hgs, run_ends_spawn, Hj, Nat.add_0_r.
    by apply (tk_complete scaling (issued y) (tracker y)).
  - pose proof (tk_end scaling (issued y) (tracker y) (omap completion_of l1) (omap completion_of l2) c e) as Ht.
    unfold tracker, after, end_job in *. simpl in *. rewrite H, omap_app in Ht. simpl in Ht.
    specialize (Ht eq_refl). rewrite H. rewrite omap_app. simpl.
    destruct (_ && _); simpl; rewrite app_nil_r, omap_app.
    + by rewrite Nat.add_1_r.
    + by rewrite Nat.add_0_r.
  - by eapply same_job; [done|apply failure_check_silent|done..].
  - pose proof (failure_mark_silent p (srv y)) as Hq. destruct (failure_mark p (srv y)) as [s' gs].
    destruct Hq as (Hj & _ & Hq). eapply same_job; [done|done|done|].
    by rewrite H, (pool_without _ (GFailMark p)).
  - eapply same_job; [done|apply failure_plan_silent|done|]. by rewrite H, (pool_without _ (GFailPlan p task)).
  - eapply same_job; [done|by repeat constructor|done|]. by rewrite H, (pool_without _ (GFailStore p task w)).
  - rewrite tracker_after by by repeat constructor. simpl.
    rewrite (pool_without _ (GFailRoute p task w)), <- H by done. apply (tk_route scaling (issued y) (tracker y)).
  - pose proof (sendScheduleTask_quiet net task (table_of LiveTable (srv y)) (srv y)) as Hq.
    unfold failure_send in *. destruct (sendScheduleTask _ _ _ _) as [s' es]. destruct Hq as (Hj & _ & Hq & _).
    eapply same_job; [done|by apply quiet_silent|done|]. by rewrite H, (pool_without _ (GFailSend task)).
  - eapply same_job; [done|constructor|apply HandleTaskStarted_job|done].
  - by eapply same_job; [done|constructor|..].
  - pose proof (checkAndScale_quiet now scaleCooldown metrics stages (srv y)) as Hq.
    destruct (checkAndScale _ _ _ _ (srv y)) as [s' es]. destruct Hq as [Hj Hq].
    by eapply same_job; [done|apply quiet_silent|..].
  - pose proof (addTaskToStage_quiet net order st i (srv y)) as Hq.
    destruct (addTaskToStage net order st i (srv y)) as [s' es]. destruct Hq as [Hj Hq%quiet_silent].
    rewrite tracker_after by done. simpl. rewrite (pool_without _ (GAddTask st i)), <- H by done.
    destruct Hj as [->|(id & addr & ->)]; [apply tk_idle|].
    apply (tk_expect scaling (issued y) (tracker y)).
    destruct Hsc as [|[_ Hsc]]; [done|]. destruct (Hsc (GAddTask st i)). rewrite H. set_solver.
  - pose proof (removeTaskFromStage_quiet st i (srv y)) as Hq.
    destruct (removeTaskFromStage st i (srv y)) as [s' es]. destruct Hq as [Hj Hq%quiet_silent].
    rewrite tracker_after by done. simpl. rewrite (pool_without _ (GRemoveTask st i)), <- H by done.
    destruct Hj as [->|(Hin & r & ->)]; [apply tk_idle|].
    apply (tk_withdraw scaling (issued y) (tracker y)); [|set_solver].
    destruct Hsc as [|[_ Hsc]]; [done|]. destruct (Hsc (GRemoveTask st i)). rewrite H. set_solver.
  - eapply same_job; [done| |done|by rewrite H, (pool_without _ (GRemoveEOF w port n id))].
    apply Forall_app. split; [apply quiet_silent, sendEOF_quiet|by repeat constructor].
  - eapply same_job; [done| |done|by rewrite H, (pool_without _ (GRemoveLater w id))].
    unfold remove_later; simpl. destruct (_ && _); [apply quiet_silent, HandleKillTask_quiet|constructor].
  - eapply same_job; [done|apply quiet_silent, sendEOF_quiet|done|].
    by rewrite H, (pool_without _ (GSendEOF w port n id)).
  - eapply same_job; [done|apply quiet_silent, sendRouting_quiet|done|].
    by rewrite H, (pool_without _ (GRoutingUpdate t r)).
Qed.

Lemma leader_issued y y' :
  leader_step y y' → dom (AllTasks (srv y)) ⊆ issued y →
  dom (AllTasks (srv y')) ⊆ issued y' ∧ issued y ⊆ issued y'.
Proof. intros Hs Hd. destruct Hs; simpl; set_solver. Qed.

(** ** Invariants of the tracker *)

(** Every task is counted once. *)
Definition counted (j : Job) : Prop :=
  CompletedTasks j = Z.of_nat (size (CompletedTaskIDs j)).

Definition ended_once (t : Tracker) : Prop :=
  tr_ends t = if JobEnded (tr_job t) then 1%nat else 0%nat.

Lemma count_task_counted id j : counted j → counted (count_task id j).
Proof.
  unfold counted, count_task. case_decide as Hin; [done|]. simpl. intros ->.
  rewrite size_union, size_singleton by set_solver. lia.
Qed.

Lemma mark_original_counted b j : counted j → counted (mark_original b j).
Proof. by destruct b. Qed.

Lemma track_counted scaling known t t' :
  track_step scaling known t t' → counted (tr_job t) → counted (tr_job t').
Proof.
  intros Hs Hc. destruct Hs; simpl; try done.
  - by apply mark_original_counted, count_task_counted.
  - by case_match.
  - by apply count_task_counted.
Qed.

Lemma count_task_ended id j : JobEnded (count_task id j) = JobEnded j.
Proof. unfold count_task. by case_decide. Qed.

Lemma track_ended_once scaling known t t' :
  track_step scaling known t t' → ended_once t → ended_once t'.
Proof.
  unfold ended_once. intros Hs He. destruct Hs; simpl; try done.
  - destruct b; simpl; by rewrite count_task_ended.
  - destruct (JobEnded (tr_job t)) eqn:Hj; rewrite ?andb_false_r, ?andb_true_r; simpl; [by rewrite Hj|].
    destruct (e <=? c); simpl; [by rewrite He|by rewrite Hj].
  - by rewrite count_task_ended.
Qed.

(** A job of [n] tasks, of which none is added: it ends when as many have been
    counted, whichever they are. *)
Record fixed_job (n : Z) (known : gset string) (t : Tracker) : Prop := {
  fj_expected : ExpectedTasks (tr_job t) = n;
  fj_counted : counted (tr_job t);
  fj_completed : CompletedTaskIDs (tr_job t) ⊆ known;
  fj_pending : ∀ c e, (c, e) ∈ tr_pending t → e = n ∧ c <= CompletedTasks (tr_job t);
  fj_ended : JobEnded (tr_job t) = true → n <= CompletedTasks (tr_job t);
  fj_ends : 0 < n → n <= CompletedTasks (tr_job t) →
    JobEnded (tr_job t) = true ∨ ∃ c e, (c, e) ∈ tr_pending t ∧ e <= c;
}.

Lemma counted_le ids j :
  counted j → CompletedTaskIDs j ⊆ ids → CompletedTasks j <= Z.of_nat (size ids).
Proof. intros -> Hs. apply subseteq_size in Hs. lia. Qed.

Lemma counted_full ids j :
  counted j → CompletedTaskIDs j ⊆ ids → Z.of_nat (size ids) <= CompletedTasks j →
  CompletedTaskIDs j = ids.
Proof.
  unfold counted. intros Hc Hs Hle. apply leibniz_equiv, set_subseteq_size_equiv; [done|lia].
Qed.

Lemma count_task_completed id j :
  CompletedTaskIDs (count_task id j) = {[id]} ∪ CompletedTaskIDs j.
Proof. unfold count_task. case_decide; [set_solver|done]. Qed.

Lemma count_task_mono id j : CompletedTasks j <= CompletedTasks (count_task id j).
Proof. unfold count_task. case_decide; simpl; lia. Qed.

Lemma count_task_expected id j : ExpectedTasks (count_task id j) = ExpectedTasks j.
Proof. unfold count_task. by case_decide. Qed.

Lemma mark_original_same b j :
  ExpectedTasks (mark_original b j) = ExpectedTasks j ∧
  CompletedTasks (mark_original b j) = CompletedTasks j ∧
  CompletedTaskIDs (mark_original b j) = CompletedTaskIDs j ∧
  JobEnded (mark_original b j) = JobEnded j.
Proof. by destruct b. Qed.

Lemma fixed_complete n known id b t :
  id ∈ known → fixed_job n known t →
  fixed_job n known
    (mkTracker (mark_original b (count_task id (tr_job t)))
       (tr_pending t ++ [(CompletedTasks (count_task id (tr_job t)), ExpectedTasks (tr_job t))])
       (tr_ends t)).
Proof.
  intros Hid [H1 H2 H3 H4 H5 H6].
  destruct (mark_original_same b (count_task id (tr_job t))) as (E1 & E2 & E3 & E4).
  pose proof (count_task_mono id (tr_job t)) as Hmono.
  split; simpl; rewrite ?E1, ?E2, ?E3, ?E4, ?count_task_expected, ?count_task_completed, ?count_task_ended.
  - done.
  - by apply mark_original_counted, count_task_counted.
  - set_solver.
  - intros c e [Hin|[= -> ->]%list_elem_of_singleton]%elem_of_app; [|done].
    destruct (H4 _ _ Hin) as [-> Hc]. split; [done|]. lia.
  - intros He. specialize (H5 He). lia.
  - intros Hne Hfull. right. eexists _, _. split; [apply elem_of_app; right; by left|]. lia.
Qed.

Lemma fixed_end n known t l1 l2 c e :
  tr_pending t = l1 ++ (c, e) :: l2 → fixed_job n known t →
  fixed_job n known
    (if (e <=? c) && negb (JobEnded (tr_job t))
     then mkTracker (set_ended (tr_job t)) (l1 ++ l2) (S (tr_ends t))
     else mkTracker (tr_job t) (l1 ++ l2) (tr_ends t)).
Proof.
  intros Hp [H1 H2 H3 H4 H5 H6].
  assert (∀ x, x ∈ l1 ++ l2 → x ∈ tr_pending t) as Hsub by (rewrite Hp; set_solver).
  destruct (H4 c e) as [He Hc]; [rewrite Hp; set_solver|].
  destruct ((e <=? c) && negb (JobEnded (tr_job t))) eqn:Hb.
  - apply andb_true_iff in Hb as [Hb _]. apply Z.leb_le in Hb.
    split; simpl; try done; eauto. intros _. lia.
  - split; simpl; try done; eauto.
    intros Hne Hfull. destruct (H6 Hne Hfull) as [?|(c' & e' & Hin & Hle)]; [by left|].
    rewrite Hp in Hin. apply elem_of_app in Hin as [Hin|[[= -> ->]|Hin]%elem_of_cons].
    + right. exists c', e'. split; [set_solver|done].
    + left. apply andb_false_iff in Hb as [Hb|Hb]; [by apply Z.leb_gt in Hb; lia|].
      by apply negb_false_iff in Hb.
    + right. exists c', e'. split; [set_solver|done].
Qed.

Lemma track_fixed n known t t' :
  track_step false known t t' → fixed_job n known t → fixed_job n known t'.
Proof.
  intros Hs Hf. destruct Hs; try done.
  - destruct Hf as [H1 H2 H3 H4 H5 H6]. by split.
  - by apply fixed_complete.
  - by eapply fixed_end.
Qed.

(** ** Reachable systems *)

Definition leader_reachable (y0 : System) : System → Prop := reachable (eq y0) leader_step.

Lemma send_all_facts net l r s :
  let s' := (send_all net l r s).1 in
  job s' = job s ∧ scale s' = scale s ∧
  dom (AllTasks s') ⊆ list_to_set (ID <$> l) ∪ dom (AllTasks s).
Proof.
  revert s; induction l as [|t l IH]; intros s; [set_solver|]. cbn [send_all].
  unfold sendScheduleTask. destruct (net _).
  - specialize (IH (set_tasks <[ID t := t]> s)).
    destruct (send_all net l r _) as [s3 es3]. simpl in *. set_solver.
  - specialize (IH s). destruct (send_all net l r s) as [s3 es3]. simpl in *. set_solver.
Qed.

Definition keyed (s : Server) : Prop := ∀ k t, AllTasks s !! k = Some t → ID t = k.

Lemma send_all_keyed net l r s : keyed s → keyed (send_all net l r s).1.
Proof.
  revert s; induction l as [|t l IH]; intros s Hs; [done|]. cbn [send_all].
  unfold sendScheduleTask. destruct (net _).
  - specialize (IH (set_tasks <[ID t := t]> s)). destruct (send_all net l r _) as [s3 es3].
    apply IH. intros k x. simpl. intros [[<- <-]|[_ Hx]]%lookup_insert_Some; [done|by apply Hs].
  - specialize (IH s). destruct (send_all net l r s) as [s3 es3]. by apply IH.
Qed.

Section submitted.
Context (net : string → bool) (order : list (Z * Info)) (now : Z) (ts : string)
  (p : JobSubmitPayload) (old : gset string) (s : Server).
Context (Hk : (length (Stages p) ≤ 3)%nat) (Hw : GetAliveWorkers s order ≠ []).

Lemma HandleSubmitJob_accepted :
  let a := allocate (sv_Config s) p ts (GetAliveWorkers s order) in
  let total := Z.of_nat (length (al_tasks a)) in
  HandleSubmitJob net order now ts p s =
    send_all net (al_tasks a) (build_routing (al_tasks a))
      (set_scale (mkScale (AutoScale p) (js_LowWatermark p) (js_HighWatermark p) (stage_counts p)
         ∅ ∅ (stage_configs p (basePort a)))
       (set_job (mkJob (App p) (DestFile p) ts now total total 0 ∅ ∅ false
         (output_files (al_tasks a)) (Some (build_routing (al_tasks a))) false)
       (set_metrics (λ _, ∅) s))).
Proof.
  unfold HandleSubmitJob. rewrite decide_False by lia.
  assert (GetAliveWorkers (set_metrics (λ _, ∅) s) order = GetAliveWorkers s order) as -> by done.
  by rewrite decide_False by done.
Qed.

Lemma job_ids_size : 0 <= NumTasks p →
  size (job_ids order ts p s) = length (al_tasks (allocate (sv_Config s) p ts (GetAliveWorkers s order))).
Proof. intros Hn. unfold job_ids. rewrite size_list_to_set by by apply job_ids_NoDup. by rewrite length_fmap. Qed.

Lemma submitted_job :
  0 <= NumTasks p →
  let y := submitted net order now ts p old s in
  counted (job (srv y)) ∧ ended_once (tracker y) ∧
  ExpectedTasks (job (srv y)) = Z.of_nat (size (job_ids order ts p s)) ∧
  CompletedTaskIDs (job (srv y)) = ∅ ∧ JobEnded (job (srv y)) = false ∧
  AutoScaleEnabled (scale (srv y)) = AutoScale p.
Proof.
  intros Hn y. unfold counted, ended_once, tracker, y, submitted. cbn [srv pool ends issued tr_job tr_ends].
  rewrite job_ids_size, HandleSubmitJob_accepted by done.
  match goal with |- context [send_all net ?l ?r ?s1] =>
    destruct (send_all_facts net l r s1) as (-> & -> & _) end.
  by simpl.
Qed.

Lemma submitted_dom :
  let y := submitted net order now ts p old s in dom (AllTasks (srv y)) ⊆ issued y.
Proof.
  intros y. unfold y, submitted, job_ids. cbn [srv issued]. rewrite HandleSubmitJob_accepted.
  match goal with |- context [send_all net ?l ?r ?s1] =>
    destruct (send_all_facts net l r s1) as (_ & _ & Hd) end.
  simpl in Hd. set_solver.
Qed.

Lemma submitted_keyed : keyed s → keyed (srv (submitted net order now ts p old s)).
Proof. intros Hs. cbn [submitted srv]. rewrite HandleSubmitJob_accepted. by apply send_all_keyed. Qed.

Lemma job_ids_ne : 0 < NumTasks p → 0 < Z.of_nat (size (job_ids order ts p s)).
Proof. intros Hn. rewrite job_ids_size, length_job_tasks by lia. lia. Qed.
End submitted.

(** ** Lemmas: the tasks the leader knows *)

(** A handler that knows the identifiers [K] adds no task with another one. *)
Definition no_new_ids (K : gset string) (s s' : Server) : Prop :=
  keyed s → dom (AllTasks s) ⊆ K → keyed s' ∧ dom (AllTasks s') ⊆ K.

Definition no_new_task (K : gset string) (s s' : Server) : Prop :=
  no_new_ids K s s' ∧ AutoScaleEnabled (scale s') = AutoScaleEnabled (scale s).

Lemma same_tasks_ids K s s' : AllTasks s' = AllTasks s → no_new_ids K s s'.
Proof. unfold no_new_ids, keyed. by intros ->. Qed.

Lemma no_new_task_refl K s : no_new_task K s s.
Proof. split; [by apply same_tasks_ids|done]. Qed.

Lemma insert_task_ids K s s' t :
  ID t ∈ K → AllTasks s' = <[ID t := t]> (AllTasks s) → no_new_ids K s s'.
Proof.
  intros Hid Hs Hkey Hd. unfold keyed. rewrite Hs, dom_insert. split; [|set_solver].
  intros k0 t0 [[<- <-]|[_ H0]]%lookup_insert_Some; [done|by apply Hkey].
Qed.

Lemma no_new_task_update K s s' k t t' :
  AllTasks s !! k = Some t → ID t' = ID t → AllTasks s' = <[k := t']> (AllTasks s) →
  AutoScaleEnabled (scale s') = AutoScaleEnabled (scale s) → no_new_task K s s'.
Proof.
  intros Hk Hid Hs Hc. split; [|done]. intros Hkey Hd. pose proof (Hkey _ _ Hk) as Hi.
  apply (insert_task_ids K s s' t'); [|by rewrite Hs, Hid, Hi|done|done].
  rewrite Hid, Hi. apply elem_of_dom_2 in Hk. set_solver.
Qed.

Lemma mark_task_no_new K id st s : no_new_task K s (mark_task id st s).
Proof.
  unfold mark_task. destruct (AllTasks s !! id) as [t|] eqn:Ht; [|apply no_new_task_refl].
  by apply (no_new_task_update _ _ _ id t (set_task_state st t)).
Qed.

Lemma HandleTaskStarted_no_new K t s : no_new_task K s (HandleTaskStarted t s).
Proof.
  unfold HandleTaskStarted. destruct (AllTasks s !! ID t) as [e|] eqn:He; [|apply no_new_task_refl].
  eapply no_new_task_update; [exact He| |reflexivity|reflexivity]. done.
Qed.

Lemma failure_mark_no_new K p s : no_new_task K s (failure_mark p s).1.
Proof.
  unfold failure_mark. destruct (AllTasks s !! _); [apply mark_task_no_new|apply no_new_task_refl].
Qed.

Lemma failure_store_no_new K p task w s : ID task ∈ K → no_new_task K s (failure_store p task w s).1.
Proof. intros Hid. split; [|done]. by apply (insert_task_ids K s _ (restart_task task w)). Qed.

Lemma failure_send_no_new K net t s : ID t ∈ K → no_new_task K s (failure_send net t s).1.
Proof.
  intros Hid. unfold failure_send, sendScheduleTask. destruct (net _); [|apply no_new_task_refl].
  split; [|done]. by apply (insert_task_ids K s _ t).
Qed.

(** The tasks that goroutines are about to hand out are known. *)
Definition pool_known (K : gset string) (l : list Goroutine) : Prop :=
  ∀ g t, g ∈ l → goroutine_task g = Some t → ID t ∈ K.

Lemma pool_known_app K l1 l2 : pool_known K l1 → pool_known K l2 → pool_known K (l1 ++ l2).
Proof. intros H1 H2 g t [?|?]%elem_of_app; eauto. Qed.

Lemma pool_known_quiet K es : Forall quiet es → pool_known K (spawned es).
Proof. intros Hq g t Hg. by rewrite (quiet_tasks es g Hq Hg). Qed.

Lemma pool_known_mark K p s :
  keyed s → dom (AllTasks s) ⊆ K → pool_known K (failure_mark p s).2.
Proof.
  intros Hkey Hd. unfold failure_mark. destruct (AllTasks s !! tf_TaskID p) as [task|] eqn:Ht.
  - intros g t ->%list_elem_of_singleton [= <-]. rewrite (Hkey _ _ Ht). apply elem_of_dom_2 in Ht. set_solver.
  - by intros g t ?%elem_of_nil.
Qed.

Lemma HandleTaskCompleted_begin_no_new K p s :
  let '(s', gs) := HandleTaskCompleted_begin p s in
  no_new_task K s s' ∧
  ∀ g, g ∈ gs → goroutine_task g = None ∧ match g with GAddTask _ _ | GRemoveTask _ _ => False | _ => True end.
Proof.
  unfold HandleTaskCompleted_begin, count_completion. cbv zeta.
  split; [apply (mark_task_no_new K (tc_TaskID p) (completion_state (Success p)) s)|].
  intros g [Hg| ->%list_elem_of_singleton]%elem_of_app; [|done].
  destruct (_ && _); [|by apply elem_of_nil in Hg].
  apply list_elem_of_fmap in Hg as (t & -> & _). done.
Qed.

Lemma remove_later_ids K net w id s : no_new_ids K s (remove_later net w id s).1.
Proof.
  intros Hkey Hd. cbn [remove_later fst]. split.
  - intros k t Hk. simpl in Hk. apply lookup_delete_Some in Hk as [_ Hk]. by apply Hkey.
  - cbn [AllTasks set_tasks]. rewrite dom_delete. set_solver.
Qed.

(** What a step leaves of the pool was there before. *)
Lemma elem_without {A} (x : A) l1 g l2 : x ∈ l1 ++ l2 → x ∈ l1 ++ g :: l2.
Proof. set_solver. Qed.

Lemma pool_known_without K l1 (g : Goroutine) l2 : pool_known K (l1 ++ g :: l2) → pool_known K (l1 ++ l2).
Proof. intros H x t Hx. apply H. by apply elem_without. Qed.

(** ** The failure handler, step by step *)

(** The six steps one after the other are [HandleTaskFailure]. *)
Lemma HandleTaskFailure_run net order p y :
  let s' := (HandleTaskFailure net order p (srv y)).1 in
  ∃ y', rtc leader_step y y' ∧ srv y' = s' ∧ ends y' = ends y.
Proof.
  unfold HandleTaskFailure. destruct (failure_check p (srv y)) as [|g0 gs0] eqn:E0; [by exists y|].
  assert (failure_check p (srv y) = [GFailMark p]) as E by (unfold failure_check in *; by destruct (JobEnded _)).
  pose proof (step_failed y p) as S1. rewrite E in S1. set (y1 := after y (pool y) _) in S1.
  pose proof (step_fail_mark y1 (pool y) [] p eq_refl) as S2. change (srv y1) with (srv y) in S2.
  destruct (failure_mark p (srv y)) as [s2 gs2] eqn:E2. set (y2 := after y1 _ _) in S2.
  assert (ends y2 = ends y) as Hn2.
  { change (ends y2) with (ends y + run_ends (Spawn <$> [GFailMark p]) + run_ends (Spawn <$> gs2))%nat.
    rewrite !run_ends_spawn. lia. }
  assert (rtc leader_step y y2) as R2 by (by eapply rtc_l, rtc_once).
  unfold failure_mark in E2. destruct (AllTasks (srv y) !! tf_TaskID p) as [task|];
    injection E2 as <- <-; [|by exists y2].
  pose proof (step_fail_plan y2 (pool y ++ []) [] order p task eq_refl) as S3. change (srv y2) with (mark_task (tf_TaskID p) TaskStateFailed (srv y)) in S3.
  set (y3 := after y2 _ _) in S3.
  assert (ends y3 = ends y) as Hn3.
  { change (ends y3) with (ends y2 + run_ends (Spawn <$> failure_plan order p task (mark_task (tf_TaskID p) TaskStateFailed (srv y))))%nat.
    rewrite run_ends_spawn, Hn2. lia. }
  assert (rtc leader_step y y3) as R3 by (by eapply rtc_r).
  destruct (failure_plan order p task (mark_task (tf_TaskID p) TaskStateFailed (srv y))) as [|g3 gs3] eqn:E3; [by exists y3|].
  assert (∃ w, g3 = GFailStore p task w ∧ gs3 = []) as (w & -> & ->).
  { unfold failure_plan in E3. destruct (CurrentRoutingTable _); [|done].
    destruct (GetAliveWorkers _ _) as [|w ws]; [done|]. injection E3 as <- <-. by exists w. }
  pose proof (step_fail_store y3 ((pool y ++ []) ++ []) [] p task w eq_refl) as S4. unfold failure_store in S4.
  set (y4 := after y3 _ _) in S4.
  pose proof (step_fail_route y4 (((pool y ++ []) ++ []) ++ []) [] p task w eq_refl) as S5. unfold failure_route in S5.
  set (y5 := after y4 _ _) in S5.
  pose proof (step_fail_send y5 ((((pool y ++ []) ++ []) ++ []) ++ []) [] net (restart_task task w) eq_refl) as S6.
  set (y6 := after y5 _ _) in S6. exists y6. split; [|split; [done|]].
  - eapply rtc_r; [eapply rtc_r; [by eapply rtc_r|done]|done].
  - change (ends y6) with (ends y3 + 0 + 0 + run_ends (failure_send net (restart_task task w) (srv y5)).2)%nat.
    pose proof (sendScheduleTask_quiet net (restart_task task w) (table_of LiveTable (srv y5)) (srv y5)) as Hq.
    unfold failure_send. destruct (sendScheduleTask _ _ _ _) as [s6 es6]. destruct Hq as (_ & _ & Hq%quiet_silent & _).
    cbn [snd]. rewrite (silent_ends _ Hq). lia.
Qed.

(** ** Jobs without autoscaling *)

Definition fixed_system (n : Z) (K : gset string) (y : System) : Prop :=
  issued y = K ∧ keyed (srv y) ∧ dom (AllTasks (srv y)) ⊆ K ∧ pool_known K (pool y) ∧ scale_free y ∧
  fixed_job n K (tracker y).

Lemma scale_free_after y gs s' es :
  scale_free y → AutoScaleEnabled (scale s') = AutoScaleEnabled (scale (srv y)) →
  (∀ g, g ∈ gs → g ∈ pool y) →
  (∀ g, g ∈ spawned es → match g with GAddTask _ _ | GRemoveTask _ _ => False | _ => True end) →
  scale_free (after y gs (s', es)).
Proof.
  intros [H1 H2] Hs Hg He. split; simpl; [by rewrite Hs|].
  intros g [Hin|Hin]%elem_of_app; [by apply H2, Hg|by apply He].
Qed.

Lemma fixed_after n K y y' gs s' es :
  fixed_system n K y → y' = after y gs (s', es) → leader_step y y' →
  no_new_task K (srv y) s' → (∀ g, g ∈ gs → g ∈ pool y) →
  (∀ g, g ∈ spawned es →
    match goroutine_task g with Some t => ID t ∈ K | None => True end ∧
    match g with GAddTask _ _ | GRemoveTask _ _ => False | _ => True end) →
  fixed_system n K y'.
Proof.
  intros (Hi & Hk & Hd & Hp & Hs & Hf) -> Hstep (N1 & N2) Hg He. destruct (N1 Hk Hd) as [N3 N4].
  split; [|split; [|split; [|split; [|split]]]]; simpl.
  - rewrite Hi. set_solver.
  - done.
  - done.
  - apply pool_known_app; [intros g t Hin; by apply Hp, Hg|].
    intros g t Hin Ht. destruct (He g Hin) as [H _]. by rewrite Ht in H.
  - apply scale_free_after; [done|done|done|]. intros g Hin. by apply He.
  - apply (leader_refines false) in Hstep; [|by right|by rewrite Hi].
    rewrite Hi in Hstep. by eapply track_fixed.
Qed.

(** A goroutine that spawns nothing, or [l1 ++ l2] that is left of the pool. *)
Lemma no_spawn (K : gset string) : ∀ g, g ∈ spawned [] →
  match goroutine_task g with Some t => ID t ∈ K | None => True end ∧
  match g with GAddTask _ _ | GRemoveTask _ _ => False | _ => True end.
Proof. by intros g ?%elem_of_nil. Qed.

Lemma fixed_step n K y y' : fixed_system n K y → leader_step y y' → fixed_system n K y'.
Proof.
  intros Hfix Hstep. pose proof Hstep as Hst. pose proof Hfix as (_ & Hkey & Hdom & Hpk & [Hsc Hpool] & _).
  assert (∀ l1 g l2, pool y = l1 ++ g :: l2 → ∀ x, x ∈ l1 ++ l2 → x ∈ pool y) as Hsub
    by (intros l1 g l2 -> x; apply elem_without).
  destruct Hstep.
  - pose proof (HandleTaskCompleted_begin_no_new K p (srv y)) as Hn.
    destruct (HandleTaskCompleted_begin p (srv y)) as [s' gs]. destruct Hn as [Hn Hgs].
    eapply fixed_after; [done..|exact Hn|done|]. rewrite spawned_fmap. intros g Hin.
    destruct (Hgs g Hin) as [-> ?]. by split.
  - rewrite (surjective_pairing (end_job c e n0 (srv y))) in *.
    eapply fixed_after; [done..| |by eapply Hsub|].
    + unfold end_job. by destruct (_ && _).
    + unfold end_job. destruct (_ && _); apply no_spawn.
  - eapply fixed_after; [done..|apply no_new_task_refl|done|]. rewrite spawned_fmap.
    unfold failure_check. destruct (JobEnded _); [apply no_spawn|]. by intros g ->%list_elem_of_singleton.
  - pose proof (failure_mark_no_new K p (srv y)) as Hn. pose proof (pool_known_mark K p (srv y) Hkey Hdom) as Hg.
    assert (∀ g, g ∈ (failure_mark p (srv y)).2 → match g with GAddTask _ _ | GRemoveTask _ _ => False | _ => True end) as Hg'.
    { unfold failure_mark. destruct (AllTasks (srv y) !! _); [by intros g ->%list_elem_of_singleton|by intros g ?%elem_of_nil]. }
    destruct (failure_mark p (srv y)) as [s' gs].
    eapply fixed_after; [done..|exact Hn|by eapply Hsub|]. rewrite spawned_fmap. intros g Hin.
    split; [|by apply Hg']. destruct (goroutine_task g) eqn:Et; [by eapply Hg|done].
  - eapply fixed_after; [done..|apply no_new_task_refl|by eapply Hsub|]. rewrite spawned_fmap.
    unfold failure_plan. destruct (CurrentRoutingTable _) as [r|]; [|apply no_spawn].
    destruct (GetAliveWorkers _ _) as [|w ws]; [apply no_spawn|]. intros g ->%list_elem_of_singleton. split; [|done].
    simpl. eapply Hpk; [rewrite H; apply elem_of_app; right; by left|done].
  - assert (ID task ∈ K) as Hid by (eapply Hpk; [rewrite H; apply elem_of_app; right; by left|done]).
    eapply fixed_after; [done..|by apply (failure_store_no_new K p task w)|by eapply Hsub|].
    by intros g ->%list_elem_of_singleton.
  - assert (ID task ∈ K) as Hid by (eapply Hpk; [rewrite H; apply elem_of_app; right; by left|done]).
    eapply fixed_after; [done..|split; [by apply same_tasks_ids|done]|by eapply Hsub|].
    by intros g ->%list_elem_of_singleton.
  - assert (ID task ∈ K) as Hid by (eapply Hpk; [rewrite H; apply elem_of_app; right; by left|done]).
    pose proof (failure_send_no_new K net task (srv y) Hid) as Hn.
    pose proof (sendScheduleTask_quiet net task (table_of LiveTable (srv y)) (srv y)) as Hq. unfold failure_send in *.
    destruct (sendScheduleTask _ _ _ _) as [s' es]. destruct Hq as (_ & _ & _ & Hq).
    eapply fixed_after; [done..|exact Hn|by eapply Hsub|]. rewrite Hq. apply no_spawn.
  - eapply fixed_after; [done..|apply HandleTaskStarted_no_new|done|apply no_spawn].
  - eapply fixed_after; [done..|split; [by apply same_tasks_ids|done]|done|apply no_spawn].
  - assert (checkAndScale now scaleCooldown metrics stages (srv y) = (srv y, [])) as Heq
      by (unfold checkAndScale; by rewrite Hsc).
    rewrite Heq in *.
    eapply fixed_after; [done..|apply no_new_task_refl|done|apply no_spawn].
  - destruct (Hpool (GAddTask st i)). rewrite H. set_solver.
  - destruct (Hpool (GRemoveTask st i)). rewrite H. set_solver.
  - eapply fixed_after; [done..|apply no_new_task_refl|by eapply Hsub|].
    unfold spawned. rewrite omap_app. fold (spawned (sendEOFToTask net now w port n0 id)).
    rewrite (proj2 (sendEOF_quiet _ _ _ _ _ _)). by intros g ->%list_elem_of_singleton.
  - rewrite (surjective_pairing (remove_later net w id (srv y))) in *.
    eapply fixed_after; [done..|split; [apply remove_later_ids|done]|by eapply Hsub|].
    unfold remove_later; simpl. destruct (_ && _); [|apply no_spawn].
    rewrite (proj2 (HandleKillTask_quiet _ _ _ _)). apply no_spawn.
  - eapply fixed_after; [done..|apply no_new_task_refl|by eapply Hsub|].
    rewrite (proj2 (sendEOF_quiet _ _ _ _ _ _)). apply no_spawn.
  - eapply fixed_after; [done..|apply no_new_task_refl|by eapply Hsub|].
    rewrite (proj2 (sendRouting_quiet _ _ _ _)). apply no_spawn.
Qed.

(** ** Jobs with autoscaling *)

(** The identifiers handed out are at most the tasks expected. *)
Definition known_job (known : gset string) (t : Tracker) : Prop :=
  counted (tr_job t) ∧ CompletedTaskIDs (tr_job t) ⊆ known ∧
  Z.of_nat (size known) <= ExpectedTasks (tr_job t).

(** There are fewer identifiers than tasks expected: the job cannot end. *)
Definition overdue (known : gset string) (t : Tracker) : Prop :=
  counted (tr_job t) ∧ CompletedTaskIDs (tr_job t) ⊆ known ∧
  Z.of_nat (size known) < ExpectedTasks (tr_job t) ∧
  (∀ c e, (c, e) ∈ tr_pending t → c < e) ∧ JobEnded (tr_job t) = false.

Lemma track_known scaling known t t' :
  track_step scaling known t t' → known_job known t → known_job known t'.
Proof.
  intros Hs (H1 & H2 & H3). split; [by eapply track_counted|]. destruct Hs; simpl; try done.
  - destruct (mark_original_same b (count_task id (tr_job t))) as (-> & _ & -> & _).
    rewrite count_task_completed, count_task_expected. split; [set_solver|done].
  - by case_match.
  - split; [done|lia].
  - rewrite count_task_completed, count_task_expected. split; [set_solver|done].
Qed.

Lemma track_overdue scaling known t t' :
  track_step scaling known t t' → overdue known t → overdue known t' ∧ tr_ends t' = tr_ends t.
Proof.
  intros Hs (H1 & H2 & H3 & H4 & H5). unfold overdue.
  assert (counted (tr_job t')) as H1' by by eapply track_counted.
  destruct Hs; simpl in *; try done.
  - destruct (mark_original_same b (count_task id (tr_job t))) as (E1 & _ & E3 & E4).
    rewrite E1, E3, E4, count_task_completed, count_task_expected, count_task_ended.
    assert (counted (count_task id (tr_job t))) as Hc by by apply count_task_counted.
    repeat split; try done; [set_solver|].
    intros c e [Hin|[= -> ->]%list_elem_of_singleton]%elem_of_app; [by apply H4|].
    pose proof (counted_le known _ Hc) as Hle. rewrite count_task_completed in Hle.
    specialize (Hle ltac:(set_solver)). lia.
  - assert (c < e) by (apply H4; rewrite H; set_solver).
    rewrite (proj2 (Z.leb_gt e c)) in * by done. simpl in *. repeat split; try done.
    intros c' e' Hin. apply H4. rewrite H. set_solver.
  - repeat split; try done. lia.
  - rewrite count_task_completed, count_task_expected, count_task_ended.
    repeat split; try done. set_solver.
Qed.

Lemma addTaskToStage_tasks net order st i s :
  let r := addTaskToStage net order st i s in
  r = (s, []) ∧ (find_stage st (StageConfigs (scale s)) = None ∨ GetAliveWorkers s order = []) ∨
  dom (AllTasks r.1) = {[stage_task_id st i]} ∪ dom (AllTasks s) ∧
  (keyed s → keyed r.1) ∧ ExpectedTasks (job r.1) = ExpectedTasks (job s) + 1.
Proof.
  unfold addTaskToStage. destruct (find_stage _ _) as [c|]; [|by left; auto].
  case_decide as Hw; [by left; auto|right]. cbv zeta.
  set (t := upscaled_task _ _ _ _ _ _ _ _).
  match goal with |- context [sendScheduleTask net t ?r ?s1] =>
    assert (AllTasks (sendScheduleTask net t r s1).1 = <[ID t := t]> (AllTasks s) ∧
      job (sendScheduleTask net t r s1).1 = job s1) as [Ht Hj] end.
  { unfold sendScheduleTask. destruct (net _); simpl; [by rewrite insert_insert_eq|done]. }
  destruct (sendScheduleTask _ _ _ _) as [s2 es]. simpl in Ht, Hj. cbn [fst].
  rewrite Hj. unfold keyed. rewrite Ht. split; [by rewrite dom_insert_L|]. split; [|done].
  intros Hkey k x [[<- <-]|[_ Hx]]%lookup_insert_Some; [done|by apply Hkey].
Qed.

Lemma check_stages_tasks now cooldown lw hw stats stages s :
  AllTasks (check_stages now cooldown lw hw stats stages s).1 = AllTasks s.
Proof.
  revert s; induction stages as [|st stages IH]; intros s; cbn [check_stages]; [done|].
  assert (∀ delta s0, AllTasks (scaleStage now st delta s0).1 = AllTasks s0) as Hsc.
  { intros delta s0. unfold scaleStage. cbv zeta. by destruct (_ <? 1). }
  destruct (stats !! st) as [x|]; [|apply IH].
  destruct (_ || _); [apply IH|]. cbv zeta.
  destruct (match LastScaleTime (scale s) !! st with Some t => _ | None => _ end); [apply IH|].
  destruct (Qltb _ _ && _).
  { specialize (Hsc 1 s). by destruct (scaleStage now st 1 s). }
  destruct (_ && _ && _ && _); [|by rewrite IH].
  destruct (LowRateStart (scale s) !! st) as [t|]; [|by rewrite IH].
  destruct (_ <=? _); [by rewrite Hsc|apply IH].
Qed.

Lemma removeTaskFromStage_tasks st i s : AllTasks (removeTaskFromStage st i s).1 = AllTasks s.
Proof. unfold removeTaskFromStage. by destruct (AllTasks s !! _). Qed.

(** A step hands out no new identifier, or one, and then expects one task more. *)
Lemma leader_step_issued y y' :
  keyed (srv y) → dom (AllTasks (srv y)) ⊆ issued y → pool_known (issued y) (pool y) → leader_step y y' →
  keyed (srv y') ∧ pool_known (issued y') (pool y') ∧
  (issued y' = issued y ∨
   ∃ id, issued y' = {[id]} ∪ issued y ∧
     ExpectedTasks (job (srv y')) = ExpectedTasks (job (srv y)) + 1).
Proof.
  intros Hkey Hdom Hpk Hs.
  assert (∀ gs r, no_new_ids (issued y) (srv y) r.1 → pool_known (issued y) gs → pool_known (issued y) (spawned r.2) →
    keyed (srv (after y gs r)) ∧ pool_known (issued (after y gs r)) (pool (after y gs r)) ∧
    (issued (after y gs r) = issued y ∨ ∃ id, issued (after y gs r) = {[id]} ∪ issued y ∧
     ExpectedTasks (job (srv (after y gs r))) = ExpectedTasks (job (srv y)) + 1)) as Hno.
  { intros gs r Hn Hg Hr. destruct (Hn Hkey Hdom) as [N1 N2].
    assert (issued (after y gs r) = issued y) as -> by (simpl; set_solver).
    split; [done|]. split; [by apply pool_known_app|by left]. }
  assert (∀ gs r, no_new_ids (issued y) (srv y) r.1 → pool_known (issued y) gs → Forall quiet r.2 →
    keyed (srv (after y gs r)) ∧ pool_known (issued (after y gs r)) (pool (after y gs r)) ∧
    (issued (after y gs r) = issued y ∨ ∃ id, issued (after y gs r) = {[id]} ∪ issued y ∧
     ExpectedTasks (job (srv (after y gs r))) = ExpectedTasks (job (srv y)) + 1)) as Hquiet.
  { intros gs r Hn Hg Hr. apply Hno; [done|done|by apply pool_known_quiet]. }
  assert (∀ l1 g l2, pool y = l1 ++ g :: l2 → pool_known (issued y) (l1 ++ l2)) as Hsub
    by (intros l1 g l2 Hp; rewrite Hp in Hpk; by eapply pool_known_without).
  assert (∀ l1 g l2 t, pool y = l1 ++ g :: l2 → goroutine_task g = Some t → ID t ∈ issued y) as Htask
    by (intros l1 g l2 t Hp Ht; apply (Hpk g t); [rewrite Hp; set_solver|done]).
  assert (∀ s', AllTasks s' = AllTasks (srv y) → no_new_ids (issued y) (srv y) s') as Hsame
    by (intros; by apply same_tasks_ids).
  destruct Hs.
  - pose proof (HandleTaskCompleted_begin_no_new (issued y) p (srv y)) as Hn.
    destruct (HandleTaskCompleted_begin p (srv y)) as [s' gs]. destruct Hn as [[Hn _] Hg].
    apply Hno; [done|done|]. cbn [snd]. rewrite spawned_fmap. intros g t Hin Ht. destruct (Hg g Hin). congruence.
  - apply Hno; [|by eapply Hsub|]; unfold end_job; destruct (_ && _); try (by apply Hsame); by intros g t ?%elem_of_nil.
  - apply Hno; [by apply Hsame|done|]. cbn [snd]. rewrite spawned_fmap. unfold failure_check.
    destruct (JobEnded _); [by intros g t ?%elem_of_nil|]. by intros g t ->%list_elem_of_singleton.
  - destruct (failure_mark_no_new (issued y) p (srv y)) as [Hn _].
    pose proof (pool_known_mark (issued y) p (srv y) Hkey Hdom) as Hg.
    destruct (failure_mark p (srv y)) as [s' gs]. apply Hno; [done|by eapply Hsub|]. cbn [snd]. by rewrite spawned_fmap.
  - apply Hno; [by apply Hsame|by eapply Hsub|]. cbn [snd]. rewrite spawned_fmap. unfold failure_plan.
    destruct (CurrentRoutingTable _) as [r|]; [|by intros g t ?%elem_of_nil].
    destruct (GetAliveWorkers _ _) as [|w ws]; [by intros g t ?%elem_of_nil|].
    intros g t ->%list_elem_of_singleton [= <-]. by eapply Htask.
  - apply Hno; [|by eapply Hsub|].
    + apply (failure_store_no_new (issued y) p task w (srv y)). by eapply Htask.
    + intros g t ->%list_elem_of_singleton [= <-]. by eapply Htask.
  - apply Hno; [by apply Hsame|by eapply Hsub|].
    intros g t ->%list_elem_of_singleton [= <-]. by eapply (Htask l1 _ l2 task).
  - pose proof (sendScheduleTask_quiet net task (table_of LiveTable (srv y)) (srv y)) as Hq.
    apply Hquiet; [|by eapply Hsub|].
    + apply failure_send_no_new. by eapply Htask.
    + unfold failure_send. destruct (sendScheduleTask _ _ _ _). by destruct Hq as (_ & _ & ? & _).
  - apply Hquiet; [apply HandleTaskStarted_no_new|done|constructor].
  - apply Hquiet; [by apply Hsame|done|constructor].
  - pose proof (checkAndScale_quiet now scaleCooldown metrics stages (srv y)) as Hq.
    apply Hquiet; [apply Hsame|done|].
    + unfold checkAndScale. destruct (negb _); [done|]. destruct (_ <? _); [done|]. apply check_stages_tasks.
    + destruct (checkAndScale _ _ _ _ _). by destruct Hq.
  - pose proof (addTaskToStage_quiet net order st i (srv y)) as Hq.
    destruct (addTaskToStage_tasks net order st i (srv y)) as [[Hr _]|(Hr & Hk & He)].
    + rewrite Hr. apply Hquiet; [by apply Hsame|by eapply Hsub|constructor].
    + assert (issued (after y (l1 ++ l2) (addTaskToStage net order st i (srv y))) =
        {[stage_task_id st i]} ∪ issued y) as -> by (simpl; rewrite Hr; set_solver).
      split; [by apply Hk|]. split; [|right; by exists (stage_task_id st i)].
      apply pool_known_app.
      * intros g t Hin Ht. apply elem_of_union. right. by apply (Hsub _ _ _ H g).
      * apply pool_known_quiet. destruct (addTaskToStage _ _ _ _ _). by destruct Hq.
  - pose proof (removeTaskFromStage_quiet st i (srv y)) as Hq.
    apply Hquiet; [by apply Hsame, removeTaskFromStage_tasks|by eapply Hsub|].
    destruct (removeTaskFromStage _ _ _). by destruct Hq.
  - apply Hquiet; [by apply Hsame|by eapply Hsub|].
    apply Forall_app. split; [apply sendEOF_quiet|by repeat constructor].
  - apply Hquiet; [apply remove_later_ids|by eapply Hsub|].
    unfold remove_later; simpl. destruct (_ && _); [apply HandleKillTask_quiet|constructor].
  - apply Hquiet; [by apply Hsame|by eapply Hsub|apply sendEOF_quiet].
  - apply Hquiet; [by apply Hsame|by eapply Hsub|apply sendRouting_quiet].
Qed.

Lemma known_grow known known' t :
  known ⊆ known' → Z.of_nat (size known') <= ExpectedTasks (tr_job t) →
  known_job known t → known_job known' t.
Proof. intros Hs He (H1 & H2 & _). split; [done|]. split; [set_solver|done]. Qed.

(** The systems in which the bookkeeping of identifiers is right. *)
Definition sound (y : System) : Prop :=
  keyed (srv y) ∧ dom (AllTasks (srv y)) ⊆ issued y ∧ pool_known (issued y) (pool y) ∧
  known_job (issued y) (tracker y).

Lemma size_insert_le (id : string) (X : gset string) : (size ({[id]} ∪ X) ≤ S (size X))%nat.
Proof.
  destruct (decide (id ∈ X)).
  - replace ({[id]} ∪ X) with X by set_solver. lia.
  - rewrite size_union, size_singleton by set_solver. lia.
Qed.

Lemma sound_step y y' : sound y → leader_step y y' → sound y'.
Proof.
  intros (Hk & Hd & Hp & Hj) Hs.
  destruct (leader_step_issued y y' Hk Hd Hp Hs) as (Hk' & Hp' & Hi).
  destruct (leader_issued y y' Hs Hd) as [Hd' _].
  pose proof (leader_refines true y y' (or_introl eq_refl) Hd Hs) as Ht.
  apply (track_known true) in Ht; [|done].
  split; [done|]. split; [done|]. split; [done|]. clear Hp'.
  destruct Hi as [->|(id & -> & He)]; [done|].
  apply (known_grow (issued y)); [set_solver| |done].
  pose proof (size_insert_le id (issued y)). destruct Hj as (_ & _ & Hj). simpl in *. lia.
Qed.

Definition stuck (y : System) : Prop :=
  keyed (srv y) ∧ dom (AllTasks (srv y)) ⊆ issued y ∧ pool_known (issued y) (pool y) ∧
  overdue (issued y) (tracker y).

Lemma stuck_step y y' : stuck y → leader_step y y' → stuck y' ∧ ends y' = ends y.
Proof.
  intros (Hk & Hd & Hp & Hj) Hs.
  destruct (leader_step_issued y y' Hk Hd Hp Hs) as (Hk' & Hp' & Hi).
  destruct (leader_issued y y' Hs Hd) as [Hd' _].
  pose proof (leader_refines true y y' (or_introl eq_refl) Hd Hs) as Ht.
  apply (track_overdue true) in Ht as [Ho He]; [|done]. split; [|done].
  split; [done|]. split; [done|]. split; [done|]. clear Hp'.
  destruct Hi as [->|(id & -> & Hx)]; [done|].
  destruct Ho as (O1 & O2 & O3 & O4 & O5). split; [done|]. split; [set_solver|]. split; [|done].
  pose proof (size_insert_le id (issued y)). destruct Hj as (_ & _ & Hj & _). simpl in *. lia.
Qed.

(** ** Lemmas: scheduling *)

Lemma send_all_up net tasks r s :
  (∀ a, net a = true) →
  send_all net tasks r s =
    (set_tasks (λ m, foldl (λ m t, <[ID t := t]> m) m tasks) s,
     (λ t, Deliver (JoinHostPort (AssignedWorker t) (RainStormPort (sv_Config s)))
             (schedule_task t r)) <$> tasks).
Proof.
  intros Hnet. revert s; induction tasks as [|t tasks IH]; intros s; simpl.
  - by destruct s.
  - unfold sendScheduleTask. rewrite Hnet. rewrite IH. by destruct s.
Qed.

Lemma lookup_inserts (tasks : list Task) (m : gmap string Task) t :
  NoDup (ID <$> tasks) → t ∈ tasks → foldl (λ m t, <[ID t := t]> m) m tasks !! ID t = Some t.
Proof.
  induction tasks as [|x tasks IH] using rev_ind; [by intros _ ?%elem_of_nil|].
  rewrite fmap_app, foldl_app. intros (Hnd & Hx & _)%NoDup_app.
  intros [Ht|Ht]%elem_of_app; simpl.
  - rewrite lookup_insert_ne; [by apply IH|]. intros Heq. apply (Hx (ID t)).
    + by apply list_elem_of_fmap_2.
    + rewrite <- Heq. by left.
  - apply list_elem_of_singleton in Ht as ->. by rewrite lookup_insert_eq.
Qed.

(** A small cluster: the leader and the workers [ws] with ring identifiers 1, 2, ... *)
Definition demo_members (ws : list string) : list (Z * Info) :=
  imap (λ i w, (Z.of_nat i + 1, mkInfo w 8000 0 0 0 Alive)) ws.

Definition demo_config : Config := mkConfig 8000 8003 8001 8002 ["vm0"] ["vm0"].

Definition demo_server (ws : list string) : Server :=
  mkServer
    (mkNode 0 (mkMembership [] (<[0 := mkInfo "vm0" 8000 0 0 0 Alive]> (list_to_map (demo_members ws))) 0)
       ∅ true)
    demo_config ∅ ∅
    (mkJob "" "" "" 0 0 0 0 ∅ ∅ false ∅ None false) (mkScale false 0 0 ∅ ∅ ∅ []).

Definition demo_job (n : Z) (autoscale : bool) : JobSubmitPayload :=
  mkJobSubmitPayload "app" "in.csv" "out.txt" n ["grep"; "count"] [["x"]] false autoscale 100 5 50.

(** ** The theorems *)

(** C25: An accepted job of [k] stages with [n] tasks each becomes [n (k + 1)] tasks
    with distinct identifiers; each is sent once, to its worker, with the
    routing table, whose entry for a stage lists the addresses of the stage's
    tasks in the order of their indices; the leader then expects exactly these
    tasks and has counted none. *)
Theorem HandleSubmitJob_schedules (net : string → bool) (order : list (Z * Info)) (now : Z)
    (ts : string) (p : JobSubmitPayload) (s : Server) :
  (∀ a, net a = true) → (length (Stages p) ≤ 3)%nat → 0 <= NumTasks p →
  GetAliveWorkers s order ≠ [] →
  let workers := GetAliveWorkers s order in
  let task := job_task (sv_Config s) p ts workers in
  let tasks := al_tasks (allocate (sv_Config s) p ts workers) in
  let table := build_routing tasks in
  let '(s', es) := HandleSubmitJob net order now ts p s in
  NoDup (ID <$> tasks) ∧
  (∀ t, t ∈ tasks ↔
    ∃ st i, (st ≤ length (Stages p))%nat ∧ 0 <= i < NumTasks p ∧ t = task st i) ∧
  es = (λ t, Deliver (JoinHostPort (AssignedWorker t) (RainStormPort (sv_Config s)))
               (schedule_task t table)) <$> tasks ∧
  (∀ t, t ∈ tasks → AllTasks s' !! ID t = Some t) ∧
  (∀ st, (st ≤ length (Stages p))%nat →
    HandleGetTaskLocation (Z.of_nat st) s' = (λ i, task_addr (task st i)) <$> seqZ 0 (NumTasks p)) ∧
  ExpectedTasks (job s') = (Z.of_nat (length (Stages p)) + 1) * NumTasks p ∧
  CompletedTasks (job s') = 0 ∧ CompletedTaskIDs (job s') = ∅ ∧ JobEnded (job s') = false.
Proof.
  intros Hnet Hk Hn Hw workers task tasks table. unfold HandleSubmitJob.
  rewrite decide_False by lia.
  assert (GetAliveWorkers (set_metrics (λ _, ∅) s) order = workers) as -> by done.
  rewrite decide_False by done.
  change (sv_Config (set_metrics (λ _, ∅) s)) with (sv_Config s).
  rewrite send_all_up by done. simpl.
  assert (NoDup (ID <$> tasks)) as Hnd by by apply job_ids_NoDup.
  split; [done|]. split; [intros t; by apply elem_of_job_tasks|]. split; [done|].
  split; [intros t Ht; by apply lookup_inserts|]. split.
  { intros st Hst. unfold HandleGetTaskLocation; simpl.
    rewrite targets_build, filter_stage by done. unfold stage_list.
    by rewrite <- list_fmap_compose. }
  by rewrite length_job_tasks.
Qed.

Lemma HandleSubmitJob_schedules_witness :
  let order := demo_members ["w1"; "w2"] in
  let '(s', es) := HandleSubmitJob (λ _, true) order 0 "ts" (demo_job 2 false) (demo_server ["w1"; "w2"]) in
  length es = 6%nat ∧ ExpectedTasks (job s') = 6 ∧ CompletedTasks (job s') = 0.
Proof.
  pose proof (HandleSubmitJob_schedules (λ _, true) (demo_members ["w1"; "w2"]) 0 "ts"
    (demo_job 2 false) (demo_server ["w1"; "w2"]) (λ _, eq_refl)
    ltac:(apply Nat.leb_le; reflexivity) ltac:(done) ltac:(by vm_compute)) as H.
  cbv zeta in *. destruct (HandleSubmitJob _ _ _ _ _ _) as [s' es].
  destruct H as (_ & _ & -> & _ & _ & H1 & H2 & _). split; [by vm_compute|].
  split; [exact H1|exact H2].
Defined.

Lemma odd_job_ports (cfg : Config) (p : JobSubmitPayload) (ts : string) (workers : list string) :
  Z.odd (NumTasks p) = true → 0 <= NumTasks p →
  NoDup (t_Port <$> al_tasks (allocate cfg p ts workers)).
Proof.
  intros Hodd Hn. apply job_tasks_NoDup; [done|]. intros st1 i1 st2 i2 _ _ H1 H2.
  rewrite !job_task_Port. intros Heq.
  apply Z.odd_spec in Hodd as [m Hm].
  assert ((Z.of_nat st1 - Z.of_nat st2) * NumTasks p = 2 * (i2 - i1)) as Hd by lia.
  assert (i1 = i2) as ->; [|split; [nia|done]].
  destruct (decide (st1 = st2)) as [->|Hne]; [lia|exfalso].
  assert (∃ q, Z.of_nat st1 - Z.of_nat st2 = 2 * q) as [q Hq].
  { exists (i2 - i1 - m * (Z.of_nat st1 - Z.of_nat st2)). nia. }
  assert (q * NumTasks p = i2 - i1) as Hi by nia. assert (q ≠ 0) by lia. nia.
Qed.

(** Two consecutive stages, each of an even number of tasks. *)
Lemma even_job_ports (cfg : Config) (p : JobSubmitPayload) (ts : string) (workers : list string)
    (st : nat) (h : Z) :
  NumTasks p = 2 * h → 0 < h → (S st ≤ length (Stages p))%nat → workers ≠ [] →
  let t1 := job_task cfg p ts workers st h in
  let t2 := job_task cfg p ts workers (S st) 0 in
  t1 ∈ al_tasks (allocate cfg p ts workers) ∧ t2 ∈ al_tasks (allocate cfg p ts workers) ∧
  ID t1 ≠ ID t2 ∧ t_Port t1 = t_Port t2 ∧
  (h mod Z.of_nat (length workers) = 0 → task_addr t1 = task_addr t2).
Proof.
  intros Hn Hh Hst Hw t1 t2.
  split; [|split; [|split; [|split]]].
  - apply elem_of_job_tasks; [lia|]. exists st, h. split; [lia|]. split; [lia|done].
  - apply elem_of_job_tasks; [lia|]. exists (S st), 0. split; [lia|]. split; [lia|done].
  - intros Heq. apply job_task_ID_inj in Heq as [? _]. lia.
  - unfold t1, t2. rewrite !job_task_Port. lia.
  - intros Hmod. unfold task_addr, t1, t2. rewrite !job_task_Port, !job_task_worker. f_equal; [|lia].
    unfold pick. do 2 f_equal. rewrite Hn.
    assert (0 < Z.of_nat (length workers)) by (destruct workers; simpl; [done|lia]).
    replace (Z.of_nat (S st) * (2 * h) + 0) with ((Z.of_nat st * (2 * h) + h) + h) by lia.
    rewrite (Z.add_mod (Z.of_nat st * (2 * h) + h) h), Hmod, Z.add_0_r, Z.mod_mod by lia. done.
Qed.

(** C39: The ports of a job: with an odd number of tasks per stage all its tasks
    have different ports.  With an even number the task in the middle of a stage
    has the port of the first task of the next stage, and its host too whenever
    the number of workers divides half the number of tasks; from the first stage
    on both are processes that listen, and one of the two cannot. *)
Theorem job_ports (cfg : Config) (p : JobSubmitPayload) (ts : string) (workers : list string) :
  0 <= NumTasks p →
  (Z.Odd (NumTasks p) → NoDup (t_Port <$> al_tasks (allocate cfg p ts workers))) ∧
  (∀ st h, NumTasks p = 2 * h → 0 < h → (S st ≤ length (Stages p))%nat → workers ≠ [] →
    let t1 := job_task cfg p ts workers st h in
    let t2 := job_task cfg p ts workers (S st) 0 in
    t1 ∈ al_tasks (allocate cfg p ts workers) ∧ t2 ∈ al_tasks (allocate cfg p ts workers) ∧
    ID t1 ≠ ID t2 ∧ t_Port t1 = t_Port t2 ∧
    (h mod Z.of_nat (length workers) = 0 → task_addr t1 = task_addr t2)).
Proof.
  intros Hn. split; [|intros st h; apply even_job_ports].
  intros Ho. apply odd_job_ports; [by apply Z.odd_spec|done].
Qed.

Lemma job_ports_witness :
  NoDup (t_Port <$> al_tasks (allocate demo_config (demo_job 3 false) "ts" ["w1"; "w2"])) ∧
  let t1 := job_task demo_config (demo_job 4 false) "ts" ["w1"; "w2"] 1 2 in
  let t2 := job_task demo_config (demo_job 4 false) "ts" ["w1"; "w2"] 2 0 in
  ID t1 ≠ ID t2 ∧ task_addr t1 = task_addr t2.
Proof.
  split.
  - apply (job_ports demo_config (demo_job 3 false) "ts" ["w1"; "w2"]); [done|by exists 1].
  - destruct (job_ports demo_config (demo_job 4 false) "ts" ["w1"; "w2"] ltac:(done)) as [_ H].
    destruct (H 1%nat 2 eq_refl ltac:(done) ltac:(by apply Nat.leb_le) ltac:(done)) as (_ & _ & H1 & _ & H2).
    split; [exact H1|exact (H2 eq_refl)].
Defined.

(** C10: In every reachable state of the leader, whatever the interleaving of
    messages and goroutines, and whatever tasks of earlier jobs still report,
    [CompletedTasks] is the number of distinct tasks counted, and RUN END was
    logged once if the job has ended and not at all otherwise. *)
Theorem completion_counted_once (net : string → bool) (order : list (Z * Info)) (now : Z)
    (ts : string) (p : JobSubmitPayload) (old : gset string) (s : Server) (y : System) :
  (length (Stages p) ≤ 3)%nat → 0 <= NumTasks p → GetAliveWorkers s order ≠ [] →
  leader_reachable (submitted net order now ts p old s) y →
  CompletedTasks (job (srv y)) = Z.of_nat (size (CompletedTaskIDs (job (srv y)))) ∧
  ends y = (if JobEnded (job (srv y)) then 1 else 0)%nat.
Proof.
  intros Hk Hn Hw Hr.
  destruct (submitted_job net order now ts p old s Hk Hw Hn) as (Hc & He & _).
  pose proof (submitted_dom net order now ts p old s Hk Hw) as Hd.
  assert (dom (AllTasks (srv y)) ⊆ issued y ∧ counted (tr_job (tracker y)) ∧ ended_once (tracker y))
    as (_ & Hcy & Hey); [|split; [exact Hcy|exact Hey]].
  revert y Hr. apply reachable_invariant; [by intros ? <-|].
  intros y y' (Hdy & Hcy & Hey) Hs.
  pose proof (leader_refines true y y' (or_introl eq_refl) Hdy Hs) as Ht.
  split; [by eapply leader_issued|]. split; [by eapply track_counted|by eapply track_ended_once].
Qed.

(** The job the examples submit. *)
Definition demo_submitted (n : Z) (autoscale : bool) : System :=
  submitted (λ _, true) (demo_members ["w1"; "w2"]) 0 "ts" (demo_job n autoscale) ∅
    (demo_server ["w1"; "w2"]).

Definition completed_of (id : string) : TaskCompletedPayload :=
  mkTaskCompletedPayload id "w1" 1 "grep" "" true "".

Lemma demo_completed (n : Z) b (id : string) :
  id ∈ issued (demo_submitted n b) →
  leader_reachable (demo_submitted n b)
    (after (demo_submitted n b) (pool (demo_submitted n b))
       (let '(s', gs) := HandleTaskCompleted_begin (completed_of id) (srv (demo_submitted n b)) in
        (s', Spawn <$> gs))).
Proof.
  intros Hid. eapply reachable_step; [by apply reachable_init|]. by apply step_completed.
Qed.

Lemma completion_counted_once_witness :
  ∃ y, leader_reachable (demo_submitted 2 false) y ∧ CompletedTasks (job (srv y)) = 1 ∧
    CompletedTasks (job (srv y)) = Z.of_nat (size (CompletedTaskIDs (job (srv y)))) ∧
    ends y = (if JobEnded (job (srv y)) then 1 else 0)%nat.
Proof.
  assert ("src-task-0" ∈ issued (demo_submitted 2 false)) as Hid
    by (apply (bool_decide_unpack _); by vm_compute).
  eexists. split; [by apply (demo_completed 2 false "src-task-0")|]. split; [by vm_compute|].
  apply (completion_counted_once (λ _, true) (demo_members ["w1"; "w2"]) 0 "ts" (demo_job 2 false) ∅
    (demo_server ["w1"; "w2"])); [apply Nat.leb_le; reflexivity|done|by vm_compute|].
  by apply (demo_completed 2 false "src-task-0").
Defined.

(** C22: A job without autoscaling ends exactly when as many distinct tasks have
    reported as it has: RUN END is never logged earlier, and it has been logged
    once that many have reported and their handlers have returned.  If the
    reports can only come from its own tasks, that is when all of them have.  The
    leader does not tell tasks of earlier jobs apart: their reports count, and
    with them a job ends before its own tasks have finished. *)
Theorem job_ends_when_all_complete (net : string → bool) (order : list (Z * Info)) (now : Z)
    (ts : string) (p : JobSubmitPayload) (old : gset string) (s : Server) (y : System) :
  (length (Stages p) ≤ 3)%nat → 0 < NumTasks p → GetAliveWorkers s order ≠ [] →
  AutoScale p = false → keyed s →
  leader_reachable (submitted net order now ts p old s) y →
  let ids := job_ids order ts p s in
  let reported := CompletedTaskIDs (job (srv y)) in
  (JobEnded (job (srv y)) = true → (size ids <= size reported)%nat) ∧
  ((size ids <= size reported)%nat → omap completion_of (pool y) = [] → JobEnded (job (srv y)) = true) ∧
  reported ⊆ ids ∪ (old ∪ dom (AllTasks s)) ∧
  (old ∪ dom (AllTasks s) ⊆ ids →
   (JobEnded (job (srv y)) = true → reported = ids) ∧
   (reported = ids → omap completion_of (pool y) = [] → JobEnded (job (srv y)) = true)).
Proof.
  intros Hk Hn Hw Ha Hkey Hr ids reported.
  assert (fixed_system (Z.of_nat (size ids)) (ids ∪ (old ∪ dom (AllTasks s))) y) as (_ & _ & _ & _ & _ & Hf).
  { clear reported. revert y Hr. apply reachable_invariant; [|by apply fixed_step].
    intros y <-.
    destruct (submitted_job net order now ts p old s Hk Hw ltac:(lia)) as (Hc & He & Hx & Hi & Hj & Hsc).
    pose proof (job_ids_ne order ts p s Hk Hn) as Hne.
    split; [done|]. split; [by apply submitted_keyed|]. split; [by apply submitted_dom|].
    split; [by intros g t ?%elem_of_nil|]. split; [split; [by rewrite Hsc|by intros g ?%elem_of_nil]|].
    split; simpl in *; try done.
    - by rewrite Hi.
    - by intros c e ?%elem_of_nil.
    - by rewrite Hj.
    - unfold counted in Hc. rewrite Hc, Hi, size_empty. lia. }
  pose proof (job_ids_ne order ts p s Hk Hn) as Hne. destruct Hf as [_ H2 H3 _ H5 H6].
  assert (counted (job (srv y))) as Hcnt by done. unfold counted in H2. simpl in H2, H3, H5, H6.
  rewrite H2 in H5, H6. fold reported in H3, H5, H6.
  assert ((size ids <= size reported)%nat → omap completion_of (pool y) = [] → JobEnded (job (srv y)) = true) as Hend.
  { intros Hfull Hpool. destruct H6 as [?|(c & e & Hin & _)]; [done|lia|done|].
    rewrite Hpool in Hin. by apply elem_of_nil in Hin. }
  split; [intros He; specialize (H5 He); lia|]. split; [done|]. split; [done|].
  intros Hown. assert (reported ⊆ ids) as Hsub by set_solver.
  split; [|intros ->; by apply Hend].
  intros He. apply (counted_full ids (job (srv y))); [done|done|]. specialize (H5 He). rewrite Hcnt. exact H5.
Qed.

(** The completion of [id] arrives, and its handler goes on to its end. *)
Definition run_completed (id : string) (y : System) : System :=
  after y (pool y) (let '(s', gs) := HandleTaskCompleted_begin (completed_of id) (srv y) in (s', Spawn <$> gs)).

Definition run_end (y : System) : System :=
  match pool y with
  | GCompletedEnd c e n :: l => after y ([] ++ l) (end_job c e n (srv y))
  | _ => y
  end.

Lemma reach_completed y0 id y :
  id ∈ issued y → leader_reachable y0 y → leader_reachable y0 (run_completed id y).
Proof. intros. eapply reachable_step; [done|]. by apply step_completed. Qed.

Lemma reach_end y0 y : leader_reachable y0 y → leader_reachable y0 (run_end y).
Proof.
  intros Hy. unfold run_end. destruct (pool y) as [|[] l] eqn:E; try done.
  eapply reachable_step; [done|]. by apply (step_end y [] l).
Qed.

(** The three tasks of a job report, and RUN END follows; and the job that comes
    after one with two sources, one of which reports late: its own source has
    not finished when it ends. *)
Definition ended_run : System :=
  run_end (run_completed "stage2-task-0" (run_end (run_completed "stage1-task-0"
    (run_end (run_completed "src-task-0" (demo_submitted 1 false)))))).

Definition second_job : System :=
  submitted (λ _, true) (demo_members ["w1"; "w2"]) 0 "ts2" (demo_job 1 false) ∅ (srv (demo_submitted 2 false)).

Definition early_end_run : System :=
  run_end (run_completed "stage2-task-0" (run_end (run_completed "stage1-task-0"
    (run_end (run_completed "src-task-1" second_job))))).

Lemma demo_keyed ws : keyed (demo_server ws).
Proof. intros k t Hk. simpl in Hk. by rewrite lookup_empty in Hk. Qed.

Lemma ended_run_reachable : leader_reachable (demo_submitted 1 false) ended_run.
Proof.
  unfold ended_run. repeat first [apply reach_end|apply reach_completed; [apply (bool_decide_unpack _); by vm_compute|]].
  by apply reachable_init.
Qed.

Lemma early_end_run_reachable : leader_reachable second_job early_end_run.
Proof.
  unfold early_end_run. repeat first [apply reach_end|apply reach_completed; [apply (bool_decide_unpack _); by vm_compute|]].
  by apply reachable_init.
Qed.

Lemma job_ends_when_all_complete_witness :
  (JobEnded (job (srv ended_run)) = true ∧
   CompletedTaskIDs (job (srv ended_run)) = job_ids (demo_members ["w1"; "w2"]) "ts" (demo_job 1 false) (demo_server ["w1"; "w2"])) ∧
  (JobEnded (job (srv early_end_run)) = true ∧ "src-task-0" ∉ CompletedTaskIDs (job (srv early_end_run)) ∧
   (3 <= size (CompletedTaskIDs (job (srv early_end_run))))%nat).
Proof.
  split.
  - destruct (job_ends_when_all_complete (λ _, true) (demo_members ["w1"; "w2"]) 0 "ts" (demo_job 1 false) ∅
      (demo_server ["w1"; "w2"]) ended_run) as (_ & _ & _ & H);
      [apply Nat.leb_le; reflexivity|done|by vm_compute|done|apply demo_keyed|apply ended_run_reachable|].
    assert (JobEnded (job (srv ended_run)) = true) as He by (vm_compute; reflexivity).
    split; [exact He|]. apply H; [|exact He]. apply (bool_decide_unpack _). by vm_compute.
  - destruct (job_ends_when_all_complete (λ _, true) (demo_members ["w1"; "w2"]) 0 "ts2" (demo_job 1 false) ∅
      (srv (demo_submitted 2 false)) early_end_run) as (H & _);
      [apply Nat.leb_le; reflexivity|done|by vm_compute|done| |apply early_end_run_reachable|].
    { apply submitted_keyed; [apply Nat.leb_le; reflexivity|by vm_compute|apply demo_keyed]. }
    assert (JobEnded (job (srv early_end_run)) = true) as He by (vm_compute; reflexivity).
    split; [exact He|]. split; [apply (bool_decide_unpack _); by vm_compute|].
    specialize (H He). etransitivity; [|exact H]. apply Nat.leb_le. by vm_compute.
Defined.


(** A run that scales the second stage down and up again: both its tasks start
    and report a low rate for more than three seconds, the second one is
    removed, then the rate rises. *)
Definition run_started (id : string) (y : System) : System :=
  after y (pool y)
    (HandleTaskStarted (mkTask id 2 OpTransform "count" [] 0 "w1" TaskStateRunning 7 "" 0 0 0 "" 2 "ts"
       "" "" "" false) (srv y), []).
Definition run_metrics (id : string) (rate : Q) (y : System) : System :=
  after y (pool y) (HandleTaskMetrics (mkTaskMetrics id 100 rate 0) (srv y), []).
Definition run_check (now : Z) (y : System) : System :=
  after y (pool y)
    (checkAndScale (now * Second) scaleCooldown (map_to_list (sv_TaskMetrics (srv y))) [2] (srv y)).
Definition run_remove (y : System) : System :=
  after y (tail (pool y)) (removeTaskFromStage 2 1 (srv y)).

Definition low_rate_run : System :=
  run_check 14 (run_check 11 (run_metrics "stage2-task-1" 1 (run_metrics "stage2-task-0" 1
    (run_started "stage2-task-1" (run_started "stage2-task-0" (demo_submitted 2 true)))))).

Definition rescaled_run : System :=
  run_check 20 (run_metrics "stage2-task-1" 90 (run_metrics "stage2-task-0" 90 (run_remove low_rate_run))).

Lemma reach_check y0 now y : leader_reachable y0 y → leader_reachable y0 (run_check now y).
Proof. intros. eapply reachable_step; [done|]. apply step_check. Qed.
Lemma reach_metrics y0 id r y : leader_reachable y0 y → leader_reachable y0 (run_metrics id r y).
Proof. intros. eapply reachable_step; [done|]. apply step_metrics. Qed.
Lemma reach_started y0 id y : leader_reachable y0 y → leader_reachable y0 (run_started id y).
Proof. intros. eapply reachable_step; [done|]. apply step_started. Qed.
Lemma reach_remove y0 y :
  head (pool y) = Some (GRemoveTask 2 1) → leader_reachable y0 y → leader_reachable y0 (run_remove y).
Proof.
  intros Hp Hy. eapply reachable_step; [done|]. unfold run_remove.
  destruct (pool y) as [|g l] eqn:Hl; [done|]. injection Hp as ->.
  by apply (step_remove y [] l 2 1).
Qed.

Lemma low_rate_run_reachable : leader_reachable (demo_submitted 2 true) low_rate_run.
Proof. do 2 apply reach_check. do 2 apply reach_metrics. do 2 apply reach_started. by apply reachable_init. Qed.

Lemma rescaled_run_reachable : leader_reachable (demo_submitted 2 true) rescaled_run.
Proof.
  apply reach_check. do 2 apply reach_metrics. apply reach_remove; [by vm_compute|].
  apply low_rate_run_reachable.
Qed.

Definition added_again : System :=
  after rescaled_run (take 1 (pool rescaled_run) ++ []) (addTaskToStage (λ _, true) (demo_members ["w1"; "w2"]) 2 1 (srv rescaled_run)).


(** ** Failure and scaling decisions *)

Lemma replace_first_split old new l :
  old ∈ l → ∃ l1 l2, l = l1 ++ old :: l2 ∧ old ∉ l1 ∧ replace_first old new l = l1 ++ new :: l2.
Proof.
  induction l as [|a l IH]; [by intros ?%elem_of_nil|]. cbn [replace_first].
  destruct (decide (a = old)) as [->|Hne].
  - intros _. exists [], l. split; [done|]. split; [apply not_elem_of_nil|done].
  - intros [?|Hin]%elem_of_cons; [done|]. destruct (IH Hin) as (l1 & l2 & -> & Hl1 & ->).
    exists (a :: l1), l2. split; [done|]. split; [|done]. apply not_elem_of_cons. by split.
Qed.

(** C26: A task that fails while its job runs is restarted, when the handler runs
    without interruption, under its identifier, with its configuration and port,
    on the first alive worker; in the routing
    table the address where it ran is replaced by the new one, at the same
    place, so that tuples are partitioned as before, and no other entry
    changes; the restart message carries the new table. *)
Theorem failure_restarts_task (net : string → bool) (order : list (Z * Info)) (p : TaskFailurePayload)
    (s : Server) (task : Task) (r : routing) (w : string) (ws : list string) :
  JobEnded (job s) = false → AllTasks s !! tf_TaskID p = Some task → ID task = tf_TaskID p →
  CurrentRoutingTable (job s) = Some r → GetAliveWorkers s order = w :: ws → (∀ a, net a = true) →
  JoinHostPort (tf_VM p) (t_Port task) ∈ targets_of r (StageID task) →
  let '(s', es) := HandleTaskFailure net order p s in
  let t' := restart_task task w in
  AllTasks s' !! tf_TaskID p = Some t' ∧
  ID t' = ID task ∧ t_Port t' = t_Port task ∧ StageID t' = StageID task ∧
  (∃ r' l1 l2, CurrentRoutingTable (job s') = Some r' ∧
    targets_of r (StageID task) = l1 ++ JoinHostPort (tf_VM p) (t_Port task) :: l2 ∧
    targets_of r' (StageID task) = l1 ++ task_addr t' :: l2 ∧
    (∀ st, st ≠ StageID task → targets_of r' st = targets_of r st) ∧
    es = [Deliver (JoinHostPort w (RainStormPort (sv_Config s))) (schedule_task t' r')]) ∧
  (∀ id, id ≠ tf_TaskID p → AllTasks s' !! id = AllTasks s !! id).
Proof.
  intros He Ht Hid Hr Hw Hnet Hin. unfold HandleTaskFailure, failure_check, failure_mark. rewrite He, Ht.
  assert (mark_task (tf_TaskID p) TaskStateFailed s =
    set_tasks <[tf_TaskID p := set_task_state TaskStateFailed task]> s) as Hm
    by (unfold mark_task; by rewrite Ht).
  rewrite Hm. unfold failure_plan.
  change (CurrentRoutingTable (job (set_tasks _ s))) with (CurrentRoutingTable (job s)). rewrite Hr.
  change (GetAliveWorkers (set_tasks _ s) order) with (GetAliveWorkers s order).
  rewrite Hw. unfold failure_send, sendScheduleTask. rewrite Hnet. cbv zeta.
  cbn [AllTasks set_tasks set_job job failure_store failure_route fst table_of set_routing CurrentRoutingTable].
  rewrite Hr. cbn [fmap option_fmap option_map default].
  change (ID (restart_task task w)) with (ID task). rewrite Hid.
  split; [by rewrite lookup_insert_eq|]. do 3 (split; [done|]). split.
  - unfold targets_of in Hin. destruct (r !! StageID task) as [l|] eqn:Hl; [|by apply elem_of_nil in Hin].
    simpl in Hin. destruct (replace_first_split _ (JoinHostPort w (t_Port task)) _ Hin) as (l1 & l2 & -> & _ & Hrep).
    eexists _, l1, l2. split; [done|]. unfold reroute, targets_of, task_addr. rewrite Hl, Hrep.
    split; [done|]. split; [by rewrite lookup_insert_eq|]. split; [|done].
    intros st Hst. by rewrite lookup_insert_ne.
  - intros id Hne. by rewrite !lookup_insert_ne by done.
Qed.

Definition demo_failure : TaskFailurePayload :=
  mkTaskFailurePayload "stage1-task-0" "w1" 7 "grep" "" "killed".

Lemma failure_restarts_task_witness :
  let s := srv (demo_submitted 2 false) in
  let '(s', es) := HandleTaskFailure (λ _, true) (reverse (demo_members ["w1"; "w2"])) demo_failure s in
  ∃ t', AllTasks s' !! "stage1-task-0" = Some t' ∧ AssignedWorker t' = "w2".
Proof.
  intros s.
  pose (task := job_task demo_config (demo_job 2 false) "ts" ["w1"; "w2"] 1 0).
  pose (r := default ∅ (CurrentRoutingTable (job s))).
  assert (AllTasks s !! "stage1-task-0" = Some task) as Ht by (vm_compute; reflexivity).
  assert (CurrentRoutingTable (job s) = Some r) as Hr by (vm_compute; reflexivity).
  assert (JoinHostPort "w1" (t_Port task) ∈ targets_of r (StageID task)) as Hin
    by (apply (bool_decide_unpack _); vm_compute; exact I).
  pose proof (failure_restarts_task (λ _, true) (reverse (demo_members ["w1"; "w2"])) demo_failure s
    task r "w2" ["w1"] ltac:(vm_compute; reflexivity) Ht ltac:(vm_compute; reflexivity) Hr
    ltac:(vm_compute; reflexivity) (λ _, eq_refl) Hin) as H.
  destruct (HandleTaskFailure _ _ _ _) as [s' es].
  exists (restart_task task "w2"). split; [exact (proj1 H)|reflexivity].
Defined.

(** A report of completion counts the task whether its process succeeded or
    failed. *)
Lemma report_counts (p : TaskCompletedPayload) (s : Server) :
  let '(s', gs) := HandleTaskCompleted_begin p s in
  let completed := CompletedTasks (job s') in
  let expected := ExpectedTasks (job s) in
  tc_TaskID p ∈ CompletedTaskIDs (job s') ∧
  (tc_TaskID p ∉ CompletedTaskIDs (job s) → completed = CompletedTasks (job s) + 1) ∧
  (expected <= completed → JobEnded (job s') = false →
   ∃ n, GCompletedEnd completed expected n ∈ gs ∧
     end_job completed expected n s' = (set_job (set_ended (job s')) s', [RunEnd n])).
Proof.
  unfold HandleTaskCompleted_begin, count_completion.
  destruct (mark_task_job (tc_TaskID p) (completion_state (Success p)) s) as [-> _].
  cbv zeta. set (b := _ && _).
  change (if b then set_original_done (count_task (tc_TaskID p) (job s))
          else count_task (tc_TaskID p) (job s))
    with (mark_original b (count_task (tc_TaskID p) (job s))).
  destruct (mark_original_same b (count_task (tc_TaskID p) (job s))) as (E1 & E2 & E3 & E4).
  cbn [job set_job]. rewrite E2, E3, count_task_completed. split; [set_solver|]. split.
  - intros Hn. unfold count_task. by rewrite decide_False.
  - intros Hle Hend. eexists. split; [apply elem_of_app; right; rewrite count_task_expected; by left|].
    unfold end_job. cbn [job set_job]. by rewrite (proj2 (Z.leb_le _ _) Hle), Hend.
Qed.

Lemma HandleTaskFailure_counted net order p s :
  CompletedTaskIDs (job (HandleTaskFailure net order p s).1) = CompletedTaskIDs (job s).
Proof.
  destruct (mark_task_job (tf_TaskID p) TaskStateFailed s) as [Hj _].
  unfold HandleTaskFailure, failure_check, failure_mark. destruct (JobEnded (job s)); [done|].
  destruct (AllTasks s !! tf_TaskID p) as [task|]; [|done]. unfold failure_plan.
  destruct (CurrentRoutingTable _) as [r|]; [|by rewrite <- Hj].
  destruct (GetAliveWorkers _ order) as [|nw ws]; [by rewrite <- Hj|].
  unfold failure_send, sendScheduleTask.
  destruct (net _); cbn [fst job set_tasks set_job set_routing CompletedTaskIDs failure_store failure_route]; by rewrite Hj.
Qed.

(** A scaling action for the stage [st] is justified: its tasks processed at
    least 50 tuples, it is not a source or first stage, and it is not cooling
    down. *)
Definition may_scale (now cooldown : Z) (stats : gmap Z StageStats) (s : Server) (st : Z)
    (x : StageStats) : Prop :=
  stats !! st = Some x ∧ 1 < st ∧ 50 <= stageTuples x ∧
  (∀ t, LastScaleTime (scale s) !! st = Some t → cooldown <= time_sub now t).

Inductive scale_decision (now cooldown lw hw : Z) (stats : gmap Z StageStats) (s : Server) :
    list Effect → Server → Prop :=
  | decide_nothing s' :
      StageTaskCount (scale s') = StageTaskCount (scale s) →
      LastScaleTime (scale s') = LastScaleTime (scale s) →
      scale_decision now cooldown lw hw stats s [] s'
  | decide_up st x s' :
      may_scale now cooldown stats s st x → Qltb (inject_Z hw) (avg_rate x) = true →
      StageTaskCount (scale s') = <[st := count_of (StageTaskCount (scale s)) st + 1]> (StageTaskCount (scale s)) →
      LastScaleTime (scale s') = <[st := now]> (LastScaleTime (scale s)) →
      scale_decision now cooldown lw hw stats s
        [Spawn (GAddTask st (count_of (StageTaskCount (scale s)) st))] s'
  | decide_down st x s' t :
      may_scale now cooldown stats s st x → Qltb (avg_rate x) (inject_Z lw) = true →
      1 < count_of (StageTaskCount (scale s)) st →
      LowRateStart (scale s) !! st = Some t → 3 * Second <= time_sub now t →
      StageTaskCount (scale s') = <[st := count_of (StageTaskCount (scale s)) st - 1]> (StageTaskCount (scale s)) →
      LastScaleTime (scale s') = <[st := now]> (LastScaleTime (scale s)) →
      scale_decision now cooldown lw hw stats s
        [Spawn (GRemoveTask st (count_of (StageTaskCount (scale s)) st - 1))] s'.

(** [s1] differs from [s] in the low-rate clocks of other stages only. *)
Definition same_scale (stages : list Z) (s s1 : Server) : Prop :=
  StageTaskCount (scale s1) = StageTaskCount (scale s) ∧
  LastScaleTime (scale s1) = LastScaleTime (scale s) ∧
  (∀ st, st ∈ stages → LowRateStart (scale s1) !! st = LowRateStart (scale s) !! st).

Definition counts_positive (s : Server) : Prop :=
  ∀ st, 0 <= count_of (StageTaskCount (scale s)) st.

Lemma check_stages_decision now cooldown lw hw stats stages s s1 :
  counts_positive s → NoDup stages → same_scale stages s s1 →
  let '(s', es) := check_stages now cooldown lw hw stats stages s1 in
  scale_decision now cooldown lw hw stats s es s'.
Proof.
  intros Hpos. revert s1; induction stages as [|st stages IH]; intros s1 Hnd (H1 & H2 & H3).
  { by apply decide_nothing. }
  apply NoDup_cons in Hnd as [Hst Hnd]. cbn [check_stages].
  assert (∀ s2, StageTaskCount (scale s2) = StageTaskCount (scale s1) →
    LastScaleTime (scale s2) = LastScaleTime (scale s1) →
    (∀ st', st' ≠ st → LowRateStart (scale s2) !! st' = LowRateStart (scale s1) !! st') →
    let '(s', es) := check_stages now cooldown lw hw stats stages s2 in
    scale_decision now cooldown lw hw stats s es s') as Hnext.
  { intros s2 E1 E2 E3. apply IH; [done|]. split; [congruence|]. split; [congruence|].
    intros st' Hin. rewrite E3; [apply H3; by right|]. by intros ->. }
  destruct (stats !! st) as [x|] eqn:Hx; [|by apply Hnext].
  destruct ((taskCount x =? 0) || _) eqn:Hb; [by apply Hnext|]. apply orb_false_iff in Hb as [_ Hb].
  cbv zeta. rewrite H1, H2.
  destruct (match LastScaleTime (scale s) !! st with Some t => _ | None => _ end) eqn:Hcool;
    [by apply Hnext|].
  assert (1 < st → may_scale now cooldown stats s st x) as Hmay.
  { intros Hlt. split; [done|]. split; [done|]. split; [lia|]. intros t Ht. rewrite Ht in Hcool.
    by apply Z.ltb_ge in Hcool. }
  destruct (Qltb (inject_Z hw) (avg_rate x) && (1 <? st)) eqn:Hup.
  { apply andb_true_iff in Hup as [Hup Hlt]. unfold scaleStage. cbv zeta. rewrite H1.
    specialize (Hpos st). rewrite (proj2 (Z.ltb_ge _ _)) by lia.
    rewrite Z.add_simpl_r. eapply decide_up; [apply Hmay; lia|done|done|]. simpl. by rewrite H2. }
  destruct (_ && _ && _ && _) eqn:Hdown; [|apply Hnext; try done; intros; simpl; by rewrite lookup_delete_ne].
  rewrite !andb_true_iff, !Z.ltb_lt in Hdown. destruct Hdown as [[[Hlow Hcur] _] Hlt].
  rewrite (H3 st) by by left.
  destruct (LowRateStart (scale s) !! st) as [t|] eqn:Hl;
    [|apply Hnext; try done; intros; simpl; by rewrite lookup_insert_ne].
  destruct (3 * Second <=? time_sub now t) eqn:Hsus; [|by apply Hnext].
  unfold scaleStage. cbv zeta. cbn [scale set_scale set_low_rate StageTaskCount]. rewrite H1.
  rewrite (proj2 (Z.ltb_ge _ _)) by lia.
  eapply decide_down; [apply Hmay; lia|done|done|exact Hl|lia|done|]. simpl. by rewrite H2.
Qed.

(** C29: One check of the autoscaler takes at most one action, after the warm-up
    only: it adds a task to a stage whose average rate exceeds the high
    watermark, or removes the last task of a stage with more than one task
    whose rate has been below the low watermark for three seconds; never on
    the source or the first stage, never on a stage scaled less than the
    cooldown ago.  No stage is left without a task. *)
Theorem checkAndScale_decides (now cooldown : Z) (metrics : list (string * TaskMetrics))
    (stages : list Z) (s : Server) :
  counts_positive s → NoDup stages →
  let '(s', es) := checkAndScale now cooldown metrics stages s in
  scale_decision now cooldown (LowWatermark (scale s)) (HighWatermark (scale s))
    (stage_stats metrics s) s es s' ∧
  (es ≠ [] → AutoScaleEnabled (scale s) = true ∧
             10 * Second <= time_sub now (JobStartTime (job s))) ∧
  (∀ st, 1 <= count_of (StageTaskCount (scale s)) st → 1 <= count_of (StageTaskCount (scale s')) st).
Proof.
  intros Hpos Hnd.
  assert (∀ es s', scale_decision now cooldown (LowWatermark (scale s)) (HighWatermark (scale s))
    (stage_stats metrics s) s es s' →
    ∀ st, 1 <= count_of (StageTaskCount (scale s)) st → 1 <= count_of (StageTaskCount (scale s')) st) as Hone.
  { intros es s' Hd st. unfold count_of in *.
    destruct Hd as [s' -> _|st' x s' _ _ -> _|st' x s' t _ _ Hc _ _ -> _]; [done| |];
      unfold count_of in *; (destruct (decide (st' = st)) as [->|]; [rewrite lookup_insert_eq; simpl; lia|by rewrite lookup_insert_ne]). }
  unfold checkAndScale. destruct (AutoScaleEnabled (scale s)) eqn:He; simpl.
  2:{ split; [by apply decide_nothing|done]. }
  destruct (time_sub now (JobStartTime (job s)) <? 10 * Second) eqn:Hw.
  { split; [by apply decide_nothing|done]. }
  pose proof (check_stages_decision now cooldown (LowWatermark (scale s)) (HighWatermark (scale s))
    (stage_stats metrics s) stages s s Hpos Hnd ltac:(by repeat split)) as Hd.
  destruct (check_stages _ _ _ _ _ _ s) as [s' es]. split; [done|]. split; [|by eapply Hone].
  intros _. split; [done|lia].
Qed.

Lemma checkAndScale_decides_witness :
  let s := srv (run_check 11 (run_metrics "stage2-task-1" 1 (run_metrics "stage2-task-0" 1
    (run_started "stage2-task-1" (run_started "stage2-task-0" (demo_submitted 2 true)))))) in
  let '(s', es) := checkAndScale (14 * Second) scaleCooldown (map_to_list (sv_TaskMetrics s)) [2] s in
  ∀ st, 1 <= count_of (StageTaskCount (scale s)) st → 1 <= count_of (StageTaskCount (scale s')) st.
Proof.
  intros s. pose proof (checkAndScale_decides (14 * Second) scaleCooldown
    (map_to_list (sv_TaskMetrics s)) [2] s) as H.
  destruct (checkAndScale _ _ _ _ _) as [s' es]. apply H; [|apply NoDup_singleton].
  intros st. assert (map_Forall (λ _ n, 0 <= n) (StageTaskCount (scale s))) as Hall
    by (apply (bool_decide_unpack _); vm_compute; exact I).
  unfold count_of. destruct (StageTaskCount (scale s) !! st) as [n|] eqn:Hn; [|simpl; lia].
  simpl. exact (Hall st n Hn).
Defined.
