(* ===== verification/Operators.v ===== *)
(** * Operators: the user operations of ops/

    An operation consumes a tuple and emits tuples; [Process] returns the new
    state of the operation and the tuples it emits, in order.  The compiled
    regular expression of [grep] is a parameter.  The wrapper of [count], which
    creates the operation at the first call and takes no lock, is a program of
    several steps ([call_step]). *)

From S2P Require Import Prelude GoStrings Env Membership Common RainStorm.

Record Operation := mkOperation {
  op_state : Type;
  op_init : op_state;
  Process : op_state → Tuple → op_state * list Tuple;
}.

(** ** ops/identity, ops/echo *)

Definition IdentityOp : Operation := mkOperation unit tt (λ s t, (s, [t])).

Definition EchoOp : Operation :=
  mkOperation unit tt (λ s t,
    (s, [mkTuple "" (Key t) (VString (show_value (Value_ t) +:+ " processed")) (tu_ID t) false])).

(** ** ops/transform *)

Definition quote : ascii := Ascii.ascii_of_nat 34.
Definition comma : ascii := ","%char.

(** The loop of [extractFirst3Fields]: what is left of the line, up to the
    third comma outside quotes. *)
Fixpoint extract_fields (fieldCount : nat) (inQuotes : bool) (line : string) : string :=
  match line with
  | EmptyString => EmptyString
  | String c rest =>
      if decide (c = quote) then String c (extract_fields fieldCount (negb inQuotes) rest)
      else if decide (c = comma) then
             if inQuotes then String c (extract_fields fieldCount inQuotes rest)
             else if decide (fieldCount + 1 = 3)%nat then EmptyString
                  else String c (extract_fields (fieldCount + 1) inQuotes rest)
           else String c (extract_fields fieldCount inQuotes rest)
  end.

Definition extractFirst3Fields (line : string) : string := extract_fields 0 false line.

Definition TransformOp : Operation :=
  mkOperation unit tt (λ s t,
    if IsEOF t then (s, [t])
    else (s, [mkTuple "" (Key t) (VString (extractFirst3Fields (show_value (Value_ t)))) (tu_ID t) false])).

(** ** ops/grep *)

(** The loop of [parseCSVLine]: [current] is the field being read. *)
Fixpoint parse_fields (current : string) (inQuotes : bool) (line : string) : list string :=
  match line with
  | EmptyString => [current]
  | String c rest =>
      if decide (c = quote) then parse_fields current (negb inQuotes) rest
      else if decide (c = comma) then
             if inQuotes then parse_fields (current +:+ String c "") inQuotes rest
             else current :: parse_fields "" inQuotes rest
           else parse_fields (current +:+ String c "") inQuotes rest
  end.

Definition parseCSVLine (line : string) : list string := parse_fields "" false line.

Definition set_key (k : string) (t : Tuple) : Tuple :=
  mkTuple (Type_ t) k (Value_ t) (tu_ID t) (IsEOF t).

Definition column_key (columnNum : Z) (line : string) : string :=
  let fields := parseCSVLine line in
  if columnNum <=? Z.of_nat (length fields) then nth (Z.to_nat (columnNum - 1)) fields "" else "".

(** The state is [matchCount], [filterCount] and [eofForwarded]. *)
Definition grep_process (matches : string → bool) (columnNum : Z) (s : Z * Z * bool) (t : Tuple) :
    (Z * Z * bool) * list Tuple :=
  let '(matchCount, filterCount, eofForwarded) := s in
  if IsEOF t then ((matchCount, filterCount, true), [t])
  else
    let valStr := show_value (Value_ t) in
    if matches valStr then
      ((matchCount + 1, filterCount, eofForwarded),
       [if 0 <? columnNum then set_key (column_key columnNum valStr) t else t])
    else ((matchCount, filterCount + 1, eofForwarded), []).

Definition GrepOp (matches : string → bool) (columnNum : Z) : Operation :=
  mkOperation (Z * Z * bool) (0, 0, false) (grep_process matches columnNum).

(** The initialisation of [GrepOpWrapper] on the first tuple: the flags
    [--pattern] and [--column], or the positional arguments.  [compile] is
    [regexp.Compile] followed by [MatchString]; [None] where the process
    exits. *)
Definition grep_wrapper (compile : string → option (string → bool)) (patternFlag : string)
    (columnFlag : Z) (args : list string) : option Operation :=
  let patternStr := if decide (patternFlag = "") then default "" (args !! 0%nat) else patternFlag in
  if decide (patternStr = "") then None
  else
    match compile patternStr with
    | None => None
    | Some matches =>
        let columnNum :=
          if decide (columnFlag = 0) then
            match args !! 1%nat with Some a => sscanf_d a columnFlag | None => columnFlag end
          else columnFlag in
        Some (GrepOp matches columnNum)
    end.

(** ** ops/count *)

Record CountState := mkCountState { counts : gmap string Z; flushed : bool }.

Definition count_tuple (word : string) (count : Z) : Tuple :=
  mkTuple "" word (VString (word +:+ "," +:+ itoa count)) ("count-" +:+ word) false.

(** [FlushCounts]: the order of the map is [map_to_list]'s. *)
Definition FlushCounts (m : gmap string Z) : list Tuple :=
  (λ p, count_tuple p.1 p.2) <$> map_to_list m.

Definition count_process (s : CountState) (t : Tuple) : CountState * list Tuple :=
  if IsEOF t then
    (mkCountState (counts s) true, (if flushed s then [] else FlushCounts (counts s)) ++ [t])
  else (mkCountState (<[Key t := default 0 (counts s !! Key t) + 1]> (counts s)) (flushed s), []).

(** The counter once it has been created. *)
Definition CountOp : Operation := mkOperation CountState (mkCountState ∅ false) count_process.

(** [CountOpWrapper.Process]: the operation is created by the first call, without
    a lock, so calls are divided into the reads and writes of the wrapper.  The
    objects created are in [cw_heap]. *)
Record CountWrapper := mkCountWrapper {
  cw_heap : list CountState;
  actualOp : option nat;
  initialized : bool;
}.

Inductive Call :=
  | CallBegin (t : Tuple)
  | CallCreate (t : Tuple)
  | CallMark (t : Tuple)
  | CallLoad (t : Tuple)
  | CallProcess (t : Tuple) (o : nat)
  | CallDone (out : list Tuple).

(** [None]: [w.actualOp] is nil, and [Process] dereferences it. *)
Definition call_step (c : Call) (w : CountWrapper) : option (Call * CountWrapper) :=
  match c with
  | CallBegin t => Some (if initialized w then CallLoad t else CallCreate t, w)
  | CallCreate t =>
      Some (CallMark t, mkCountWrapper (cw_heap w ++ [mkCountState ∅ false]) (Some (length (cw_heap w))) (initialized w))
  | CallMark t => Some (CallLoad t, mkCountWrapper (cw_heap w) (actualOp w) true)
  | CallLoad t => o ← actualOp w; Some (CallProcess t o, w)
  | CallProcess t o =>
      s ← cw_heap w !! o;
      let '(s', out) := count_process s t in
      Some (CallDone out, mkCountWrapper (<[o := s']> (cw_heap w)) (actualOp w) (initialized w))
  | CallDone out => Some (c, w)
  end.

(** Calls in progress, by number; a schedule says which one goes on. *)
Fixpoint run_calls (schedule : list nat) (cs : list Call) (w : CountWrapper) : option (list Call * CountWrapper) :=
  match schedule with
  | [] => Some (cs, w)
  | i :: rest =>
      c ← cs !! i;
      '(c', w') ← call_step c w;
      run_calls rest (<[i := c']> cs) w'
  end.

(** ** ops/output *)

(** The state is the buffer and the lines of the file, if it was written. *)
Definition output_process (s : list string * option (list string)) (t : Tuple) :
    (list string * option (list string)) * list Tuple :=
  let '(buffer, file) := s in
  if IsEOF t then ((buffer, if decide (buffer = []) then file else Some buffer), [])
  else ((buffer ++ [show_value (Value_ t)], file), []).

Definition OutputOp : Operation := mkOperation (list string * option (list string)) ([], None) output_process.

(** ** Running an operation *)

Definition run_op (op : Operation) (s : op_state op) (l : list Tuple) : op_state op * list Tuple :=
  foldl (λ '(s, out) t, let '(s', es) := Process op s t in (s', out ++ es)) (s, []) l.

(** ** Lemmas *)

Lemma run_op_snoc op s l t :
  run_op op s (l ++ [t]) =
    (let '(s', out) := run_op op s l in let '(s'', es) := Process op s' t in (s'', out ++ es)).
Proof. unfold run_op. rewrite foldl_app. simpl. by destruct (foldl _ _ l). Qed.

(** *** CSV *)

(** A field boundary count: the fields the parser still returns. *)
Lemma parse_extract n cur q line :
  (n < 3)%nat →
  parse_fields cur q (extract_fields n q line) = take (3 - n) (parse_fields cur q line).
Proof.
  revert n cur q; induction line as [|c line IH]; intros n cur q Hn; cbn [extract_fields parse_fields].
  - destruct (3 - n)%nat eqn:E; [lia|]. simpl. by rewrite take_nil.
  - destruct (decide (c = quote)) as [->|Hq].
    { cbn [parse_fields]. rewrite decide_True by done. by apply IH. }
    destruct (decide (c = comma)) as [->|Hc].
    + destruct q.
      { cbn [parse_fields]. rewrite decide_False, decide_True by done. by apply IH. }
      destruct (decide (n + 1 = 3)%nat) as [Hn3|Hn3].
      * replace (3 - n)%nat with 1%nat by lia. done.
      * cbn [parse_fields]. rewrite decide_False, decide_True by done. rewrite IH by lia.
        by replace (3 - n)%nat with (S (3 - (n + 1))) by lia.
    + cbn [parse_fields]. rewrite !decide_False by done. by apply IH.
Qed.

Definition plain_field (s : string) : bool := string_forallb (not_char quote) s.

(** A field in quotes. *)
Definition quoted (s : string) : string := String quote (s +:+ String quote "").

Lemma parse_quoted cur f rest :
  plain_field f = true →
  parse_fields cur true (f +:+ String quote rest) = parse_fields (cur +:+ f) false rest.
Proof.
  unfold plain_field. revert cur; induction f as [|c f IH]; intros cur; cbn [String.append string_forallb].
  - intros _. cbn [parse_fields]. rewrite decide_True by done. by rewrite app_empty_r.
  - unfold not_char at 1. rewrite andb_true_iff, bool_decide_eq_true. intros [Hc Hf].
    cbn [parse_fields]. rewrite decide_False by done.
    rewrite (IH (cur +:+ String c "")) by done. rewrite app_assoc_str.
    by destruct (decide (c = comma)).
Qed.

(** The fields of a line of quoted fields are the fields. *)
Lemma parse_quoted_line fs cur :
  fs ≠ [] → Forall (λ f, plain_field f = true) fs →
  parse_fields cur false (join "," (quoted <$> fs)) =
    match fs with [] => [cur] | f :: fs' => (cur +:+ f) :: fs' end.
Proof.
  revert cur; induction fs as [|f fs IH]; intros cur Hne Hfs; [done|].
  apply Forall_cons in Hfs as [Hf Hfs]. rewrite fmap_cons.
  destruct fs as [|f' fs'].
  - unfold quoted. cbn [join fmap list_fmap parse_fields]. rewrite decide_True by done. cbn [negb].
    by rewrite parse_quoted.
  - rewrite join_cons by done. unfold quoted at 1.
    change (String quote (f +:+ String quote "") +:+ "," +:+ join "," (quoted <$> f' :: fs'))
      with (String quote ((f +:+ String quote "") +:+ String comma (join "," (quoted <$> f' :: fs')))).
    rewrite app_assoc_str. cbn [parse_fields]. rewrite decide_True by done. cbn [negb].
    cbn [String.append]. rewrite parse_quoted by done. cbn [parse_fields].
    rewrite decide_False, decide_True by done. f_equal. by rewrite (IH "").
Qed.

(** *** Counting *)

Definition data_tuple (t : Tuple) : Prop := IsEOF t = false.

Lemma count_run m fl l :
  Forall data_tuple l →
  run_op CountOp (mkCountState m fl) l =
    (mkCountState (foldl (λ m t, <[Key t := default 0 (m !! Key t) + 1]> m) m l) fl, []).
Proof.
  induction l as [|t l IH] using rev_ind; intros Hl; [done|].
  apply Forall_app in Hl as [Hl Ht]. rewrite Forall_singleton in Ht.
  rewrite run_op_snoc, IH, foldl_app by done. simpl.
  unfold count_process. unfold data_tuple in Ht.
  by rewrite Ht.
Qed.

Definition occurrences (k : string) (l : list Tuple) : Z :=
  Z.of_nat (length (filter (λ t, Key t = k) l)).

Lemma lookup_counts l k :
  foldl (λ m t, <[Key t := default 0 (m !! Key t) + 1]> m) (∅ : gmap string Z) l !! k =
    if decide (occurrences k l = 0) then None else Some (occurrences k l).
Proof.
  unfold occurrences. induction l as [|t l IH] using rev_ind.
  { simpl. by rewrite lookup_empty. }
  rewrite foldl_app, filter_app, length_app, filter_cons, filter_nil. cbn [foldl].
  destruct (decide (Key t = k)) as [->|Hne].
  - rewrite lookup_insert_eq, IH. simpl.
    rewrite (decide_False (P := Z.of_nat (_ + 1) = 0)) by lia. f_equal.
    case_decide; simpl; lia.
  - rewrite lookup_insert_ne by done. simpl. rewrite Nat.add_0_r. exact IH.
Qed.

(** *** The creation of the counter *)

(** The operation the wrapper stands for. *)
Definition wraps (w : CountWrapper) (s : CountState) : Prop :=
  if initialized w then ∃ o, actualOp w = Some o ∧ cw_heap w !! o = Some s
  else s = mkCountState ∅ false.

Definition new_wrapper : CountWrapper := mkCountWrapper [] None false.

(** ** The theorems *)

(** A call that no other call interrupts is a step of [CountOp]: the wrapper
    behaves as the operation it creates. *)
Theorem wrapper_call (t : Tuple) (w : CountWrapper) (s : CountState) :
  wraps w s → ∃ n w', run_calls (replicate n 0%nat) [CallBegin t] w =
      Some ([CallDone (Process CountOp s t).2], w') ∧ wraps w' (Process CountOp s t).1.
Proof.
  destruct w as [h a i]. unfold wraps. simpl. destruct i.
  - intros (o & -> & Ho). exists 3%nat. simpl. rewrite Ho. simpl. destruct (count_process s t) as [s' out].
    eexists. split; [done|]. exists o. split; [done|]. simpl. apply list_lookup_insert_eq. by eapply lookup_lt_Some.
  - intros ->. exists 5%nat. simpl. rewrite list_lookup_middle by done. simpl.
    destruct (count_process (mkCountState ∅ false) t) as [s' out].
    eexists. split; [done|]. exists (length h). split; [done|]. simpl. apply list_lookup_insert_eq.
    rewrite length_app. simpl. lia.
Qed.

Lemma wrapper_call_witness (t : Tuple) :
  wraps new_wrapper (mkCountState ∅ false) ∧ ∃ n w', run_calls (replicate n 0%nat) [CallBegin t] new_wrapper =
    Some ([CallDone (Process CountOp (mkCountState ∅ false) t).2], w') ∧
    wraps w' (Process CountOp (mkCountState ∅ false) t).1.
Proof. split; [done|]. by apply wrapper_call. Defined.

(** The counter is created without a lock.  When the first tuples of two
    connections are processed at the same time, both calls can find it missing:
    the second replaces the counter in which the first has counted its tuple,
    and the count of that tuple is lost. *)
Theorem first_calls_lose_a_count (t1 t2 : Tuple) :
  IsEOF t1 = false → IsEOF t2 = false →
  ∃ schedule w, run_calls schedule [CallBegin t1; CallBegin t2] new_wrapper = Some ([CallDone []; CallDone []], w) ∧
    wraps w (run_op CountOp (op_init CountOp) [t2]).1 ∧
    counts (run_op CountOp (op_init CountOp) [t2]).1 = {[Key t2 := 1]}.
Proof.
  intros H1 H2. exists [0; 1; 0; 0; 0; 0; 1; 1; 1; 1]%nat. eexists. split.
  - simpl. unfold count_process. rewrite H1. simpl. by rewrite H2.
  - unfold run_op. simpl. unfold count_process. rewrite H2. split; [|done]. by exists 1%nat.
Qed.

Lemma first_calls_lose_a_count_witness :
  ∃ schedule w, run_calls schedule
      [CallBegin (mkTuple "tuple" "a" VNil "1" false); CallBegin (mkTuple "tuple" "a" VNil "2" false)] new_wrapper =
      Some ([CallDone []; CallDone []], w) ∧
    wraps w (run_op CountOp (op_init CountOp) [mkTuple "tuple" "a" VNil "2" false]).1 ∧
    counts (run_op CountOp (op_init CountOp) [mkTuple "tuple" "a" VNil "2" false]).1 = {["a" := 1]}.
Proof. by apply first_calls_lose_a_count. Defined.

(** Counting: after any data tuples the first end-of-stream marker makes
    [CountOp] emit, for every key that occurred, one tuple with the number of
    its occurrences, and nothing else, followed by the marker; further markers
    only pass through. *)
Theorem CountOp_counts (l : list Tuple) (eof eof' : Tuple) :
  Forall data_tuple l → IsEOF eof = true → IsEOF eof' = true →
  ∃ out, (run_op CountOp (op_init CountOp) (l ++ [eof; eof'])).2 = out ++ [eof; eof'] ∧
    NoDup out ∧
    ∀ t, t ∈ out ↔ ∃ k, 0 < occurrences k l ∧ t = count_tuple k (occurrences k l).
Proof.
  intros Hl He He'. set (m := foldl (λ m t, <[Key t := default 0 (m !! Key t) + 1]> m) (∅ : gmap string Z) l).
  exists (FlushCounts m).
  change (l ++ [eof; eof']) with (l ++ [eof] ++ [eof']). rewrite app_assoc, !run_op_snoc.
  cbn [op_init CountOp]. rewrite count_run by done. simpl. unfold count_process. rewrite He, He'. simpl.
  split; [by rewrite <- app_assoc|]. split.
  - unfold FlushCounts. apply NoDup_fmap_2_strong; [|apply NoDup_map_to_list].
    intros [k1 n1] [k2 n2] H1%elem_of_map_to_list H2%elem_of_map_to_list. unfold count_tuple. simpl.
    intros [= -> _]. congruence.
  - intros t. unfold FlushCounts. rewrite list_elem_of_fmap. split.
    + intros ([k n] & -> & Hk%elem_of_map_to_list). exists k. unfold m in Hk. rewrite lookup_counts in Hk.
      destruct (decide (occurrences k l = 0)); [done|]. injection Hk as <-. split; [|done].
      unfold occurrences in *. lia.
    + intros (k & Hk & ->). exists (k, occurrences k l). split; [done|]. apply elem_of_map_to_list.
      unfold m. rewrite lookup_counts. by rewrite decide_False by lia.
Qed.

Definition data (id k v : string) : Tuple := mkTuple "tuple" k (VString v) id false.
Definition eof (id : string) : Tuple := mkTuple "tuple" "EOF" (VString "end-of-stream") id true.

Lemma CountOp_counts_witness :
  let l := [data "1" "a" "x"; data "2" "b" "x"; data "3" "a" "y"] in
  ∃ out, (run_op CountOp (op_init CountOp) (l ++ [eof "e1"; eof "e2"])).2 = out ++ [eof "e1"; eof "e2"] ∧
    NoDup out ∧ ∀ t, t ∈ out ↔ ∃ k, 0 < occurrences k l ∧ t = count_tuple k (occurrences k l).
Proof. apply CountOp_counts; [by repeat constructor|done|done]. Defined.

(** C37: [transform] cuts a line after its first three CSV fields: parsing what it
    returns gives the first three fields of the line, quotes respected. *)
Theorem extractFirst3Fields_fields (line : string) :
  parseCSVLine (extractFirst3Fields line) = take 3 (parseCSVLine line).
Proof. apply (parse_extract 0). lia. Qed.

(** C37: [grep] with a column keys a matching line by that field: on a line of
    quoted fields, which may contain commas, it is exactly the field of the
    column (empty beyond the last), so equal fields meet at the same task. *)
Theorem grep_keys_by_column (matches : string → bool) (fs : list string) (col : nat) (id k ty : string)
    (s : Z * Z * bool) :
  fs ≠ [] → Forall (λ f, plain_field f = true) fs → (0 < col)%nat →
  let line := join "," (quoted <$> fs) in
  (grep_process matches (Z.of_nat col) s (mkTuple ty k (VString line) id false)).2 =
    if matches line then [mkTuple ty (default "" (fs !! (col - 1)%nat)) (VString line) id false] else [].
Proof.
  intros Hne Hfs Hcol line. destruct s as [[mc fc] ef]. unfold grep_process. cbn [IsEOF Value_ show_value].
  destruct (matches line); [|done]. rewrite (proj2 (Z.ltb_lt _ _)) by lia. cbn [snd].
  unfold set_key. do 2 f_equal. unfold column_key, parseCSVLine, line.
  rewrite parse_quoted_line by done. destruct fs as [|f fs']; [done|].
  change ("" +:+ f) with f. rewrite nth_lookup.
  destruct (Z.leb_spec (Z.of_nat col) (Z.of_nat (length (f :: fs')))) as [Hle|Hgt].
  - by replace (Z.to_nat (Z.of_nat col - 1)) with (col - 1)%nat by lia.
  - by rewrite lookup_ge_None_2 by lia.
Qed.

Lemma grep_keys_by_column_witness :
  (grep_process (λ _, true) 2 (0, 0, false)
    (mkTuple "tuple" "f:1" (VString (join "," (quoted <$> ["a,b"; "c"]))) "id" false)).2 =
  [mkTuple "tuple" "c" (VString (join "," (quoted <$> ["a,b"; "c"]))) "id" false].
Proof.
  exact (grep_keys_by_column (λ _, true) ["a,b"; "c"] 2 "id" "f:1" "tuple" (0, 0, false)
    ltac:(done) ltac:(by repeat constructor) ltac:(lia)).
Defined.

(** The marker of the end of the stream is lost in [echo], which turns it
    into a data tuple, and in [output], which emits nothing: a stage that runs
    one of them, and every stage after it, waits for the end forever. *)
Theorem eof_lost (op : Operation) (s : op_state op) (t : Tuple) :
  op = EchoOp ∨ op = OutputOp → ∀ t', t' ∈ (Process op s t).2 → IsEOF t' = false.
Proof.
  intros [-> | ->] t'.
  - simpl. by intros ->%list_elem_of_singleton.
  - destruct s as [buffer file]. simpl. unfold output_process. destruct (IsEOF t); by intros ?%elem_of_nil.
Qed.

Lemma eof_lost_witness :
  ∃ t', (Process EchoOp tt (eof "e")).2 = [t'] ∧ IsEOF t' = false.
Proof.
  eexists. split; [reflexivity|].
  apply (eof_lost EchoOp tt (eof "e")); [left; reflexivity|]. by apply list_elem_of_singleton.
Defined.
