(* ===== verification/Runtime.v ===== *)
(** * Runtime: pkg/rainstorm/api.go, the process of an operator task

    [StartOperation] runs an operation between a listener and the tasks of the
    next stage.  A function here is one piece of it: the start, the reception
    of one tuple, the emission of one tuple, the end-of-stream timeout, the
    batches of [hydfsAppendWorker].  [receive] is the turn of one connection that
    no other interrupts; [Connections] divides it into its steps and interleaves
    them.  [None] is a crash of the process (an index out of range or a failed
    type assertion) or its exit at the start.  The network is an argument: which
    targets accept a connection, what each attempt to send a tuple gets back,
    whether the port and the output file can be opened. *)

From S2P Require Import Prelude GoStrings GoFlags Env Membership Common RainStorm Operators.

(** ** Partitioning *)

(** One step of the hash: [int(c) + (hash << 6) + (hash << 16) - hash]. *)
Definition hash_step (hash c : Z) : Z :=
  wrap64 (wrap64 (wrap64 (c + wrap64 (Z.shiftl hash 6)) + wrap64 (Z.shiftl hash 16)) - hash).

(** The loop over the runes and the change of sign; [hashString] of worker.go
    is the same code. *)
Definition hash_loop (s : string) : Z := foldl hash_step 0 (runes s).

Definition hashString (s : string) : Z :=
  let hash := hash_loop s in if hash <? 0 then wrap64 (- hash) else hash.

(** [targetList[hash % len(targetList)]]: Go's remainder has the sign of the
    hash, and a negative index panics. *)
Definition pick_target (key : string) (targets : list string) : option string :=
  let idx := Z.rem (hashString key) (Z.of_nat (length targets)) in
  if idx <? 0 then None else targets !! Z.to_nat idx.

(** ** State *)

Record Flags := mkFlags {
  fl_port : Z;
  fl_targets : string;
  fl_output : string;
  fl_numSources : Z;
  fl_hydfsDest : string;
  fl_hydfsLeader : string;
  fl_taskID : string;
}.

(** The flags [StartOperation] defines; an operator may define more. *)
Definition operation_flags : gmap string FlagKind := list_to_map
  [("port", FInt); ("targets", FString); ("output", FString); ("num-sources", FInt);
   ("hydfs-dest", FString); ("hydfs-leader", FString); ("task-id", FString);
   ("rainstorm-leader", FString)].

Definition start_flags (parse_int : string → option Z) (m : gmap string string) : Flags :=
  mkFlags (flag_int parse_int m "port") (flag_string m "targets") (flag_string m "output")
    (flag_int parse_int m "num-sources") (flag_string m "hydfs-dest") (flag_string m "hydfs-leader")
    (flag_string m "task-id").

Record OpRun := mkOpRun {
  targetList : list string;
  targetConnections : gset string;
  targetDecoders : gset string;
  processedIDs : gset string;
  eofCount : Z;
  eofBroadcast : bool;
  shutdownSignal : bool;
  isShuttingDown : bool;
  tuplesProcessed : Z;
  outLines : list string;
  hydfsAppendChan : list string;
  stateLogChan : list string;
}.

Definition set_targets (l : list string) (s : OpRun) : OpRun :=
  mkOpRun l (targetConnections s) (targetDecoders s) (processedIDs s) (eofCount s) (eofBroadcast s)
    (shutdownSignal s) (isShuttingDown s) (tuplesProcessed s) (outLines s)
    (hydfsAppendChan s) (stateLogChan s).
Definition set_connections (c d : gset string) (s : OpRun) : OpRun :=
  mkOpRun (targetList s) c d (processedIDs s) (eofCount s) (eofBroadcast s)
    (shutdownSignal s) (isShuttingDown s) (tuplesProcessed s) (outLines s)
    (hydfsAppendChan s) (stateLogChan s).
Definition set_processed (id : string) (s : OpRun) : OpRun :=
  mkOpRun (targetList s) (targetConnections s) (targetDecoders s) ({[id]} ∪ processedIDs s) (eofCount s)
    (eofBroadcast s) (shutdownSignal s) (isShuttingDown s) (tuplesProcessed s) (outLines s)
    (hydfsAppendChan s) (stateLogChan s).
Definition count_eof (s : OpRun) : OpRun :=
  mkOpRun (targetList s) (targetConnections s) (targetDecoders s) (processedIDs s) (eofCount s + 1) (eofBroadcast s)
    (shutdownSignal s) (isShuttingDown s) (tuplesProcessed s) (outLines s)
    (hydfsAppendChan s) (stateLogChan s).
Definition set_broadcast (s : OpRun) : OpRun :=
  mkOpRun (targetList s) (targetConnections s) (targetDecoders s) (processedIDs s) (eofCount s) true
    (shutdownSignal s) (isShuttingDown s) (tuplesProcessed s) (outLines s)
    (hydfsAppendChan s) (stateLogChan s).
Definition signal_shutdown (s : OpRun) : OpRun :=
  mkOpRun (targetList s) (targetConnections s) (targetDecoders s) (processedIDs s) (eofCount s) (eofBroadcast s)
    true (isShuttingDown s) (tuplesProcessed s) (outLines s) (hydfsAppendChan s) (stateLogChan s).
Definition count_tuple_in (s : OpRun) : OpRun :=
  mkOpRun (targetList s) (targetConnections s) (targetDecoders s) (processedIDs s) (eofCount s) (eofBroadcast s)
    (shutdownSignal s) (isShuttingDown s) (tuplesProcessed s + 1) (outLines s)
    (hydfsAppendChan s) (stateLogChan s).
Definition add_output (out hydfs : list string) (s : OpRun) : OpRun :=
  mkOpRun (targetList s) (targetConnections s) (targetDecoders s) (processedIDs s) (eofCount s) (eofBroadcast s)
    (shutdownSignal s) (isShuttingDown s) (tuplesProcessed s) (outLines s ++ out)
    (hydfsAppendChan s ++ hydfs) (stateLogChan s).
Definition queue_state (ids : list string) (s : OpRun) : OpRun :=
  mkOpRun (targetList s) (targetConnections s) (targetDecoders s) (processedIDs s) (eofCount s) (eofBroadcast s)
    (shutdownSignal s) (isShuttingDown s) (tuplesProcessed s) (outLines s)
    (hydfsAppendChan s) (stateLogChan s ++ ids).

(** What the process does to the outside. *)
Inductive OpEffect :=
  | Sent (target : string) (t : Tuple)
  | SentEOF (target : string) (t : Tuple)
  | Acked (id : string)
  | StartEOFTimeout
  | SyncCheckpoint (file id : string).

(** An attempt of the stop-and-wait loop: the tuple cannot be written, no
    acknowledgement can be read, or a tuple comes back. *)
Inductive Answer := NotSent | NoAnswer | Answered (t : Tuple).

Record Network := mkNetwork {
  dial : string → bool;
  answer : string → Tuple → nat → Answer;
  (** [net.Listen] on a port, and [os.OpenFile] of the output file. *)
  can_listen : Z → bool;
  can_open : string → bool;
}.

(** ** Start *)

Definition state_file (fl : Flags) : string :=
  if decide (fl_taskID fl = "") then "task_" +:+ itoa (fl_port fl) +:+ ".state"
  else fl_taskID fl +:+ ".state".

Definition initial_targets (fl : Flags) : list string :=
  if decide (fl_targets fl = "") then [] else split_on ","%char (fl_targets fl).

Definition isSinkStage (fl : Flags) : bool := bool_decide (initial_targets fl = []).
Definition has_outFile (fl : Flags) : bool :=
  isSinkStage fl && negb (bool_decide (fl_output fl = "")).
Definition has_hydfs (fl : Flags) : bool :=
  isSinkStage fl && negb (bool_decide (fl_hydfsDest fl = ""))
    && negb (bool_decide (fl_hydfsLeader fl = "")).
Definition has_stateLog (fl : Flags) : bool := negb (bool_decide (fl_hydfsLeader fl = "")).

(** The answer to [get_file] that [fetchStateFromHyDFS] receives. *)
Inductive FetchReply :=
  | FetchFailed
  | FetchError
  | FetchOther
  | FetchContent (content : string).

(** The identifiers of a state log: its lines, trimmed, without the empty ones. *)
Definition parse_ids (content : string) : list string :=
  omap (λ line, if decide (trim_space line = "") then None else Some (trim_space line))
    (split_on NL content).

Definition fetchStateFromHyDFS (reply : FetchReply) : result (list string) :=
  match reply with
  | FetchFailed => Err "failed to fetch"
  | FetchError => Ok []
  | FetchOther => Err "invalid response"
  | FetchContent content => Ok (parse_ids content)
  end.

(** The recovered identifiers. *)
Definition recovered (fl : Flags) (reply : FetchReply) : gset string :=
  if has_stateLog fl then
    match fetchStateFromHyDFS reply with
    | Ok ids => list_to_set ids
    | Err _ => ∅
    end
  else ∅.

(** [StartOperation] up to the listener; [None] where it exits: without a port,
    when the output file of a sink cannot be opened, when a target cannot be
    reached, when the port is taken. *)
Definition start (net : Network) (fl : Flags) (reply : FetchReply) : option OpRun :=
  if decide (fl_port fl = 0) then None
  else
    let targets := initial_targets fl in
    if (negb (has_outFile fl) || can_open net (fl_output fl))
       && forallb (dial net) targets && can_listen net (fl_port fl)
    then Some (mkOpRun targets (list_to_set targets) (list_to_set targets) (recovered fl reply) 0 false false false 0 [] [] [])
    else None.

(** ** Emission *)

(** Buffer size of the channels to the append workers. *)
Definition chan_size : nat := 1000.

(** The stop-and-wait loop from attempt [k] on: the copies sent and whether an
    acknowledgement of the tuple arrived. *)
Fixpoint stop_and_wait (answers : nat → Answer) (t : Tuple) (k fuel : nat) : nat * bool :=
  match fuel with
  | O => (0%nat, false)
  | S fuel' =>
      match answers k with
      | NotSent => stop_and_wait answers t (S k) fuel'
      | NoAnswer => let '(n, ok) := stop_and_wait answers t (S k) fuel' in (S n, ok)
      | Answered r =>
          if decide (Type_ r = "ack" ∧ tu_ID r = tu_ID t) then (1%nat, true)
          else let '(n, ok) := stop_and_wait answers t (S k) fuel' in (S n, ok)
      end
  end.

(** [broadcastEOF]. *)
Definition broadcast_targets (net : Network) (t : Tuple) (s : OpRun) : OpRun * list OpEffect :=
  foldl (λ '(s, es) target,
      if decide (target ∈ targetConnections s) then (s, es ++ [SentEOF target t])
      else if dial net target
           then (set_connections ({[target]} ∪ targetConnections s) (targetDecoders s) s, es ++ [SentEOF target t])
           else (s, es))
    (s, []) (targetList s).

Definition broadcastEOF (net : Network) (t : Tuple) (s : OpRun) : OpRun * list OpEffect :=
  if eofBroadcast s then (s, []) else broadcast_targets net t (set_broadcast s).

Definition set_type (ty : string) (t : Tuple) : Tuple :=
  mkTuple ty (Key t) (Value_ t) (tu_ID t) (IsEOF t).

Definition emit_sink (fl : Flags) (t : Tuple) (s : OpRun) : OpRun :=
  if IsEOF t then
    if isSinkStage fl && (0 <? fl_numSources fl) then
      let s1 := count_eof s in
      if fl_numSources fl <=? eofCount s1 then signal_shutdown s1 else s1
    else s
  else
    let line := show_value (Value_ t) in
    let hydfs := if has_hydfs fl && negb (isShuttingDown s)
                      && (length (hydfsAppendChan s) <? chan_size)%nat
                 then [line] else [] in
    add_output (if has_outFile fl then [line] else []) hydfs s.

Definition emit_eof (net : Network) (fl : Flags) (t : Tuple) (s : OpRun) : OpRun * list OpEffect :=
  if 0 <? fl_numSources fl then
    let s1 := count_eof s in
    if fl_numSources fl <=? eofCount s1 then
      let '(s2, es) := broadcastEOF net t s1 in (signal_shutdown s2, es)
    else (s1, if eofCount s1 =? 1 then [StartEOFTimeout] else [])
  else (s, []).

(** Sending over a connection.  A connection that [broadcastEOF] opened has no
    decoder: the first attempt that gets to wait for an acknowledgement on it
    crashes. *)
Definition send_data (net : Network) (target : string) (t : Tuple) (s : OpRun) : option (list OpEffect) :=
  if decide (target ∈ targetDecoders s) then
    Some (replicate (stop_and_wait (answer net target t) t 1 5).1 (Sent target t))
  else if forallb (λ k, match answer net target t k with NotSent => true | _ => false end) (seq 1 5)
       then Some [] else None.

(** A tuple that no acknowledgement arrives for after five attempts is dropped;
    so is one whose target cannot be reached. *)
Definition emit_data (net : Network) (t : Tuple) (s : OpRun) : option (OpRun * list OpEffect) :=
  match pick_target (Key t) (targetList s) with
  | None => None
  | Some target =>
      if decide (target ∈ targetConnections s) then (s,.) <$> send_data net target t s
      else if dial net target then
             let s' := set_connections ({[target]} ∪ targetConnections s)
                         ({[target]} ∪ targetDecoders s) s in
             (s',.) <$> send_data net target t s'
           else Some (s, [])
  end.

Definition emit (net : Network) (fl : Flags) (t0 : Tuple) (s : OpRun) : option (OpRun * list OpEffect) :=
  let t := set_type "tuple" t0 in
  if decide (targetList s = []) then Some (emit_sink fl t s, [])
  else if IsEOF t then Some (emit_eof net fl t s)
  else emit_data net t s.

Fixpoint emit_all (net : Network) (fl : Flags) (ts : list Tuple) (s : OpRun) :
    option (OpRun * list OpEffect) :=
  match ts with
  | [] => Some (s, [])
  | t :: ts' =>
      match emit net fl t s with
      | None => None
      | Some (s1, es1) =>
          match emit_all net fl ts' s1 with
          | None => None
          | Some (s2, es2) => Some (s2, es1 ++ es2)
          end
      end
  end.

(** The goroutine that runs five seconds after the first marker; [t] is the
    marker that started it. *)
Definition eof_timeout (net : Network) (fl : Flags) (t : Tuple) (s : OpRun) : OpRun * list OpEffect :=
  if (0 <? eofCount s) && (eofCount s <? fl_numSources fl) then
    let '(s1, es) := broadcastEOF net t s in (signal_shutdown s1, es)
  else (s, []).

(** ** Reception *)

(** [strings.Split(t.Value.(string), ",")], and the goroutines that connect to
    the new targets. *)
Definition routing_update (net : Network) (t : Tuple) (s : OpRun) : option OpRun :=
  match Value_ t with
  | VNil => None
  | VString v =>
      let newTargets := split_on ","%char v in
      let fresh := filter (λ a, a ∉ targetConnections s ∧ dial net a = true) newTargets in
      Some (set_targets newTargets
        (set_connections (list_to_set fresh ∪ targetConnections s) (list_to_set fresh ∪ targetDecoders s) s))
  end.

(** The checkpoint of a processed tuple: queued for the append worker, or sent
    at once when the queue is full. *)
Definition checkpoint (fl : Flags) (t : Tuple) (s : OpRun) : OpRun * list OpEffect :=
  if negb (IsEOF t) && has_stateLog fl && negb (isShuttingDown s) then
    if (length (stateLogChan s) <? chan_size)%nat then (queue_state [tu_ID t] s, [])
    else (s, [SyncCheckpoint (state_file fl) (tu_ID t)])
  else (s, []).

Section receive.
Context (op : Operation) (net : Network) (fl : Flags).

(** Processing of a tuple that was found new. *)
Definition process_tuple (t : Tuple) (os : op_state op) (s : OpRun) :
    option (op_state op * OpRun * list OpEffect) :=
  let s1 := if IsEOF t then s else count_tuple_in s in
  let '(os', out) := Process op os t in
  match emit_all net fl out s1 with
  | None => None
  | Some (s2, es) =>
      let '(s3, cs) := checkpoint fl t s2 in
      let s4 := if IsEOF t then s3 else set_processed (tu_ID t) s3 in
      Some (os', s4, es ++ cs ++ [Acked (tu_ID t)])
  end.

(** One turn of the loop of a connection. *)
Definition receive (t : Tuple) (os : op_state op) (s : OpRun) :
    option (op_state op * OpRun * list OpEffect) :=
  if decide (Type_ t = "routing_update") then
    match routing_update net t s with
    | None => None
    | Some s' => Some (os, s', [])
    end
  else if decide (Type_ t = "ack") then Some (os, s, [])
  else if decide (tu_ID t ∈ processedIDs s) then Some (os, s, [Acked (tu_ID t)])
  else process_tuple t os s.

Fixpoint receive_all (ts : list Tuple) (os : op_state op) (s : OpRun) :
    option (op_state op * OpRun * list OpEffect) :=
  match ts with
  | [] => Some (os, s, [])
  | t :: ts' =>
      match receive t os s with
      | None => None
      | Some (os1, s1, es1) =>
          match receive_all ts' os1 s1 with
          | None => None
          | Some (os2, s2, es2) => Some (os2, s2, es1 ++ es2)
          end
      end
  end.
End receive.

(** ** Shutdown *)

(** What happens after the shutdown signal: the flag goes up first, so that
    nothing is queued any more. *)
Definition begin_shutdown (s : OpRun) : OpRun :=
  mkOpRun (targetList s) (targetConnections s) (targetDecoders s) (processedIDs s) (eofCount s) (eofBroadcast s)
    (shutdownSignal s) true (tuplesProcessed s) (outLines s) (hydfsAppendChan s) (stateLogChan s).

(** ** Metrics *)

(** [net.SplitHostPort], the host. *)
Definition split_host (hostport : string) : option string :=
  match reverse (split_on ":"%char hostport) with
  | [] | [_] => None
  | _ :: rest =>
      let host := join ":" (reverse rest) in
      match host with
      | String c h =>
          if decide (c = "["%char) then
            match reverse (split_on "]"%char h) with
            | [""; inner] => if contains_char "["%char inner then None else Some inner
            | _ => None
            end
          else if contains_char ":"%char host || contains_char "["%char hostport || contains_char "]"%char hostport
               then None else Some host
      | EmptyString => if contains_char "["%char hostport || contains_char "]"%char hostport then None else Some host
      end
  end.

(** Where a task reports: [--rainstorm-leader], else the host of
    [--hydfs-leader] at the default port; empty when it does not report. *)
Definition metrics_leader (rainstormLeader hydfsLeader : string) : string :=
  if decide (rainstormLeader = "") then
    match split_host hydfsLeader with
    | Some host => if decide (host = "") then "" else JoinHostPort host 8002
    | None => ""
    end
  else rainstormLeader.

Definition metricsTaskID (fl : Flags) : string :=
  if decide (fl_taskID fl = "") then "task-port" +:+ itoa (fl_port fl) else fl_taskID fl.

(** One tick of [LogMetricsPeriodicallyWithReport]: the tuples of the last second
    and the count to compare with next; [now] is [time.Now().Unix()]. *)
Definition metrics_tick (taskID : string) (now currentCount lastCount : Z) : TaskMetrics * Z :=
  (mkTaskMetrics taskID currentCount (inject_Z (wrap64 (currentCount - lastCount))) now, currentCount).

(** [sendMetricsToLeaderFromAPI]; a refused connection is ignored. *)
Definition sendMetricsToLeaderFromAPI (net : string → bool) (leaderAddr : string) (metrics : TaskMetrics) :
    list (string * RainStormMessage) :=
  if decide (leaderAddr = "") then [] else if net leaderAddr then [(leaderAddr, task_metrics metrics)] else [].

(** The ticks of a task that counts [counts], with the time of each. *)
Fixpoint LogMetricsPeriodicallyWithReport (net : string → bool) (leaderAddr taskID : string)
    (ticks : list (Z * Z)) (lastCount : Z) : list (string * RainStormMessage) :=
  match ticks with
  | [] => []
  | (now, currentCount) :: rest =>
      let '(metrics, lastCount') := metrics_tick taskID now currentCount lastCount in
      sendMetricsToLeaderFromAPI net leaderAddr metrics ++
        LogMetricsPeriodicallyWithReport net leaderAddr taskID rest lastCount'
  end.

(** The message of [syncCheckpointToHyDFS] to the block store of the leader:
    its content and the identifier of the client. *)
Definition syncCheckpoint_append (id : string) (taskPort : Z) : string * string :=
  (id +:+ nl, "sink-task-" +:+ itoa taskPort).

(** ** hydfsAppendWorker *)

(** An event of the worker; a flush comes with the fate of its connection. *)
Inductive AppendEvent :=
  | Line (line : string) (ok : bool)
  | Tick (ok : bool)
  | Stop (ok : bool).

Definition flush_size : nat := 50.

(** [flush]: the buffer is emptied whether or not the append is sent. *)
Definition flush (buffer : list string) (ok : bool) : list string * list string :=
  match buffer with
  | [] => ([], [])
  | _ => ([], if ok then [join nl buffer +:+ nl] else [])
  end.

(** The worker: its buffer, and the contents it appended to the file. *)
Definition append_step (st : list string * list string) (e : AppendEvent) : list string * list string :=
  let '(buffer, sent) := st in
  match e with
  | Line line ok =>
      let buffer' := buffer ++ [line] in
      if (flush_size <=? length buffer')%nat then
        let '(b, out) := flush buffer' ok in (b, sent ++ out)
      else (buffer', sent)
  | Tick ok | Stop ok => let '(b, out) := flush buffer ok in (b, sent ++ out)
  end.

Definition hydfsAppendWorker (events : list AppendEvent) : list string * list string :=
  foldl append_step ([], []) events.

Definition append_client (port : Z) : string := "sink-task-" +:+ itoa port.

(** ** Lemmas: partitioning *)

Lemma hash_step_range h c : in_int64 (hash_step h c).
Proof. apply wrap64_range. Qed.

Lemma hash_loop_range s : in_int64 (hash_loop s).
Proof.
  unfold hash_loop. induction (runes s) as [|c l _] using rev_ind; [done|].
  rewrite foldl_app. apply hash_step_range.
Qed.

Lemma hashString_cases s :
  hash_loop s = - two63 ∧ hashString s = - two63 ∨
  hash_loop s ≠ - two63 ∧ 0 <= hashString s < two63.
Proof.
  pose proof (hash_loop_range s) as H. unfold hashString.
  destruct (Z.eq_dec (hash_loop s) (- two63)) as [E|E].
  - left. rewrite E. by vm_compute.
  - right. split; [done|]. destruct (Z.ltb_spec (hash_loop s) 0); [rewrite wrap64_id by golia|]; golia.
Qed.

Lemma nth_in_range (l : list string) i : 0 <= i < Z.of_nat (length l) → ∃ x, l !! Z.to_nat i = Some x ∧ x ∈ l.
Proof.
  intros Hi. destruct (lookup_lt_is_Some_2 l (Z.to_nat i)) as [x Hx]; [lia|].
  exists x. split; [done|]. by eapply list_elem_of_lookup_2.
Qed.

(** A key of four characters whose hash is the least integer. *)
Definition crash_key : string :=
  String.string_of_list_ascii (Ascii.ascii_of_nat <$>
    [231; 190; 161; 234; 186; 154; 238; 132; 145; 233; 136; 152]%nat).

(** ** Lemmas: the state log *)

Definition lines (l : list string) : string := foldr (λ x s, x +:+ nl +:+ s) "" l.

Lemma lines_cons x l : lines (x :: l) = x +:+ nl +:+ lines l.
Proof. done. Qed.

Lemma lines_one x : lines [x] = x +:+ nl.
Proof. rewrite lines_cons. by rewrite app_empty_r. Qed.

Lemma lines_app l1 l2 : lines (l1 ++ l2) = lines l1 +:+ lines l2.
Proof.
  induction l1 as [|x l IH]; [done|].
  change ((x :: l) ++ l2) with (x :: (l ++ l2)). rewrite !lines_cons, IH. by rewrite !app_assoc_str.
Qed.

Lemma join_lines b : b ≠ [] → join nl b +:+ nl = lines b.
Proof.
  induction b as [|x b IH]; [done|]. intros _. destruct b as [|y b].
  - by rewrite lines_one.
  - rewrite join_cons by done. rewrite !app_assoc_str. rewrite IH by done. by rewrite (lines_cons x).
Qed.

Definition event_lines (es : list AppendEvent) : list string :=
  omap (λ e, match e with Line l _ => Some l | _ => None end) es.

Definition event_ok (e : AppendEvent) : bool :=
  match e with Line _ ok | Tick ok | Stop ok => ok end.

Lemma flush_some b : b ≠ [] → (flush b true).1 = [] ∧ (flush b true).2 = [lines b].
Proof. destruct b as [|x b]; [done|]. intros _. split; [done|]. cbn [flush snd]. by rewrite join_lines. Qed.

Lemma concat_lines groups : foldr String.append "" (lines <$> groups) = lines (concat groups).
Proof. induction groups as [|g groups IH]; [done|]. rewrite fmap_cons. cbn [foldr concat]. by rewrite IH, lines_app. Qed.

(** Every append holds some of the lines that were queued, in order; what was
    appended and what waits is what was queued. *)
Lemma append_worker_groups es :
  Forall (λ e, event_ok e = true) es →
  ∃ groups, (hydfsAppendWorker es).2 = lines <$> groups ∧
    concat groups ++ (hydfsAppendWorker es).1 = event_lines es.
Proof.
  unfold hydfsAppendWorker. induction es as [|e es IH] using rev_ind; intros Hok; [by exists []|].
  apply Forall_app in Hok as [Hok He]. rewrite Forall_singleton in He. destruct (IH Hok) as (groups & H1 & H2).
  rewrite foldl_app. unfold event_lines. rewrite omap_app. fold (event_lines es). rewrite <- H2.
  destruct (foldl append_step ([], []) es) as [b sent]. cbn [foldl fst snd] in *. subst sent.
  assert (∀ l, l ≠ [] → ∃ groups', (flush l true).1 = [] ∧
    (lines <$> groups) ++ (flush l true).2 = lines <$> groups' ∧ concat groups' = concat groups ++ l) as Hflush.
  { intros l Hl. exists (groups ++ [l]). destruct (flush_some l Hl) as [-> ->].
    by rewrite fmap_app, concat_app; simpl; rewrite app_nil_r. }
  assert (∃ groups', (flush b true).1 = [] ∧
    (lines <$> groups) ++ (flush b true).2 = lines <$> groups' ∧ concat groups' = concat groups ++ b) as Hb.
  { destruct b; [|by apply Hflush]. exists groups. by rewrite !app_nil_r. }
  destruct e as [l ok|ok|ok]; simpl in He; subst; cbn [append_step omap list_omap].
  - rewrite <- app_assoc. destruct (flush_size <=? length (b ++ [l]))%nat.
    + destruct (Hflush (b ++ [l])) as (g & F1 & F2 & F3); [by destruct b|].
      destruct (flush (b ++ [l]) true) as [b' out]. exists g. simpl in *. by rewrite F1, F2, F3, app_nil_r.
    + by exists groups.
  - destruct Hb as (g & F1 & F2 & F3). destruct (flush b true) as [b' out]. exists g. simpl in *.
    by rewrite F1, F2, F3, !app_nil_r.
  - destruct Hb as (g & F1 & F2 & F3). destruct (flush b true) as [b' out]. exists g. simpl in *.
    by rewrite F1, F2, F3, !app_nil_r.
Qed.

(** An identifier that survives the log: no white space, not empty. *)
Definition clean_id (id : string) : Prop :=
  id ≠ "" ∧ no_space id = true.

Lemma no_space_no_NL s : no_space s = true → string_forallb (not_char NL) s = true.
Proof.
  unfold no_space. apply string_forallb_impl. intros c Hc. apply bool_decide_eq_true.
  intros ->. done.
Qed.

Lemma parse_ids_lines ids : Forall clean_id ids → parse_ids (lines ids) = ids.
Proof.
  unfold parse_ids. induction 1 as [|id ids [Hne Hid] _ IH]; [done|].
  rewrite lines_cons. unfold nl. cbn [String.append].
  rewrite split_on_app by by apply no_space_no_NL.
  cbn [omap list_omap]. rewrite trim_space_no_space by done. rewrite decide_False by done.
  f_equal. exact IH.
Qed.

(** ** Lemmas: deduplication *)

(** The tuples an operation gets to see: the data tuples whose identifier has
    not been seen, and the markers. *)
Fixpoint fresh_tuples (seen : gset string) (ts : list Tuple) : list Tuple :=
  match ts with
  | [] => []
  | t :: ts' =>
      if decide (tu_ID t ∈ seen) then fresh_tuples seen ts'
      else t :: fresh_tuples (if IsEOF t then seen else {[tu_ID t]} ∪ seen) ts'
  end.

Definition data_ids (ts : list Tuple) : list string :=
  omap (λ t, if IsEOF t then None else Some (tu_ID t)) ts.

Definition acks (es : list OpEffect) : list string :=
  omap (λ e, match e with Acked id => Some id | _ => None end) es.

Definition stream_tuple (t : Tuple) : Prop := Type_ t ≠ "routing_update" ∧ Type_ t ≠ "ack".

Lemma acks_app l1 l2 : acks (l1 ++ l2) = acks l1 ++ acks l2.
Proof. apply omap_app. Qed.

Lemma acks_none {A} (f : A → OpEffect) l :
  (∀ a, match f a with Acked _ => False | _ => True end) → acks (f <$> l) = [].
Proof.
  intros Hf. induction l as [|a l IH]; [done|]. rewrite fmap_cons. simpl.
  specialize (Hf a). by destruct (f a).
Qed.

Lemma acks_replicate e n : (match e with Acked _ => False | _ => True end) → acks (replicate n e) = [].
Proof. intros He. induction n as [|n IH]; [done|]. simpl. by destruct e. Qed.

Lemma broadcast_targets_frame net t s :
  let '(s', es) := broadcast_targets net t s in
  processedIDs s' = processedIDs s ∧ acks es = [].
Proof.
  unfold broadcast_targets. generalize (targetList s). intros l.
  assert (∀ s0 es0, acks es0 = [] → let '(s', es) := foldl (λ '(s, es) target,
      if decide (target ∈ targetConnections s) then (s, es ++ [SentEOF target t])
      else if dial net target
           then (set_connections ({[target]} ∪ targetConnections s) (targetDecoders s) s, es ++ [SentEOF target t])
           else (s, es)) (s0, es0) l in processedIDs s' = processedIDs s0 ∧ acks es = []) as H.
  { induction l as [|x l IH]; intros s0 es0 He; [done|]. cbn [foldl].
    destruct (decide _); [apply IH; by rewrite acks_app, He|].
    destruct (dial net x); [|by apply IH].
    specialize (IH (set_connections ({[x]} ∪ targetConnections s0) (targetDecoders s0) s0) (es0 ++ [SentEOF x t])).
    destruct (foldl _ _ l) as [s' es]. apply IH. by rewrite acks_app, He. }
  by apply H.
Qed.

Lemma send_data_acks net target t s es : send_data net target t s = Some es → acks es = [].
Proof.
  unfold send_data. destruct (decide _); [intros [= <-]; by apply acks_replicate|].
  destruct (forallb _ _); [by intros [= <-]|done].
Qed.

Lemma emit_frame net fl t s s' es :
  emit net fl t s = Some (s', es) → processedIDs s' = processedIDs s ∧ acks es = [].
Proof.
  unfold emit. destruct (decide _).
  - intros [= <- <-]. split; [|done]. unfold emit_sink. destruct (IsEOF _); [|done].
    destruct (_ && _); [|done]. by destruct (_ <=? _).
  - destruct (IsEOF _).
    + unfold emit_eof. intros [= H]. destruct (0 <? fl_numSources fl); [|by simplify_eq].
      destruct (_ <=? _).
      * unfold broadcastEOF in H. destruct (eofBroadcast _); [by simplify_eq|].
        pose proof (broadcast_targets_frame net (set_type "tuple" t) (set_broadcast (count_eof s))) as Hb.
        destruct (broadcast_targets _ _ _). by simplify_eq.
      * simplify_eq. split; [done|]. by destruct (_ =? _).
    + unfold emit_data. destruct (pick_target _ _) as [target|]; [|done].
      destruct (decide _); [|destruct (dial net target)].
      * intros (es0 & Hs & [= -> ->])%fmap_Some. split; [done|]. by eapply send_data_acks.
      * intros (es0 & Hs & [= -> ->])%fmap_Some. split; [done|]. by eapply send_data_acks.
      * by intros [= <- <-].
Qed.

Lemma emit_all_frame net fl ts s s' es :
  emit_all net fl ts s = Some (s', es) → processedIDs s' = processedIDs s ∧ acks es = [].
Proof.
  revert s s' es; induction ts as [|t ts IH]; intros s s' es; cbn [emit_all].
  - by intros [= <- <-].
  - destruct (emit net fl t s) as [[s1 es1]|] eqn:E1; [|done].
    destruct (emit_all net fl ts s1) as [[s2 es2]|] eqn:E2; [|done]. intros [= <- <-].
    apply emit_frame in E1 as [H1 H2]. apply IH in E2 as [H3 H4].
    split; [congruence|]. by rewrite acks_app, H2, H4.
Qed.

Lemma checkpoint_quiet fl t s :
  processedIDs (checkpoint fl t s).1 = processedIDs s ∧ acks (checkpoint fl t s).2 = [].
Proof. unfold checkpoint. destruct (_ && _ && _); [|done]. by destruct (_ <? _)%nat. Qed.

Lemma process_tuple_frame op net fl t os s os' s' es :
  process_tuple op net fl t os s = Some (os', s', es) →
  os' = (Process op os t).1 ∧
  processedIDs s' = (if IsEOF t then processedIDs s else {[tu_ID t]} ∪ processedIDs s) ∧
  acks es = [tu_ID t].
Proof.
  unfold process_tuple. destruct (Process op os t) as [os1 out].
  destruct (emit_all net fl out _) as [[s2 es2]|] eqn:E; [|done].
  apply emit_all_frame in E as [H1 H2].
  pose proof (checkpoint_quiet fl t s2) as [C1 C2].
  destruct (checkpoint fl t s2) as [s3 cs]. simpl in C1, C2. intros [= <- <- <-].
  split; [done|]. rewrite !acks_app, H2, C2. split; [|done].
  destruct (IsEOF t); simpl; by rewrite C1, H1.
Qed.

Lemma run_op_cons op s t l :
  (run_op op s (t :: l)).1 = (run_op op (Process op s t).1 l).1.
Proof.
  unfold run_op. cbn [foldl]. destruct (Process op s t) as [s1 es1]. cbn [fst].
  generalize ([] : list Tuple) at 2. generalize ([] ++ es1). revert s1.
  induction l as [|u l IH]; intros s1 o1 o2; [done|]. cbn [foldl].
  destruct (Process op s1 u) as [s2 es2]. apply IH.
Qed.

(** ** The theorems *)

Lemma receive_all_dedup (op : Operation) (net : Network) (fl : Flags) (ts : list Tuple)
    (os os' : op_state op) (s s' : OpRun) (es : list OpEffect) :
  Forall stream_tuple ts →
  receive_all op net fl ts os s = Some (os', s', es) →
  os' = (run_op op os (fresh_tuples (processedIDs s) ts)).1 ∧
  NoDup (data_ids (fresh_tuples (processedIDs s) ts)) ∧
  (∀ id, id ∈ data_ids (fresh_tuples (processedIDs s) ts) → id ∉ processedIDs s) ∧
  acks es = tu_ID <$> ts ∧
  processedIDs s' = list_to_set (data_ids (fresh_tuples (processedIDs s) ts)) ∪ processedIDs s.
Proof.
  revert os s es; induction ts as [|t ts IH]; intros os s es Hts; cbn [receive_all fresh_tuples].
  { intros [= <- <- <-]. split; [done|]. split; [constructor|]. split; [by intros id ?%elem_of_nil|].
    split; [done|]. set_solver. }
  apply Forall_cons in Hts as [[Ht1 Ht2] Hts]. unfold receive. rewrite !decide_False by done.
  destruct (decide (tu_ID t ∈ processedIDs s)) as [Hin|Hin].
  - destruct (receive_all op net fl ts os s) as [[[os2 s2] es2]|] eqn:E; [|done].
    intros [= <- <- <-]. apply IH in E as (H1 & H2 & H3 & H4 & H5); [|done].
    split; [done|]. split; [done|]. split; [done|]. split; [|done].
    change (tu_ID t :: acks es2 = tu_ID t :: (tu_ID <$> ts)). by rewrite H4.
  - destruct (process_tuple op net fl t os s) as [[[os1 s1] es1]|] eqn:E1; [|done].
    destruct (receive_all op net fl ts os1 s1) as [[[os2 s2] es2]|] eqn:E2; [|done].
    intros [= <- <- <-]. apply process_tuple_frame in E1 as (P1 & P2 & P3).
    apply IH in E2 as (H1 & H2 & H3 & H4 & H5); [|done].
    rewrite P2 in H1, H2, H3, H5.
    rewrite run_op_cons, <- P1. split; [done|].
    unfold data_ids in *. cbn [omap list_omap]. destruct (IsEOF t).
    + split; [done|]. split; [done|]. split; [|done]. by rewrite acks_app, P3, H4.
    + split; [|split; [|split]].
      * apply NoDup_cons. split; [|done]. intros Hc. apply H3 in Hc. set_solver.
      * intros id [->|Hid]%elem_of_cons; [done|]. apply H3 in Hid. set_solver.
      * by rewrite acks_app, P3, H4.
      * rewrite H5. set_solver.
Qed.

(** The network of the examples: every target accepts and acknowledges. *)
Definition good_net : Network :=
  mkNetwork (λ _, true) (λ _ t _, Answered (mkTuple "ack" "" VNil (tu_ID t) false)) (λ _, true) (λ _, true).

Definition count_flags : Flags :=
  mkFlags 10008 "" "out.txt" 2 "dest.txt" "vm1:8000" "stage1-task-0".

(** C32: The identifiers in the state log are those of processed tuples, the
    state of the operation is in no log: a task that restarts acknowledges the
    logged tuples it receives again and does not process them, and an
    operation that had accumulated something from them, as [CountOp], never
    gets it back.  The log of a task is named after its identifier only, so
    the tasks of the next job start with the identifiers of the last one. *)
Theorem logged_tuples_are_skipped (op : Operation) (net : Network) (fl : Flags) (content : string)
    (ts : list Tuple) (s : OpRun) :
  fl_hydfsLeader fl ≠ "" → Forall stream_tuple ts →
  (∀ t, t ∈ ts → tu_ID t ∈ parse_ids content) →
  start net fl (FetchContent content) = Some s →
  receive_all op net fl ts (op_init op) s = Some (op_init op, s, Acked ∘ tu_ID <$> ts).
Proof.
  intros Hl Hts Hin Hs.
  assert (∀ id, id ∈ parse_ids content → id ∈ processedIDs s) as Hrec.
  { intros id Hid. unfold start in Hs. case_decide; [done|]. destruct (_ && _); [|done].
    injection Hs as <-. simpl. unfold recovered, has_stateLog. rewrite bool_decide_eq_false_2 by done.
    simpl. by apply elem_of_list_to_set. }
  clear Hs. induction ts as [|t ts IH]; [done|].
  apply Forall_cons in Hts as [[Ht1 Ht2] Hts]. cbn [receive_all]. unfold receive.
  rewrite !decide_False by done. rewrite decide_True by (apply Hrec, Hin; by left).
  rewrite IH; [done|done|]. intros t' Ht'. apply Hin. by right.
Qed.

Lemma logged_tuples_are_skipped_witness :
  let ts := [data "src-task-0-tuple-1" "a" "x"; data "src-task-0-tuple-2" "b" "y"] in
  ∃ s, start good_net count_flags (FetchContent (lines (tu_ID <$> ts))) = Some s ∧
    receive_all CountOp good_net count_flags ts (op_init CountOp) s =
      Some (op_init CountOp, s, Acked ∘ tu_ID <$> ts).
Proof.
  intros ts.
  destruct (start good_net count_flags (FetchContent (lines (tu_ID <$> ts)))) as [s|] eqn:Hs;
    [|discriminate Hs].
  exists s. split; [done|].
  apply (logged_tuples_are_skipped CountOp good_net count_flags (lines (tu_ID <$> ts)) ts s);
    [discriminate|repeat constructor; discriminate| |exact Hs].
  intros t Ht. rewrite parse_ids_lines by (repeat constructor; discriminate).
  by apply list_elem_of_fmap_2.
Defined.

(** C33: Hash partitioning sends equal keys to equal targets and never leaves the
    list of targets, with one exception: the key whose hash is the least
    integer, which has no negation, makes the index negative and crashes the
    task whenever the number of targets is not a power of two. *)
Theorem partition_index (key : string) (targets : list string) :
  targets ≠ [] →
  (∀ target, pick_target key targets = Some target → target ∈ targets) ∧
  (pick_target key targets = None ↔
   hash_loop key = - two63 ∧ two63 mod Z.of_nat (length targets) ≠ 0).
Proof.
  intros Hne. assert (0 < Z.of_nat (length targets)) as Hn by (destruct targets; simpl; [done|lia]).
  unfold pick_target. destruct (hashString_cases key) as [[Hl ->]|[Hl Hh]].
  - assert (Z.rem (- two63) (Z.of_nat (length targets)) = - (two63 mod Z.of_nat (length targets))) as ->.
    { rewrite Z.rem_opp_l by lia. rewrite Z.rem_mod_nonneg by (unfold two63; lia). done. }
    pose proof (Z.mod_pos_bound two63 (Z.of_nat (length targets)) Hn) as Hb.
    destruct (Z.ltb_spec (- (two63 mod Z.of_nat (length targets))) 0) as [Hlt|Hge].
    + split; [done|]. split; [|done]. intros _. split; [done|lia].
    + assert (two63 mod Z.of_nat (length targets) = 0) as -> by lia.
      destruct (nth_in_range targets (- 0)) as (x & -> & Hx); [lia|].
      split; [by intros target [= <-]|]. split; [done|]. by intros [_ ?].
  - rewrite Z.rem_mod_nonneg by lia.
    pose proof (Z.mod_pos_bound (hashString key) (Z.of_nat (length targets)) Hn) as Hb.
    rewrite (proj2 (Z.ltb_ge _ _)) by lia.
    destruct (nth_in_range targets (hashString key mod Z.of_nat (length targets))) as (x & -> & Hx); [lia|].
    split; [by intros target [= <-]|]. split; [done|]. by intros [? _].
Qed.

Lemma partition_index_witness :
  pick_target crash_key ["a:1"; "b:1"; "c:1"] = None.
Proof. apply (partition_index crash_key ["a:1"; "b:1"; "c:1"]); [done|]. by vm_compute. Defined.

(** The end of the stream in a middle stage. *)
Inductive EofEvent :=
  | EvEOF (t : Tuple)
  | EvTimeout (t : Tuple).

Definition eof_event (net : Network) (fl : Flags) (st : OpRun * list OpEffect) (e : EofEvent) :
    OpRun * list OpEffect :=
  let '(s, es) := st in
  match e with
  | EvEOF t => let '(s', es') := emit_eof net fl t s in (s', es ++ es')
  | EvTimeout t => let '(s', es') := eof_timeout net fl t s in (s', es ++ es')
  end.

Definition eof_sends (es : list OpEffect) : list (string * Tuple) :=
  omap (λ e, match e with SentEOF target t => Some (target, t) | _ => None end) es.

Definition eof_markers (evs : list EofEvent) : Z :=
  Z.of_nat (length (omap (λ e, match e with EvEOF t => Some t | _ => None end) evs)).

Lemma eof_sends_app l1 l2 : eof_sends (l1 ++ l2) = eof_sends l1 ++ eof_sends l2.
Proof. apply omap_app. Qed.

Lemma broadcast_all net t s :
  (∀ x, x ∈ targetList s → x ∈ targetConnections s ∨ dial net x = true) →
  let '(s', es) := broadcast_targets net t s in
  eof_sends es = (λ x, (x, t)) <$> targetList s ∧
  eofCount s' = eofCount s ∧ eofBroadcast s' = eofBroadcast s ∧
  shutdownSignal s' = shutdownSignal s ∧ targetList s' = targetList s ∧
  targetConnections s ⊆ targetConnections s'.
Proof.
  unfold broadcast_targets. intros Hconn.
  assert (∀ l s0 es0, (∀ x, x ∈ l → x ∈ targetConnections s0 ∨ dial net x = true) →
    let '(s', es) := foldl (λ '(s, es) target,
      if decide (target ∈ targetConnections s) then (s, es ++ [SentEOF target t])
      else if dial net target
           then (set_connections ({[target]} ∪ targetConnections s) (targetDecoders s) s, es ++ [SentEOF target t])
           else (s, es)) (s0, es0) l in
    eof_sends es = eof_sends es0 ++ ((λ x, (x, t)) <$> l) ∧
    eofCount s' = eofCount s0 ∧ eofBroadcast s' = eofBroadcast s0 ∧
    shutdownSignal s' = shutdownSignal s0 ∧ targetList s' = targetList s0 ∧
    targetConnections s0 ⊆ targetConnections s') as H.
  { induction l as [|x l IH]; intros s0 es0 Hl; [by rewrite app_nil_r|]. cbn [foldl].
    assert (∀ y, y ∈ l → y ∈ targetConnections s0 ∨ dial net y = true) as Hl' by (intros; apply Hl; by right).
    destruct (decide (x ∈ targetConnections s0)) as [Hx|Hx].
    - specialize (IH s0 (es0 ++ [SentEOF x t]) Hl'). destruct (foldl _ _ l) as [s' es].
      rewrite eof_sends_app, <- app_assoc in IH. exact IH.
    - destruct (Hl x ltac:(by left)) as [?| ->]; [done|].
      specialize (IH (set_connections ({[x]} ∪ targetConnections s0) (targetDecoders s0) s0) (es0 ++ [SentEOF x t])).
      destruct (foldl _ _ l) as [s' es]. rewrite eof_sends_app, <- app_assoc in IH.
      destruct IH as (H1 & H2 & H3 & H4 & H5 & H6).
      { intros y Hy. destruct (Hl' y Hy); [left|by right]. simpl. set_solver. }
      repeat split; try done. simpl in H6. set_solver. }
  specialize (H (targetList s) s [] Hconn). by destruct (foldl _ _ _).
Qed.

(** The timeout goroutine woke up when some markers had arrived, but not all. *)
Definition timeout_fired (fl : Flags) (evs : list EofEvent) : Prop :=
  ∃ pre t post, evs = pre ++ EvTimeout t :: post ∧ 0 < eof_markers pre < fl_numSources fl.

(** The end of the stream has been reached: every marker is there, or the
    timeout gave up waiting. *)
Definition stream_ended (fl : Flags) (evs : list EofEvent) : Prop :=
  fl_numSources fl <= eof_markers evs ∨ timeout_fired fl evs.

Definition event_marker (e : EofEvent) : Tuple := match e with EvEOF t | EvTimeout t => t end.

Lemma eof_markers_snoc evs e :
  eof_markers (evs ++ [e]) = eof_markers evs + match e with EvEOF _ => 1 | EvTimeout _ => 0 end.
Proof. unfold eof_markers. rewrite omap_app, length_app. destruct e; simpl; lia. Qed.

Lemma timeout_fired_snoc fl evs e :
  timeout_fired fl (evs ++ [e]) ↔
  timeout_fired fl evs ∨ match e with EvEOF _ => False | EvTimeout _ => 0 < eof_markers evs < fl_numSources fl end.
Proof.
  split.
  - intros (pre & t & post & He & Hn). destruct post as [|e' post _] using rev_ind.
    + apply app_inj_tail in He as [-> ->]. by right.
    + left. rewrite app_comm_cons, app_assoc in He. apply app_inj_tail in He as [-> _]. by exists pre, t, post.
  - intros [(pre & t & post & -> & Hn)|He].
    + exists pre, t, (post ++ [e]). by rewrite <- app_assoc.
    + destruct e as [|t]; [done|]. by exists evs, t, [].
Qed.

(** The state of the end-of-stream protocol after [evs]. *)
Definition eof_phase (fl : Flags) (targets : list string) (evs : list EofEvent) (st : OpRun * list OpEffect) : Prop :=
  let '(s, es) := st in
  targetList s = targets ∧ (∀ x, x ∈ targets → x ∈ targetConnections s) ∧ eofCount s = eof_markers evs ∧
  (eofBroadcast s = false ∧ shutdownSignal s = false ∧ eof_sends es = [] ∧ ¬ stream_ended fl evs ∨
   eofBroadcast s = true ∧ shutdownSignal s = true ∧ stream_ended fl evs ∧
   ∃ t, t ∈ event_marker <$> evs ∧ eof_sends es = (λ x, (x, t)) <$> targets).

Lemma broadcastEOF_phase net fl targets evs e s0 s es :
  eof_phase fl targets evs (s0, es) → stream_ended fl (evs ++ [e]) →
  targetList s = targetList s0 → targetConnections s = targetConnections s0 →
  eofBroadcast s = eofBroadcast s0 → eofCount s = eof_markers (evs ++ [e]) →
  let '(s', es') := broadcastEOF net (event_marker e) s in
  eof_phase fl targets (evs ++ [e]) (signal_shutdown s', es ++ es').
Proof.
  intros (H1 & H2 & _ & H4) He Et Ec Eb En. unfold broadcastEOF.
  destruct (eofBroadcast s) eqn:Hb.
  - destruct H4 as [(? & _)|(_ & _ & _ & t & Ht & Hs)]; [congruence|].
    split; [simpl; congruence|]. split; [simpl; rewrite Ec; done|]. split; [done|]. right.
    split; [done|]. split; [done|]. split; [done|]. exists t. split; [rewrite fmap_app; set_solver|].
    by rewrite app_nil_r.
  - destruct H4 as [(_ & _ & Hs & _)|(? & _)]; [|congruence].
    pose proof (broadcast_all net (event_marker e) (set_broadcast s)) as Hall. simpl in Hall.
    rewrite Et, Ec, H1 in Hall. specialize (Hall ltac:(intros x Hx; left; by apply H2)).
    destruct (broadcast_targets _ _ _) as [s' es']. destruct Hall as (A1 & A2 & A3 & A4 & A5 & A6).
    split; [done|]. split; [intros x Hx; apply A6; by apply H2|]. split; [simpl; congruence|].
    right. split; [done|]. split; [done|]. split; [done|]. exists (event_marker e).
    split; [rewrite fmap_app; set_solver|]. by rewrite eof_sends_app, Hs.
Qed.

(** An event that does not end the stream, or comes after its end. *)
Lemma eof_phase_frame fl targets evs e s s' es es' :
  eof_phase fl targets evs (s, es) → (stream_ended fl (evs ++ [e]) → stream_ended fl evs) →
  targetList s' = targetList s → targetConnections s' = targetConnections s →
  eofBroadcast s' = eofBroadcast s → shutdownSignal s' = shutdownSignal s →
  eofCount s' = eof_markers (evs ++ [e]) → eof_sends es' = [] →
  eof_phase fl targets (evs ++ [e]) (s', es ++ es').
Proof.
  intros (H1 & H2 & _ & H4) He Et Ec Eb Es En Hes.
  split; [congruence|]. split; [by rewrite Ec|]. split; [done|].
  rewrite Eb, Es, eof_sends_app, Hes, app_nil_r. destruct H4 as [(? & ? & ? & Hn)|(? & ? & Hy & t & Ht & ?)].
  - left. split_and!; try done. intros Hend. by apply Hn, He.
  - right. split_and!; try done.
    + destruct Hy as [Hy|Hy]; [left|right; apply timeout_fired_snoc; by left].
      rewrite eof_markers_snoc. destruct e; lia.
    + exists t. split; [rewrite fmap_app; set_solver|done].
Qed.

Lemma eof_event_phase net fl targets evs st e :
  0 < fl_numSources fl → eof_phase fl targets evs st →
  eof_phase fl targets (evs ++ [e]) (eof_event net fl st e).
Proof.
  destruct st as [s es]. intros Hn Hp. pose proof Hp as (_ & _ & H3 & _).
  pose proof (eof_markers_snoc evs e) as Hm.
  destruct e as [t|t]; cbn [eof_event].
  - unfold emit_eof. rewrite (proj2 (Z.ltb_lt _ _)) by done. cbv zeta. simpl eofCount. rewrite H3.
    destruct (Z.leb_spec (fl_numSources fl) (eof_markers evs + 1)) as [Hle|Hgt].
    + pose proof (broadcastEOF_phase net fl targets evs (EvEOF t) s (count_eof s) es Hp) as Hb.
      simpl event_marker in Hb. destruct (broadcastEOF net t (count_eof s)) as [s' es'].
      apply Hb; [left; lia|done..|simpl; lia].
    + apply (eof_phase_frame _ _ _ _ s); try done; [|simpl; lia|by case_match].
      intros [H|[H|[]]%timeout_fired_snoc]; [lia|by right].
  - unfold eof_timeout. destruct ((0 <? eofCount s) && (eofCount s <? fl_numSources fl)) eqn:Hc.
    + apply andb_true_iff in Hc as [Hc1%Z.ltb_lt Hc2%Z.ltb_lt]. rewrite H3 in Hc1, Hc2.
      pose proof (broadcastEOF_phase net fl targets evs (EvTimeout t) s s es Hp) as Hb.
      simpl event_marker in Hb. destruct (broadcastEOF net t s) as [s' es'].
      apply Hb; [right; apply timeout_fired_snoc; by right|done..|lia].
    + apply (eof_phase_frame _ _ _ _ s); try done; [|lia].
      rewrite H3 in Hc. apply andb_false_iff in Hc. rewrite !Z.ltb_ge in Hc.
      intros [H|[H|H]%timeout_fired_snoc]; [left; lia|by right|lia].
Qed.

(** C24: A middle stage announces the end of the stream exactly when it has
    ended: when the marker of every source has arrived, or when the timeout
    after the first marker fired while some were missing.  Until then nothing is
    announced and the stage is not told to shut down; from then on it is, and
    one marker, received before, has gone to every target once.  No number of
    further markers or timeouts changes that. *)
Theorem eof_broadcast_once (net : Network) (fl : Flags) (s : OpRun) (evs : list EofEvent) :
  0 < fl_numSources fl → eofCount s = 0 → eofBroadcast s = false → shutdownSignal s = false →
  (∀ x, x ∈ targetList s → x ∈ targetConnections s) →
  let '(s', es) := foldl (eof_event net fl) (s, []) evs in
  eofCount s' = eof_markers evs ∧
  (shutdownSignal s' = false ∧ eof_sends es = [] ∧
     eof_markers evs < fl_numSources fl ∧ ¬ timeout_fired fl evs ∨
   shutdownSignal s' = true ∧ (fl_numSources fl <= eof_markers evs ∨ timeout_fired fl evs) ∧
     ∃ t, t ∈ event_marker <$> evs ∧ eof_sends es = (λ x, (x, t)) <$> targetList s).
Proof.
  intros Hn Hc Hb Hs Hconn.
  assert (eof_phase fl (targetList s) evs (foldl (eof_event net fl) (s, []) evs)) as Hp.
  { induction evs as [|e evs IH] using rev_ind.
    - split; [done|]. split; [done|]. split; [done|]. left. split_and!; try done.
      intros [H|(pre & ? & ? & H & _)]; [unfold eof_markers in H; simpl in H; lia|by destruct pre].
    - rewrite foldl_app. by apply eof_event_phase. }
  destruct (foldl _ _ evs) as [s' es]. destruct Hp as (_ & _ & H3 & H4). split; [done|].
  destruct H4 as [(_ & ? & ? & Hne)|(_ & ? & He & ?)]; [left|by right].
  split_and!; try done; [|intros Hend; by apply Hne; right]. apply Z.nle_gt. intros Hend. by apply Hne; left.
Qed.

Definition middle_flags : Flags := mkFlags 10005 "a:1,b:1" "" 2 "" "vm1:8000" "stage1-task-0".

(** Two sources: nothing after the first marker, the broadcast of the second; and
    the broadcast of the timeout when the second never comes. *)
Lemma eof_broadcast_once_witness :
  ∃ s, start good_net middle_flags FetchError = Some s ∧
    (let '(s', es) := foldl (eof_event good_net middle_flags) (s, []) [EvEOF (eof "e1")] in
     shutdownSignal s' = false ∧ eof_sends es = []) ∧
    (let '(s', es) := foldl (eof_event good_net middle_flags) (s, []) [EvEOF (eof "e1"); EvTimeout (eof "e1")] in
     shutdownSignal s' = true ∧ ∃ t, eof_sends es = [("a:1", t); ("b:1", t)]).
Proof.
  destruct (start good_net middle_flags FetchError) as [s|] eqn:Hs; [|discriminate Hs].
  exists s. split; [done|].
  pose proof (λ evs, eof_broadcast_once good_net middle_flags s evs eq_refl) as H.
  injection Hs as <-.
  assert (∀ x, x ∈ ["a:1"; "b:1"] → x ∈ (list_to_set ["a:1"; "b:1"] : gset string)) as Hx
    by (intros x ?; by apply elem_of_list_to_set).
  split.
  - specialize (H [EvEOF (eof "e1")] eq_refl eq_refl eq_refl Hx). destruct (foldl _ _ _) as [s' es].
    destruct H as (_ & [(? & ? & _)|(_ & [He|(pre & t & post & He & _)] & _)]); [done| |].
    + vm_compute in He. by destruct He.
    + by repeat (destruct pre as [|? pre]; simplify_eq/=).
  - specialize (H [EvEOF (eof "e1"); EvTimeout (eof "e1")] eq_refl eq_refl eq_refl Hx).
    destruct (foldl _ _ _) as [s' es].
    destruct H as (_ & [(_ & _ & _ & Hf)|(? & _ & t & _ & ?)]); [|split; [done|by exists t]].
    destruct Hf. by exists [EvEOF (eof "e1")], (eof "e1"), [].
Defined.
