(* ===== verification/Connections.v ===== *)
(** * Connections: pkg/rainstorm/api.go, the goroutines of the operator process

    [StartOperation] accepts connections and serves each in a goroutine of its
    own; the mutex of the processed identifiers is held for the lookup and for
    the mark, and released in between, while the operation runs.  A goroutine is
    a [Phase], one step of it is what it does between two releases of a lock,
    and a run of the process is a list of events: a tuple arrives on a
    connection, a goroutine advances, the end-of-stream timeout wakes up, the
    main goroutine shuts down, an append worker takes a line from its channel.
    The schedules are those up to the closing of the output file: the code
    leaves the goroutines half a second for the tuples they are working on. *)

From S2P Require Import Prelude GoStrings GoFlags Env Membership Common RainStorm Operators Runtime.

(** ** State *)

(** Where the goroutine of a connection is: waiting for a tuple; having found
    the tuple new; having run the operation, with what it still has to emit;
    having written the checkpoint; about to acknowledge. *)
Inductive Phase :=
  | Idle
  | Checked (t : Tuple)
  | Emitting (t : Tuple) (out : list Tuple)
  | Stored (t : Tuple)
  | Acking (t : Tuple).

(** The process: [tk_got] and [tk_log] record the tuples it took from its
    connections and those the operation ran on, in order. *)
Record Task (op : Operation) := mkTask {
  tk_op : op_state op;
  tk_run : OpRun;
  tk_phases : gmap nat Phase;
  tk_got : list Tuple;
  tk_log : list Tuple;
  tk_effects : list OpEffect;
}.
Arguments mkTask {_} _ _ _ _ _ _.
Arguments tk_op {_} _.
Arguments tk_run {_} _.
Arguments tk_phases {_} _.
Arguments tk_got {_} _.
Arguments tk_log {_} _.
Arguments tk_effects {_} _.

Inductive Event :=
  | Arrive (c : nat) (t : Tuple)
  | Advance (c : nat)
  | Timeout (t : Tuple)
  | Shutdown
  | TakeState
  | TakeLine.

Definition new_task {op : Operation} (os : op_state op) (s : OpRun) : Task op := mkTask os s ∅ [] [] [].

Definition shut_down (s : OpRun) : OpRun :=
  mkOpRun (targetList s) (targetConnections s) (targetDecoders s) (processedIDs s) (eofCount s) (eofBroadcast s)
    (shutdownSignal s) true (tuplesProcessed s) (outLines s) (hydfsAppendChan s) (stateLogChan s).
Definition take_queues (lines ids : list string) (s : OpRun) : OpRun :=
  mkOpRun (targetList s) (targetConnections s) (targetDecoders s) (processedIDs s) (eofCount s) (eofBroadcast s)
    (shutdownSignal s) (isShuttingDown s) (tuplesProcessed s) (outLines s) lines ids.

Section steps.
Context (op : Operation) (net : Network) (fl : Flags).

Definition phase (st : Task op) (c : nat) : Phase := default Idle (tk_phases st !! c).

Definition set_phase (c : nat) (p : Phase) (st : Task op) : Task op :=
  mkTask (tk_op st) (tk_run st) (<[c := p]> (tk_phases st)) (tk_got st) (tk_log st) (tk_effects st).
Definition set_run (s : OpRun) (es : list OpEffect) (st : Task op) : Task op :=
  mkTask (tk_op st) s (tk_phases st) (tk_got st) (tk_log st) (tk_effects st ++ es).
Definition take_tuple (t : Tuple) (st : Task op) : Task op :=
  mkTask (tk_op st) (tk_run st) (tk_phases st) (tk_got st ++ [t]) (tk_log st) (tk_effects st).
Definition run_process (t : Tuple) (st : Task op) : Task op :=
  mkTask (Process op (tk_op st) t).1 (if IsEOF t then tk_run st else count_tuple_in (tk_run st))
    (tk_phases st) (tk_got st) (tk_log st ++ [t]) (tk_effects st).

(** A goroutine decodes a tuple: the routing update, the acknowledgement, and the
    lookup of the identifier.  A busy one does not read from its connection. *)
Definition arrive (c : nat) (t : Tuple) (st : Task op) : option (Task op) :=
  match phase st c with
  | Idle =>
      if decide (Type_ t = "routing_update") then
        s ← routing_update net t (tk_run st); Some (set_run s [] st)
      else if decide (Type_ t = "ack") then Some st
      else if decide (tu_ID t ∈ processedIDs (tk_run st)) then Some (set_phase c (Acking t) (take_tuple t st))
      else Some (set_phase c (Checked t) (take_tuple t st))
  | _ => Some st
  end.

(** The rest of a turn of the loop, step by step. *)
Definition advance (c : nat) (st : Task op) : option (Task op) :=
  match phase st c with
  | Idle => Some st
  | Checked t => Some (set_phase c (Emitting t (Process op (tk_op st) t).2) (run_process t st))
  | Emitting t (u :: out) =>
      '(s, es) ← emit net fl u (tk_run st); Some (set_phase c (Emitting t out) (set_run s es st))
  | Emitting t [] =>
      let '(s, es) := checkpoint fl t (tk_run st) in Some (set_phase c (Stored t) (set_run s es st))
  | Stored t =>
      Some (set_phase c (Acking t)
        (set_run (if IsEOF t then tk_run st else set_processed (tu_ID t) (tk_run st)) [] st))
  | Acking t => Some (set_phase c Idle (set_run (tk_run st) [Acked (tu_ID t)] st))
  end.

(** [None] is a crash of the process. *)
Definition step (e : Event) (st : Task op) : option (Task op) :=
  match e with
  | Arrive c t => arrive c t st
  | Advance c => advance c st
  | Timeout t => let '(s, es) := eof_timeout net fl t (tk_run st) in Some (set_run s es st)
  | Shutdown => Some (set_run (if shutdownSignal (tk_run st) then shut_down (tk_run st) else tk_run st) [] st)
  | TakeState => Some (set_run (take_queues (hydfsAppendChan (tk_run st)) (tail (stateLogChan (tk_run st))) (tk_run st)) [] st)
  | TakeLine => Some (set_run (take_queues (tail (hydfsAppendChan (tk_run st))) (stateLogChan (tk_run st)) (tk_run st)) [] st)
  end.

Fixpoint run_events (evs : list Event) (st : Task op) : option (Task op) :=
  match evs with
  | [] => Some st
  | e :: evs' => st' ← step e st; run_events evs' st'
  end.
End steps.
Arguments phase {_} _ _.
Arguments set_phase {_} _ _ _.
Arguments set_run {_} _ _ _.
Arguments take_tuple {_} _ _.
Arguments run_process {_} _ _.
Arguments arrive {_} _ _ _ _.
Arguments advance {_} _ _ _ _.
Arguments step {_} _ _ _ _.
Arguments run_events {_} _ _ _ _.

(** ** What a goroutine is working on *)

(** The tuple whose identifier is not marked yet, and the one that is not
    acknowledged yet. *)
Definition held (p : Phase) : option Tuple :=
  match p with Checked t | Emitting t _ | Stored t => Some t | _ => None end.

Definition pending (p : Phase) : option string :=
  match p with Idle => None | Checked t | Emitting t _ | Stored t | Acking t => Some (tu_ID t) end.

Definition unacknowledged (m : gmap nat Phase) : list string := omap (λ e, pending e.2) (map_to_list m).

(** Two goroutines work on the same data tuple. *)
Definition overlap {op} (st : Task op) : Prop :=
  ∃ c1 c2 t1 t2, c1 ≠ c2 ∧ held (phase st c1) = Some t1 ∧ held (phase st c2) = Some t2 ∧
    IsEOF t1 = false ∧ IsEOF t2 = false ∧ tu_ID t1 = tu_ID t2.

(** They do at some point of the run. *)
Definition overlaps {op} (net : Network) (fl : Flags) (evs : list Event) (st0 : Task op) : Prop :=
  ∃ pre post st, evs = pre ++ post ∧ run_events net fl pre st0 = Some st ∧ overlap st.

(** ** Lemmas: the phases *)

(** What the bookkeeping of the identifiers sees of a phase: before the
    operation has run, after, and once the identifier is marked. *)
Inductive Mark := Before | After | Marked.

Definition stage (p : Phase) : option (Mark * Tuple) :=
  match p with
  | Idle => None
  | Checked t => Some (Before, t)
  | Emitting t _ | Stored t => Some (After, t)
  | Acking t => Some (Marked, t)
  end.

Lemma pending_stage p : pending p = (λ e, tu_ID e.2) <$> stage p.
Proof. by destruct p. Qed.

Lemma held_stage p t : held p = Some t ↔ stage p = Some (Before, t) ∨ stage p = Some (After, t).
Proof. destruct p; simpl; naive_solver. Qed.

Lemma unacknowledged_set m c p :
  unacknowledged (<[c := p]> m) ++ option_list (pending (default Idle (m !! c))) ≡ₚ
  option_list (pending p) ++ unacknowledged m.
Proof.
  unfold unacknowledged.
  assert (map_to_list (<[c := p]> m) ≡ₚ (c, p) :: map_to_list (delete c m)) as Hm
    by (rewrite <- insert_delete_eq; apply map_to_list_insert, lookup_delete_eq).
  rewrite Hm. cbn [omap list_omap snd]. destruct (m !! c) as [q|] eqn:E; simpl.
  - assert (map_to_list m ≡ₚ (c, q) :: map_to_list (delete c m)) as -> by (symmetry; by apply map_to_list_delete).
    cbn [omap list_omap snd]. destruct (pending p), (pending q); simpl; try done.
    + constructor. rewrite Permutation_app_comm. done.
    + by rewrite app_nil_r.
    + rewrite Permutation_app_comm. done.
    + by rewrite app_nil_r.
  - rewrite (delete_id _ _ E), app_nil_r. by destruct (pending p).
Qed.

Section invariant.
Context (op : Operation) (net : Network) (fl : Flags).
Implicit Types (st : Task op).

Lemma phase_set st c c' p : phase (set_phase c p st) c' = if decide (c = c') then p else phase st c'.
Proof.
  unfold phase. simpl. destruct (decide (c = c')) as [->|]; [by rewrite lookup_insert_eq|by rewrite lookup_insert_ne].
Qed.

Lemma unacknowledged_phase st c p ids :
  pending (phase st c) = None → ids ≡ₚ option_list (pending p) ++ unacknowledged (tk_phases st) →
  unacknowledged (tk_phases (set_phase c p st)) ≡ₚ ids.
Proof.
  intros Hc ->. pose proof (unacknowledged_set (tk_phases st) c p) as H. unfold phase in Hc. rewrite Hc in H.
  simpl in H. by rewrite app_nil_r in H.
Qed.

(** ** Lemmas: the moves *)

(** A step, as the bookkeeping of the identifiers sees it. *)
Inductive move st : Task op → Prop :=
  | move_quiet s m es :
      processedIDs s = processedIDs (tk_run st) → acks es = [] →
      (∀ c, stage (default Idle (m !! c)) = stage (phase st c)) →
      unacknowledged m ≡ₚ unacknowledged (tk_phases st) →
      move st (mkTask (tk_op st) s m (tk_got st) (tk_log st) (tk_effects st ++ es))
  | move_duplicate c t :
      phase st c = Idle → tu_ID t ∈ processedIDs (tk_run st) →
      move st (set_phase c (Acking t) (take_tuple t st))
  | move_check c t :
      phase st c = Idle → tu_ID t ∉ processedIDs (tk_run st) →
      move st (set_phase c (Checked t) (take_tuple t st))
  | move_process c t :
      phase st c = Checked t →
      move st (set_phase c (Emitting t (Process op (tk_op st) t).2) (run_process t st))
  | move_mark c t :
      phase st c = Stored t →
      move st (set_phase c (Acking t)
        (set_run (if IsEOF t then tk_run st else set_processed (tu_ID t) (tk_run st)) [] st))
  | move_ack c t :
      phase st c = Acking t →
      move st (set_phase c Idle (set_run (tk_run st) [Acked (tu_ID t)] st)).

Lemma move_run st s es :
  processedIDs s = processedIDs (tk_run st) → acks es = [] → move st (set_run s es st).
Proof. intros. by apply (move_quiet st s (tk_phases st) es). Qed.

Lemma move_same st : move st st.
Proof.
  pose proof (move_run st (tk_run st) [] eq_refl eq_refl) as H. unfold set_run in H.
  rewrite app_nil_r in H. by destruct st.
Qed.

(** A step of a goroutine between the operation and the mark. *)
Lemma move_inner st c p s es :
  stage p = stage (phase st c) → processedIDs s = processedIDs (tk_run st) → acks es = [] →
  move st (set_phase c p (set_run s es st)).
Proof.
  intros Hp Hs He. apply (move_quiet st s (<[c := p]> (tk_phases st)) es); [done|done| |].
  - intros c'. change (default Idle (_ !! c')) with (phase (set_phase c p st) c').
    rewrite phase_set. by destruct (decide (c = c')) as [->|].
  - pose proof (unacknowledged_set (tk_phases st) c p) as H.
    change (default Idle (tk_phases st !! c)) with (phase st c) in H.
    rewrite !pending_stage, Hp, (Permutation_app_comm (option_list _)) in H.
    by apply Permutation_app_inv_r in H.
Qed.

Lemma broadcastEOF_frame t s :
  processedIDs (broadcastEOF net t s).1 = processedIDs s ∧ acks (broadcastEOF net t s).2 = [].
Proof.
  unfold broadcastEOF. destruct (eofBroadcast s); [done|].
  pose proof (broadcast_targets_frame net t (set_broadcast s)) as H.
  by destruct (broadcast_targets net t (set_broadcast s)).
Qed.

Lemma step_move e st st' : step net fl e st = Some st' → move st st'.
Proof.
  destruct e as [c t|c|t| | |]; cbn [step].
  - unfold arrive. destruct (phase st c) eqn:Hc; [|intros [= <-]; apply move_same..].
    case_decide.
    { destruct (routing_update _ _ _) as [s|] eqn:Hr; [|done]. intros [= <-]. apply move_run; [|done].
      unfold routing_update in Hr. destruct (Value_ t); [done|]. by injection Hr as <-. }
    case_decide; [intros [= <-]; apply move_same|].
    case_decide; intros [= <-]; [by apply move_duplicate|by apply move_check].
  - unfold advance. destruct (phase st c) as [|t|t out|t|t] eqn:Hc.
    + intros [= <-]. apply move_same.
    + intros [= <-]. by apply move_process.
    + destruct out as [|u out].
      * pose proof (checkpoint_quiet fl t (tk_run st)) as [H1 H2].
        destruct (checkpoint _ _ _) as [s es]. intros [= <-]. apply move_inner; [by rewrite Hc|done|done].
      * destruct (emit _ _ _ _) as [[s es]|] eqn:He; [|done]. intros [= <-]. apply emit_frame in He as [H1 H2].
        apply move_inner; [by rewrite Hc|done|done].
    + intros [= <-]. by apply move_mark.
    + intros [= <-]. by apply move_ack.
  - unfold eof_timeout. destruct (_ && _).
    + pose proof (broadcastEOF_frame t (tk_run st)) as [H1 H2]. destruct (broadcastEOF _ _ _) as [s es].
      intros [= <-]. by apply move_run.
    + intros [= <-]. by apply move_run.
  - intros [= <-]. apply move_run; [|done]. by destruct (shutdownSignal _).
  - intros [= <-]. by apply move_run.
  - intros [= <-]. by apply move_run.
Qed.

(** ** The invariant of a run *)

Record bookkeeping (os0 : op_state op) (ids0 : gset string) st : Prop := {
  bk_op : tk_op st = (run_op op os0 (tk_log st)).1;
  bk_old : ids0 ⊆ processedIDs (tk_run st);
  bk_new id : id ∈ processedIDs (tk_run st) → id ∈ ids0 ∨ id ∈ data_ids (tk_log st);
  bk_log id : id ∈ data_ids (tk_log st) → id ∈ processedIDs (tk_run st) ∨
    ∃ c t, stage (phase st c) = Some (After, t) ∧ IsEOF t = false ∧ tu_ID t = id;
  bk_after c t : stage (phase st c) = Some (After, t) → IsEOF t = false → tu_ID t ∈ data_ids (tk_log st);
  bk_marked c t : stage (phase st c) = Some (Marked, t) → IsEOF t = false → tu_ID t ∈ processedIDs (tk_run st);
  bk_phase c m t : stage (phase st c) = Some (m, t) → t ∈ tk_got st;
  bk_got t : t ∈ tk_got st → IsEOF t = false → tu_ID t ∈ processedIDs (tk_run st) ∨
    ∃ c, held (phase st c) = Some t;
  bk_acks : acks (tk_effects st) ++ unacknowledged (tk_phases st) ≡ₚ tu_ID <$> tk_got st;
  bk_acked id : id ∈ acks (tk_effects st) → ∃ t, t ∈ tk_got st ∧ tu_ID t = id ∧
    (IsEOF t = false → id ∈ processedIDs (tk_run st));
}.
Arguments bk_op {_ _ _} _.
Arguments bk_old {_ _ _} _.
Arguments bk_new {_ _ _} _.
Arguments bk_log {_ _ _} _.
Arguments bk_after {_ _ _} _.
Arguments bk_marked {_ _ _} _.
Arguments bk_phase {_ _ _} _.
Arguments bk_got {_ _ _} _.
Arguments bk_acks {_ _ _} _.
Arguments bk_acked {_ _ _} _.

Lemma data_ids_snoc l t : data_ids (l ++ [t]) = data_ids l ++ (if IsEOF t then [] else [tu_ID t]).
Proof. unfold data_ids. rewrite omap_app. simpl. by destruct (IsEOF t). Qed.

Lemma acks_snoc es id : acks (es ++ [Acked id]) = acks es ++ [id].
Proof. by rewrite acks_app. Qed.

Lemma run_op_last os l t : (run_op op os (l ++ [t])).1 = (Process op (run_op op os l).1 t).1.
Proof. rewrite run_op_snoc. destruct (run_op op os l) as [s out]. simpl. by destruct (Process op s t). Qed.

Lemma new_task_bookkeeping os s : bookkeeping os (processedIDs s) (new_task os s).
Proof. split; try done; simpl; try set_solver. Qed.

(** A move that puts the goroutine of [c] into the phase [p]: what the fields
    that speak of all goroutines need. *)
Lemma acks_pending st c p es' got' :
  acks (tk_effects st) ++ unacknowledged (tk_phases st) ≡ₚ tu_ID <$> tk_got st →
  acks es' ++ option_list (pending p) ≡ₚ option_list (tu_ID <$> got') ++ option_list (pending (phase st c)) →
  acks (tk_effects st ++ es') ++ unacknowledged (tk_phases (set_phase c p st)) ≡ₚ
    tu_ID <$> (tk_got st ++ option_list got').
Proof.
  intros Hb Hp. pose proof (unacknowledged_set (tk_phases st) c p) as H.
  change (default Idle (tk_phases st !! c)) with (phase st c) in H.
  apply (Permutation_app_inv_r (option_list (pending (phase st c)))).
  rewrite <- app_assoc. simpl. rewrite H, acks_app, fmap_app, <- Hb.
  assert (tu_ID <$> option_list got' = option_list (tu_ID <$> got')) as -> by (by destruct got').
  rewrite <- !app_assoc. apply Permutation_app_head.
  rewrite (app_assoc (acks es')), Hp. apply Permutation_app_comm.
Qed.

Ltac at_phase :=
  repeat match goal with
  | H : context [phase (set_phase _ _ _) _] |- _ => rewrite phase_set in H
  | |- context [phase (set_phase _ _ _) _] => rewrite phase_set
  end;
  repeat case_decide; simplify_eq/=.

(** The goroutines other than that of [c] are where they were. *)
Lemma after_kept st st1 c p c' t :
  phase st1 = phase st → stage (phase st c') = Some (After, t) →
  (∀ u, stage (phase st c) = Some (After, u) → stage p = Some (After, u)) →
  stage (phase (set_phase c p st1) c') = Some (After, t).
Proof. intros E H Hp. at_phase; [by apply Hp|by rewrite E]. Qed.

Lemma held_kept st st1 c p c' t :
  phase st1 = phase st → held (phase st c') = Some t →
  (∀ u, held (phase st c) = Some u → held p = Some u) →
  held (phase (set_phase c p st1) c') = Some t.
Proof. intros E H Hp. at_phase; [by apply Hp|by rewrite E]. Qed.

Lemma quiet_bookkeeping os0 ids0 st s m es :
  processedIDs s = processedIDs (tk_run st) → acks es = [] →
  (∀ c, stage (default Idle (m !! c)) = stage (phase st c)) →
  unacknowledged m ≡ₚ unacknowledged (tk_phases st) → bookkeeping os0 ids0 st →
  bookkeeping os0 ids0 (mkTask (tk_op st) s m (tk_got st) (tk_log st) (tk_effects st ++ es)).
Proof.
  intros Hs Hes Hst Hun [B1 B2 B3 B4 B5 B6 B7 B8 B9 B10].
  assert (∀ c, phase (mkTask (op := op) (tk_op st) s m (tk_got st) (tk_log st) (tk_effects st ++ es)) c = default Idle (m !! c)) as Hph by done.
  split; simpl; rewrite ?Hs, ?acks_app, ?Hes, ?app_nil_r; try done.
  - intros id Hid. setoid_rewrite Hph. setoid_rewrite Hst. by apply B4.
  - intros c t. rewrite Hph, Hst. apply B5.
  - intros c t. rewrite Hph, Hst. apply B6.
  - intros c k t. rewrite Hph, Hst. apply B7.
  - intros t Ht He. setoid_rewrite held_stage. setoid_rewrite Hph. setoid_rewrite Hst.
    setoid_rewrite <- held_stage. by apply B8.
  - by rewrite Hun.
Qed.

Lemma duplicate_bookkeeping os0 ids0 st c t :
  phase st c = Idle → tu_ID t ∈ processedIDs (tk_run st) → bookkeeping os0 ids0 st →
  bookkeeping os0 ids0 (set_phase c (Acking t) (take_tuple t st)).
Proof.
  intros Hc Hin [B1 B2 B3 B4 B5 B6 B7 B8 B9 B10].
  split; simpl; try done.
  - intros id [?|(c' & u & Hu & ?)]%B4; [by left|right]. exists c', u. split; [|done].
    apply (after_kept st); [done|exact Hu|by rewrite Hc].
  - intros c' u Hu. at_phase. eauto.
  - intros c' u Hu. at_phase; eauto.
  - intros c' k u Hu. at_phase; [set_solver|]. apply elem_of_app; eauto.
  - intros u [Hu| ->%list_elem_of_singleton]%elem_of_app He; [|by left].
    destruct (B8 u Hu He) as [?|[c' Hh]]; [by left|right]. exists c'.
    apply (held_kept st); [done|exact Hh|by rewrite Hc].
  - pose proof (acks_pending st c (Acking t) [] (Some t) B9) as H. rewrite app_nil_r in H. apply H. by rewrite Hc.
  - intros id (u & Hu & Hi)%B10. exists u. split; [set_solver|done].
Qed.

Lemma check_bookkeeping os0 ids0 st c t :
  phase st c = Idle → tu_ID t ∉ processedIDs (tk_run st) → bookkeeping os0 ids0 st →
  bookkeeping os0 ids0 (set_phase c (Checked t) (take_tuple t st)).
Proof.
  intros Hc Hin [B1 B2 B3 B4 B5 B6 B7 B8 B9 B10].
  split; simpl; try done.
  - intros id [?|(c' & u & Hu & ?)]%B4; [by left|right]. exists c', u. split; [|done].
    apply (after_kept st); [done|exact Hu|by rewrite Hc].
  - intros c' u Hu. at_phase. eauto.
  - intros c' u Hu. at_phase; eauto.
  - intros c' k u Hu. at_phase; [set_solver|]. apply elem_of_app; eauto.
  - intros u [Hu| ->%list_elem_of_singleton]%elem_of_app He; [|right; exists c; at_phase; done].
    destruct (B8 u Hu He) as [?|[c' Hh]]; [by left|right]. exists c'.
    apply (held_kept st); [done|exact Hh|by rewrite Hc].
  - pose proof (acks_pending st c (Checked t) [] (Some t) B9) as H. rewrite app_nil_r in H. apply H. by rewrite Hc.
  - intros id (u & Hu & Hi)%B10. exists u. split; [set_solver|done].
Qed.

Lemma process_bookkeeping os0 ids0 st c t :
  phase st c = Checked t → bookkeeping os0 ids0 st →
  bookkeeping os0 ids0 (set_phase c (Emitting t (Process op (tk_op st) t).2) (run_process t st)).
Proof.
  intros Hc [B1 B2 B3 B4 B5 B6 B7 B8 B9 B10].
  assert (processedIDs (if IsEOF t then tk_run st else count_tuple_in (tk_run st)) = processedIDs (tk_run st)) as Hs
    by (by destruct (IsEOF t)).
  split; simpl; rewrite ?Hs; try done.
  - by rewrite run_op_last, <- B1.
  - intros id [?|?]%B3; [by left|right]. rewrite data_ids_snoc. set_solver.
  - intros id. rewrite data_ids_snoc. intros [[?|(c' & u & Hu & ?)]%B4|Hid]%elem_of_app; [by left| |]; right.
    + exists c', u. split; [|done]. apply (after_kept st); [done|exact Hu|by rewrite Hc].
    + exists c, t. at_phase. destruct (IsEOF t) eqn:He; [by apply elem_of_nil in Hid|].
      split; [done|]. split; [done|]. by apply list_elem_of_singleton in Hid.
  - intros c' u Hu He. rewrite data_ids_snoc. at_phase; [rewrite He; set_solver|].
    apply elem_of_app; left; eauto.
  - intros c' u Hu. at_phase; eauto.
  - intros c' k u Hu. at_phase; [eapply B7; by rewrite Hc|eauto].
  - intros u Hu He. destruct (B8 u Hu He) as [?|[c' Hh]]; [by left|right]. exists c'.
    apply (held_kept st); [done|exact Hh|by rewrite Hc].
  - pose proof (acks_pending st c (Emitting t (Process op (tk_op st) t).2) [] None B9) as H.
    rewrite !app_nil_r in H. apply H. by rewrite Hc.
Qed.

Lemma mark_bookkeeping os0 ids0 st c t :
  phase st c = Stored t → bookkeeping os0 ids0 st →
  bookkeeping os0 ids0 (set_phase c (Acking t)
    (set_run (if IsEOF t then tk_run st else set_processed (tu_ID t) (tk_run st)) [] st)).
Proof.
  intros Hc [B1 B2 B3 B4 B5 B6 B7 B8 B9 B10].
  set (s := if IsEOF t then tk_run st else set_processed (tu_ID t) (tk_run st)).
  assert (∀ id, id ∈ processedIDs s ↔ id ∈ processedIDs (tk_run st) ∨ IsEOF t = false ∧ id = tu_ID t) as Hs.
  { intros id. unfold s. destruct (IsEOF t); simpl; [naive_solver|set_solver]. }
  split; simpl; try setoid_rewrite Hs; try done.
  - intros id Hid. apply Hs. left. by apply B2.
  - intros id [?|[He ->]]; [by apply B3|right]. apply (B5 c); [by rewrite Hc|done].
  - intros id [?|(c' & u & Hu & He & Hi)]%B4; [by do 2 left|].
    destruct (decide (c' = c)) as [->|Hne].
    + rewrite Hc in Hu. simplify_eq/=. left. by right.
    + right. exists c', u. at_phase; done.
  - intros c' u Hu. at_phase. eauto.
  - intros c' u Hu. at_phase; eauto.
  - intros c' k u Hu. at_phase; [eapply B7; by rewrite Hc|eauto].
  - intros u Hu He. destruct (B8 u Hu He) as [?|[c' Hh]]; [by do 2 left|].
    destruct (decide (c' = c)) as [->|Hne]; [|right; exists c'; at_phase; done].
    rewrite Hc in Hh. simplify_eq/=. left. by right.
  - pose proof (acks_pending st c (Acking t) [] None B9) as H. rewrite !app_nil_r in H. rewrite app_nil_r.
    apply H. by rewrite Hc.
  - rewrite app_nil_r. intros id (u & Hu & Hi & Hd)%B10. exists u. split; [done|]. split; [done|]. intros He. left. by apply Hd.
Qed.

Lemma ack_bookkeeping os0 ids0 st c t :
  phase st c = Acking t → bookkeeping os0 ids0 st →
  bookkeeping os0 ids0 (set_phase c Idle (set_run (tk_run st) [Acked (tu_ID t)] st)).
Proof.
  intros Hc [B1 B2 B3 B4 B5 B6 B7 B8 B9 B10].
  split; simpl; try done.
  - intros id [?|(c' & u & Hu & ?)]%B4; [by left|right]. exists c', u. split; [|done].
    apply (after_kept st); [done|exact Hu|by rewrite Hc].
  - intros c' u Hu. at_phase. eauto.
  - intros c' u Hu. at_phase; eauto.
  - intros c' k u Hu. at_phase; eauto.
  - intros u Hu He. destruct (B8 u Hu He) as [?|[c' Hh]]; [by left|right]. exists c'.
    apply (held_kept st); [done|exact Hh|by rewrite Hc].
  - pose proof (acks_pending st c Idle [Acked (tu_ID t)] None B9) as H. rewrite !app_nil_r in H.
    apply H. by rewrite Hc.
  - intros id. rewrite acks_snoc. intros [(u & Hu & Hi)%B10| ->%list_elem_of_singleton]%elem_of_app; [by exists u|].
    exists t. split; [by eapply (B7 c); rewrite Hc|]. split; [done|]. intros He. apply (B6 c); [by rewrite Hc|done].
Qed.

Lemma move_bookkeeping os0 ids0 st st' :
  move st st' → bookkeeping os0 ids0 st → bookkeeping os0 ids0 st'.
Proof.
  intros []; eauto using quiet_bookkeeping, duplicate_bookkeeping, check_bookkeeping, process_bookkeeping,
    mark_bookkeeping, ack_bookkeeping.
Qed.

(** ** Lemmas: exactly once *)

(** No data tuple has been processed twice, nor is about to be. *)
Record once (ids0 : gset string) st : Prop := {
  on_log : NoDup (data_ids (tk_log st));
  on_old id : id ∈ data_ids (tk_log st) → id ∉ ids0;
  on_checked c t : stage (phase st c) = Some (Before, t) → IsEOF t = false → tu_ID t ∉ processedIDs (tk_run st);
}.

Lemma new_task_once os s : once (processedIDs s) (new_task os s).
Proof. split; simpl; [constructor|set_solver|done]. Qed.

Lemma process_once os0 ids0 st c t :
  phase st c = Checked t → ¬ overlap st → bookkeeping os0 ids0 st → once ids0 st →
  once ids0 (set_phase c (Emitting t (Process op (tk_op st) t).2) (run_process t st)).
Proof.
  intros Hc Hov B [O1 O2 O3].
  assert (processedIDs (if IsEOF t then tk_run st else count_tuple_in (tk_run st)) = processedIDs (tk_run st)) as Hs
    by (by destruct (IsEOF t)).
  assert (IsEOF t = false → tu_ID t ∉ processedIDs (tk_run st)) as Hn by (apply (O3 c); by rewrite Hc).
  assert (IsEOF t = false → tu_ID t ∉ data_ids (tk_log st)) as Hl.
  { intros He [?|(c' & u & Hu & Hue & Hi)]%(bk_log B); [by apply Hn|]. apply Hov.
    exists c', c, u, t. split; [intros ->; by rewrite Hc in Hu|]. split; [apply held_stage; by right|].
    split; [by rewrite Hc|done]. }
  split; simpl.
  - rewrite data_ids_snoc. destruct (IsEOF t) eqn:He; [by rewrite app_nil_r|].
    apply NoDup_app. split; [done|]. split; [|apply NoDup_singleton].
    intros id Hid ->%list_elem_of_singleton. by apply Hl.
  - intros id. rewrite data_ids_snoc. intros [?|Hid]%elem_of_app; [by apply O2|].
    destruct (IsEOF t) eqn:He; [by apply elem_of_nil in Hid|]. apply list_elem_of_singleton in Hid as ->.
    intros Hin. apply Hn; [done|]. by apply (bk_old B).
  - intros c' u Hu. rewrite Hs. at_phase. by apply (O3 c').
Qed.

Lemma move_once os0 ids0 st st' :
  move st st' → ¬ overlap st → bookkeeping os0 ids0 st → once ids0 st → once ids0 st'.
Proof.
  intros Hm Hov B [O1 O2 O3]. destruct Hm as [s m es Hs Hes Hst Hun|c t Hc Hin|c t Hc Hin|c t Hc|c t Hc|c t Hc].
  - split; simpl; try done. intros c t Hc. rewrite Hs. apply (O3 c). by rewrite <- Hst.
  - split; simpl; try done. intros c' u Hu. at_phase. by apply (O3 c').
  - split; simpl; try done. intros c' u Hu. at_phase; [done|]. by apply (O3 c').
  - by eapply process_once.
  - split; simpl; try done. intros c' u Hu He. at_phase.
    destruct (IsEOF t) eqn:Ht; [by apply (O3 c')|]. simpl.
    intros [Hi%elem_of_singleton|Hi]%elem_of_union; [|by apply (O3 c' u)]. apply Hov.
    exists c, c', t, u. split; [done|]. split; [by rewrite Hc|]. split; [apply held_stage; by left|done].
  - split; simpl; try done. intros c' u Hu. at_phase. by apply (O3 c').
Qed.

(** ** Lemmas: runs *)

Lemma run_events_app evs1 evs2 st :
  run_events net fl (evs1 ++ evs2) st = run_events net fl evs1 st ≫= run_events net fl evs2.
Proof.
  revert st; induction evs1 as [|e evs1 IH]; intros st; [done|]. simpl.
  destruct (step net fl e st); simpl; [apply IH|done].
Qed.

Lemma run_bookkeeping os0 ids0 evs st st' :
  run_events net fl evs st = Some st' → bookkeeping os0 ids0 st → bookkeeping os0 ids0 st'.
Proof.
  revert st; induction evs as [|e evs IH]; intros st; simpl; [by intros [= ->]|].
  destruct (step net fl e st) as [st1|] eqn:He; [|done]. intros Hr B. apply (IH st1 Hr).
  eapply move_bookkeeping; [by eapply step_move|done].
Qed.

Lemma run_once os0 ids0 evs st st' :
  run_events net fl evs st = Some st' → ¬ overlaps net fl evs st →
  bookkeeping os0 ids0 st → once ids0 st → once ids0 st'.
Proof.
  revert st; induction evs as [|e evs IH]; intros st; simpl; [by intros [= ->]|].
  destruct (step net fl e st) as [st1|] eqn:He; [|done]. intros Hr Hov B O.
  apply step_move in He as Hm. apply (IH st1 Hr).
  - intros (pre & post & st2 & -> & Hpre & Ho). apply Hov. exists (e :: pre), post, st2.
    split; [done|]. split; [|done]. cbn [run_events]. by rewrite He.
  - by eapply move_bookkeeping.
  - eapply move_once; [done| |done..]. intros Ho. apply Hov. by exists [], (e :: evs), st.
Qed.

(** A goroutine works on what arrived on its connection. *)
Lemma step_stage e st st' c m t :
  step net fl e st = Some st' → stage (phase st' c) = Some (m, t) →
  e = Arrive c t ∨ ∃ m', stage (phase st c) = Some (m', t).
Proof.
  destruct e as [c1 u|c1|u| | |]; cbn [step].
  - unfold arrive. destruct (phase st c1) eqn:Hc; [|intros [= <-]; eauto..].
    case_decide; [destruct (routing_update _ _ _); [|done]; intros [= <-]; eauto|].
    case_decide; [intros [= <-]; eauto|].
    case_decide; intros [= <-] Hs; at_phase; eauto.
  - unfold advance. destruct (phase st c1) as [|u|u out|u|u] eqn:Hc.
    + intros [= <-]; eauto.
    + intros [= <-] Hs. at_phase; [rewrite Hc|]; eauto.
    + destruct out as [|v out].
      * destruct (checkpoint _ _ _). intros [= <-] Hs. at_phase; [rewrite Hc|]; eauto.
      * destruct (emit _ _ _ _) as [[]|]; [|done]. intros [= <-] Hs. at_phase; [rewrite Hc|]; eauto.
    + intros [= <-] Hs. at_phase; [rewrite Hc|]; eauto.
    + intros [= <-] Hs. at_phase; eauto.
  - destruct (eof_timeout _ _ _ _). intros [= <-]; eauto.
  - intros [= <-]; eauto.
  - intros [= <-]; eauto.
  - intros [= <-]; eauto.
Qed.

Lemma run_stage evs st st' c m t :
  run_events net fl evs st = Some st' → stage (phase st' c) = Some (m, t) →
  Arrive c t ∈ evs ∨ ∃ m', stage (phase st c) = Some (m', t).
Proof.
  revert st. induction evs as [|e evs IH]; intros st; simpl; [intros [= ->]; eauto|].
  destruct (step net fl e st) as [st1|] eqn:He; [|done]. intros Hr Hs.
  destruct (IH st1 Hr Hs) as [?|[m' Hm]]; [left; by right|].
  destruct (step_stage _ _ _ _ _ _ He Hm) as [->|?]; [left; by left|by right].
Qed.

(** If the copies of a tuple all come on one connection, its goroutine is the
    only one that works on it. *)
Lemma one_connection_no_overlap evs os s :
  (∀ c1 c2 t1 t2, Arrive c1 t1 ∈ evs → Arrive c2 t2 ∈ evs → IsEOF t1 = false → IsEOF t2 = false →
    tu_ID t1 = tu_ID t2 → c1 = c2) →
  ¬ overlaps net fl evs (new_task (op := op) os s).
Proof.
  intros Hone (pre & post & st & -> & Hr & c1 & c2 & t1 & t2 & Hne & H1 & H2 & E1 & E2 & Hi). apply Hne.
  assert (∀ c t, held (phase st c) = Some t → Arrive c t ∈ pre ++ post) as Harr.
  { intros c t Hh. apply elem_of_app. left.
    assert (∃ m, stage (phase st c) = Some (m, t)) as [m Hm] by (apply held_stage in Hh as []; eauto).
    by destruct (run_stage _ _ _ _ _ _ Hr Hm) as [?|[? ?]]. }
  by apply (Hone c1 c2 t1 t2); [apply Harr|apply Harr|..].
Qed.
End invariant.
Arguments bk_op {_ _ _ _} _.
Arguments bk_acks {_ _ _ _} _.
Arguments bk_got {_ _ _ _} _.
Arguments bk_new {_ _ _ _} _.
Arguments bk_acked {_ _ _ _} _.

(** ** One tuple at a time *)

Section sequential.
Context {op : Operation} (net : Network) (fl : Flags).

(** The tuples that arrive, in order. *)
Definition arrivals (evs : list Event) : list Tuple :=
  omap (λ e, match e with Arrive _ t => Some t | _ => None end) evs.

Definition all_idle (st : Task op) : Prop := ∀ c, phase st c = Idle.

(** [n] steps of the goroutine of [c] take [st] to [st']; the others rest. *)
Definition steps_to (c : nat) (evs : list Event) (st st' : Task op) (p : Phase) : Prop :=
  run_events net fl evs st = Some st' ∧ phase st' c = p ∧ ∀ c', c' ≠ c → phase st' c' = phase st c'.

Lemma steps_step c e evs st st1 st2 p :
  step net fl e st = Some st1 → (∀ c', c' ≠ c → phase st1 c' = phase st c') →
  steps_to c evs st1 st2 p → steps_to c (e :: evs) st st2 p.
Proof.
  intros He H1 (H2 & H3 & H4). split; [cbn [run_events]; by rewrite He|]. split; [done|].
  intros c' Hc'. by rewrite H4, H1.
Qed.

Lemma phase_other (st st1 : Task op) c c' p :
  phase st1 = phase st → c' ≠ c → phase (set_phase c p st1) c' = phase st c'.
Proof. intros E Hc. rewrite phase_set, decide_False by done. by rewrite E. Qed.

Lemma phase_here (st : Task op) c p : phase (set_phase c p st) c = p.
Proof. by rewrite phase_set, decide_True. Qed.

(** The end of a turn: checkpoint, mark, acknowledgement. *)
Lemma finish_steps c t (st : Task op) :
  phase st c = Emitting t [] →
  let '(s, es) := checkpoint fl t (tk_run st) in
  ∃ st', steps_to c [Advance c; Advance c; Advance c] st st' Idle ∧ tk_op st' = tk_op st ∧
    tk_run st' = (if IsEOF t then s else set_processed (tu_ID t) s) ∧
    tk_effects st' = tk_effects st ++ es ++ [Acked (tu_ID t)] ∧ tk_log st' = tk_log st ∧ tk_got st' = tk_got st.
Proof.
  intros Hc. destruct (checkpoint fl t (tk_run st)) as [s es] eqn:Ec.
  set (st1 := set_phase c (Stored t) (set_run s es st)).
  set (st2 := set_phase c (Acking t) (set_run (if IsEOF t then s else set_processed (tu_ID t) s) [] st1)).
  set (st3 := set_phase c Idle (set_run (tk_run st2) [Acked (tu_ID t)] st2)).
  exists st3. split; [|split_and!; try done].
  - apply (steps_step _ _ _ _ st1); [simpl; unfold advance; by rewrite Hc, Ec|by intros; apply phase_other|].
    apply (steps_step _ _ _ _ st2); [simpl; unfold advance, st1; by rewrite phase_here|by intros; apply phase_other|].
    apply (steps_step _ _ _ _ st3); [simpl; unfold advance, st2; by rewrite phase_here|by intros; apply phase_other|].
    split; [done|]. split; [apply phase_here|done].
  - simpl. by rewrite app_nil_r, <- app_assoc.
Qed.

Lemma emit_steps c t out (st : Task op) s es :
  phase st c = Emitting t out → emit_all net fl out (tk_run st) = Some (s, es) →
  ∃ st', steps_to c (replicate (length out) (Advance c)) st st' (Emitting t []) ∧ tk_op st' = tk_op st ∧
    tk_run st' = s ∧ tk_effects st' = tk_effects st ++ es ∧ tk_log st' = tk_log st ∧ tk_got st' = tk_got st.
Proof.
  revert st s es; induction out as [|u out IH]; intros st s es Hc; cbn [emit_all].
  { intros [= <- <-]. exists st. split; [done|]. by rewrite app_nil_r. }
  destruct (emit net fl u (tk_run st)) as [[s1 es1]|] eqn:E1; [|done].
  destruct (emit_all net fl out s1) as [[s2 es2]|] eqn:E2; [|done]. intros [= <- <-].
  set (st1 := set_phase c (Emitting t out) (set_run s1 es1 st)).
  destruct (IH st1 s2 es2) as (st' & H1 & H2 & H3 & H4 & H5 & H6); [apply phase_here|done|].
  exists st'. split; [|split_and!; try done; by rewrite H4; simpl; rewrite <- app_assoc].
  apply (steps_step _ _ _ _ st1); [|by intros; apply phase_other|done].
  simpl. unfold advance. rewrite Hc. by rewrite E1.
Qed.

Lemma steps_trans c evs1 evs2 st st1 st2 p q :
  steps_to c evs1 st st1 p → steps_to c evs2 st1 st2 q → steps_to c (evs1 ++ evs2) st st2 q.
Proof.
  intros (H1 & H2 & H3) (H4 & H5 & H6). split; [by rewrite run_events_app, H1|]. split; [done|].
  intros c' Hc'. by rewrite H6, H3.
Qed.

Lemma arrivals_advances n c : arrivals (replicate n (Advance c)) = [].
Proof. by induction n. Qed.

(** [receive], the turn of a goroutine that is not interrupted, is a run. *)
Lemma receive_run c t (st : Task op) os' s' es :
  phase st c = Idle → receive op net fl t (tk_op st) (tk_run st) = Some (os', s', es) →
  ∃ evs st', steps_to c (Arrive c t :: evs) st st' Idle ∧ arrivals evs = [] ∧ tk_op st' = os' ∧ tk_run st' = s' ∧
    tk_effects st' = tk_effects st ++ es.
Proof.
  intros Hc. unfold receive. case_decide as Hu.
  { destruct (routing_update net t (tk_run st)) as [s|] eqn:Hr; [|done]. intros [= <- <- <-].
    exists [], (set_run s [] st). split; [|done]. apply (steps_step _ _ _ _ (set_run s [] st)); [|done|by split].
    simpl. unfold arrive. rewrite Hc, decide_True by done. by rewrite Hr. }
  case_decide as Ha.
  { intros [= <- <- <-]. exists [], st. split; [|by rewrite app_nil_r]. apply (steps_step _ _ _ _ st); [|done|by split].
    simpl. unfold arrive. by rewrite Hc, decide_False, decide_True by done. }
  case_decide as Hp.
  { intros [= <- <- <-]. set (st1 := set_phase c (Acking t) (take_tuple t st)).
    exists [Advance c], (set_phase c Idle (set_run (tk_run st1) [Acked (tu_ID t)] st1)).
    split; [|done]. apply (steps_step _ _ _ _ st1); [|by intros; apply phase_other|].
    { simpl. unfold arrive. by rewrite Hc, !decide_False, decide_True by done. }
    eapply steps_step; [simpl; unfold advance, st1; by rewrite phase_here|by intros; apply phase_other|].
    split; [done|]. split; [apply phase_here|done]. }
  unfold process_tuple. set (s1 := if IsEOF t then tk_run st else count_tuple_in (tk_run st)).
  destruct (Process op (tk_op st) t) as [os1 out] eqn:Hpr.
  destruct (emit_all net fl out s1) as [[s2 es2]|] eqn:He; [|done].
  set (st1 := set_phase c (Checked t) (take_tuple t st)).
  set (st2 := set_phase c (Emitting t out) (run_process t st1)).
  destruct (emit_steps c t out st2 s2 es2) as (st3 & S3 & O3 & R3 & E3 & _); [apply phase_here|done|].
  destruct S3 as (S3 & P3 & Q3). pose proof (finish_steps c t st3 P3) as H4. rewrite R3 in H4.
  destruct (checkpoint fl t s2) as [s3 cs]. destruct H4 as (st4 & S4 & O4 & R4 & E4 & _). intros [= <- <- <-].
  exists (Advance c :: replicate (length out) (Advance c) ++ [Advance c; Advance c; Advance c]), st4.
  split; [|split_and!; try done].
  - apply (steps_step _ _ _ _ st1); [|by intros; apply phase_other|].
    { simpl. unfold arrive. by rewrite Hc, !decide_False by done. }
    apply (steps_step _ _ _ _ st2); [|by intros; apply phase_other|by eapply steps_trans].
    simpl. unfold advance, st1. rewrite phase_here. simpl. by rewrite Hpr.
  - unfold arrivals. simpl. rewrite omap_app. fold (arrivals (replicate (length out) (Advance c))).
    by rewrite arrivals_advances.
  - rewrite O4, O3. simpl. by rewrite Hpr.
  - rewrite E4, E3. simpl. by rewrite !app_assoc.
Qed.

(** [receive_all] is the run in which every turn is finished before the next
    tuple arrives. *)
Theorem receive_all_run ts (os os' : op_state op) (s s' : OpRun) es :
  receive_all op net fl ts os s = Some (os', s', es) →
  ∃ evs st, run_events net fl evs (new_task os s) = Some st ∧ arrivals evs = ts ∧ ¬ overlaps net fl evs (new_task os s) ∧
    all_idle st ∧ tk_op st = os' ∧ tk_run st = s' ∧ tk_effects st = es.
Proof.
  assert (∀ st, all_idle st → receive_all op net fl ts (tk_op st) (tk_run st) = Some (os', s', es) →
    ∃ evs st', run_events net fl evs st = Some st' ∧ arrivals evs = ts ∧ (∀ c t, Arrive c t ∈ evs → c = 0%nat) ∧
      all_idle st' ∧ tk_op st' = os' ∧ tk_run st' = s' ∧ tk_effects st' = tk_effects st ++ es) as H.
  { revert es. induction ts as [|t ts IH]; intros es st Hid; cbn [receive_all].
    { intros [= <- <- <-]. exists [], st. split_and!; try done; [set_solver|by rewrite app_nil_r]. }
    destruct (receive op net fl t (tk_op st) (tk_run st)) as [[[os1 s1] es1]|] eqn:E1; [|done].
    destruct (receive_all op net fl ts os1 s1) as [[[os2 s2] es2]|] eqn:E2; [|done]. intros [= <- <- <-].
    destruct (receive_run 0 t st os1 s1 es1 (Hid 0%nat) E1) as (evs1 & st1 & (S1 & P1 & Q1) & A1 & <- & <- & F1).
    destruct (IH es2 st1) as (evs2 & st2 & S2 & A2 & C2 & I2 & O2 & R2 & F2); [|done|].
    { intros c. destruct (decide (c = 0%nat)) as [->|]; [done|by rewrite Q1]. }
    exists (Arrive 0 t :: evs1 ++ evs2), st2.
    split; [change (_ :: _ ++ _) with ((Arrive 0 t :: evs1) ++ evs2); by rewrite run_events_app, S1|].
    split; [unfold arrivals in *; simpl; by rewrite omap_app, A1, A2|].
    split; [|split_and!; try done; by rewrite F2, F1, app_assoc].
    intros c u [[= ->]|[Hin|?]%elem_of_app]%elem_of_cons; [done| |by eapply C2].
    assert (u ∈ arrivals evs1) as Hu by (apply list_elem_of_omap; by exists (Arrive c u)).
    rewrite A1 in Hu. by apply elem_of_nil in Hu. }
  intros Hr. destruct (H (new_task os s)) as (evs & st & ? & ? & Hc & ? & ? & ? & ?); [by intros c|done|].
  exists evs, st. split_and!; try done. apply one_connection_no_overlap.
  intros c1 c2 t1 t2 ->%Hc ->%Hc. done.
Qed.
End sequential.

(** ** The theorems *)

(** C11: Duplicates within the life of a process.  For every interleaving of the
    goroutines the operation ends in the state it reaches from the tuples it
    ran on; every tuple taken from a connection is acknowledged once, or is
    still being worked on; nothing is lost, and a data tuple is acknowledged
    only when its identifier is marked.  If no two goroutines ever work on the
    same tuple at the same time - and they never do when the copies of a tuple
    come on one connection - every identifier is processed at most once, and
    none that was recovered is. *)
Theorem duplicates_have_no_effect (op : Operation) (net : Network) (fl : Flags) (evs : list Event)
    (os : op_state op) (s : OpRun) (st : Task op) :
  run_events net fl evs (new_task os s) = Some st →
  tk_op st = (run_op op os (tk_log st)).1 ∧
  acks (tk_effects st) ++ unacknowledged (tk_phases st) ≡ₚ tu_ID <$> tk_got st ∧
  (∀ t, t ∈ tk_got st → IsEOF t = false →
    tu_ID t ∈ processedIDs s ∨ tu_ID t ∈ data_ids (tk_log st) ∨ ∃ c, held (phase st c) = Some t) ∧
  (∀ id, id ∈ acks (tk_effects st) → ∃ t, t ∈ tk_got st ∧ tu_ID t = id ∧
    (IsEOF t = false → id ∈ processedIDs (tk_run st))) ∧
  (¬ overlaps net fl evs (new_task os s) →
    NoDup (data_ids (tk_log st)) ∧ ∀ id, id ∈ data_ids (tk_log st) → id ∉ processedIDs s) ∧
  ((∀ c1 c2 t1 t2, Arrive c1 t1 ∈ evs → Arrive c2 t2 ∈ evs → IsEOF t1 = false → IsEOF t2 = false →
     tu_ID t1 = tu_ID t2 → c1 = c2) → ¬ overlaps net fl evs (new_task os s)).
Proof.
  intros Hr. pose proof (new_task_bookkeeping op os s) as B0.
  pose proof (run_bookkeeping _ _ _ _ _ _ _ _ Hr B0) as B.
  split; [exact (bk_op B)|]. split; [exact (bk_acks B)|]. split; [|split; [exact (bk_acked B)|split]].
  - intros t Ht He. destruct (bk_got B t Ht He) as [[?|?]%(bk_new B)|?]; eauto.
  - intros Hov. by destruct (run_once _ _ _ _ _ _ _ _ Hr Hov B0 (new_task_once op os s)).
  - apply one_connection_no_overlap.
Qed.

Definition demo_task_run : OpRun := mkOpRun [] ∅ ∅ ∅ 0 false false false 0 [] [] [].

(** Two connections at work at the same time, and a duplicate on the first. *)
Lemma duplicates_have_no_effect_witness :
  let evs := [Arrive 0 (data "t1" "a" "x"); Arrive 1 (data "t2" "b" "y"); Advance 1; Advance 0; Advance 0;
              Advance 1; Advance 0; Advance 0; Arrive 0 (data "t1" "a" "x"); Advance 1; Advance 0; Advance 1] in
  start good_net count_flags FetchError = Some demo_task_run ∧
  ∃ st, run_events (op := CountOp) good_net count_flags evs (new_task (op_init CountOp) demo_task_run) = Some st ∧
    tk_op st = (run_op CountOp (op_init CountOp) (tk_log st)).1 ∧ data_ids (tk_log st) = ["t2"; "t1"] ∧
    NoDup (data_ids (tk_log st)) ∧ acks (tk_effects st) = ["t1"; "t1"; "t2"].
Proof.
  intros evs. split; [reflexivity|].
  destruct (run_events (op := CountOp) good_net count_flags evs (new_task (op_init CountOp) demo_task_run))
    as [st|] eqn:Hr; [|discriminate Hr].
  destruct (duplicates_have_no_effect CountOp good_net count_flags evs _ _ st Hr) as (H1 & _ & _ & _ & H5 & H6).
  exists st. split; [done|]. split; [exact H1|].
  assert (data_ids (tk_log st) = ["t2"; "t1"] ∧ acks (tk_effects st) = ["t1"; "t1"; "t2"]) as [E1 E2].
  { injection Hr as <-. split; vm_compute; reflexivity. }
  split; [exact E1|]. split; [|exact E2]. apply H5, H6.
  intros c1 c2 t1 t2 A1 A2 _ _ Hi.
  assert (Forall (λ e, match e with
    | Arrive c t => (c = 0%nat ∧ tu_ID t = "t1") ∨ (c = 1%nat ∧ tu_ID t = "t2") | _ => True end) evs) as Hev
    by (repeat constructor).
  rewrite Forall_forall in Hev. apply Hev in A1 as [[-> A1]|[-> A1]], A2 as [[-> A2]|[-> A2]]; congruence.
Defined.

(** The lookup of an identifier and its mark are two critical sections, and
    the operation runs between them.  A tuple that is sent again on a second
    connection while the first is being worked on - a source that gave up
    waiting for the acknowledgement does this - is processed twice. *)
Theorem resend_processed_twice (op : Operation) (net : Network) (fl : Flags) (os : op_state op) (s : OpRun)
    (t : Tuple) :
  stream_tuple t → tu_ID t ∉ processedIDs s →
  ∃ st, run_events net fl [Arrive 0 t; Arrive 1 t; Advance 0; Advance 1] (new_task os s) = Some st ∧
    tk_log st = [t; t] ∧ tk_op st = (run_op op os [t; t]).1.
Proof.
  intros [H1 H2] Hn.
  assert (∀ c (st : Task op), phase st c = Idle → tk_run st = s →
    step net fl (Arrive c t) st = Some (set_phase c (Checked t) (take_tuple t st))) as Harr.
  { intros c st Hc Hs. simpl. unfold arrive. rewrite Hc, Hs. by rewrite !decide_False by done. }
  assert (∀ c (st : Task op), phase st c = Checked t →
    step net fl (Advance c) st = Some (set_phase c (Emitting t (Process op (tk_op st) t).2) (run_process t st))) as Hadv.
  { intros c st Hc. simpl. unfold advance. by rewrite Hc. }
  cbn [run_events].
  do 2 (rewrite Harr by done; cbn [mbind option_bind]). do 2 (rewrite Hadv by done; cbn [mbind option_bind]).
  eexists. split; [done|]. split; [done|].
  change [t; t] with (([] ++ [t]) ++ [t]). by rewrite !run_op_last.
Qed.

(** The counting sink writes 2 for the key of one line. *)
Lemma resend_processed_twice_witness :
  let t := data "t1" "a" "x" in
  let evs := [Arrive 0 t; Arrive 1 t; Advance 0; Advance 1] in
  (∃ st, run_events (op := CountOp) good_net count_flags evs (new_task (op_init CountOp) demo_task_run) = Some st ∧
     tk_log st = [t; t] ∧ tk_op st = (run_op CountOp (op_init CountOp) [t; t]).1) ∧
  (outLines ∘ tk_run <$> run_events (op := CountOp) good_net count_flags
     (evs ++ replicate 3 (Advance 0) ++ [Arrive 0 (eof "e1"); Advance 0; Advance 0])
     (new_task (op_init CountOp) demo_task_run)) = Some ["a,2"].
Proof.
  intros t evs. split; [|vm_compute; reflexivity].
  apply (resend_processed_twice CountOp good_net count_flags (op_init CountOp) demo_task_run t);
    [split; discriminate|]. simpl. apply not_elem_of_empty.
Defined.
