(* ===== verification/StateLog.v ===== *)
(** * StateLog: the state log of a task, from the append worker through the
    store and back

    [LogStore] is what an operator task relies on when it appends to a file of
    HyDFS and reads it back; the block store implements it ([block_log]), and
    the recovery of a task is proved against it.  The worker opens a connection
    for each batch, so the batches may reach the store in any order. *)

From S2P Require Import Prelude GoStrings FileSystem BlockStore Env Membership Common RainStorm Operators Runtime.

(** ** The interface *)

Class LogStore (S : Type) := {
  log_append : string → S → S;
  log_read : S → result string;
  (** The log contains [content], and [n] more appends fit. *)
  log_holds : nat → string → S → Prop;
}.

Class LogStoreLaws (S : Type) `{LogStore S} : Prop := {
  log_append_holds n content x (s : S) :
    log_holds (Datatypes.S n) content s → log_holds n (content +:+ x) (log_append x s);
  log_read_holds n content (s : S) :
    log_holds n content s → content ≠ "" → log_read s = Ok content;
}.

(** ** The client: what a restarted task recovers *)

Section recovery.
Context {S : Type} `{LogStoreLaws S}.

Definition append_all (chunks : list string) (s : S) : S :=
  foldl (λ s c, log_append c s) s chunks.

Lemma append_all_holds chunks content n (s : S) :
  log_holds (length chunks + n) content s →
  log_holds n (content +:+ foldr String.append "" chunks) (append_all chunks s).
Proof.
  revert content s; induction chunks as [|c chunks IH]; intros content s Hs; simpl in *.
  - by rewrite app_empty_r.
  - rewrite <- app_assoc_str. apply IH. by apply log_append_holds.
Qed.

(** What [fetchStateFromHyDFS] makes of the log. *)
Definition fetch_reply (s : S) : FetchReply :=
  match log_read s with Ok c => FetchContent c | Err _ => FetchError end.

Lemma recovery_complete (groups : list (list string)) (s : S) :
  Forall clean_id (concat groups) → concat groups ≠ [] → log_holds (length groups) "" s →
  fetchStateFromHyDFS (fetch_reply (append_all (lines <$> groups) s)) = Ok (concat groups).
Proof.
  intros Hids Hne Hs. rewrite <- (Nat.add_0_r (length groups)), <- (length_fmap lines groups) in Hs.
  apply append_all_holds in Hs.
  change ("" +:+ foldr String.append "" (lines <$> groups)) with (foldr String.append "" (lines <$> groups)) in Hs.
  rewrite concat_lines in Hs. unfold fetch_reply.
  rewrite (log_read_holds _ _ _ Hs).
  - cbn [fetchStateFromHyDFS]. by rewrite parse_ids_lines.
  - destruct (concat groups) as [|x l]; [done|]. rewrite lines_cons. by destruct x.
Qed.
End recovery.

(** ** The implementation: the block store *)

Section block_log.
Context (base : path) (name client : string).

#[export] Instance block_log : LogStore bdisk := {
  log_append content d := (AppendFile base name content client d).2;
  log_read d := ReadFile base name d;
  log_holds n content d :=
    faults d = [] ∧
    (FileSystem.wf d ∧ FileExists base name d = false ∧ creatable base name d ∧ content = "" ∧
       Z.of_nat n < two63 ∨
     ∃ l, represents base d name (log_blocks l) ∧ contents (log_blocks l) = content ∧
       Z.of_nat (length l + n) < two63);
}.

Lemma append_log_holds n content x d l :
  faults d = [] → represents base d name (log_blocks l) → contents (log_blocks l) = content →
  Z.of_nat (length l + S n) < two63 →
  log_holds n (content +:+ x) (AppendFile base name x client d).2.
Proof.
  intros Hf Hr Hc Hl.
  pose proof (AppendFile_represents base name x client d _ Hr Hf (room_log l client ltac:(lia))) as H.
  destruct (AppendFile base name x client d) as [r d']. destruct H as (_ & Hf' & Hr' & _).
  split; [done|right]. exists (l ++ [(client, x)]). rewrite log_blocks_snoc. split; [done|].
  unfold log_step. rewrite contents_snoc, Hc. split; [done|]. rewrite length_app. simpl. lia.
Qed.

#[export] Instance block_log_laws : LogStoreLaws bdisk.
Proof.
  split.
  - intros n content x d (Hf & [(Hwf & Hex & Hcr & -> & Hn)|(l & Hr & Hc & Hl)]);
      [|by eapply append_log_holds].
    pose proof (append_init_represents base name d Hwf Hf Hex Hcr) as H.
    cbn [log_append block_log]. rewrite append_init_only_init.
    destruct (append_init base name d) as [r d1] eqn:E. destruct H as (-> & Hf1 & Hr1).
    assert (append_block base name x client d1 = AppendFile base name x client d1) as ->.
    { rewrite append_init_only_init. by rewrite append_init_exists by (by eapply represents_FileExists). }
    apply (append_log_holds n "" x d1 []); [done|done|done|]. simpl in *. lia.
  - intros n content d (Hf & [(_ & _ & _ & -> & _)|(l & Hr & Hc & Hl)]) Hne; [done|].
    cbn [log_read block_log]. by rewrite (ReadFile_represents _ _ _ _ Hr), Hc.
Qed.
End block_log.

(** Appends of a worker reaching the store, in this order. *)
Definition send_batches (base : path) (name client : string) (chunks : list string) (d : bdisk) : bdisk :=
  foldl (λ d c, (AppendFile base name c client d).2) d chunks.

(** C12: What the append worker of a task sends is what a restarted task recovers:
    if every connection of the worker succeeds and its last flush leaves
    nothing in the buffer, then reading the state log from the block store
    gives exactly the identifiers that were queued, however they were cut into
    batches.  The batches travel on connections of their own and may reach the
    store in any order; if they arrive in the order in which they were sent,
    the identifiers are in the order in which they were queued. *)
Theorem state_log_recovers (base : path) (name client : string) (es : list AppendEvent)
    (chunks : list string) (d : bdisk) :
  Forall (λ e, event_ok e = true) es → (hydfsAppendWorker es).1 = [] →
  Forall clean_id (event_lines es) → event_lines es ≠ [] →
  chunks ≡ₚ (hydfsAppendWorker es).2 →
  FileSystem.wf d → faults d = [] → FileExists base name d = false → creatable base name d →
  Z.of_nat (length (hydfsAppendWorker es).2) < two63 →
  let d' := send_batches base name client chunks d in
  match ReadFile base name d' with
  | Ok content =>
      (∃ ids, fetchStateFromHyDFS (FetchContent content) = Ok ids ∧ ids ≡ₚ event_lines es) ∧
      (chunks = (hydfsAppendWorker es).2 → fetchStateFromHyDFS (FetchContent content) = Ok (event_lines es))
  | Err _ => False
  end.
Proof.
  intros Hok Hb Hids Hne Hp Hwf Hf Hex Hcr Hn d'.
  destruct (append_worker_groups es Hok) as (groups & Hs & Hl). rewrite Hb, app_nil_r in Hl.
  rewrite Hs in Hp, Hn |- *. destruct (Permutation_map_inv lines groups Hp) as (gs & -> & Hg%symmetry).
  change (List.map lines gs) with (lines <$> gs) in *.
  assert (concat gs ≡ₚ event_lines es) as Hc by (rewrite <- Hl, Hg; done).
  pose proof (recovery_complete (H := block_log base name client) (H0 := block_log_laws base name client) gs d) as H.
  unfold fetch_reply in H. cbn [log_read block_log] in H.
  change (append_all (H := block_log base name client) (lines <$> gs) d) with d' in H.
  specialize (H ltac:(by rewrite Hc)).
  specialize (H ltac:(intros E; rewrite E in Hc; by apply Permutation_nil_l in Hc)).
  assert (log_holds (LogStore := block_log base name client) (length gs) "" d) as Hd.
  { split; [done|left; split_and!; try done]. rewrite Hg. by rewrite length_fmap in Hn. }
  specialize (H Hd). destruct (ReadFile base name d') as [content|].
  - split; [by exists (concat gs)|]. intros He.
    assert (concat gs = event_lines es) as <-; [|done]. rewrite <- Hl.
    rewrite <- (parse_ids_lines (concat gs)) by (by rewrite Hc).
    rewrite <- (parse_ids_lines (concat groups)) by (by rewrite Hl). by rewrite <- !concat_lines, He.
  - cbn in H. injection H as H. rewrite <- H in Hc. by apply Permutation_nil_l in Hc.
Qed.

(** Three batches that arrive in another order. *)
Lemma state_log_recovers_witness :
  let es := [Line "src-task-0-tuple-1" true; Tick true; Line "src-task-0-tuple-2" true;
             Line "src-task-0-tuple-3" true; Stop true] in
  let read chunks := ReadFile ["hydfs"] "stage1-task-0.state"
    (send_batches ["hydfs"] "stage1-task-0.state" "sink-task-10005" chunks empty_store) in
  match read (reverse (hydfsAppendWorker es).2) with
  | Ok content => ∃ ids, fetchStateFromHyDFS (FetchContent content) = Ok ids ∧ ids ≡ₚ event_lines es
  | Err _ => False
  end ∧
  match read (hydfsAppendWorker es).2 with
  | Ok content => fetchStateFromHyDFS (FetchContent content) = Ok (event_lines es)
  | Err _ => False
  end.
Proof.
  intros es read.
  assert (Forall clean_id (event_lines es)) as Hids by (by repeat constructor).
  assert (Forall (λ e, event_ok e = true) es) as Hok by (by repeat constructor).
  pose proof (λ chunks Hp, state_log_recovers ["hydfs"] "stage1-task-0.state" "sink-task-10005" es chunks empty_store
    Hok eq_refl Hids ltac:(discriminate) Hp empty_store_wf eq_refl ltac:(vm_compute; reflexivity)
    ltac:(apply empty_store_creatable) eq_refl) as H.
  split.
  - specialize (H (reverse (hydfsAppendWorker es).2) ltac:(by rewrite reverse_Permutation)). cbv zeta in H.
    unfold read. destruct (ReadFile _ _ _); [by destruct H|done].
  - specialize (H (hydfsAppendWorker es).2 ltac:(done)). cbv zeta in H.
    unfold read. destruct (ReadFile _ _ _); [by apply H|done].
Defined.
