(* ===== verification/Worker.v ===== *)
(** * Worker: pkg/rainstorm/worker.go

    A worker runs the tasks the leader schedules.  [HandleScheduleTask] stores
    the task and starts [runTaskProcess] on the same object ([objects] is the
    store of these objects), which launches a process ([launch]), later sees it
    end ([process_exit]), and reports both; [internal_source] tasks run inside
    the worker ([runSourceTask]).  What the operating system, the store and the
    network answer are arguments.  [None] is a panic of the server. *)

From S2P Require Import Prelude GoStrings GoFlags Env Membership Ring Common RainStorm Leader Runtime.

(** ** State *)

(** [TaskProcesses] says of each process whether it still runs: it is never
    cleared, and a command whose process has ended sends no signal. *)
Record Worker := mkWorker {
  wk_Role : Role;
  wk_Config : Config;
  wk_Node : Node;
  objects : list Task;
  ActiveTasks : gmap string nat;
  TaskProcesses : gmap Z bool;
}.

Definition set_objects (l : list Task) (w : Worker) : Worker :=
  mkWorker (wk_Role w) (wk_Config w) (wk_Node w) l (ActiveTasks w) (TaskProcesses w).
Definition set_process (pid : Z) (running : bool) (w : Worker) : Worker :=
  mkWorker (wk_Role w) (wk_Config w) (wk_Node w) (objects w) (ActiveTasks w)
    (<[pid := running]> (TaskProcesses w)).

Inductive WorkerEffect :=
  | RunProcess (path : string) (args : list string)
  | MakeDir (path : string)
  | Signal (pid : Z)
  | Report (addr : string) (msg : RainStormMessage)
  | ReportLocally (msg : RainStormMessage)
  | SendTuple (target : string) (t : Tuple).

(** ** Reports to the leader *)

(** [net.JoinHostPort(s.Config.VMs[0], ...)]. *)
Definition report_addr (cfg : Config) : option string :=
  vm ← head (VMs cfg); Some (JoinHostPort vm (RainStormPort cfg)).

Definition send_report (net : string → bool) (cfg : Config) (msg : RainStormMessage) :
    option (list WorkerEffect) :=
  addr ← report_addr cfg; Some (if net addr then [Report addr msg] else []).

Definition ReportTaskStarted (net : string → bool) (w : Worker) (task : Task) :
    option (list WorkerEffect) :=
  if decide (wk_Role w = RoleWorker) then send_report net (wk_Config w) (task_started task) else Some [].

Definition completed_payload (task : Task) (success : bool) (errorMsg : string) : TaskCompletedPayload :=
  mkTaskCompletedPayload (ID task) (AssignedWorker task) (PID task) (OpExecutable task) (LogFile task)
    success errorMsg.

Definition ReportTaskCompleted (net : string → bool) (w : Worker) (task : Task) (success : bool)
    (errorMsg : string) : option (list WorkerEffect) :=
  let msg := task_completed (completed_payload task success errorMsg) in
  if decide (wk_Role w = RoleLeader) then Some [ReportLocally msg]
  else send_report net (wk_Config w) msg.

Definition NotifyLeaderTaskFailed (net : string → bool) (w : Worker) (task : Task) (errorMsg : string) :
    option (list WorkerEffect) :=
  send_report net (wk_Config w)
    (task_failed (mkTaskFailurePayload (ID task) (AssignedWorker task) (PID task) (OpExecutable task)
       (LogFile task) errorMsg)).

(** ** HandleScheduleTask *)

(** The new object is the argument of the goroutine [runTaskProcess]. *)
Definition HandleScheduleTask (task : Task) (w : Worker) : Worker * nat :=
  let n := length (objects w) in
  (mkWorker (wk_Role w) (wk_Config w) (wk_Node w) (objects w ++ [task])
     (<[ID task := n]> (ActiveTasks w)) (TaskProcesses w), n).

(** ** runTaskProcess *)

(** The operating system during a launch: does the executable exist, the
    working directory, the layout of the present time, and the process
    identifier, if the process starts. *)
Record OS := mkOS {
  os_exists : string → bool;
  os_cwd : option string;
  os_now : string;
  os_start : option Z;
}.

Definition cwd_of (os : OS) : string := default "." (os_cwd os).

Definition command_path (opExecutable : string) : string :=
  if contains_char "/"%char opExecutable then opExecutable
  else "ops/" +:+ opExecutable +:+ "/" +:+ opExecutable.

(** [path[:strings.LastIndex(path, "/")]] of a path with a slash. *)
Definition parent_dir (path : string) : string := join "/" (removelast (split_on "/"%char path)).

(** The path of [--output], with the directory made for a relative one. *)
Definition task_output (os : OS) (task : Task) : string * list WorkerEffect :=
  if has_prefix "/" (OutputFile task) then (OutputFile task, [])
  else
    let p := cwd_of os +:+ "/" +:+ OutputFile task in
    (p, [MakeDir (parent_dir p)]).

Definition opt_arg (b : bool) (name value : string) : list string :=
  if b then [flag_arg name value] else [].

Definition nonempty (s : string) : bool := negb (bool_decide (s = "")).

(** The framework's arguments. *)
Definition framework_args (task : Task) (nextStageTargets : list string) (outputPath : string) :
    list string :=
  flag_arg "port" (itoa (t_Port task))
  :: flag_arg "task-id" (ID task)
  :: opt_arg (negb (bool_decide (nextStageTargets = []))) "targets" (join "," nextStageTargets)
  ++ opt_arg (nonempty (OutputFile task)) "output" outputPath
  ++ opt_arg (0 <? NumSources task) "num-sources" (itoa (NumSources task))
  ++ opt_arg (nonempty (HyDFSDestFile task)) "hydfs-dest" (HyDFSDestFile task)
  ++ opt_arg (nonempty (HyDFSLeader task)) "hydfs-leader" (HyDFSLeader task)
  ++ opt_arg (nonempty (RainStormLeader task)) "rainstorm-leader" (RainStormLeader task).

(** The operator's arguments come last. *)
Definition task_args (os : OS) (task : Task) (nextStageTargets : list string) : list string :=
  framework_args task nextStageTargets (task_output os task).1 ++ OpArgs task.

Definition log_dir (os : OS) (task : Task) : string :=
  cwd_of os +:+ "/rainstorm_outputs/"
    +:+ (if decide (JobTimestamp task = "") then os_now os else JobTimestamp task).

Definition set_started (pid : Z) (logFile : string) (t : Task) : Task :=
  mkTask (ID t) (StageID t) (OpType t) (OpExecutable t) (OpArgs t) (t_Port t)
    (AssignedWorker t) TaskStateRunning pid logFile (InputRate t) (TaskIndex t) (TotalTasks t)
    (OutputFile t) (NumSources t) (JobTimestamp t) (HyDFSDestFile t) (HyDFSLeader t)
    (RainStormLeader t) (ExactlyOnce t).

(** [runTaskProcess] of object [n], up to the wait; it stops early, without a
    report, when the executable is missing or does not start. *)
Definition launch (net : string → bool) (os : OS) (n : nat) (routingTable : routing) (w : Worker) :
    option (Worker * list WorkerEffect) :=
  task ← objects w !! n;
  let targets := targets_of routingTable (StageID task + 1) in
  let path := command_path (OpExecutable task) in
  if negb (os_exists os path) then Some (w, [])
  else
    let dirs := (if nonempty (OutputFile task) then (task_output os task).2 else [])
                  ++ [MakeDir (log_dir os task)] in
    match os_start os with
    | None => Some (w, dirs)
    | Some pid =>
        let t := set_started pid (log_dir os task +:+ "/task_" +:+ ID task +:+ ".log") task in
        let w' := set_process pid true (set_objects (<[n := t]> (objects w)) w) in
        es ← ReportTaskStarted net w' t;
        Some (w', dirs ++ RunProcess path (task_args os task targets) :: es)
    end.

(** The end of the process of object [n]: [err] is the error of [cmd.Wait()].
    The failure is notified by the monitor goroutine and the completion by
    [runTaskProcess] itself, concurrently: the two lists may be sent in either
    order. *)
Definition process_exit (net : string → bool) (n : nat) (err : option string) (w : Worker) :
    option (Worker * list WorkerEffect * list WorkerEffect) :=
  task ← objects w !! n;
  match err with
  | Some e =>
      notes ← NotifyLeaderTaskFailed net w task e;
      let t := set_task_state TaskStateFailed task in
      es ← ReportTaskCompleted net w t false e;
      Some (set_process (PID task) false (set_objects (<[n := t]> (objects w)) w), notes, es)
  | None =>
      let t := set_task_state TaskStateCompleted task in
      es ← ReportTaskCompleted net w t true "";
      Some (set_process (PID task) false (set_objects (<[n := t]> (objects w)) w), [], es)
  end.

(** ** HandleKillTaskWorker *)

(** A process that was never started here is killed as well. *)
Definition HandleKillTaskWorker (pid : Z) (w : Worker) : list WorkerEffect :=
  match TaskProcesses w !! pid with Some false => [] | _ => [Signal pid] end.

(** ** sendMetricsToLeader *)

(** On the leader itself: a sample replaces an older one only. *)
Definition record_metrics (metrics : TaskMetrics) (m : gmap string TaskMetrics) : gmap string TaskMetrics :=
  match m !! TaskID metrics with
  | Some existing =>
      if m_Timestamp existing <? m_Timestamp metrics then <[TaskID metrics := metrics]> m else m
  | None => <[TaskID metrics := metrics]> m
  end.

Definition sendMetricsToLeader (net : string → bool) (w : Worker) (metrics : TaskMetrics)
    (m : gmap string TaskMetrics) : option (gmap string TaskMetrics * list WorkerEffect) :=
  if decide (wk_Role w = RoleLeader) then Some (record_metrics metrics m, [])
  else (m,.) <$> send_report net (wk_Config w) (task_metrics metrics).

(** The ticks of [reportSourceMetrics] until it is stopped. *)
Fixpoint reportSourceMetrics (net : string → bool) (w : Worker) (taskID : string) (ticks : list (Z * Z))
    (lastCount : Z) (m : gmap string TaskMetrics) : option (gmap string TaskMetrics * list WorkerEffect) :=
  match ticks with
  | [] => Some (m, [])
  | (now, currentCount) :: rest =>
      let '(metrics, lastCount') := metrics_tick taskID now currentCount lastCount in
      '(m1, out) ← sendMetricsToLeader net w metrics m;
      '(m2, out') ← reportSourceMetrics net w taskID rest lastCount' m1;
      Some (m2, out ++ out')
  end.

(** ** fetchFileFromHyDFS *)

(** [ask] is the exchange with a replica: connection, request and answer. *)
Fixpoint try_replicas (ask : string → FetchReply) (infoMap : gmap Z Info) (successors : list Z) :
    result string :=
  match successors with
  | [] => Err "failed to fetch file from any replica"
  | id :: rest =>
      match infoMap !! id with
      | Some info =>
          if decide (State info = Alive) then
            match ask (Hostname info +:+ ":" +:+ itoa (Port info)) with
            | FetchContent content => Ok content
            | _ => try_replicas ask infoMap rest
            end
          else try_replicas ask infoMap rest
      | None => try_replicas ask infoMap rest
      end
  end.

Definition fetchFileFromHyDFS `{!GoEnv} (ask : string → FetchReply) (hydfsFilename : string) (w : Worker) :
    result string :=
  let infoMap := GetInfoMap (node_Membership (wk_Node w)) in
  match GetSuccessors (HashString hydfsFilename) infoMap NumReplicas with
  | [] => Err ("no alive replicas found for " +:+ hydfsFilename)
  | successors => try_replicas ask infoMap successors
  end.

(** ** runSourceTask *)

(** The file: the local store, the replicas, then the directory [data/]. *)
Definition source_content `{!GoEnv} (ask : string → FetchReply)
    (local : string → result string) (os_read : string → result string)
    (hydfsFilename : string) (w : Worker) : result string :=
  match local hydfsFilename with
  | Ok content => Ok content
  | Err _ =>
      match fetchFileFromHyDFS ask hydfsFilename w with
      | Ok content => Ok content
      | Err _ => os_read ("data/" +:+ hydfsFilename)
      end
  end.

(** The lines of a file with their numbers, from 1 on. *)
Definition numbered (content : string) : list (string * Z) :=
  imap (λ i line, (line, Z.of_nat i + 1)) (split_on NL content).

(** The lines of a task; [i % 0] panics. *)
Definition source_lines (totalTasks taskIndex : Z) (content : string) : option (list (string * Z)) :=
  if decide (totalTasks = 0) then None
  else Some (filter (λ p, Z.rem (p.2 - 1) totalTasks = taskIndex)
               (numbered content)).

Definition line_tuple (hydfsFilename taskID : string) (p : string * Z) : option Tuple :=
  let lineContent := trim_space p.1 in
  if decide (lineContent = "") then None
  else Some (mkTuple "tuple" (hydfsFilename +:+ ":" +:+ itoa p.2) (VString lineContent)
               (taskID +:+ "-tuple-" +:+ itoa p.2) false).

(** The tuples of a task, in the order in which it sends them. *)
Definition source_tuples (hydfsFilename taskID : string) (lines : list (string * Z)) : list Tuple :=
  omap (line_tuple hydfsFilename taskID) lines.

Definition eof_tuple (taskID : string) : Tuple :=
  mkTuple "tuple" "EOF" (VString "end-of-stream") (taskID +:+ "-eof") true.

(** The variables of the sending loop: the targets, the connections (the three
    maps have the same keys) and [tuplesSent]. *)
Record Source := mkSource {
  so_targets : list string;
  so_conns : gset string;
  so_sent : Z;
}.

Definition so_connect (target : string) (s : Source) : Source :=
  mkSource (so_targets s) ({[target]} ∪ so_conns s) (so_sent s).
Definition so_disconnect (target : string) (s : Source) : Source :=
  mkSource (so_targets s) (so_conns s ∖ {[target]}) (so_sent s).
Definition so_retarget (l : list string) (s : Source) : Source :=
  mkSource l (so_conns s) (so_sent s).
Definition so_count (s : Source) : Source :=
  mkSource (so_targets s) (so_conns s) (so_sent s + 1).

(** What the network does at each attempt for each tuple: whether a target
    accepts a connection, what sending gets back, and the addresses the leader
    answers to [get_task_location], if it answers. *)
Record SourceNet := mkSourceNet {
  sn_dial : Tuple → nat → string → bool;
  sn_answer : Tuple → nat → string → Answer;
  sn_location : Tuple → nat → option (list string);
}.

(** The new targets, and the target of the tuple among them. *)
Definition ask_location (net : SourceNet) (t : Tuple) (k : nat) (target : string) (s : Source) :
    option (string * Source) :=
  match sn_location net t k with
  | None | Some [] => Some (target, s)
  | Some addrs => target' ← pick_target (Key t) addrs; Some (target', so_retarget addrs s)
  end.

(** The connection of attempt [k]: the one there is, or a new one to the target
    that the leader names; the flag says whether there is one. *)
Definition source_connect (net : SourceNet) (t : Tuple) (k : nat) (target : string) (s : Source) :
    option (string * Source * bool) :=
  if decide (target ∈ so_conns s) then Some (target, s, true)
  else
    '(target', s1) ← ask_location net t k target s;
    if sn_dial net t k target' then Some (target', so_connect target' s1, true)
    else Some (target', s1, false).

(** The retry loop, from attempt [k] on. *)
Fixpoint send_attempts (net : SourceNet) (t : Tuple) (k fuel : nat) (target : string) (s : Source) :
    option (Source * bool * list WorkerEffect) :=
  match fuel with
  | O => Some (s, false, [])
  | S fuel' =>
      '(target', s1, connected) ← source_connect net t k target s;
      if (connected : bool) then
        match sn_answer net t k target' with
        | NotSent => send_attempts net t (S k) fuel' target' (so_disconnect target' s1)
        | NoAnswer =>
            '(s2, ok, es) ← send_attempts net t (S k) fuel' target' (so_disconnect target' s1);
            Some (s2, ok, SendTuple target' t :: es)
        | Answered r =>
            if decide (Type_ r = "ack" ∧ tu_ID r = tu_ID t)
            then Some (s1, true, [SendTuple target' t])
            else
              '(s2, ok, es) ← send_attempts net t (S k) fuel' target' s1;
              Some (s2, ok, SendTuple target' t :: es)
        end
      else send_attempts net t (S k) fuel' target' s1
  end.

Definition max_attempts : nat := 10.

(** One turn of the loop over the lines: a tuple that is not acknowledged in ten
    attempts is lost. *)
Definition send_tuple (net : SourceNet) (t : Tuple) (s : Source) : option (Source * list WorkerEffect) :=
  target ← pick_target (Key t) (so_targets s);
  '(s', ok, es) ← send_attempts net t 1 max_attempts target s;
  Some (if (ok : bool) then so_count s' else s', es).

Fixpoint send_tuples (net : SourceNet) (ts : list Tuple) (s : Source) : option (Source * list WorkerEffect) :=
  match ts with
  | [] => Some (s, [])
  | t :: rest =>
      '(s1, es1) ← send_tuple net t s;
      '(s2, es2) ← send_tuples net rest s1;
      Some (s2, es1 ++ es2)
  end.

(** The first connections: those of the targets that accept within five
    attempts. *)
Definition open_connections (accept : string → bool) (targets : list string) : Source :=
  mkSource targets (list_to_set (filter (λ a, accept a = true) targets)) 0.

(** The markers go to every connection that is open in the end; [eof_ok] says
    which of these sends succeed. *)
Definition send_eofs (eof_ok : string → bool) (taskID : string) (s : Source) : list WorkerEffect :=
  (λ target, SendTuple target (eof_tuple taskID)) <$>
    filter (λ target, eof_ok target = true) (elements (so_conns s)).

(** [time.NewTicker] panics on an interval of zero: a rate above 10^9. *)
Definition ticker_ok (task : Task) : bool :=
  let rate := if 0 <? TotalTasks task then Z.quot (InputRate task) (TotalTasks task) else InputRate task in
  negb (0 <? rate) || (0 <? Z.quot Second rate).

(** [runSourceTask] of object [n].  It returns without a report when the file
    cannot be read or there is no target. *)
Definition runSourceTask `{!GoEnv} (rep : string → bool) (ask : string → FetchReply)
    (local os_read : string → result string) (accept : string → bool) (net : SourceNet)
    (eof_ok : string → bool) (n : nat) (targets : list string) (w : Worker) :
    option (Worker * list WorkerEffect) :=
  task ← objects w !! n;
  hydfsFilename ← head (OpArgs task);
  started ← ReportTaskStarted rep w task;
  let finish (st : TaskState) := set_objects (<[n := set_task_state st task]> (objects w)) w in
  match source_content ask local os_read hydfsFilename w with
  | Err _ => Some (finish TaskStateFailed, started)
  | Ok content =>
      lines ← source_lines (TotalTasks task) (TaskIndex task) content;
      if decide (targets = []) then Some (finish TaskStateCompleted, started)
      else if negb (ticker_ok task) then None
      else
        '(s, es) ← send_tuples net (source_tuples hydfsFilename (ID task) lines)
                     (open_connections accept targets);
        let t := set_task_state TaskStateCompleted task in
        done ← ReportTaskCompleted rep w t true "";
        Some (finish TaskStateCompleted, started ++ es ++ send_eofs eof_ok (ID task) s ++ done)
  end.

(** [runTaskProcess] starts with this test. *)
Definition is_source (task : Task) : bool := bool_decide (OpExecutable task = "internal_source").

(** ** Lemmas: the command line *)

Section command_line.
Context (parse_int : string → option Z) (task : Task) (targets : list string) (outputPath : string).
Hypothesis parse_itoa : ∀ z, in_int64 z → parse_int (itoa z) = Some z.

(** What the arguments set, one at a time. *)
Definition set_when (b : bool) (name value : string) (m : gmap string string) : gmap string string :=
  if b then <[name := value]> m else m.

Definition framework_map : gmap string string :=
  set_when (nonempty (RainStormLeader task)) "rainstorm-leader" (RainStormLeader task)
  (set_when (nonempty (HyDFSLeader task)) "hydfs-leader" (HyDFSLeader task)
  (set_when (nonempty (HyDFSDestFile task)) "hydfs-dest" (HyDFSDestFile task)
  (set_when (0 <? NumSources task) "num-sources" (itoa (NumSources task))
  (set_when (nonempty (OutputFile task)) "output" outputPath
  (set_when (negb (bool_decide (targets = []))) "targets" (join "," targets)
  (<["task-id" := ID task]> (<["port" := itoa (t_Port task)]> ∅))))))).

Lemma parse_opt_arg formal b name value rest m :
  flag_name name = true →
  set_flag parse_int formal name value m = Some (<[name := value]> m) →
  parse_flags parse_int formal (opt_arg b name value ++ rest) m =
    parse_flags parse_int formal rest (set_when b name value m).
Proof. intros Hn Hs. destruct b; [|done]. by apply parse_flag_arg. Qed.

Lemma parse_framework formal rest :
  operation_flags ⊆ formal → in_int64 (t_Port task) → in_int64 (NumSources task) →
  parse_flags parse_int formal (framework_args task targets outputPath ++ rest) ∅ =
    parse_flags parse_int formal rest framework_map.
Proof.
  intros Hf Hp Hs.
  assert (∀ name, operation_flags !! name = Some FString → ∀ v m,
    set_flag parse_int formal name v m = Some (<[name := v]> m)) as Hstr.
  { intros name Hn v m. unfold set_flag. by rewrite (lookup_weaken _ _ _ _ Hn Hf). }
  assert (∀ name, operation_flags !! name = Some FInt → ∀ z m, in_int64 z →
    set_flag parse_int formal name (itoa z) m = Some (<[name := itoa z]> m)) as Hint.
  { intros name Hn z m Hz. unfold set_flag. rewrite (lookup_weaken _ _ _ _ Hn Hf). by rewrite parse_itoa. }
  unfold framework_args, framework_map. rewrite <- !app_comm_cons, <- !app_assoc.
  rewrite (parse_flag_arg parse_int formal "port" _ _ _ _ eq_refl (Hint "port" eq_refl _ _ Hp)).
  rewrite (parse_flag_arg parse_int formal "task-id" _ _ _ _ eq_refl (Hstr "task-id" eq_refl _ _)).
  rewrite !parse_opt_arg
    by first [reflexivity|apply Hstr; reflexivity|apply Hint; [reflexivity|done]].
  done.
Qed.

Lemma lookup_set_when b name value m k :
  set_when b name value m !! k = if b && bool_decide (k = name) then Some value else m !! k.
Proof.
  unfold set_when. destruct b; [|done]. simpl. case_bool_decide as H; [subst|].
  - by rewrite lookup_insert_eq.
  - by rewrite lookup_insert_ne by done.
Qed.

Lemma nonempty_value s : default "" (if nonempty s then Some s else None) = s.
Proof. unfold nonempty. case_bool_decide; [by subst|done]. Qed.

Lemma framework_flags :
  in_int64 (t_Port task) → in_int64 (NumSources task) →
  start_flags parse_int framework_map =
    mkFlags (t_Port task) (join "," targets) (if nonempty (OutputFile task) then outputPath else "")
      (Z.max 0 (NumSources task)) (HyDFSDestFile task) (HyDFSLeader task) (ID task).
Proof.
  intros Hp Hs. unfold start_flags, flag_int, flag_string, framework_map.
  rewrite !lookup_set_when. rewrite !andb_false_r, !andb_true_r, !lookup_insert_eq.
  rewrite lookup_insert_ne, lookup_insert_eq by done. simpl. rewrite parse_itoa by done. f_equal.
  - destruct targets; [|done]. by rewrite !lookup_insert_ne by done.
  - destruct (nonempty _); [done|]. by rewrite !lookup_insert_ne by done.
  - destruct (Z.ltb_spec 0 (NumSources task)).
    + simpl. rewrite parse_itoa by done. simpl. lia.
    + rewrite !lookup_insert_ne by done. rewrite lookup_empty. simpl. lia.
  - rewrite !lookup_insert_ne by done. apply nonempty_value.
  - rewrite !lookup_insert_ne by done. apply nonempty_value.
Qed.
End command_line.

(** ** Lemmas: the partition of the source *)

Lemma numbered_index content p : p ∈ numbered content → 1 <= p.2.
Proof. intros (i & line & -> & _)%elem_of_lookup_imap. simpl. lia. Qed.

Lemma numbered_NoDup content : NoDup ((numbered content).*2).
Proof.
  unfold numbered. generalize (split_on NL content). intros l.
  assert ((imap (λ i line, (line, Z.of_nat i + 1)) l).*2 = seqZ 1 (Z.of_nat (length l))) as ->.
  { apply list_eq. intros i. rewrite list_lookup_fmap, list_lookup_imap.
    destruct (lookup (M := list string) i l) as [x|] eqn:E; simpl.
    - apply lookup_lt_Some in E. symmetry. apply lookup_seqZ. lia.
    - apply lookup_ge_None in E. symmetry. apply lookup_seqZ_ge. lia. }
  apply NoDup_seqZ.
Qed.

(** A name ends with the number behind its last dash. *)
Lemma last_part_inj c s t u v :
  string_forallb (not_char c) t = true → string_forallb (not_char c) v = true →
  s +:+ String c t = u +:+ String c v → t = v.
Proof.
  intros Ht Hv. revert u. induction s as [|a s IH]; intros [|b u]; simpl.
  - by intros [= ->].
  - intros [= <- ->]. exfalso. rewrite string_forallb_app in Ht. simpl in Ht.
    unfold not_char in Ht. rewrite bool_decide_eq_false_2 in Ht by tauto.
    by rewrite andb_false_r in Ht.
  - intros [= -> <-]. exfalso. rewrite string_forallb_app in Hv. simpl in Hv.
    unfold not_char in Hv. rewrite bool_decide_eq_false_2 in Hv by tauto.
    by rewrite andb_false_r in Hv.
  - intros [= _ H]. by apply (IH u).
Qed.

Definition tuple_id (taskID : string) (n : Z) : string := taskID +:+ "-tuple-" +:+ itoa n.

Lemma tuple_id_inj a b n m : 1 <= n → 1 <= m → tuple_id a n = tuple_id b m → n = m.
Proof.
  intros Hn Hm. unfold tuple_id.
  change ("-tuple-" +:+ itoa n) with ("-tuple" +:+ String "-" (itoa n)).
  change ("-tuple-" +:+ itoa m) with ("-tuple" +:+ String "-" (itoa m)).
  rewrite <- !app_assoc_str. intros H. apply itoa_inj.
  apply (last_part_inj "-"%char) in H; [done|apply itoa_no_dash; lia..].
Qed.

Lemma line_tuple_id file id p t : line_tuple file id p = Some t → tu_ID t = tuple_id id p.2.
Proof. unfold line_tuple. destruct (decide _); [done|]. by intros [= <-]. Qed.

Lemma source_ids_NoDup file id l :
  NoDup l.*2 → (∀ p, p ∈ l → 1 <= p.2) → NoDup (tu_ID <$> source_tuples file id l).
Proof.
  intros Hl Hp. eapply sublist_NoDup.
  { apply (NoDup_fmap_2_strong (tuple_id id) l.*2); [|done].
    intros x y Hx Hy. apply list_elem_of_fmap in Hx as (px & -> & Hx).
    apply list_elem_of_fmap in Hy as (py & -> & Hy). apply tuple_id_inj; by apply Hp. }
  rewrite <- list_fmap_compose. apply omap_fmap_sublist. intros p t. apply line_tuple_id.
Qed.

(** The tuples of task [i] of [n]. *)
Definition task_tuples (file : string) (ids : Z → string) (n : Z) (content : string) (i : Z) : list Tuple :=
  match source_lines n i content with Some l => source_tuples file (ids i) l | None => [] end.

(** What a line is to become, from the file alone: its name and the number of the
    line, and the line without the white space around it; blank lines are
    left out. *)
Definition line_pair (file : string) (p : string * Z) : option (string * Value) :=
  if decide (trim_space p.1 = "") then None
  else Some (file +:+ ":" +:+ itoa p.2, VString (trim_space p.1)).

Definition file_lines (file content : string) : list (string * Value) :=
  filter (λ kv, kv.2 ≠ VString "")
    (imap (λ i line, (file +:+ ":" +:+ itoa (Z.of_nat i + 1), VString (trim_space line))) (split_on NL content)).

Lemma file_lines_numbered file content : file_lines file content = omap (line_pair file) (numbered content).
Proof.
  unfold file_lines, numbered, line_pair.
  set (g := λ i : nat, file +:+ ":" +:+ itoa (Z.of_nat i + 1)).
  change (λ i line, (file +:+ ":" +:+ itoa (Z.of_nat i + 1), VString (trim_space line)))
    with (λ i line, (g i, VString (trim_space line))).
  assert (∀ l k, filter (λ kv, kv.2 ≠ VString "") (imap (λ i line, (g (k + i)%nat, VString (trim_space line))) l) =
    omap (λ p, if decide (trim_space p.1 = "") then None else Some (file +:+ ":" +:+ itoa p.2, VString (trim_space p.1)))
      (imap (λ i line, (line, Z.of_nat (k + i) + 1)) l)) as H; [|exact (H (split_on NL content) 0%nat)].
  induction l as [|x l IH]; intros k; [done|].
  specialize (IH (S k)). rewrite !imap_cons, filter_cons. cbn [omap list_omap].
  assert (∀ {A} (f : nat → string → A), imap ((λ i line, f (k + i)%nat line) ∘ S) l = imap (λ i line, f (S k + i)%nat line) l) as Hs.
  { intros A f. apply imap_ext. intros i y _. unfold compose. by rewrite Nat.add_succ_r. }
  rewrite (Hs _ (λ i line, (g i, VString (trim_space line)))), (Hs _ (λ i line, (line, Z.of_nat i + 1))), IH.
  unfold g at 1. rewrite Nat.add_0_r. simpl.
  destruct (decide (trim_space x = "")) as [->|Hx]; [by rewrite decide_False by tauto|].
  rewrite decide_True; [done|]. by intros [= ?].
Qed.

Lemma source_pairs file id l :
  (λ t, (Key t, Value_ t)) <$> source_tuples file id l = omap (line_pair file) l.
Proof.
  unfold source_tuples. induction l as [|p l IH]; [done|]. cbn [omap list_omap].
  unfold line_pair at 1, line_tuple at 1. destruct (decide _); [exact IH|].
  rewrite fmap_cons. f_equal. exact IH.
Qed.

Lemma task_tuples_eq file ids n content i :
  0 < n → task_tuples file ids n content i =
    source_tuples file (ids i) (filter (λ p, Z.rem (p.2 - 1) n = i) (numbered content)).
Proof. intros Hn. unfold task_tuples, source_lines. by rewrite decide_False by lia. Qed.

Lemma numbered_classes n content :
  0 < n →
  concat ((λ i, filter (λ p, Z.rem (p.2 - 1) n = i) (numbered content)) <$> seqZ 0 n)
    ≡ₚ numbered content.
Proof.
  intros Hn. apply concat_classes.
  - apply (NoDup_fmap_1 snd). apply numbered_NoDup.
  - intros p Hp%numbered_index. rewrite Z.rem_mod_nonneg by lia. by apply Z.mod_pos_bound.
Qed.

(** All the tuples of a job. *)
Definition all_tuples (file : string) (ids : Z → string) (n : Z) (content : string) : list Tuple :=
  concat (task_tuples file ids n content <$> seqZ 0 n).

Lemma all_tuples_spec (file : string) (ids : Z → string) (n : Z) (content : string) :
  0 < n →
  (λ t, (Key t, Value_ t)) <$> all_tuples file ids n content ≡ₚ omap (line_pair file) (numbered content) ∧
  NoDup (tu_ID <$> all_tuples file ids n content).
Proof.
  intros Hn. unfold all_tuples.
  set (cls := λ i, filter (λ p, Z.rem (p.2 - 1) n = i) (numbered content)).
  rewrite (list_fmap_ext _ (λ i, source_tuples file (ids i) (cls i)))
    by (intros; by apply task_tuples_eq). split.
  - rewrite fmap_concat, <- list_fmap_compose.
    rewrite (list_fmap_ext _ (λ i, omap (line_pair file) (cls i))) by (intros; apply source_pairs).
    pose proof (omap_concat (line_pair file) (cls <$> seqZ 0 n)) as Hc.
    rewrite <- list_fmap_compose in Hc. unfold compose in Hc. rewrite <- Hc.
    apply omap_Permutation. by apply numbered_classes.
  - rewrite fmap_concat, <- list_fmap_compose. apply NoDup_concat_fmap; [apply NoDup_seqZ| |].
    + intros i _. apply source_ids_NoDup.
      * eapply sublist_NoDup; [apply (numbered_NoDup content)|]. apply fmap_sublist, sublist_filter.
      * intros p [_ Hp]%list_elem_of_filter. by eapply numbered_index.
    + intros i1 i2 id _ _ H1 H2. unfold compose in H1, H2.
      apply list_elem_of_fmap in H1 as (t1 & -> & H1). apply list_elem_of_fmap in H2 as (t2 & Hid & H2).
      apply list_elem_of_omap in H1 as (p1 & H1 & E1). apply list_elem_of_omap in H2 as (p2 & H2 & E2).
      apply list_elem_of_filter in H1 as [<- H1%numbered_index].
      apply list_elem_of_filter in H2 as [<- H2%numbered_index].
      apply line_tuple_id in E1, E2. rewrite E1, E2 in Hid.
      by rewrite (tuple_id_inj _ _ _ _ H1 H2 Hid).
Qed.

(** ** Lemmas: delivery *)

Definition ack_of (t r : Tuple) : Prop := Type_ r = "ack" ∧ tu_ID r = tu_ID t.

(** From attempt [k0] on every target accepts and acknowledges. *)
Definition works_from (net : SourceNet) (t : Tuple) (k0 : nat) : Prop :=
  ∀ k a, (k0 <= k)%nat → sn_dial net t k a = true ∧ ∃ r, sn_answer net t k a = Answered r ∧ ack_of t r.

Lemma source_connect_sent net t k target s target' s1 c :
  source_connect net t k target s = Some (target', s1, c) → so_sent s1 = so_sent s.
Proof.
  unfold source_connect. destruct (decide _); [by intros [= <- <- <-]|].
  assert (∀ a s2, ask_location net t k target s = Some (a, s2) → so_sent s2 = so_sent s) as Ha.
  { intros a s2. unfold ask_location. destruct (sn_location net t k) as [[|x l]|]; [by intros [= <- <-]| |by intros [= <- <-]].
    destruct (pick_target (Key t) (x :: l)); [|done]. simpl. by intros [= <- <-]. }
  destruct (ask_location net t k target s) as [[a s2]|]; [|done]. simpl. specialize (Ha a s2 eq_refl).
  destruct (sn_dial net t k a); by intros [= <- <- <-].
Qed.

(** The attempt [p.1] reached the target [p.2] and brought the acknowledgement. *)
Definition acked (net : SourceNet) (t : Tuple) (p : nat * string) : Prop :=
  ∃ r, sn_answer net t p.1 p.2 = Answered r ∧ ack_of t r.

(** The attempts that wrote the tuple, in order: none but the last is
    acknowledged, and that one decides. *)
Definition tried (net : SourceNet) (t : Tuple) (ok : bool) (tr : list (nat * string)) : Prop :=
  StronglySorted lt tr.*1 ∧ Forall (λ p, sn_answer net t p.1 p.2 ≠ NotSent) tr ∧
  if ok then ∃ init p, tr = init ++ [p] ∧ acked net t p ∧ Forall (λ q, ¬ acked net t q) init
  else Forall (λ q, ¬ acked net t q) tr.

Lemma tried_cons net t ok k a tr :
  sn_answer net t k a ≠ NotSent → ¬ acked net t (k, a) → Forall (λ p, (k < p.1)%nat) tr →
  tried net t ok tr → tried net t ok ((k, a) :: tr).
Proof.
  intros Hs Hk Hlt (H1 & H2 & H3). split; [|split; [by constructor|]].
  - rewrite fmap_cons. constructor; [done|]. by apply Forall_fmap.
  - destruct ok; [|by constructor]. destruct H3 as (init & p & -> & ? & ?).
    exists ((k, a) :: init), p. split; [done|]. split; [done|]. by constructor.
Qed.

Lemma send_attempts_frame net t k fuel target s s' ok es :
  send_attempts net t k fuel target s = Some (s', ok, es) →
  so_sent s' = so_sent s ∧ ∃ tr, es = (λ p, SendTuple p.2 t) <$> tr ∧
    Forall (λ p, k <= p.1 < k + fuel)%nat tr ∧ (length tr <= fuel)%nat ∧ tried net t ok tr.
Proof.
  revert k target s s' ok es; induction fuel as [|fuel IH]; intros k target s s' ok es; cbn [send_attempts].
  { intros [= <- <- <-]. split; [done|]. exists []. repeat split; try done; constructor. }
  destruct (source_connect net t k target s) as [[[target' s1] connected]|] eqn:Ec; [|done]. simpl.
  assert (so_sent s1 = so_sent s) as Hs1 by (by eapply source_connect_sent).
  assert (∀ s2, send_attempts net t (S k) fuel target' s2 = Some (s', ok, es) → so_sent s2 = so_sent s1 →
    so_sent s' = so_sent s ∧ ∃ tr, es = (λ p, SendTuple p.2 t) <$> tr ∧
      Forall (λ p, k <= p.1 < k + S fuel)%nat tr ∧ (length tr <= S fuel)%nat ∧ tried net t ok tr) as Hskip.
  { intros s2 (H1 & tr & H2 & H3 & H4 & H5)%IH Hs2. split; [congruence|]. exists tr.
    split; [done|]. split; [eapply Forall_impl; [exact H3|]; simpl; lia|]. split; [lia|done]. }
  assert (∀ s2 es2, send_attempts net t (S k) fuel target' s2 = Some (s', ok, es2) → so_sent s2 = so_sent s1 →
    es = SendTuple target' t :: es2 → sn_answer net t k target' ≠ NotSent → ¬ acked net t (k, target') →
    so_sent s' = so_sent s ∧ ∃ tr, es = (λ p, SendTuple p.2 t) <$> tr ∧
      Forall (λ p, k <= p.1 < k + S fuel)%nat tr ∧ (length tr <= S fuel)%nat ∧ tried net t ok tr) as Hsent.
  { intros s2 es2 (H1 & tr & H2 & H3 & H4 & H5)%IH Hs2 -> Hns Hna. split; [congruence|].
    exists ((k, target') :: tr). split; [by rewrite fmap_cons, H2|]. split; [|split; [simpl; lia|]].
    - constructor; [simpl; lia|]. eapply Forall_impl; [exact H3|]. simpl. lia.
    - apply tried_cons; [done..| |done]. eapply Forall_impl; [exact H3|]. simpl. lia. }
  destruct connected; [|intros H; by apply (Hskip s1)].
  destruct (sn_answer net t k target') as [| |r] eqn:Ea.
  - intros H. by apply (Hskip _ H).
  - destruct (send_attempts net t (S k) fuel target' _) as [[[s2 ok2] es2]|] eqn:E; [|done].
    simpl. intros [= -> -> <-]. apply (Hsent _ _ E); [done|done|done|].
    intros (r & Hr & _). simpl in Hr. congruence.
  - destruct (decide _) as [Hack|Hack].
    + intros [= <- <- <-]. split; [done|]. exists [(k, target')]. split; [done|].
      split; [constructor; [simpl; lia|constructor]|]. split; [simpl; lia|].
      split; [repeat constructor|]. split; [constructor; [simpl; congruence|constructor]|].
      exists [], (k, target'). split; [done|]. split; [by exists r|constructor].
    + destruct (send_attempts net t (S k) fuel target' s1) as [[[s2 ok2] es2]|] eqn:E; [|done].
      simpl. intros [= -> -> <-]. apply (Hsent _ _ E); [done|done|done|].
      intros (r' & Hr' & Ha). simpl in Hr'. apply Hack. rewrite Ea in Hr'. by injection Hr' as ->.
Qed.

Lemma send_attempts_works net t k0 k fuel target s s' ok es :
  works_from net t k0 → (k <= k0 < k + fuel)%nat →
  send_attempts net t k fuel target s = Some (s', ok, es) → ok = true.
Proof.
  intros Hw. revert k target s s' ok es.
  induction fuel as [|fuel IH]; intros k target s s' ok es Hk; [lia|]. cbn [send_attempts].
  destruct (source_connect net t k target s) as [[[target' s1] connected]|] eqn:Ec; [|done].
  cbn [mbind option_bind].
  destruct (decide (k = k0)) as [->|Hne].
  - assert (connected = true) as ->.
    { unfold source_connect in Ec. destruct (decide _); [by simplify_eq|].
      destruct (ask_location net t k0 target s) as [[a s2]|]; [|done]. simpl in Ec.
      by rewrite (proj1 (Hw k0 a ltac:(lia))) in Ec; simplify_eq. }
    destruct (Hw k0 target' ltac:(lia)) as (_ & r & -> & Hr). rewrite decide_True by done.
    by intros [= <- <- <-].
  - destruct connected; [|apply IH; lia].
    destruct (sn_answer net t k target') as [| |r]; [apply IH; lia|..].
    + destruct (send_attempts net t (S k) fuel target' _) as [[[s2 ok2] es2]|] eqn:E; [|done].
      simpl. intros [= -> -> <-]. apply IH in E; [done|lia].
    + destruct (decide _); [by intros [= <- <- <-]|].
      destruct (send_attempts net t (S k) fuel target' s1) as [[[s2 ok2] es2]|] eqn:E; [|done].
      simpl. intros [= -> -> <-]. apply IH in E; [done|lia].
Qed.

(** ** The theorems *)

(** C30: the command line survives: what a worker puts on the command line of a
    task, the process reads back as the fields of the task, whatever flags the
    operator adds, and the operator's own arguments are left over untouched,
    provided they do not start with a flag. *)
Theorem task_command_line (parse_int : string → option Z) (formal : gmap string FlagKind) (os : OS)
    (task : Task) (targets : list string) :
  (∀ z, in_int64 z → parse_int (itoa z) = Some z) →
  operation_flags ⊆ formal → in_int64 (t_Port task) → in_int64 (NumSources task) →
  positional (OpArgs task) →
  Forall (λ a, a ≠ "" ∧ string_forallb (not_char ","%char) a = true) targets →
  ∃ m, parse_flags parse_int formal (task_args os task targets) ∅ = Some (m, OpArgs task) ∧
    start_flags parse_int m =
      mkFlags (t_Port task) (join "," targets)
        (if nonempty (OutputFile task) then (task_output os task).1 else "")
        (Z.max 0 (NumSources task)) (HyDFSDestFile task) (HyDFSLeader task) (ID task) ∧
    initial_targets (start_flags parse_int m) = targets.
Proof.
  intros Hi Hf Hp Hs Hargs Ht.
  exists (framework_map task targets (task_output os task).1).
  rewrite framework_flags by done. split; [|split; [done|]].
  - unfold task_args. rewrite (parse_framework parse_int task targets _ Hi) by done.
    by apply parse_positional.
  - unfold initial_targets. simpl. destruct targets as [|a targets]; [done|].
    rewrite decide_False.
    + apply (split_join ","%char); [done|]. eapply Forall_impl; [exact Ht|]. by intros x [_ Hx].
    + apply Forall_cons in Ht as [[Ha _] _]. intros He. apply Ha.
      destruct a; [done|]. destruct targets; simpl in He; discriminate He.
Qed.

Definition demo_task : Task :=
  mkTask "stage2-task-1" 2 OpTransform "grep" ["foo"; "3"] 10007 "vm4" TaskStateIdle 0 "" 0 0 0
    "out.txt" 2 "20250101" "dest.csv" "vm1:8000" "vm0:8002" false.

Definition demo_os : OS := mkOS (λ _, true) (Some "/home/rs") "20250101_120000" (Some 4242).

Lemma task_command_line_witness :
  ∃ m, parse_flags atoi operation_flags (task_args demo_os demo_task ["vm2:10010"; "vm3:10012"]) ∅
      = Some (m, ["foo"; "3"]) ∧
    start_flags atoi m = mkFlags 10007 "vm2:10010,vm3:10012" "/home/rs/out.txt" 2 "dest.csv" "vm1:8000"
      "stage2-task-1" ∧
    initial_targets (start_flags atoi m) = ["vm2:10010"; "vm3:10012"].
Proof.
  apply (task_command_line atoi operation_flags demo_os demo_task ["vm2:10010"; "vm3:10012"]).
  - exact atoi_itoa.
  - done.
  - done.
  - done.
  - done.
  - repeat constructor; discriminate.
Defined.

Lemma source_tuples_data file id l t : t ∈ source_tuples file id l → Type_ t = "tuple" ∧ IsEOF t = false.
Proof.
  intros (p & _ & Hp)%list_elem_of_omap. unfold line_tuple in Hp.
  destruct (decide _); [done|]. by injection Hp as <-.
Qed.

(** C23: The source tasks of a job share the file out: together their tuples are
    the lines of the file that are not blank, each exactly once, with the name
    of the file and the number of the line as key and the trimmed line as
    value; they are data tuples, and no two have the same identifier, whatever
    the identifiers of the tasks. *)
Theorem source_partition (file : string) (ids : Z → string) (n : Z) (content : string) :
  0 < n →
  let all := all_tuples file ids n content in
  (λ t, (Key t, Value_ t)) <$> all ≡ₚ
    filter (λ kv, kv.2 ≠ VString "")
      (imap (λ i line, (file +:+ ":" +:+ itoa (Z.of_nat i + 1), VString (trim_space line))) (split_on NL content)) ∧
  NoDup (tu_ID <$> all) ∧
  ∀ t, t ∈ all → Type_ t = "tuple" ∧ IsEOF t = false.
Proof.
  intros Hn all. destruct (all_tuples_spec file ids n content Hn) as [H1 H2].
  split; [|split; [done|]].
  - change (filter _ _) with (file_lines file content). by rewrite file_lines_numbered.
  - intros t. unfold all, all_tuples. rewrite elem_of_concat_fmap. intros (i & _ & Ht).
    unfold task_tuples in Ht. destruct (source_lines n i content); [|by apply elem_of_nil in Ht].
    by eapply source_tuples_data.
Qed.

Definition demo_content : string := "alpha" +:+ nl +:+ " beta " +:+ nl +:+ nl +:+ "gamma" +:+ nl.

Lemma source_partition_witness :
  let all := all_tuples "f.csv" src_task_id 2 demo_content in
  (tu_ID <$> all) = ["src-task-0-tuple-1"; "src-task-1-tuple-2"; "src-task-1-tuple-4"] ∧
  NoDup (tu_ID <$> all).
Proof.
  split; [reflexivity|]. apply (source_partition "f.csv" src_task_id 2 demo_content). lia.
Defined.

(** C31: A source retries, and counts a tuple as sent exactly when it was
    acknowledged.  Whatever the network does, the copies it writes are those of
    at most ten attempts, in order, and of that tuple only; it stops at the
    first acknowledgement: the tuple is counted if the last copy was
    acknowledged and no earlier one was, and is not counted if none was.  It
    does not give up early: if within the ten attempts the targets come back,
    the tuple is counted. *)
Theorem source_retries (net : SourceNet) (t : Tuple) (s s' : Source) (es : list WorkerEffect) :
  send_tuple net t s = Some (s', es) →
  (∃ tr, es = (λ p, SendTuple p.2 t) <$> tr ∧ (length tr <= 10)%nat ∧
     Forall (λ p, 1 <= p.1 <= 10)%nat tr ∧ StronglySorted lt tr.*1 ∧
     Forall (λ p, sn_answer net t p.1 p.2 ≠ NotSent) tr ∧
     (so_sent s' = so_sent s + 1 ∧
        (∃ init p, tr = init ++ [p] ∧ acked net t p ∧ Forall (λ q, ¬ acked net t q) init) ∨
      so_sent s' = so_sent s ∧ Forall (λ q, ¬ acked net t q) tr)) ∧
  (∀ k0, (1 <= k0 <= 10)%nat → works_from net t k0 → so_sent s' = so_sent s + 1).
Proof.
  intros (target & _ & ([[s2 ok] es2] & E & [= <- ->])%bind_Some)%bind_Some.
  pose proof (send_attempts_frame _ _ _ _ _ _ _ _ _ E) as (H1 & tr & -> & H2 & H3 & H4 & H5 & H6).
  split.
  - exists tr. split; [done|]. split; [done|]. split.
    { eapply Forall_impl; [exact H2|]. unfold max_attempts. simpl. lia. }
    split; [done|]. split; [done|]. destruct ok; [left|by right]. split; [simpl; lia|done].
  - intros k0 Hk Hw. assert (1 <= k0 < 1 + max_attempts)%nat as Hk' by (unfold max_attempts; lia).
    rewrite (send_attempts_works net t k0 _ _ _ _ _ _ _ Hw Hk' E). simpl. lia.
Qed.

Definition sent_to (es : list WorkerEffect) : list string :=
  omap (λ e, match e with SendTuple a _ => Some a | _ => None end) es.

(** The first two attempts fail, and the leader moves the tuple to another target. *)
Definition flaky_net : SourceNet :=
  mkSourceNet (λ _ k _, (3 <=? k)%nat)
    (λ t k _, if (3 <=? k)%nat then Answered (mkTuple "ack" "" VNil (tu_ID t) false) else NoAnswer)
    (λ _ _, Some ["b:1"]).

Lemma source_retries_witness :
  let t := mkTuple "tuple" "f:1" (VString "x") "src-task-0-tuple-1" false in
  ∃ s' es, send_tuple flaky_net t (open_connections (λ _, true) ["a:1"]) = Some (s', es) ∧
    sent_to es = ["a:1"; "b:1"] ∧ so_sent s' = 1.
Proof.
  intros t.
  assert (match send_tuple flaky_net t (open_connections (λ _, true) ["a:1"]) with
          | Some (_, es) => bool_decide (sent_to es = ["a:1"; "b:1"])
          | None => false
          end = true) as Hrun by (vm_compute; reflexivity).
  destruct (send_tuple flaky_net t (open_connections (λ _, true) ["a:1"])) as [[s' es]|] eqn:E;
    [|discriminate Hrun].
  exists s', es. split; [done|]. split; [exact (proj1 (bool_decide_eq_true _) Hrun)|].
  apply (source_retries _ _ _ _ _ E) with (k0 := 3%nat); [lia|].
  intros k a Hk. destruct k as [|[|[|k]]]; [lia..|].
  split; [done|]. eexists. split; [done|]. by split.
Defined.

(** C37: A process that dies is reported twice, as a failure and as a completion,
    and the second report counts: in whichever order the two arrive, the leader
    holds the task, which it may have restarted, for completed, and when no
    other task is missing it ends the job. *)
Theorem failed_process_counts_as_completed (net : string → bool) (n : nat) (task : Task) (err : string)
    (w w' : Worker) (notes es : list WorkerEffect) :
  objects w !! n = Some task → wk_Role w = RoleWorker → (∀ a, net a = true) →
  process_exit net n (Some err) w = Some (w', notes, es) →
  ∃ addr pf pc, notes = [Report addr (task_failed pf)] ∧ es = [Report addr (task_completed pc)] ∧
    ∀ fnet order s,
      ID task ∈ CompletedTaskIDs (job (HandleTaskCompleted_begin pc (HandleTaskFailure fnet order pf s).1).1) ∧
      ID task ∈ CompletedTaskIDs (job (HandleTaskFailure fnet order pf (HandleTaskCompleted_begin pc s).1).1) ∧
      (let '(s', gs) := HandleTaskCompleted_begin pc s in
       ExpectedTasks (job s) <= CompletedTasks (job s') → JobEnded (job s') = false →
       ∃ name, GCompletedEnd (CompletedTasks (job s')) (ExpectedTasks (job s)) name ∈ gs ∧
         run_ends (end_job (CompletedTasks (job s')) (ExpectedTasks (job s)) name s').2 = 1%nat).
Proof.
  intros Hn Hr Hnet. unfold process_exit, NotifyLeaderTaskFailed, ReportTaskCompleted, send_report.
  rewrite Hn. cbn [mbind option_bind]. rewrite Hr, decide_False by done.
  destruct (report_addr (wk_Config w)) as [addr|]; [|done]. cbn [mbind option_bind].
  rewrite Hnet. intros [= <- <- <-]. eexists addr, _, _. split; [done|]. split; [done|].
  intros fnet order s.
  set (pf := mkTaskFailurePayload _ _ _ _ _ _). set (pc := completed_payload _ _ _).
  split; [|split].
  - pose proof (report_counts pc (HandleTaskFailure fnet order pf s).1) as H.
    destruct (HandleTaskCompleted_begin pc _). apply H.
  - rewrite HandleTaskFailure_counted. pose proof (report_counts pc s) as H.
    destruct (HandleTaskCompleted_begin pc s). apply H.
  - pose proof (report_counts pc s) as H. destruct (HandleTaskCompleted_begin pc s) as [s' gs].
    destruct H as (_ & _ & H). intros Hle He. destruct (H Hle He) as (name & Hg & Hend).
    exists name. split; [done|]. by rewrite Hend.
Qed.

Definition demo_worker : Worker :=
  mkWorker RoleWorker demo_config (sv_Node (demo_server ["w1"; "w2"])) [demo_task] ∅ ∅.

Lemma failed_process_counts_as_completed_witness :
  ∃ w' notes es,
    process_exit (λ _, true) 0 (Some "exit status 1") demo_worker = Some (w', notes, es) ∧
    ∃ addr pf pc, notes = [Report addr (task_failed pf)] ∧ es = [Report addr (task_completed pc)].
Proof.
  destruct (process_exit (λ _, true) 0 (Some "exit status 1") demo_worker) as [[[w' notes] es]|] eqn:E;
    [|discriminate E].
  exists w', notes, es. split; [done|].
  destruct (failed_process_counts_as_completed (λ _, true) 0 demo_task "exit status 1" demo_worker
    w' notes es eq_refl eq_refl (λ _, eq_refl) E) as (addr & pf & pc & H1 & H2 & _).
  by exists addr, pf, pc.
Defined.
