(* ===== verification/Pipeline.v ===== *)
(** * Pipeline: a job from the lines of its file to the lines of its output

    The components put together: the source tasks of [Worker] share a file
    out, the tasks of a stage ([Connections]) run an operator of [Operators] on
    what is routed to them and send what it emits to the next stage, and the
    tasks of the last stage write their output.  A task is given by the events
    of its run, so copies of a tuple may arrive several times, in any order and
    on any connection, the goroutines of a task interleave, and end-of-stream
    markers come between the tuples. *)

From S2P Require Import Prelude GoStrings GoFlags Env Membership Common RainStorm Operators Leader Runtime Connections Worker.

(** ** Stages *)

(** A task from its start through a run. *)
Definition run_task (op : Operation) (net : Network) (fl : Flags) (evs : list Event) : option (Task op) :=
  s ← start net fl FetchError; run_events net fl evs (new_task (op_init op) s).

(** What it sent, if it did not crash. *)
Definition task_sends (op : Operation) (net : Network) (fl : Flags) (evs : list Event) : list OpEffect :=
  match run_task op net fl evs with Some st => tk_effects st | None => [] end.

(** The ports are free, the files can be opened, every target accepts, and at
    least one copy of a tuple gets through. *)
Definition delivering (net : Network) : Prop :=
  (∀ a, dial net a = true) ∧ (∀ a t, ∃ k, (1 <= k <= 5)%nat ∧ answer net a t k ≠ NotSent) ∧
  (∀ p, can_listen net p = true) ∧ ∀ f, can_open net f = true.

(** What an operator emits depends on the data tuple only, and nothing but
    markers comes from a marker. *)
Definition stateless (op : Operation) (f : Tuple → list Tuple) : Prop :=
  (∀ os t, IsEOF t = false → (Process op os t).2 = f t) ∧
  (∀ t u, IsEOF t = false → u ∈ f t → IsEOF u = false) ∧
  (∀ os t u, IsEOF t = true → u ∈ (Process op os t).2 → IsEOF u = true).

(** The identifier determines the data tuple. *)
Definition identified (l : list Tuple) : Prop :=
  ∀ t u, t ∈ l → u ∈ l → tu_ID t = tu_ID u → t = u.

(** Every tuple that arrives is of type "tuple", and the data tuples are
    those of [D]. *)
Definition arriving (D : Tuple → Prop) (evs : list Event) : Prop :=
  ∀ c t, Arrive c t ∈ evs → Type_ t = "tuple" ∧ (IsEOF t = false → D t).

(** ** Lemmas: sending *)

Lemma stop_and_wait_some answers t k fuel :
  (∃ j, (k <= j < k + fuel)%nat ∧ answers j ≠ NotSent) →
  (0 < (stop_and_wait answers t k fuel).1)%nat.
Proof.
  revert k; induction fuel as [|fuel IH]; intros k (j & Hj & Ha); [lia|]. cbn [stop_and_wait].
  destruct (answers k) as [| |r] eqn:E.
  - apply IH. exists j. split; [|done]. destruct (decide (j = k)) as [->|]; [done|lia].
  - destruct (stop_and_wait answers t (S k) fuel). simpl. lia.
  - destruct (decide _); [simpl; lia|]. destruct (stop_and_wait answers t (S k) fuel). simpl. lia.
Qed.

(** The state a stage keeps while it processes data. *)
Definition sending (targets : list string) (s : OpRun) : Prop :=
  targetList s = targets ∧ ∀ a, a ∈ targets → a ∈ targetConnections s ∧ a ∈ targetDecoders s.

Lemma pick_target_in key targets a : pick_target key targets = Some a → a ∈ targets.
Proof.
  unfold pick_target. cbv zeta. destruct (_ <? 0); [done|]. apply list_elem_of_lookup_2.
Qed.

Lemma emit_data_sends net fl targets u s :
  delivering net → sending targets s → targets ≠ [] → IsEOF u = false →
  pick_target (Key u) targets ≠ None →
  ∃ es, emit net fl u s = Some (s, es) ∧
    ∀ a v, Sent a v ∈ es ↔ pick_target (Key u) targets = Some a ∧ v = set_type "tuple" u.
Proof.
  intros (_ & Hans & _) [Ht Hc] Hne Hu Hp. unfold emit. rewrite Ht, decide_False by done.
  change (IsEOF (set_type "tuple" u)) with (IsEOF u). rewrite Hu. unfold emit_data. rewrite Ht.
  change (Key (set_type "tuple" u)) with (Key u).
  destruct (pick_target (Key u) targets) as [a|] eqn:E; [|done].
  destruct (Hc a (pick_target_in _ _ _ E)) as [H1 H2]. unfold send_data.
  rewrite decide_True by done. rewrite decide_True by done.
  eexists. split; [done|]. intros a' v. rewrite elem_of_replicate.
  pose proof (stop_and_wait_some (answer net a (set_type "tuple" u)) (set_type "tuple" u) 1 5) as Hn.
  destruct (Hans a (set_type "tuple" u)) as (k & Hk & Hk').
  specialize (Hn ltac:(exists k; split; [lia|done])). split.
  - by intros [[= -> ->] _].
  - intros [[= ->] ->]. split; [done|lia].
Qed.

Lemma checkpoint_frame fl t s :
  let '(s', es) := checkpoint fl t s in
  targetList s' = targetList s ∧ targetConnections s' = targetConnections s ∧
  targetDecoders s' = targetDecoders s ∧ processedIDs s' = processedIDs s ∧ outLines s' = outLines s ∧
  ∀ a v, Sent a v ∉ es.
Proof.
  unfold checkpoint. destruct (_ && _ && _); [destruct (_ <? _)%nat|]; repeat split; try done.
  - intros a v ?%elem_of_nil. done.
  - intros a v ?%list_elem_of_singleton. done.
  - intros a v ?%elem_of_nil. done.
Qed.

Lemma broadcast_targets_sends net t targets s :
  sending targets s →
  let '(s', es) := broadcast_targets net t s in
  sending targets s' ∧ outLines s' = outLines s ∧ ∀ a v, Sent a v ∉ es.
Proof.
  intros Hs. unfold broadcast_targets. generalize (targetList s). intros l.
  assert (∀ s0 es0, sending targets s0 → outLines s0 = outLines s → (∀ a v, Sent a v ∉ es0) →
    let '(s', es) := foldl (λ '(s, es) target,
      if decide (target ∈ targetConnections s) then (s, es ++ [SentEOF target t])
      else if dial net target
           then (set_connections ({[target]} ∪ targetConnections s) (targetDecoders s) s, es ++ [SentEOF target t])
           else (s, es)) (s0, es0) l in
    sending targets s' ∧ outLines s' = outLines s ∧ ∀ a v, Sent a v ∉ es) as H; [|apply H; set_solver].
  induction l as [|x l IH]; intros s0 es0 H0 Ho He; [done|]. cbn [foldl].
  assert (∀ a v, Sent a v ∉ es0 ++ [SentEOF x t]) as He' by (intros a v [?%He|[=]%list_elem_of_singleton]%elem_of_app; done).
  destruct (decide _); [by apply IH|]. destruct (dial net x); [|by apply IH].
  apply IH; [|done|done]. destruct H0 as [H1 H2]. split; [done|]. simpl. set_solver.
Qed.

Lemma broadcastEOF_sends net t targets s :
  sending targets s →
  let '(s', es) := broadcastEOF net t s in
  sending targets s' ∧ outLines s' = outLines s ∧ ∀ a v, Sent a v ∉ es.
Proof.
  intros Hs. unfold broadcastEOF. destruct (eofBroadcast s).
  - split; [done|]. split; [done|]. by intros a v ?%elem_of_nil.
  - by apply (broadcast_targets_sends net t targets (set_broadcast s)).
Qed.

(** A marker that leaves a middle stage. *)
Lemma emit_eof_sends net fl targets u s :
  sending targets s → targets ≠ [] → IsEOF u = true →
  ∃ s' es, emit net fl u s = Some (s', es) ∧ sending targets s' ∧ ∀ a v, Sent a v ∉ es.
Proof.
  intros Hs Hne Hu. unfold emit. rewrite (proj1 Hs), decide_False by done.
  change (IsEOF (set_type "tuple" u)) with (IsEOF u). rewrite Hu. unfold emit_eof.
  destruct (0 <? fl_numSources fl); [|exists s, []; split; [done|]; set_solver].
  cbv zeta. destruct (_ <=? _).
  - pose proof (broadcastEOF_sends net (set_type "tuple" u) targets (count_eof s) Hs) as H.
    destruct (broadcastEOF _ _ _) as [s' es]. destruct H as (H1 & _ & H3). by exists (signal_shutdown s'), es.
  - eexists _, _. split; [done|]. split; [exact Hs|]. intros a v. destruct (_ =? _); [|by apply not_elem_of_nil].
    by intros ?%list_elem_of_singleton.
Qed.

Lemma eof_timeout_sends net fl t targets s :
  sending targets s →
  let '(s', es) := eof_timeout net fl t s in
  sending targets s' ∧ outLines s' = outLines s ∧ ∀ a v, Sent a v ∉ es.
Proof.
  intros Hs. unfold eof_timeout. destruct (_ && _).
  - pose proof (broadcastEOF_sends net t targets s Hs) as H. by destruct (broadcastEOF _ _ _).
  - split; [done|]. split; [done|]. by intros a v ?%elem_of_nil.
Qed.

(** ** Lemmas: what a goroutine still has to emit *)

Definition to_emit (p : Phase) : list (Tuple * Tuple) :=
  match p with Emitting t out => (t,.) <$> out | _ => [] end.

Lemma to_emit_set {op} (st st1 : Task op) c p :
  phase st1 = phase st → to_emit p = to_emit (phase st c) →
  ∀ c', to_emit (phase (set_phase c p st1) c') = to_emit (phase st c').
Proof. intros E Hp c'. rewrite phase_set, E. by destruct (decide (c = c')) as [->|]. Qed.

Section stateless.
Context (op : Operation) (f : Tuple → list Tuple) (net : Network) (fl : Flags) (targets : list string).
Context (D : Tuple → Prop).
Hypothesis Hop : stateless op f.
Hypothesis Hnet : delivering net.
Hypothesis Hne : targets ≠ [].
Hypothesis Hkeys : ∀ t u, D t → u ∈ f t → pick_target (Key u) targets ≠ None.
Implicit Types (st : Task op).

Record stage_ok st : Prop := {
  sg_sending : sending targets (tk_run st);
  sg_got t : t ∈ tk_got st → Type_ t = "tuple" ∧ (IsEOF t = false → D t);
  sg_log t : t ∈ tk_log st → t ∈ tk_got st;
  sg_out c t u : (t, u) ∈ to_emit (phase st c) → t ∈ tk_log st ∧ if IsEOF t then IsEOF u = true else u ∈ f t;
  sg_sound a v : Sent a v ∈ tk_effects st → ∃ t u, t ∈ tk_log st ∧ IsEOF t = false ∧ u ∈ f t ∧
    pick_target (Key u) targets = Some a ∧ v = set_type "tuple" u;
  sg_complete t u a : t ∈ tk_log st → IsEOF t = false → u ∈ f t → pick_target (Key u) targets = Some a →
    Sent a (set_type "tuple" u) ∈ tk_effects st ∨ ∃ c, (t, u) ∈ to_emit (phase st c);
}.

Lemma new_stage_ok os s : sending targets s → stage_ok (new_task os s).
Proof.
  clear Hop Hnet Hne Hkeys. intros Hs. split; simpl; try done; try set_solver.
Qed.

(** A step that neither runs the operation nor emits a data tuple. *)
Lemma stage_frame st s m got es :
  stage_ok st → sending targets s → (∀ a v, Sent a v ∉ es) →
  (∀ t, t ∈ got → Type_ t = "tuple" ∧ (IsEOF t = false → D t)) →
  (∀ c, to_emit (default Idle (m !! c)) = to_emit (phase st c)) →
  stage_ok (mkTask (tk_op st) s m (tk_got st ++ got) (tk_log st) (tk_effects st ++ es)).
Proof.
  intros [H1 H2 H3 H4 H5 H6] Hs He Hg Hm.
  assert (∀ c, to_emit (phase (mkTask (op := op) (tk_op st) s m (tk_got st ++ got) (tk_log st) (tk_effects st ++ es)) c)
    = to_emit (phase st c)) as Hp by done.
  split; simpl; try done.
  - intros t [?|?]%elem_of_app; auto.
  - intros t ?. apply elem_of_app. auto.
  - intros c t u. rewrite Hp. apply H4.
  - intros a v [?|?]%elem_of_app; [auto|by destruct (He a v)].
  - intros t u a Ht Hd Hu Hk. destruct (H6 t u a Ht Hd Hu Hk) as [?|[c ?]]; [left; set_solver|right].
    exists c. by rewrite Hp.
Qed.

Lemma stage_run st s es :
  stage_ok st → sending targets s → (∀ a v, Sent a v ∉ es) → stage_ok (set_run s es st).
Proof.
  intros H Hs He. pose proof (stage_frame st s (tk_phases st) [] es H Hs He ltac:(set_solver) (λ c, eq_refl)) as H'.
  by rewrite app_nil_r in H'.
Qed.

Lemma stage_phase st c p s es :
  stage_ok st → sending targets s → (∀ a v, Sent a v ∉ es) → to_emit p = to_emit (phase st c) →
  stage_ok (set_phase c p (set_run s es st)).
Proof.
  intros H Hs He Hp.
  pose proof (stage_frame st s (<[c := p]> (tk_phases st)) [] es H Hs He ltac:(set_solver)
    (to_emit_set st (set_run s es st) c p eq_refl Hp)) as H'.
  by rewrite app_nil_r in H'.
Qed.

Lemma stage_take st c p t :
  stage_ok st → Type_ t = "tuple" ∧ (IsEOF t = false → D t) → to_emit p = to_emit (phase st c) →
  stage_ok (set_phase c p (take_tuple t st)).
Proof.
  intros H Ht Hp.
  pose proof (stage_frame st (tk_run st) (<[c := p]> (tk_phases st)) [t] [] H (sg_sending _ H) ltac:(set_solver)
    ltac:(by intros u ->%list_elem_of_singleton) (to_emit_set st (take_tuple t st) c p eq_refl Hp)) as H'.
  by rewrite app_nil_r in H'.
Qed.

Lemma stage_process st c t :
  phase st c = Checked t → t ∈ tk_got st → stage_ok st →
  stage_ok (set_phase c (Emitting t (Process op (tk_op st) t).2) (run_process t st)).
Proof.
  intros Hc Ht [H1 H2 H3 H4 H5 H6]. destruct Hop as (Hf & Hd & He).
  assert (∀ u, u ∈ (Process op (tk_op st) t).2 → if IsEOF t then IsEOF u = true else u ∈ f t) as Hout.
  { intros u Hu. destruct (IsEOF t) eqn:E; [by eapply He|]. by rewrite <- (Hf (tk_op st) t E). }
  split; simpl.
  - by destruct (IsEOF t).
  - done.
  - intros u [?| ->%list_elem_of_singleton]%elem_of_app; auto.
  - intros c' x u. rewrite phase_set. destruct (decide (c = c')) as [<-|].
    + simpl. intros (u' & [= -> ->] & Hu)%list_elem_of_fmap. split; [set_solver|by apply Hout].
    + intros (? & ?)%H4. split; [set_solver|done].
  - intros a v (x & u & ? & ?)%H5. exists x, u. split; [set_solver|done].
  - intros x u a [Hx| ->%list_elem_of_singleton]%elem_of_app Hxe Hu Hk.
    + destruct (H6 x u a Hx Hxe Hu Hk) as [?|[c' Hin]]; [by left|right]. exists c'.
      rewrite phase_set, decide_False; [done|]. intros ->. rewrite Hc in Hin. by apply elem_of_nil in Hin.
    + right. exists c. rewrite phase_set, decide_True by done. simpl. apply list_elem_of_fmap_2.
      by rewrite (Hf _ _ Hxe).
Qed.

Lemma stage_emit st c t u out :
  phase st c = Emitting t (u :: out) → stage_ok st →
  ∃ s es, emit net fl u (tk_run st) = Some (s, es) ∧ stage_ok (set_phase c (Emitting t out) (set_run s es st)).
Proof.
  intros Hc H. pose proof H as [H1 H2 H3 H4 H5 H6].
  destruct (H4 c t u) as [Ht Hu]; [rewrite Hc; simpl; by left|].
  assert (∀ c' x v, (x, v) ∈ to_emit (phase st c') → (x, v) = (t, u) ∨
    (x, v) ∈ to_emit (if decide (c = c') then Emitting t out else phase st c')) as Hkeep.
  { intros c' x v Hx. destruct (decide (c = c')) as [<-|]; [|by right]. rewrite Hc in Hx. simpl in Hx.
    by apply elem_of_cons in Hx. }
  assert (∀ c' x v, (x, v) ∈ to_emit (if decide (c = c') then Emitting t out else phase st c') →
    (x, v) ∈ to_emit (phase st c')) as Hless.
  { intros c' x v Hx. destruct (decide (c = c')) as [<-|]; [|done]. rewrite Hc. simpl. by right. }
  assert (∃ s es, emit net fl u (tk_run st) = Some (s, es) ∧ sending targets s ∧
    (IsEOF t = true → ∀ a v, Sent a v ∉ es) ∧
    (IsEOF t = false → ∀ a v, Sent a v ∈ es ↔ pick_target (Key u) targets = Some a ∧ v = set_type "tuple" u))
    as (s & es & E & Hs & Hes1 & Hes2).
  { destruct (IsEOF t) eqn:Et.
    - destruct (emit_eof_sends net fl targets u (tk_run st) H1 Hne Hu) as (s & es & ? & ? & ?). by exists s, es.
    - pose proof (proj2 (H2 t (H3 t Ht)) Et) as HD.
      destruct (emit_data_sends net fl targets u (tk_run st) Hnet H1 Hne) as (es & ? & ?);
        [by apply (proj1 (proj2 Hop) t)|by apply (Hkeys t)|]. by exists (tk_run st), es. }
  exists s, es. split; [done|]. split; simpl; try done.
  - intros c' x v. rewrite phase_set. intros Hx%Hless. by apply (H4 c').
  - intros a v [Hv|Hv]%elem_of_app; [by apply H5|]. destruct (IsEOF t) eqn:Et; [by destruct (Hes1 eq_refl a v)|].
    apply Hes2 in Hv as [Hk ->]; [|done]. by exists t, u.
  - intros x v a Hx Hxe Hv Hk. destruct (H6 x v a Hx Hxe Hv Hk) as [?|[c' Hin]]; [left; set_solver|].
    apply Hkeep in Hin as [[= -> ->]|Hin].
    + left. apply elem_of_app. right. by apply Hes2.
    + right. exists c'. by rewrite phase_set.
Qed.

Lemma stage_step os0 ids0 st e :
  bookkeeping op os0 ids0 st → stage_ok st → arriving D [e] →
  ∃ st', step net fl e st = Some st' ∧ stage_ok st'.
Proof.
  intros B H Harr. pose proof (sg_sending _ H) as Hs.
  destruct e as [c t|c|t| | |]; cbn [step].
  - destruct (Harr c t) as [Hty HD]; [by left|]. unfold arrive.
    destruct (phase st c) eqn:Hc; [|by eexists..]. rewrite Hty. rewrite !decide_False by done.
    destruct (decide _); (eexists; split; [done|]; apply stage_take; [done|done|by rewrite Hc]).
  - unfold advance. destruct (phase st c) as [|t|t out|t|t] eqn:Hc.
    + by eexists.
    + eexists. split; [done|]. apply stage_process; [done| |done]. apply (bk_phase _ _ _ _ B c Before). by rewrite Hc.
    + destruct out as [|u out].
      * pose proof (checkpoint_frame fl t (tk_run st)) as Hck. destruct (checkpoint _ _ _) as [s es].
        destruct Hck as (C1 & C2 & C3 & _ & _ & C6). eexists. split; [done|].
        apply stage_phase; [done| |done|by rewrite Hc]. unfold sending. by rewrite C1, C2, C3.
      * destruct (stage_emit st c t u out Hc H) as (s & es & -> & H'). simpl. by eexists.
    + eexists. split; [done|]. apply stage_phase; [done|by destruct (IsEOF t)|set_solver|by rewrite Hc].
    + eexists. split; [done|]. apply stage_phase; [done|done| |by rewrite Hc].
      by intros a v ?%list_elem_of_singleton.
  - pose proof (eof_timeout_sends net fl t targets (tk_run st) Hs) as Ht.
    destruct (eof_timeout _ _ _ _) as [s es]. destruct Ht as (? & _ & ?). eexists. split; [done|]. by apply stage_run.
  - eexists. split; [done|]. apply stage_run; [done|by destruct (shutdownSignal _)|set_solver].
  - eexists. split; [done|]. apply stage_run; [done|done|set_solver].
  - eexists. split; [done|]. apply stage_run; [done|done|set_solver].
Qed.

Lemma arriving_cons e evs : arriving D (e :: evs) ↔ arriving D [e] ∧ arriving D evs.
Proof.
  unfold arriving. split.
  - intros H. split; intros c t Hin; apply (H c t); [|by right].
    apply list_elem_of_singleton in Hin as <-. by left.
  - intros [H1 H2] c t [<-|Hin]%elem_of_cons; [by apply (H1 c); left|by apply (H2 c)].
Qed.

(** Whatever arrives, and however the goroutines interleave, the stage does not
    crash. *)
Lemma stage_runs os0 ids0 evs st :
  bookkeeping op os0 ids0 st → stage_ok st → arriving D evs →
  ∃ st', run_events net fl evs st = Some st' ∧ bookkeeping op os0 ids0 st' ∧ stage_ok st'.
Proof.
  revert st; induction evs as [|e evs IH]; intros st B H Harr; [by exists st|].
  apply arriving_cons in Harr as [He Harr].
  destruct (stage_step os0 ids0 st e B H He) as (st1 & E & H1). cbn [run_events]. rewrite E. cbn [mbind option_bind].
  apply IH; [|done|done]. eapply move_bookkeeping; [by eapply step_move|done].
Qed.
End stateless.

(** ** Lemmas: a counting sink *)

(** The lines a sink writes for what is emitted, and those a goroutine still has
    to write. *)
Definition written (l : list Tuple) : list string :=
  (λ u, show_value (Value_ u)) <$> filter (λ u, IsEOF u = false) l.
Definition to_write (p : Phase) : list string := written (to_emit p).*2.

(** The data tuples before the first marker, and how often each key occurs. *)
Fixpoint before_marker (l : list Tuple) : list Tuple :=
  match l with
  | [] => []
  | t :: l' => if IsEOF t then [] else t :: before_marker l'
  end.

Definition has_marker (l : list Tuple) : bool := existsb IsEOF l.

Definition key_counts (l : list Tuple) : gmap string Z :=
  foldl (λ m t, <[Key t := default 0 (m !! Key t) + 1]> m) ∅ l.

Definition count_lines (m : gmap string Z) : list string :=
  (λ p, p.1 +:+ "," +:+ itoa p.2) <$> map_to_list m.

(** What a sink that has processed [log] has written in the end. *)
Definition flush_lines (log : list Tuple) : list string :=
  if has_marker log then count_lines (key_counts (before_marker log)) else [].

Lemma has_marker_snoc l t : has_marker (l ++ [t]) = has_marker l || IsEOF t.
Proof. unfold has_marker. rewrite existsb_app. simpl. by rewrite orb_false_r. Qed.

Lemma before_marker_app l1 l2 :
  before_marker (l1 ++ l2) = if has_marker l1 then before_marker l1 else before_marker l1 ++ before_marker l2.
Proof.
  induction l1 as [|t l1 IH]; [done|]. simpl. destruct (IsEOF t); [done|]. simpl. rewrite IH. by destruct (has_marker l1).
Qed.

Lemma before_marker_none l : has_marker l = false → before_marker l = l.
Proof. induction l as [|t l IH]; [done|]. simpl. destruct (IsEOF t); simpl; [done|]. intros H. by rewrite IH. Qed.

Lemma before_marker_elem l t : t ∈ before_marker l → t ∈ l ∧ IsEOF t = false.
Proof.
  induction l as [|x l IH]; [by intros ?%elem_of_nil|]. simpl. destruct (IsEOF x) eqn:E; [by intros ?%elem_of_nil|].
  intros [->|?]%elem_of_cons; [split; [by left|done]|]. destruct IH; [done|]. split; [by right|done].
Qed.

Lemma before_marker_NoDup l : NoDup (data_ids l) → NoDup (tu_ID <$> before_marker l).
Proof.
  assert (∀ l, sublist (tu_ID <$> before_marker l) (data_ids l)) as Hs.
  { intros l'. induction l' as [|t l' IH]; [done|]. unfold data_ids in *. cbn [before_marker omap list_omap].
    destruct (IsEOF t); [apply sublist_nil_l|]. rewrite fmap_cons. by constructor. }
  intros H. eapply sublist_NoDup; [exact H|apply Hs].
Qed.

(** The state of [CountOp]: before the first marker it has counted everything. *)
Lemma count_log l :
  flushed (run_op CountOp (op_init CountOp) l).1 = has_marker l ∧
  (has_marker l = false → counts (run_op CountOp (op_init CountOp) l).1 = key_counts l).
Proof.
  induction l as [|t l [IH1 IH2]] using rev_ind; [done|]. rewrite run_op_last, has_marker_snoc.
  cbn [Process CountOp]. unfold count_process. destruct (IsEOF t).
  - simpl. by rewrite orb_true_r.
  - rewrite orb_false_r. split; [done|]. intros H. specialize (IH2 H). unfold key_counts. rewrite foldl_app.
    fold (key_counts l). rewrite <- IH2. done.
Qed.

Lemma written_FlushCounts m t : IsEOF t = true → written (FlushCounts m ++ [t]) = count_lines m.
Proof.
  intros Ht. unfold written. rewrite filter_app, (filter_none _ [t]) by (constructor; [by rewrite Ht|done]).
  rewrite filter_all by (apply Forall_fmap, Forall_forall; done).
  rewrite app_nil_r. unfold FlushCounts. by rewrite <- list_fmap_compose.
Qed.

Section sink.
Context (net : Network) (fl : Flags) (D : Tuple → Prop).
Hypothesis Hfile : has_outFile fl = true.
Implicit Types (st : Task CountOp).

Record sink_ok st : Prop := {
  sk_targets : targetList (tk_run st) = [];
  sk_got t : t ∈ tk_got st → IsEOF t = false → D t;
  sk_log t : t ∈ tk_log st → t ∈ tk_got st;
  sk_lines : ∃ c0, outLines (tk_run st) ++ to_write (phase st c0) = flush_lines (tk_log st) ∧
    ∀ c, c ≠ c0 → to_write (phase st c) = [];
}.

Lemma new_sink_ok s : targetList s = [] → outLines s = [] → sink_ok (new_task (op_init CountOp) s).
Proof.
  clear Hfile. intros Ht Ho. split; [done|set_solver|done|]. exists 0%nat. simpl. rewrite Ho. by split.
Qed.

Lemma sink_frame st s m got es :
  sink_ok st → targetList s = [] → outLines s = outLines (tk_run st) →
  (∀ t, t ∈ got → IsEOF t = false → D t) →
  (∀ c, to_emit (default Idle (m !! c)) = to_emit (phase st c)) →
  sink_ok (mkTask (op := CountOp) (tk_op st) s m (tk_got st ++ got) (tk_log st) (tk_effects st ++ es)).
Proof.
  intros [H1 H2 H3 (c0 & H4 & H5)] Hs Ho Hg Hm.
  split; simpl; [done|intros t [?|?]%elem_of_app; auto|intros t ?; apply elem_of_app; auto|].
  exists c0. unfold to_write in *. rewrite Ho. split; [|intros c Hc].
  - rewrite <- H4. unfold phase at 1. simpl. by rewrite Hm.
  - unfold phase at 1. simpl. rewrite Hm. by apply H5.
Qed.

Lemma sink_run st s es :
  sink_ok st → targetList s = [] → outLines s = outLines (tk_run st) → sink_ok (set_run s es st).
Proof.
  intros H Hs Ho. pose proof (sink_frame st s (tk_phases st) [] es H Hs Ho ltac:(set_solver) (λ c, eq_refl)) as H'.
  by rewrite app_nil_r in H'.
Qed.

Lemma sink_phase st c p s es :
  sink_ok st → targetList s = [] → outLines s = outLines (tk_run st) → to_emit p = to_emit (phase st c) →
  sink_ok (set_phase c p (set_run s es st)).
Proof.
  intros H Hs Ho Hp.
  pose proof (sink_frame st s (<[c := p]> (tk_phases st)) [] es H Hs Ho ltac:(set_solver)
    (to_emit_set st (set_run s es st) c p eq_refl Hp)) as H'.
  by rewrite app_nil_r in H'.
Qed.

Lemma sink_take st c p t :
  sink_ok st → (IsEOF t = false → D t) → to_emit p = to_emit (phase st c) →
  sink_ok (set_phase c p (take_tuple t st)).
Proof.
  intros H Ht Hp.
  pose proof (sink_frame st (tk_run st) (<[c := p]> (tk_phases st)) [t] [] H (sk_targets _ H) eq_refl
    ltac:(by intros u ->%list_elem_of_singleton) (to_emit_set st (take_tuple t st) c p eq_refl Hp)) as H'.
  by rewrite app_nil_r in H'.
Qed.

(** The first marker fixes what is written. *)
Lemma sink_process st c t :
  tk_op st = (run_op CountOp (op_init CountOp) (tk_log st)).1 →
  phase st c = Checked t → t ∈ tk_got st → sink_ok st →
  sink_ok (set_phase c (Emitting t (Process CountOp (tk_op st) t).2) (run_process t st)).
Proof.
  intros Hop Hc Ht [H1 H2 H3 (c0 & H4 & H5)].
  destruct (count_log (tk_log st)) as [L1 L2]. rewrite <- Hop in L1, L2.
  assert (to_write (phase st c) = []) as Hw by (by rewrite Hc).
  assert (outLines (tk_run (run_process t st)) = outLines (tk_run st)) as Ho by (simpl; by destruct (IsEOF t)).
  split; [simpl; by destruct (IsEOF t)|done| |].
  { intros u. simpl. intros [?| ->%list_elem_of_singleton]%elem_of_app; auto. }
  cbn [Process CountOp]. unfold count_process, flush_lines. simpl tk_log.
  rewrite has_marker_snoc, before_marker_app, L1.
  change (tk_run (set_phase c ?p (run_process t st))) with (tk_run (run_process t st)).
  rewrite Ho. unfold flush_lines in H4.
  destruct (IsEOF t) eqn:Et; simpl; [destruct (has_marker (tk_log st)) eqn:Em; simpl|].
  - exists c0. split.
    + rewrite <- H4. f_equal. rewrite phase_set. destruct (decide (c = c0)) as [<-|]; [|done].
      rewrite Hw. unfold to_write, written. simpl. by rewrite filter_cons, Et.
    + intros c' Hc'. rewrite phase_set. destruct (decide (c = c')) as [<-|]; [|by apply H5].
      unfold to_write, written. simpl. by rewrite filter_cons, Et.
  - apply app_eq_nil in H4 as [O1 O2]. exists c. rewrite O1, phase_set, decide_True by done. split.
    + simpl. unfold to_write. simpl. rewrite <- list_fmap_compose. unfold compose. simpl. rewrite list_fmap_id.
      rewrite written_FlushCounts, Et by done. simpl. rewrite app_nil_r, (before_marker_none _ Em). by rewrite L2.
    + intros c' Hc'. rewrite phase_set, decide_False by done. destruct (decide (c' = c0)) as [->|]; [done|by apply H5].
  - rewrite Et, orb_false_r. simpl. exists c0. split.
    + rewrite phase_set. change (phase (run_process t st) c0) with (phase st c0).
      assert (to_write (if decide (c = c0) then Emitting t [] else phase st c0) = to_write (phase st c0)) as ->.
      { destruct (decide (c = c0)) as [<-|]; [by rewrite Hw|done]. }
      rewrite H4. destruct (has_marker (tk_log st)); [done|]. done.
    + intros c' Hc'. rewrite phase_set. destruct (decide (c = c')) as [<-|]; [done|by apply H5].
Qed.

Lemma sink_emit st c t u out :
  phase st c = Emitting t (u :: out) → sink_ok st →
  ∃ s, emit net fl u (tk_run st) = Some (s, []) ∧ sink_ok (set_phase c (Emitting t out) (set_run s [] st)).
Proof.
  intros Hc [H1 H2 H3 (c0 & H4 & H5)]. unfold emit. rewrite decide_True by done. eexists. split; [done|].
  set (s := emit_sink fl (set_type "tuple" u) (tk_run st)).
  assert (targetList s = [] ∧ outLines s = outLines (tk_run st) ++ written [u]) as [S1 S2].
  { unfold s, emit_sink, written. rewrite filter_cons, filter_nil. simpl. destruct (IsEOF u).
    - rewrite app_nil_r. destruct (_ && _); [|done]. by destruct (_ <=? _).
    - by rewrite Hfile. }
  split; [exact S1|done|done|]. simpl. rewrite S2.
  assert (∀ l1 l2, written (l1 ++ l2) = written l1 ++ written l2) as Hw
    by (intros; unfold written; by rewrite filter_app, fmap_app).
  assert (to_write (phase st c) = written [u] ++ to_write (Emitting t out)) as Hwc.
  { rewrite Hc. unfold to_write. simpl. by rewrite <- Hw. }
  destruct (decide (c = c0)) as [->|Hne].
  - exists c0. rewrite phase_set, decide_True by done. split; [by rewrite <- app_assoc, <- Hwc|].
    intros c' Hc'. rewrite phase_set, decide_False by done. by apply H5.
  - pose proof (H5 c Hne) as Hz. rewrite Hwc in Hz. apply app_eq_nil in Hz as [Z1 Z2].
    exists c0. rewrite phase_set, decide_False by done. rewrite Z1, app_nil_r. split; [done|].
    intros c' Hc'. rewrite phase_set. destruct (decide (c = c')); [done|by apply H5].
Qed.

Lemma sink_step ids0 st e :
  bookkeeping CountOp (op_init CountOp) ids0 st → sink_ok st → arriving D [e] →
  ∃ st', step net fl e st = Some st' ∧ sink_ok st'.
Proof.
  intros B H Harr. pose proof (sk_targets _ H) as Hs.
  destruct e as [c t|c|t| | |]; cbn [step].
  - destruct (Harr c t) as [Hty HD]; [by left|]. unfold arrive.
    destruct (phase st c) eqn:Hc; [|by eexists..]. rewrite Hty. rewrite !decide_False by done.
    destruct (decide _); (eexists; split; [done|]; apply sink_take; [done|done|by rewrite Hc]).
  - unfold advance. destruct (phase st c) as [|t|t out|t|t] eqn:Hc.
    + by eexists.
    + eexists. split; [done|]. apply sink_process; [apply (bk_op B)|done| |done].
      apply (bk_phase _ _ _ _ B c Before). by rewrite Hc.
    + destruct out as [|u out].
      * pose proof (checkpoint_frame fl t (tk_run st)) as Hck. destruct (checkpoint _ _ _) as [s es].
        destruct Hck as (C1 & _ & _ & _ & C5 & _). eexists. split; [done|].
        apply sink_phase; [done|congruence|done|by rewrite Hc].
      * destruct (sink_emit st c t u out Hc H) as (s & -> & H'). simpl. by eexists.
    + eexists. split; [done|]. apply sink_phase; [done|by destruct (IsEOF t)|by destruct (IsEOF t)|by rewrite Hc].
    + eexists. split; [done|]. apply sink_phase; [done|done|done|by rewrite Hc].
  - assert (sending [] (tk_run st)) as Hse by (split; [done|by intros a ?%elem_of_nil]).
    pose proof (eof_timeout_sends net fl t [] (tk_run st) Hse) as Ht.
    destruct (eof_timeout _ _ _ _) as [s es]. destruct Ht as ([? _] & ? & _). eexists. split; [done|]. by apply sink_run.
  - eexists. split; [done|]. apply sink_run; [done|by destruct (shutdownSignal _)|by destruct (shutdownSignal _)].
  - eexists. split; [done|]. by apply sink_run.
  - eexists. split; [done|]. by apply sink_run.
Qed.

Lemma sink_runs ids0 evs st :
  bookkeeping CountOp (op_init CountOp) ids0 st → sink_ok st → arriving D evs →
  ∃ st', run_events net fl evs st = Some st' ∧ bookkeeping CountOp (op_init CountOp) ids0 st' ∧ sink_ok st'.
Proof.
  revert st; induction evs as [|e evs IH]; intros st B H Harr; [by exists st|].
  apply arriving_cons in Harr as [He Harr].
  destruct (sink_step ids0 st e B H He) as (st1 & E & H1). cbn [run_events]. rewrite E. cbn [mbind option_bind].
  apply IH; [|done|done]. eapply move_bookkeeping; [by eapply step_move|done].
Qed.

(** When every goroutine rests, what was counted before the first marker is
    written, and nothing else. *)
Lemma sink_idle st : sink_ok st → all_idle st → outLines (tk_run st) = flush_lines (tk_log st).
Proof. intros [_ _ _ (c0 & <- & _)] Hi. rewrite Hi. by rewrite app_nil_r. Qed.
End sink.

Lemma start_empty net fl :
  delivering net → fl_port fl ≠ 0 →
  ∃ s, start net fl FetchError = Some s ∧ sending (initial_targets fl) s ∧
    processedIDs s = ∅ ∧ outLines s = [].
Proof.
  intros (Hd & _ & Hl & Ho) Hp. unfold start. rewrite decide_False by done.
  assert (forallb (dial net) (initial_targets fl) = true) as ->.
  { apply forallb_forall. intros a Ha. apply Hd. }
  rewrite Hl, Ho, orb_true_r. eexists. split; [done|]. split; [|split; [|done]].
  - split; [done|]. intros a Ha. by split; apply elem_of_list_to_set.
  - simpl. unfold recovered. by destruct (has_stateLog fl).
Qed.

(** ** The grep-and-count job *)

Section job.
Context (matches : string → bool) (col : Z) (file : string).

(** What [grep] does with a data tuple, and the key it gives to a line. *)
Definition grep_emit (t : Tuple) : option Tuple :=
  let v := show_value (Value_ t) in
  if matches v then Some (if 0 <? col then set_key (column_key col v) t else t) else None.

Definition emitted (t : Tuple) : list Tuple := match grep_emit t with Some u => [u] | None => [] end.

Definition pair_key (p : string * Value) : option string :=
  let v := show_value p.2 in
  if matches v then Some (if 0 <? col then column_key col v else p.1) else None.

(** The specification: the keys of the matching lines of the file, and the number
    of the lines with a key. *)
Definition line_keys (content : string) : list string := omap pair_key (file_lines file content).

Definition line_count (content : string) (k : string) : Z :=
  Z.of_nat (length (filter (λ k', k' = k) (line_keys content))).

Lemma grep_stateless : stateless (GrepOp matches col) emitted.
Proof.
  split; [|split].
  - intros [[mc fc] ef] t Ht. cbn [Process GrepOp]. unfold grep_process, emitted, grep_emit. rewrite Ht.
    by destruct (matches _).
  - intros t u Ht. unfold emitted, grep_emit. destruct (matches _); [|by intros ?%elem_of_nil].
    intros ->%list_elem_of_singleton. by destruct (0 <? col).
  - intros [[mc fc] ef] t u Ht. cbn [Process GrepOp]. unfold grep_process. rewrite Ht. simpl.
    by intros ->%list_elem_of_singleton.
Qed.

Lemma grep_emit_id t u : grep_emit t = Some u → tu_ID u = tu_ID t ∧ Type_ u = Type_ t ∧ IsEOF u = IsEOF t.
Proof. unfold grep_emit. destruct (matches _); [|done]. intros [= <-]. by destruct (0 <? col). Qed.

Lemma grep_emit_key t : Key <$> grep_emit t = pair_key (Key t, Value_ t).
Proof. unfold grep_emit, pair_key. destruct (matches _); [|done]. simpl. by destruct (0 <? col). Qed.

Lemma elem_of_emitted t u : u ∈ emitted t ↔ grep_emit t = Some u.
Proof.
  unfold emitted. destruct (grep_emit t) as [v|].
  - rewrite list_elem_of_singleton. split; [by intros ->|by intros [= ->]].
  - split; [by intros ?%elem_of_nil|done].
Qed.

Lemma grep_keys (l : list Tuple) :
  Key <$> omap grep_emit l = omap pair_key ((λ t, (Key t, Value_ t)) <$> l).
Proof.
  induction l as [|t l IH]; [done|]. rewrite fmap_cons. cbn [omap list_omap].
  rewrite <- grep_emit_key. destruct (grep_emit t); cbn [fmap option_fmap option_map]; [|done].
  rewrite fmap_cons. f_equal. exact IH.
Qed.

Lemma length_filter_fmap {A B} (f : A → B) (P : B → Prop) `{!∀ x, Decision (P x)} l :
  length (filter (λ x, P (f x)) l) = length (filter P (f <$> l)).
Proof.
  induction l as [|x l IH]; [done|]. rewrite fmap_cons, !filter_cons.
  destruct (decide (P (f x))); simpl; by rewrite IH.
Qed.

(** The greps of all the tuples of a job have the keys of the matching lines. *)
Lemma grep_all_keys (ids : Z → string) (n : Z) (content : string) :
  0 < n → Key <$> omap grep_emit (all_tuples file ids n content) ≡ₚ line_keys content.
Proof.
  intros Hn. rewrite grep_keys. destruct (all_tuples_spec file ids n content Hn) as [Hp _].
  rewrite Hp. unfold line_keys. by rewrite file_lines_numbered.
Qed.

Lemma grep_counts (ids : Z → string) (n : Z) (content k : string) :
  0 < n → occurrences k (omap grep_emit (all_tuples file ids n content)) = line_count content k.
Proof.
  intros Hn. unfold occurrences, line_count.
  assert (∀ l : list Tuple,
    length (filter (λ t, Key t = k) l) = length (filter (λ k', k' = k) (Key <$> l))) as ->
    by (intros l; exact (length_filter_fmap Key (λ k', k' = k) l)).
  by rewrite grep_all_keys.
Qed.

Lemma grep_NoDup (ids : Z → string) (n : Z) (content : string) :
  0 < n → NoDup (omap grep_emit (all_tuples file ids n content)).
Proof.
  intros Hn. apply (NoDup_fmap_1 tu_ID). eapply sublist_NoDup.
  - apply (proj2 (all_tuples_spec file ids n content Hn)).
  - apply omap_fmap_sublist. intros t u Hu. by apply grep_emit_id.
Qed.
End job.

(** The goroutines of a task work on one tuple at the same time at some point. *)
Definition task_overlaps (op : Operation) (net : Network) (fl : Flags) (evs : list Event) : Prop :=
  ∃ s, start net fl FetchError = Some s ∧ overlaps net fl evs (new_task (op_init op) s).

(** A run of the job: sources, grep tasks at [targets1], counting sinks at
    [targets2].  [evs1] and [evs2] are the runs of the tasks: what arrives at a
    grep task is among the tuples of the sources that are routed to it, what
    arrives at a sink is among what the grep tasks sent to it, both in any
    order, on any connection and any number of times, with markers anywhere;
    nothing says that everything arrives.  No task is restarted and no routing
    update arrives. *)
Record grep_count_run (matches : string → bool) (col : Z) (file : string) (ids : Z → string) (n : Z)
    (content : string) (net : Network) (targets1 targets2 : list string) (fl1 fl2 : string → Flags)
    (evs1 evs2 : string → list Event) : Prop := {
  run_sources : 0 < n;
  run_net : delivering net;
  run_targets : targets2 ≠ [];
  run_stage1 a : a ∈ targets1 → fl_port (fl1 a) ≠ 0 ∧ initial_targets (fl1 a) = targets2;
  run_stage2 b : b ∈ targets2 →
    fl_port (fl2 b) ≠ 0 ∧ initial_targets (fl2 b) = [] ∧ has_outFile (fl2 b) = true;
  run_keys k : k ∈ line_keys matches col file content → pick_target k targets2 ≠ None;
  run_arr1 a : a ∈ targets1 →
    arriving (λ t, t ∈ all_tuples file ids n content ∧ pick_target (Key t) targets1 = Some a) (evs1 a);
  run_arr2 b : b ∈ targets2 →
    arriving (λ v, ∃ a, a ∈ targets1 ∧ Sent b v ∈ task_sends (GrepOp matches col) net (fl1 a) (evs1 a)) (evs2 b);
}.

Arguments run_sources {_ _ _ _ _ _ _ _ _ _ _ _ _} _.
Arguments run_net {_ _ _ _ _ _ _ _ _ _ _ _ _} _.
Arguments run_targets {_ _ _ _ _ _ _ _ _ _ _ _ _} _.
Arguments run_stage1 {_ _ _ _ _ _ _ _ _ _ _ _ _} _ _.
Arguments run_stage2 {_ _ _ _ _ _ _ _ _ _ _ _ _} _ _.
Arguments run_keys {_ _ _ _ _ _ _ _ _ _ _ _ _} _ _.
Arguments run_arr1 {_ _ _ _ _ _ _ _ _ _ _ _ _} _ _ _.
Arguments run_arr2 {_ _ _ _ _ _ _ _ _ _ _ _ _} _ _ _.

(** Every tuple of the sources was taken by a grep task, and the grep tasks have
    finished. *)
Definition grep_stage_done (matches : string → bool) (col : Z) (all : list Tuple) (net : Network)
    (targets1 : list string) (fl1 : string → Flags) (evs1 : string → list Event) : Prop :=
  ∀ t, t ∈ all → ∃ a st, a ∈ targets1 ∧ run_task (GrepOp matches col) net (fl1 a) (evs1 a) = Some st ∧
    all_idle st ∧ t ∈ tk_got st.

Lemma all_tuples_data file ids n content t :
  t ∈ all_tuples file ids n content → Type_ t = "tuple" ∧ IsEOF t = false.
Proof.
  unfold all_tuples. rewrite elem_of_concat_fmap. intros (i & _ & Ht). unfold task_tuples in Ht.
  destruct (source_lines _ _ _); [|by apply elem_of_nil in Ht]. by eapply source_tuples_data.
Qed.

Lemma all_tuples_identified file ids n content : 0 < n → identified (all_tuples file ids n content).
Proof.
  intros Hn t u Ht Hu He. destruct (all_tuples_spec file ids n content Hn) as [_ Hd].
  by apply (NoDup_fmap_inj_in tu_ID _ _ _ Hd).
Qed.

Section run.
Context (matches : string → bool) (col : Z) (file : string) (ids : Z → string) (n : Z) (content : string).
Context (net : Network) (targets1 targets2 : list string) (fl1 fl2 : string → Flags).
Context (evs1 evs2 : string → list Event).
Hypothesis R : grep_count_run matches col file ids n content net targets1 targets2 fl1 fl2 evs1 evs2.

Notation all := (all_tuples file ids n content).
Notation emit1 := (grep_emit matches col).
Notation sent := (λ a b v, Sent b v ∈ task_sends (GrepOp matches col) net (fl1 a) (evs1 a)).

Lemma emitted_key t u :
  t ∈ all → emit1 t = Some u → pick_target (Key u) targets2 ≠ None.
Proof.
  intros Ht Hu. apply (run_keys R).
  rewrite <- (grep_all_keys matches col file ids n content (run_sources R)).
  apply list_elem_of_fmap_2. apply list_elem_of_omap. by exists t.
Qed.

(** Nothing is changed on the way: [emit] only sets the type. *)
Lemma emitted_type t u : t ∈ all → emit1 t = Some u → set_type "tuple" u = u.
Proof.
  intros Ht Hu. destruct (grep_emit_id _ _ _ _ Hu) as (_ & Hty & _).
  rewrite (proj1 (all_tuples_data _ _ _ _ _ Ht)) in Hty. destruct u; simpl in Hty. by subst.
Qed.

Lemma grep_task a :
  a ∈ targets1 → ∃ s st, start net (fl1 a) FetchError = Some s ∧ processedIDs s = ∅ ∧
    run_task (GrepOp matches col) net (fl1 a) (evs1 a) = Some st ∧
    bookkeeping (GrepOp matches col) (op_init (GrepOp matches col)) ∅ st ∧
    stage_ok (GrepOp matches col) (emitted matches col) targets2
      (λ t, t ∈ all ∧ pick_target (Key t) targets1 = Some a) st.
Proof.
  intros Ha. destruct (run_stage1 R a Ha) as [Hp Ht].
  destruct (start_empty net (fl1 a) (run_net R) Hp) as (s & Es & Hs & Hpr & _). rewrite Ht in Hs.
  pose proof (new_task_bookkeeping (GrepOp matches col) (op_init (GrepOp matches col)) s) as B. rewrite Hpr in B.
  destruct (stage_runs (GrepOp matches col) (emitted matches col) net (fl1 a) targets2
    (λ t, t ∈ all ∧ pick_target (Key t) targets1 = Some a) (grep_stateless matches col) (run_net R) (run_targets R)
    ltac:(intros t u [Hin _] Hu%elem_of_emitted; by eapply emitted_key)
    _ _ (evs1 a) _ B (new_stage_ok _ _ _ _ _ _ Hs) (run_arr1 R a Ha)) as (st & E & B' & H).
  exists s, st. split; [done|]. split; [done|]. split; [|done].
  unfold run_task. by rewrite Es.
Qed.

Lemma grep_stage_sends a b v :
  a ∈ targets1 → sent a b v → ∃ t, t ∈ all ∧ emit1 t = Some v ∧ pick_target (Key v) targets2 = Some b.
Proof.
  intros Ha Hv. destruct (grep_task a Ha) as (s & st & _ & _ & E & _ & H).
  unfold task_sends in Hv. rewrite E in Hv.
  destruct (sg_sound _ _ _ _ _ H b v Hv) as (t & u & Ht & Hd & Hu%elem_of_emitted & Hk & ->).
  destruct (sg_got _ _ _ _ _ H t (sg_log _ _ _ _ _ H t Ht)) as [_ HD]. destruct (HD Hd) as [Hin _].
  exists t. rewrite (emitted_type t u Hin Hu). by split.
Qed.

(** A tuple that a grep task took and has finished with was sent on. *)
Lemma grep_stage_complete t u b :
  grep_stage_done matches col all net targets1 fl1 evs1 →
  t ∈ all → emit1 t = Some u → pick_target (Key u) targets2 = Some b → ∃ a, a ∈ targets1 ∧ sent a b u.
Proof.
  intros Hdone Ht Hu Hk. destruct (Hdone t Ht) as (a & st & Ha & E & Hi & Hgot).
  destruct (grep_task a Ha) as (s & st' & _ & _ & E' & B & H). simplify_eq.
  destruct (all_tuples_data _ _ _ _ _ Ht) as [_ Hd].
  assert (t ∈ tk_log st) as Hlog.
  { assert (tu_ID t ∈ data_ids (tk_log st)) as Hl.
    { destruct (bk_got B t Hgot Hd) as [Hp|(c & Hc)].
      - destruct (bk_new B _ Hp) as [?|?]; [set_solver|done].
      - rewrite (Hi c) in Hc. done. }
    apply list_elem_of_omap in Hl as (t' & Ht' & Heq). destruct (IsEOF t') eqn:Et'; [done|]. injection Heq as Heq.
    destruct (sg_got _ _ _ _ _ H t' (sg_log _ _ _ _ _ H t' Ht')) as [_ HD].
    rewrite <- (all_tuples_identified file ids n content (run_sources R) t' t); [done|by apply HD|done|done]. }
  exists a. split; [done|]. unfold task_sends. rewrite E.
  destruct (sg_complete _ _ _ _ _ H t u b Hlog Hd ltac:(by apply elem_of_emitted) Hk) as [Hs|(c & Hc)].
  - by rewrite (emitted_type t u Ht Hu) in Hs.
  - rewrite (Hi c) in Hc. by apply elem_of_nil in Hc.
Qed.

(** What a sink takes before the first marker is among the greps that are routed
    to it, each at most once. *)
Lemma sink_counted b st :
  b ∈ targets2 → bookkeeping CountOp (op_init CountOp) ∅ st → once CountOp ∅ st →
  sink_ok (λ v, ∃ a, a ∈ targets1 ∧ sent a b v) st →
  NoDup (before_marker (tk_log st)) ∧
  ∀ v, v ∈ before_marker (tk_log st) →
    v ∈ filter (λ u, pick_target (Key u) targets2 = Some b) (omap emit1 all).
Proof.
  intros Hb B O K. split; [apply (NoDup_fmap_1 tu_ID), before_marker_NoDup, (on_log _ _ _ O)|].
  intros v [Hv Hd]%before_marker_elem.
  destruct (sk_got _ _ K v (sk_log _ _ K v Hv) Hd) as (a & Ha & Hs).
  destruct (grep_stage_sends a b v Ha Hs) as (t & Ht & Hu & Hk).
  apply list_elem_of_filter. split; [done|]. apply list_elem_of_omap. by exists t.
Qed.

Lemma routed_occurrences b k :
  occurrences k (filter (λ u, pick_target (Key u) targets2 = Some b) (omap emit1 all)) =
    if decide (pick_target k targets2 = Some b) then line_count matches col file content k else 0.
Proof.
  unfold occurrences. rewrite list_filter_filter. case_decide as Hk.
  - rewrite <- (grep_counts matches col file ids n content k (run_sources R)). unfold occurrences.
    rewrite (list_filter_iff _ (λ u, Key u = k)); [done|]. intros u. split; [by intros [-> _]|].
    intros <-. by split.
  - rewrite filter_none; [done|]. apply Forall_forall. intros u _ [<- H]. done.
Qed.
End run.

Lemma occurrences_le k l1 l2 : l1 ⊆+ l2 → occurrences k l1 <= occurrences k l2.
Proof.
  intros (r & Hr)%submseteq_Permutation. unfold occurrences. rewrite Hr, filter_app, length_app. lia.
Qed.

Lemma occurrences_perm k l1 l2 : l1 ≡ₚ l2 → occurrences k l1 = occurrences k l2.
Proof. intros H. unfold occurrences. by rewrite H. Qed.


(** *** An example: two sources, two grep tasks, two counting tasks *)

Definition demo_lines : string := "1,a" +:+ nl +:+ "2,a" +:+ nl +:+ "3,b" +:+ nl.
Definition has_comma (s : string) : bool := contains_char ","%char s.
Definition demo_targets1 : list string := ["g1:1"; "g2:1"].
Definition demo_targets2 : list string := ["c1:1"; "c2:1"].
Definition demo_fl1 (_ : string) : Flags := mkFlags 10002 "c1:1,c2:1" "" 2 "" "" "stage1-task-0".
Definition demo_fl2 (_ : string) : Flags := mkFlags 10004 "" "out.txt" 2 "" "" "stage2-task-0".
Definition demo_all : list Tuple := all_tuples "f.csv" src_task_id 2 demo_lines.

(** A tuple on connection [c] and the steps until it is acknowledged; two
    connections taking turns. *)
Definition turn (c : nat) (t : Tuple) : list Event := Arrive c t :: replicate 8 (Advance c).

Fixpoint weave (l1 l2 : list Event) : list Event :=
  match l1, l2 with
  | e1 :: l1', e2 :: l2' => e1 :: e2 :: weave l1' l2'
  | l1, l2 => l1 ++ l2
  end.

(** Everything arrives twice, the second time backwards, then a marker. *)
Definition demo_evs1 (a : string) : list Event :=
  let l := filter (λ t, pick_target (Key t) demo_targets1 = Some a) demo_all in
  concat (turn 0 <$> l ++ reverse l ++ [eof "src-task-0-eof"]).

Definition demo_sent (a b : string) : list Tuple :=
  omap (λ e, match e with Sent b' t => if decide (b' = b) then Some t else None | _ => None end)
    (task_sends (GrepOp has_comma 2) good_net (demo_fl1 a) (demo_evs1 a)).

(** The sink serves both grep tasks at the same time; the markers come last. *)
Definition demo_evs2 (b : string) : list Event :=
  weave (concat (turn 0 <$> demo_sent "g1:1" b)) (concat (turn 1 <$> demo_sent "g2:1" b)) ++
    weave (turn 0 (eof "src-task-0-eof")) (turn 1 (eof "src-task-0-eof")).

(** The marker of the first grep task overtakes what the second has to send. *)
Definition early_evs2 (b : string) : list Event :=
  concat (turn 0 <$> demo_sent "g1:1" b) ++ turn 0 (eof "src-task-0-eof") ++
    concat (turn 1 <$> demo_sent "g2:1" b) ++ turn 1 (eof "src-task-0-eof").

Lemma good_net_delivering : delivering good_net.
Proof. split; [done|]. split; [|done]. intros a t. exists 1%nat. split; [lia|done]. Qed.

Lemma arriving_arrivals (D : Tuple → Prop) evs :
  Forall (λ t, Type_ t = "tuple" ∧ (IsEOF t = false → D t)) (arrivals evs) → arriving D evs.
Proof.
  intros H c t Hin. apply (proj1 (Forall_forall _ _) H t). apply list_elem_of_omap. by exists (Arrive c t).
Qed.

Definition is_idle (p : Phase) : bool := match p with Idle => true | _ => false end.

Lemma all_idle_check {op} (st : Task op) :
  forallb (λ e, is_idle e.2) (map_to_list (tk_phases st)) = true → all_idle st.
Proof.
  intros H c. unfold phase. destruct (tk_phases st !! c) as [p|] eqn:E; [|done].
  apply elem_of_map_to_list in E. rewrite forallb_forall in H. specialize (H (c, p)).
  rewrite <- list_elem_of_In in H. specialize (H E). by destruct p.
Qed.

Lemma elem_of_demo_sent a b t :
  t ∈ demo_sent a b ↔ Sent b t ∈ task_sends (GrepOp has_comma 2) good_net (demo_fl1 a) (demo_evs1 a).
Proof.
  unfold demo_sent. rewrite list_elem_of_omap. split.
  - intros (e & He & Hm). destruct e; try done. destruct (decide _); by simplify_eq.
  - intros He. eexists. split; [exact He|]. simpl. by rewrite decide_True.
Qed.

(** What the grep tasks send: the line that [g1] reads twice, and those of [g2]. *)
Definition demo_a1 : Tuple := mkTuple "tuple" "a" (VString "1,a") "src-task-0-tuple-1" false.
Definition demo_a2 : Tuple := mkTuple "tuple" "a" (VString "2,a") "src-task-1-tuple-2" false.
Definition demo_b3 : Tuple := mkTuple "tuple" "b" (VString "3,b") "src-task-0-tuple-3" false.

Lemma demo_sends :
  demo_sent "g1:1" "c1:1" = [] ∧ demo_sent "g2:1" "c1:1" = [demo_b3] ∧
  demo_sent "g1:1" "c2:1" = [demo_a2] ∧ demo_sent "g2:1" "c2:1" = [demo_a1].
Proof. vm_compute. repeat split. Qed.

Lemma demo_run2 evs2 :
  (∀ b, b ∈ demo_targets2 →
    Forall (λ t, Type_ t = "tuple" ∧ (IsEOF t = false → t ∈ demo_sent "g1:1" b ∨ t ∈ demo_sent "g2:1" b))
      (arrivals (evs2 b))) →
  grep_count_run has_comma 2 "f.csv" src_task_id 2 demo_lines good_net
    demo_targets1 demo_targets2 demo_fl1 demo_fl2 demo_evs1 evs2.
Proof.
  intros Harr. split.
  - lia.
  - apply good_net_delivering.
  - done.
  - intros a _. by split.
  - intros b _. by split.
  - assert (Forall (λ k, pick_target k demo_targets2 ≠ None) (line_keys has_comma 2 "f.csv" demo_lines)) as H
      by (apply (bool_decide_unpack _); vm_compute; exact I).
    by rewrite Forall_forall in H.
  - intros a Ha. apply arriving_arrivals.
    assert (Forall (λ a, Forall (λ t, Type_ t = "tuple" ∧
      (IsEOF t = false → t ∈ demo_all ∧ pick_target (Key t) demo_targets1 = Some a)) (arrivals (demo_evs1 a)))
      demo_targets1) as H by (apply (bool_decide_unpack _); vm_compute; exact I).
    by apply (proj1 (Forall_forall _ _) H a).
  - intros b Hb. apply arriving_arrivals. eapply Forall_impl; [by apply Harr|].
    intros t [H1 H2]. split; [done|]. intros He. simpl.
    destruct (H2 He) as [Hs|Hs]; apply elem_of_demo_sent in Hs; [exists "g1:1"|exists "g2:1"];
      (split; [|exact Hs]); [by left|by right; left].
Qed.

Lemma demo_run : grep_count_run has_comma 2 "f.csv" src_task_id 2 demo_lines good_net
  demo_targets1 demo_targets2 demo_fl1 demo_fl2 demo_evs1 demo_evs2.
Proof.
  apply demo_run2. destruct demo_sends as (E1 & E2 & E3 & E4).
  intros b [->|[->|[]%elem_of_nil]%elem_of_cons]%elem_of_cons; unfold demo_evs2; rewrite ?E1, ?E2, ?E3, ?E4;
    apply (bool_decide_unpack _); vm_compute; exact I.
Qed.

Definition took (a : string) (t : Tuple) : bool :=
  match run_task (GrepOp has_comma 2) good_net (demo_fl1 a) (demo_evs1 a) with
  | Some st => forallb (λ e, is_idle e.2) (map_to_list (tk_phases st)) && bool_decide (t ∈ tk_got st)
  | None => false
  end.

Lemma demo_stage_done :
  grep_stage_done has_comma 2 demo_all good_net demo_targets1 demo_fl1 demo_evs1.
Proof.
  assert (forallb (λ t, existsb (λ a, took a t) demo_targets1) demo_all = true) as H by (vm_compute; reflexivity).
  intros t Ht%list_elem_of_In. rewrite forallb_forall in H. specialize (H t Ht).
  apply existsb_exists in H as (a & Ha%list_elem_of_In & Hst). exists a. unfold took in Hst.
  destruct (run_task _ _ _ _) as [st|]; [|done]. exists st. split; [done|]. split; [done|].
  apply andb_true_iff in Hst as [H1 H2]. split; [by apply all_idle_check|by apply bool_decide_eq_true in H2].
Qed.

Lemma demo_no_overlap : ¬ task_overlaps CountOp good_net (demo_fl2 "c2:1") (demo_evs2 "c2:1").
Proof.
  intros (s & _ & Hov). revert Hov. apply one_connection_no_overlap. intros c1 c2 t1 t2 A1 A2 E1 E2 Hi.
  assert (Forall (λ e, match e with
    | Arrive c t => (c = 0%nat ∧ tu_ID t = "src-task-1-tuple-2") ∨ (c = 1%nat ∧ tu_ID t = "src-task-0-tuple-1") ∨ IsEOF t = true
    | _ => True end) (demo_evs2 "c2:1")) as H.
  { unfold demo_evs2. destruct demo_sends as (_ & _ & -> & ->). simpl.
    repeat first [apply Forall_nil_2|apply Forall_cons_2; [tauto|]]. }
  rewrite Forall_forall in H. apply H in A1, A2. simpl in A1, A2.
  destruct A1 as [[-> A1]|[[-> A1]|A1]], A2 as [[-> A2]|[[-> A2]|A2]]; congruence.
Qed.

